(* ===== verification/_CoqProject ===== *)
-Q . S2P
Prelude.v
Words.v
Atomics.v
DList.v
Log.v
LogPrint.v
ThreadNames.v
SlotPool.v
MetaFlag.v
ReadyCache.v
DestroyQueue.v
Jobs.v
Lifecycle.v
Frames.v
Access.v
Completion.v
Wakeup.v
Worker.v
Dependencies.v
Start.v
WorkerPool.v
WorkerTurns.v
SockWord.v
Ring.v
Net.v
SocketHelpers.v
Sockets.v
SockStream.v
SockLife.v
EpollTool.v
EpollLoop.v
SockBounds.v
NetJobs.v
EpollSafe.v
EpollRequest.v
SockReg.v
EpollRun.v
NetSafe.v
NetRun.v
Whole.v
Programs.v
Parallel.v
SocketPrograms.v
Servers.v
ServerRuns.v
