(* ===== verification/Prelude.v ===== *)
(** * schedi: a verification development

    schedi is a library of C functions for jobs that a pool of worker threads runs: jobs
    live in a fixed array of 256 slots, become READY when everything they wait for is
    there (their own READYBASIC flag, completed jobs, ready sockets, returned epoll
    requests), wait in a lock-free cache for a worker, and are destroyed through a queue.
    One more thread polls two epoll instances for the sockets and requests.  This library
    models all of src/src/{list,log,worker,epoll,jobs}.c with the headers under
    src/include/schedi, and the programs of src/examples that run on them, and proves what
    its parts promise.

    ** How the program is modelled

    A C function is a computation [M S A := S -> outcome S A] on an explicit state; the
    outcome is [Done], [Undef] (undefined behaviour: index out of range, use after free,
    unlocking a free mutex, ...) or [Stuck] (it never returns).  A theorem that a function
    returns says [Done]; [wp] is total and [wlp] partial correctness (without [Undef]).
    Machine words are [Z] with their wrap-around written out (Words.v).  Every
    compare-and-swap loop is the body it retries: [attempt] tells what one turn decides,
    [rmw] is the atomic action it denotes, and [cas_loop_atomic] (Atomics.v) shows that the
    loop is that action whatever other threads write meanwhile.  Functions that make
    several atomic steps are modelled as run without interference, apart from the places
    where the code sleeps or spins: there what other threads do is a parameter
    ([others], [meanwhile]).  The word-level and wake-up protocols are also step relations
    over any number of threads (MetaFlag.v, Wakeup.v, SockWord.v).  Calls that only log
    ([schedi_flog], [schedi_ferr], [perror]) are left out where they occur; the log itself
    is Log.v.

    The build options LOCKLESS_READYJOB and SCHEDI_EXT_TIMEOUT are the class [BuildConfig];
    the address of the job array, which a label computation uses, is [JobAddress].  Code
    that is not the library's is a parameter: job functions and the thread library in
    Worker.v and Start.v, the kernel's calls as the class [Kernel] with the documented
    behaviour the code relies on as [KernelLaws] (Net.v), the calls of the epoll thread as
    [EventKernel] (EpollLoop.v) with [EventLaws] (EpollRun.v), and the socket calls of the
    examples as [SocketCalls] with [SocketLaws] (SocketHelpers.v).  Scripted instances of
    these classes, at the ends of the files and in ServerRuns.v, make the witnesses run.

    ** The files

    - Prelude: outcomes, the monad, [wp]/[wlp], mutexes, shared tactics.  Words: bit fields.
      Atomics: compare-and-swap loops.
    - DList: list.c.  Log, ThreadNames: log.c.  LogPrint: the printer logprinter.h.
    - SlotPool: [section_claim], [section_release] of jobs.c; the class [SlotAllocator] is
      what they promise, and [pool_never_double_allocates] is proved from it.
    - MetaFlag: the bodies of all operations on [meta_flag] (jobs.c 570-830); [view] is its
      abstract state, [op_guard]/[op_effect]/[op_refusal] the specification,
      [meta_op_refines] the refinement (for the loops [meta_op_loop_refines]),
      [access_protocol_safe] the protocol.
    - ReadyCache: the cache of READY jobs.  DestroyQueue: the packed ring, refined to a
      first-in first-out queue for uses short of exhaustion.
    - Jobs: the whole scheduler state [sys] and the operations of jobs.c on jobs.
      Lifecycle: the invariant [sys_ok], which every operation keeps, and the behaviour of
      create, update, pick, destroy and queue check.  Start: [schedi_job_init].  Frames: the
      parts of the state an operation leaves alone or does not look at.
    - Access: updating a job from outside.  Completion, Wakeup: indicators, and the sleeping
      and waking of worker.c and jobs.c as step relations.
    - Worker: worker.c.  Dependencies: jobs that wait for jobs, from
      [schedi_job_tool_job] to the completion that makes the waiting job READY.
    - WorkerPool: the invariant [orderly] - every job is in one place: cached, held by one
      worker, queued for destruction, free or at rest - and that every call a worker, a job
      or a client makes keeps it.  WorkerTurns: [worker_routine] cut at its calls and
      its reads of [ctx->shutdown], and the interleavings of any number of workers with clients.
    - SockWord: the bodies of all operations on a socket's [htc], in both layouts, and READY
      as jobs.h documents it ([spec_ready]).  Ring:
      ring buffers as byte queues.
    - Net: heap, kernel, and registering descriptors (epoll.c 25-100).  Sockets: the
      operations of jobs.c on epoll sockets.  SockStream: bytes are neither lost nor
      reordered.  SockBounds: nor copied past the end of a buffer, whatever happens to the socket.
      SockLife: readiness reaches the job, the last release frees.
      SockReg: creation, registration and renewal after a timeout.
    - EpollTool: [schedi_job_tool_epoll] and the return of a request.  EpollLoop: dispatch
      and loop of epoll.c, whose [poll] blocks until the kernel has something to return.
      EpollSafe: what registered data pointers point to, and that a batch never touches freed
      memory.  EpollRequest: a request and its event together.  EpollRun: drains, loop, start
      and stop of the thread.
    - NetSafe: what the job and the epoll thread, the two owners of a socket, hold of it, and
      that handling one event keeps it.  NetRun: the same for every call of a client, and the
      machine [net_steps] in which clients and the epoll thread take turns in any order;
      [obeys] says which calls a client may make.
    - NetJobs: whatever four calls of the scheduler keep, the whole network code keeps
      (the class [kept_by_network]).  Whole: the machine [system] of workers, their jobs'
      calls, the epoll thread and clients together, with the rules [system_obeys].
    - Programs: what a client of the library is ([prog]), with initialization.c, avjobs.c
      and ajob.c.
      Parallel: aparalleljob.c and mono.c, two ways to one product.  SocketHelpers:
      create_server.h, accept_client.h and the client of epollsocket_test.c.
      SocketPrograms: the job functions of epollsocket_test.c, epollsocket.c and
      onetimesocket.c.  Servers: their [main]s.  ServerRuns: runs of these on a small
      operating system.

    ** What the theorems show

    - Scheduler: [scheduler_invariant], [schedi_job_create_spec],
      [schedi_job_meta_flag_cas_update_spec], [schedi_job_pickready_spec],
      [schedi_job_destroy_spec], [destroy_then_check], [worker_runs_job]: every operation
      returns and keeps [sys_ok], and does what it should on every branch;
      [depend_on_spec] and [dependencies_wake_job] compose them.
    - Concurrency: [workers_do_not_interfere] (any interleaving of workers and clients),
      [access_protocol_safe] and [meta_op_loop_refines] for one word.
    - The whole: [system_safe] - workers, jobs, epoll thread and clients, in any order -
      with [system_moves_end], a job that sleeps until its socket is readable.
    - Components: [dq_refines_fifo], [cache_conserves_jobs], [tick_reaches_every_job],
      [pool_never_double_allocates], [no_lost_wakeup],
      [waiters_drain], and the theorems on list and log
      with [LogPrint_spec].
    - Sockets: [sock_op_refines], [readiness_as_documented], [stream_integrity],
      [transfers_stay_in_bounds], [schedi_job_epollsocket_read_spec],
      [schedi_job_epollsocket_write_spec], [ready_guarantee], [readiness_reaches_job],
      [done_frees_once],
      [schedi_job_tool_epollsocket_spec], [schedi_job_epollsocket_epollagain_spec],
      [timeout_round_trip].
    - Epoll: [schedi_epoll_add_spec], [schedi_job_tool_epoll_spec],
      [request_event_spec], [request_round_trip],
      [dispatch_safe], [epoll_loop_safe], [stop_ends_loop],
      [network_memory_safe] (no order of calls and events that clients may cause uses freed
      memory).
    - Examples: [parallel_matches_mono] (in any order the jobs compute what the loop does),
      [ajob_terminates], [initialization_main_spec], [echo_func_safe], [echo_returns_data],
      [reader_func_safe], [create_server_spec], [client_func_verdict]; and three mains run to
      their end: [echo_server_passes], [reader_server_ends], [onetime_server_ends].
    - What does not hold: [schedi_job_destroy_now_spec] (the test is inverted),
      [destroyed_ready_job_is_picked], [destroy_underflows_access], [dq_full_is_stuck],
      [dq_super_push_can_fail], [dead_overrides_epollnt], [full_log_order],
      [unmark_absent_returns_zero], [readiness_access_ban_lost],
      [timed_out_read_corrupts], [same_batch_use_after_free], [restarted_loop_exits],
      [completion_wait_spurious], [second_init_overflows], [thread_21_out_of_bounds],
      [reused_descriptor_use_after_free], [reused_slot_keeps_indicator]; and of the
      examples [shared_element_is_multiplied_twice], [echo_null_socket],
      [onetime_server_failure_suspends], [failed_accept_waits_forever].

    ** Assumptions, fuel and limits

    [scheduler_invariant] allows destroying a job that is in use and not queued already;
    its operations run one after the other.  Interleavings are covered at the level of one
    word ([access_protocol_safe], [meta_op_loop_refines]), of the sleeping protocols, and of
    the workers' calls of the library ([workers_do_not_interfere]: each call is one step, the
    critical section of the second look too; jobs and clients do not mark a running job
    READYBASIC or destroy one; between the single steps of two calls more can go wrong, as
    [destroy_underflows_access] shows).  [schedi_job_pickready] has fuel for one turn more
    than the cache has slots, and [schedi_job_pickready_spec] shows that this is enough.
    The loop of the epoll thread and its drains have no bound in the program: their fuel
    and the list [meanwhile] bound how much of a run is looked at, and the theorems hold
    for all of them; a [poll] that nobody ends is [Stuck], and [stop_ends_loop] shows that the
    request of [schedi_epoll_thread_deinit] ends it ([flag_alone_blocks]: the flag alone does
    not).  [epoll_loop_safe] is for builds without socket timeouts:
    with them one batch can hold two events of one socket, [dispatch_safe] excludes that
    and [same_batch_use_after_free] shows what happens then.  [network_memory_safe] is for
    such builds too; in it each call of a client and each handled event is one step, the
    thread polls when the last batch is handled, memory does not run out, and clients obey
    [allowed]: they use sockets they hold, and register descriptors that are neither
    registered already nor those of a held socket - [reused_descriptor_use_after_free] shows
    why.  [system_safe] has the same conditions ([system_obeys]), and job functions, clients
    and the threads that run while a request waits make orderly calls; a piece of a worker, a
    call and a handled event are one step each, the function of a job is any sequence of calls, and
    every step is shown to return but a handled event, which may wait for access.  In
    Servers.v a [main] runs alone until it sleeps or waits, the others' turns then are a
    list, and a destructor runs at the end of the piece that tears its job down.
    [stream_integrity] is for a socket that has not timed out.

    ** Not modelled

    [schedi_epoll_thread_routine] only logs around [schedi_epoll_loop].  Of the examples:
    printing, sleeping, measuring time, and the scripts that build and run them.  Static
    initialisers are the initial states ([sys_static], [wsys_static], [dq_zero],
    [pool_zero]).  The memory model is sequentially consistent: the explicit orders of the
    atomics are ignored.
*)

From Stdlib Require Export Lia ZArith Btauto.
From stdpp Require Export base numbers option gmap gmultiset list.

(** ** Outcomes and the state monad

    A C function of the program is a computation on an explicit state.  It
    either returns ([Done]), runs into behaviour C leaves undefined ([Undef]: an
    index outside an array, a dereference of NULL or of freed memory, a signed
    overflow), or does not return ([Stuck]: it waits for a mutex that nobody
    will release, or spins). *)

Inductive outcome (S A : Type) : Type :=
  | Done (a : A) (s : S)
  | Undef
  | Stuck.
Arguments Done {_ _} _ _.
Arguments Undef {_ _}.
Arguments Stuck {_ _}.

Definition M (S A : Type) : Type := S → outcome S A.

#[export] Instance M_ret S : MRet (M S) := λ A a s, Done a s.

#[export] Instance M_bind S : MBind (M S) := λ A B k m s,
  match m s with
  | Done a s' => k a s'
  | Undef => Undef
  | Stuck => Stuck
  end.

#[export] Instance M_fmap S : FMap (M S) := λ A B f m s,
  match m s with
  | Done a s' => Done (f a) s'
  | Undef => Undef
  | Stuck => Stuck
  end.

Section primitives.
Context {S : Type}.

Definition gets {A} (f : S → A) : M S A := λ s, Done (f s) s.
Definition modify (f : S → S) : M S unit := λ s, Done () (f s).
Definition undef {A} : M S A := λ _, Undef.
Definition stuck {A} : M S A := λ _, Stuck.

(** A partial read: [None] is undefined behaviour. *)
Definition reads {A} (f : S → option A) : M S A := λ s,
  match f s with Some a => Done a s | None => Undef end.

(** A partial update: [None] is undefined behaviour. *)
Definition updates (f : S → option S) : M S unit := λ s,
  match f s with Some s' => Done () s' | None => Undef end.

Definition when (b : bool) (m : M S unit) : M S unit :=
  if b then m else mret ().
End primitives.

(** [zoom get put m] runs [m] on the part of the state that [get] selects. *)
Definition zoom {S T A : Type} (get : S → T) (put : T → S → S)
    (m : M T A) : M S A := λ s,
  match m (get s) with
  | Done a t => Done a (put t s)
  | Undef => Undef
  | Stuck => Stuck
  end.

(** ** Total-correctness weakest preconditions

    [wp m Q s]: [m] started in [s] returns, meets no undefined behaviour, and
    its result and final state satisfy [Q]. *)

Definition wp {S A : Type} (m : M S A) (Q : A → S → Prop) (s : S) : Prop :=
  match m s with
  | Done a s' => Q a s'
  | Undef | Stuck => False
  end.

Section wp.
Context {S : Type}.

Lemma wp_ret {A} (a : A) (Q : A → S → Prop) s :
  wp (mret a) Q s ↔ Q a s.
Proof. done. Qed.

Lemma wp_bind {A B} (m : M S A) (k : A → M S B) (Q : B → S → Prop) s :
  wp (m ≫= k) Q s ↔ wp m (λ a, wp (k a) Q) s.
Proof. unfold wp, mbind, M_bind. by destruct (m s). Qed.

Lemma wp_gets {A} (f : S → A) (Q : A → S → Prop) s :
  wp (gets f) Q s ↔ Q (f s) s.
Proof. done. Qed.

Lemma wp_modify (f : S → S) (Q : unit → S → Prop) s :
  wp (modify f) Q s ↔ Q () (f s).
Proof. done. Qed.

Lemma wp_reads {A} (f : S → option A) (Q : A → S → Prop) s :
  wp (reads f) Q s ↔ ∃ a, f s = Some a ∧ Q a s.
Proof.
  unfold wp, reads. destruct (f s) as [a|].
  - split; [by eauto|]. by intros (? & [= ->] & ?).
  - split; [done|]. by intros (? & ? & ?).
Qed.

Lemma wp_updates (f : S → option S) (Q : unit → S → Prop) s :
  wp (updates f) Q s ↔ ∃ s', f s = Some s' ∧ Q () s'.
Proof.
  unfold wp, updates. destruct (f s) as [s'|].
  - split; [by eauto|]. by intros (? & [= ->] & ?).
  - split; [done|]. by intros (? & ? & ?).
Qed.

Lemma wp_when b (m : M S unit) (Q : unit → S → Prop) s :
  wp (when b m) Q s ↔ if b then wp m Q s else Q () s.
Proof. by destruct b. Qed.

Lemma wp_mono {A} (m : M S A) (Q Q' : A → S → Prop) s :
  wp m Q s → (∀ a s', Q a s' → Q' a s') → wp m Q' s.
Proof. unfold wp. destruct (m s); auto. Qed.

Lemma wp_done {A} (m : M S A) (Q : A → S → Prop) s :
  wp m Q s ↔ ∃ a s', m s = Done a s' ∧ Q a s'.
Proof.
  unfold wp. destruct (m s) as [a s'| |].
  - split; [by eauto|]. by intros (? & ? & [= -> ->] & ?).
  - split; [done|]. by intros (? & ? & ? & ?).
  - split; [done|]. by intros (? & ? & ? & ?).
Qed.

Lemma wp_run {A} (m : M S A) (Q : A → S → Prop) s a s' :
  m s = Done a s' → Q a s' → wp m Q s.
Proof. unfold wp. by intros ->. Qed.
End wp.

Lemma wp_zoom {S T A} (get : S → T) (put : T → S → S) (m : M T A)
    (Q : A → S → Prop) s :
  wp (zoom get put m) Q s ↔ wp m (λ a t, Q a (put t s)) (get s).
Proof. unfold wp, zoom. by destruct (m (get s)). Qed.

Create Rewrite HintDb wp.
#[export] Hint Rewrite @wp_ret @wp_bind @wp_gets @wp_modify @wp_when
  @wp_zoom : wp.

(** [wp_simpl] pushes [wp] through the structure of a computation. *)
Ltac wp_simpl := repeat (progress (autorewrite with wp; cbn beta)).

(** ** Running a computation step by step *)

Lemma bind_done {S A B} (m : M S A) (k : A → M S B) s a s' :
  m s = Done a s' → (m ≫= k) s = k a s'.
Proof. intros E. unfold mbind, M_bind. by rewrite E. Qed.

(** [bind_by t] runs the first action of a sequence; [t] proves its outcome. *)
Tactic Notation "bind_by" tactic3(t) :=
  cbn beta iota; erewrite bind_done by t; cbn beta iota.

Lemma zoom_done {S T A} (get : S → T) (put : T → S → S) (m : M T A) s a t :
  m (get s) = Done a t → zoom get put m s = Done a (put t s).
Proof. intros E. unfold zoom. by rewrite E. Qed.

(** ** Partial correctness

    [wlp m Q s]: [m] started in [s] meets no undefined behaviour and, if it returns, its
    result and final state satisfy [Q].  It is for computations that may wait for ever on
    what other threads do. *)

Definition wlp {S A : Type} (m : M S A) (Q : A → S → Prop) (s : S) : Prop :=
  match m s with Done a s' => Q a s' | Stuck => True | Undef => False end.

Lemma wlp_bind {S A B} (m : M S A) (k : A → M S B) (P : A → S → Prop) Q s :
  wlp m P s → (∀ a s', P a s' → wlp (k a) Q s') → wlp (m ≫= k) Q s.
Proof.
  unfold wlp, mbind, M_bind. intros Hm Hk. destruct (m s); [by apply Hk|done|done].
Qed.
Lemma wlp_done {S A} (m : M S A) (Q : A → S → Prop) s a s' :
  m s = Done a s' → Q a s' → wlp m Q s.
Proof. unfold wlp. by intros ->. Qed.
Lemma wlp_step {S A B} (m : M S A) (k : A → M S B) Q s a s' :
  m s = Done a s' → wlp (k a) Q s' → wlp (m ≫= k) Q s.
Proof. unfold wlp. intros E. by rewrite (bind_done _ _ _ _ _ E). Qed.
Lemma wlp_mono {S A} (m : M S A) (P Q : A → S → Prop) s :
  wlp m P s → (∀ a s', P a s' → Q a s') → wlp m Q s.
Proof. unfold wlp. destruct (m s); auto. Qed.

Lemma wlp_when {S} b (m : M S unit) (Q : unit → S → Prop) s :
  (b = true → wlp m Q s) → (b = false → Q () s) → wlp (when b m) Q s.
Proof. destruct b; cbn; auto. Qed.

(** [wlp_by t] runs the first action of a sequence; [t] proves its outcome. *)
Tactic Notation "wlp_by" tactic3(t) :=
  cbn beta iota; eapply wlp_step; [t|cbn beta iota].

(** ** Outcomes of concrete runs

    The parts of an outcome, for evaluating a run on a concrete state. *)

Definition result_of {S A : Type} (o : outcome S A) : option A :=
  match o with Done a _ => Some a | _ => None end.
Definition final_of {S A : Type} (s : S) (o : outcome S A) : S :=
  match o with Done _ s' => s' | _ => s end.
Definition is_undefined {S A : Type} (o : outcome S A) : bool :=
  match o with Undef => true | _ => false end.

Lemma run_final {S A} (m : M S A) s a :
  result_of (m s) = Some a → m s = Done a (final_of s (m s)).
Proof. destruct (m s); [by intros [= ->]|done|done]. Qed.
Lemma run_undefined {S A} (o : outcome S A) : is_undefined o = true → o = Undef.
Proof. by destruct o. Qed.

(** ** Mutexes

    A default (non-recursive) POSIX mutex of a sequential run: locking it while
    it is held never returns; unlocking it while it is free is undefined. *)

Section mutex.
Context {S : Type} (get : S → bool) (put : bool → S → S).

Definition pthread_mutex_lock : M S unit := λ s,
  if get s then Stuck else Done () (put true s).

Definition pthread_mutex_unlock : M S unit := λ s,
  if get s then Done () (put false s) else Undef.
End mutex.

(** ** Lists *)

Section lists.
Context {A : Type}.

(** The elements a list of optional entries holds, in order. *)
Definition somes (l : list (option A)) : list A := omap id l.

Lemma somes_app l k : somes (l ++ k) = somes l ++ somes k.
Proof. apply omap_app. Qed.

Lemma list_split_at (l : list A) i x :
  l !! i = Some x → l = take i l ++ x :: drop (S i) l.
Proof. intros H. by rewrite take_drop_middle. Qed.

Lemma insert_split (l : list A) i x y :
  l !! i = Some x → <[i := y]> l = take i l ++ y :: drop (S i) l.
Proof.
  intros H. apply lookup_lt_Some in H. by apply insert_take_drop.
Qed.
End lists.

Section somes.
Context {A : Type}.
Implicit Types l : list (option A).

Lemma somes_Some a l : somes (Some a :: l) = a :: somes l.
Proof. done. Qed.

Lemma somes_None l : somes (None :: l) = somes l.
Proof. done. Qed.

Lemma somes_insert_Some l i a :
  l !! i = Some None →
  somes (<[i := Some a]> l) ≡ₚ a :: somes l.
Proof.
  intros H. rewrite (insert_split _ _ _ _ H).
  rewrite (list_split_at _ _ _ H) at 3.
  rewrite !somes_app, somes_Some, somes_None.
  symmetry. apply Permutation_middle.
Qed.

Lemma somes_insert_None l i a :
  l !! i = Some (Some a) →
  a :: somes (<[i := None]> l) ≡ₚ somes l.
Proof.
  intros H. rewrite (insert_split _ _ _ _ H).
  rewrite (list_split_at _ _ _ H) at 3.
  rewrite !somes_app, somes_Some, somes_None.
  apply Permutation_middle.
Qed.

Lemma elem_of_somes l a : a ∈ somes l ↔ Some a ∈ l.
Proof.
  unfold somes. rewrite list_elem_of_omap. unfold id. split.
  - intros (x & Hx & ->). done.
  - intros H. by exists (Some a).
Qed.

Lemma somes_nil_iff l : somes l = [] ↔ ∀ i, i < length l → l !! i = Some None.
Proof.
  split.
  - intros H i Hi. destruct (lookup_lt_is_Some_2 l i Hi) as [[a|] Ha]; [|done].
    apply list_elem_of_lookup_2, elem_of_somes in Ha.
    rewrite H in Ha. by apply elem_of_nil in Ha.
  - intros H. destruct (somes l) as [|a k] eqn:E; [done|].
    assert (a ∈ somes l) as Ha by (rewrite E; left).
    apply elem_of_somes, list_elem_of_lookup in Ha as [i Hi].
    pose proof (lookup_lt_Some _ _ _ Hi). rewrite H in Hi by done. done.
Qed.

Lemma length_somes_le l : length (somes l) ≤ length l.
Proof.
  induction l as [|[a|] l IH]; [done| |];
    rewrite ?somes_Some, ?somes_None; cbn; lia.
Qed.

Lemma somes_app_full l i :
  (∀ j, j < i → ∃ a, l !! j = Some (Some a)) → i ≤ length (somes l).
Proof.
  revert i. induction l as [|o l IH]; intros i H.
  - destruct i; [done|]. destruct (H 0) as [a Ha]; [lia|done].
  - destruct i; [lia|]. destruct (H 0) as [a Ha]; [lia|].
    cbn in Ha. simplify_eq. rewrite somes_Some. cbn.
    apply le_n_S, IH. intros j Hj. apply (H (S j)). lia.
Qed.
End somes.

(** The interleavings of two sequences. *)
Inductive merge {A} : list A → list A → list A → Prop :=
  | merge_nil : merge [] [] []
  | merge_left x l1 l2 l : merge l1 l2 l → merge (x :: l1) l2 (x :: l)
  | merge_right x l1 l2 l : merge l1 l2 l → merge l1 (x :: l2) (x :: l).

(** ** Finite maps *)

Lemma alter_to_insert `{Countable K} {A} (f : A → A) (m : gmap K A) k a :
  m !! k = Some a → alter f k m = <[k := f a]> m.
Proof.
  intros Hk. apply map_eq. intros i. rewrite lookup_alter, lookup_insert.
  case_decide; [|done]. subst. by rewrite Hk.
Qed.
