(* ===== verification/Words.v ===== *)
(** * Machine words and packed bit fields

    The program packs several counters and flags into one atomic word
    ([meta_flag] of a job, [htc] of the destroy queue and of a socket,
    [job_count] of the ready cache).  A word of [w] bits is a [Z] in
    [0, 2^w); this file holds the wrap-around of C's conversions, the generic
    read ([field_get]) and write ([field_put]) of a bit field, their laws, and
    the tactic [bits] that decides equations between bit patterns. *)

From S2P Require Export Prelude.

Local Open Scope Z_scope.

(** ** Conversions *)

Definition u16 (x : Z) : Z := x mod 2 ^ 16.
Definition u32 (x : Z) : Z := x mod 2 ^ 32.
Definition u64 (x : Z) : Z := x mod 2 ^ 64.

(** Conversion of a 32-bit pattern to [int]. *)
Definition s32 (x : Z) : Z :=
  let y := u32 x in if y <? 2 ^ 31 then y else y - 2 ^ 32.

Lemma u32_range x : 0 <= u32 x < 2 ^ 32.
Proof. by apply Z.mod_pos_bound. Qed.
Lemma u64_range x : 0 <= u64 x < 2 ^ 64.
Proof. by apply Z.mod_pos_bound. Qed.
Lemma u16_small x : 0 <= x < 2 ^ 16 → u16 x = x.
Proof. apply Z.mod_small. Qed.
Lemma u32_small x : 0 <= x < 2 ^ 32 → u32 x = x.
Proof. apply Z.mod_small. Qed.
Lemma u64_small x : 0 <= x < 2 ^ 64 → u64 x = x.
Proof. apply Z.mod_small. Qed.
Lemma s32_small x : 0 <= x < 2 ^ 31 → s32 x = x.
Proof.
  intros H. unfold s32. rewrite u32_small by lia. by case_match; lia.
Qed.

(** The result of arithmetic on [int]; leaving the type is undefined. *)
Definition int_math {S} (x : Z) : M S Z :=
  if (- 2 ^ 31 <=? x) && (x <? 2 ^ 31) then mret x else undef.

Lemma int_math_run {S} x (s : S) : - 2 ^ 31 <= x < 2 ^ 31 → int_math x s = Done x s.
Proof.
  intros Hx. unfold int_math. by replace ((- 2 ^ 31 <=? x) && (x <? 2 ^ 31)) with true by lia.
Qed.

(** ** Bit fields *)

(** [n] bits of [w] from bit [k] up. *)
Definition field_get (w k n : Z) : Z := Z.land (Z.shiftr w k) (Z.ones n).

(** [w] with [v] written to its [n] bits from bit [k] up. *)
Definition field_put (w k n v : Z) : Z :=
  Z.lor (Z.shiftl v k) (Z.land w (Z.lnot (Z.shiftl (Z.ones n) k))).

(** [w] seen as a [bool]: has it a bit of [f]? *)
Definition has (w f : Z) : bool := negb (Z.land w f =? 0).

Definition flag_if (b : bool) (f : Z) : Z := if b then f else 0.

Lemma testbit_small w n i : 0 <= w < 2 ^ n → n <= i → Z.testbit w i = false.
Proof.
  intros Hw Hi. destruct (Z.eq_dec w 0) as [->|]; [apply Z.bits_0|].
  apply Z.bits_above_log2; [lia|].
  apply Z.lt_le_trans with n; [|done]. apply Z.log2_lt_pow2; lia.
Qed.

Lemma testbit_ones n i : 0 <= n → 0 <= i → Z.testbit (Z.ones n) i = (i <? n).
Proof.
  intros Hn Hi. destruct (Z.ltb_spec i n).
  - by apply Z.ones_spec_low.
  - by apply Z.ones_spec_high.
Qed.

Lemma bits_bound w n : 0 <= n → 0 <= w →
  (∀ i, n <= i → Z.testbit w i = false) → w < 2 ^ n.
Proof.
  intros Hn Hw H. destruct (Z.eq_dec w 0) as [->|]; [by apply Z.pow_pos_nonneg|].
  apply Z.log2_lt_pow2; [lia|]. destruct (Z.lt_ge_cases (Z.log2 w) n); [done|].
  exfalso. assert (Z.testbit w (Z.log2 w) = true) as Hb by (apply Z.bit_log2; lia).
  rewrite H in Hb by done. done.
Qed.

Section fields.
Variables w k n : Z.
Hypotheses (Hk : 0 <= k) (Hn : 0 <= n).

Lemma testbit_field_get i :
  0 <= i → Z.testbit (field_get w k n) i = (i <? n) && Z.testbit w (i + k).
Proof.
  intros Hi. unfold field_get.
  rewrite Z.land_spec, Z.shiftr_spec, testbit_ones by done.
  apply andb_comm.
Qed.

Lemma testbit_field_put v i : 0 <= i →
  Z.testbit (field_put w k n v) i =
    ((k <=? i) && Z.testbit v (i - k)) ||
    (Z.testbit w i && negb ((k <=? i) && (i <? k + n))).
Proof.
  intros Hi. unfold field_put.
  rewrite Z.lor_spec, Z.land_spec, Z.lnot_spec, !Z.shiftl_spec by done.
  destruct (Z.leb_spec k i); cbn [andb].
  - rewrite testbit_ones by lia.
    replace (i - k <? n) with (i <? k + n) by
      (destruct (Z.ltb_spec (i - k) n), (Z.ltb_spec i (k + n)); lia || done).
    done.
  - rewrite (Z.testbit_neg_r v), (Z.testbit_neg_r (Z.ones n)) by lia.
    cbn. btauto.
Qed.

Lemma field_get_range : 0 <= field_get w k n < 2 ^ n.
Proof.
  unfold field_get. rewrite Z.land_ones by done.
  apply Z.mod_pos_bound, Z.pow_pos_nonneg; lia.
Qed.

Lemma field_get_put_same v :
  0 <= v < 2 ^ n → field_get (field_put w k n v) k n = v.
Proof using Hk Hn.
  intros Hv. apply Z.bits_inj'. intros i Hi. unfold field_get.
  rewrite Z.land_spec, Z.shiftr_spec, testbit_ones by done.
  rewrite testbit_field_put by lia.
  destruct (Z.ltb_spec i n).
  - destruct (Z.leb_spec k (i + k)); [|lia].
    destruct (Z.ltb_spec (i + k) (k + n)); [|lia].
    replace (i + k - k) with i by lia. cbn. btauto.
  - rewrite andb_false_r. symmetry. by eapply testbit_small.
Qed.

Lemma field_get_put_other v k' n' :
  0 <= v < 2 ^ n → 0 <= k' → 0 <= n' → k' + n' <= k ∨ k + n <= k' →
  field_get (field_put w k n v) k' n' = field_get w k' n'.
Proof using Hk Hn.
  intros Hv Hk' Hn' Hd. apply Z.bits_inj'. intros i Hi. unfold field_get.
  rewrite !Z.land_spec, !Z.shiftr_spec, testbit_ones by done.
  rewrite testbit_field_put by lia.
  destruct (Z.ltb_spec i n'); [|by rewrite !andb_false_r].
  rewrite !andb_true_r. destruct Hd.
  - destruct (Z.leb_spec k (i + k')); [lia|]. cbn. btauto.
  - destruct (Z.leb_spec k (i + k')); [|lia].
    destruct (Z.ltb_spec (i + k') (k + n)); [lia|]. cbn.
    rewrite (testbit_small v n) by lia. btauto.
Qed.

Lemma testbit_field_put_other v i :
  0 <= v < 2 ^ n → 0 <= i → i < k ∨ k + n <= i →
  Z.testbit (field_put w k n v) i = Z.testbit w i.
Proof using Hk Hn.
  intros Hv Hi Hd. rewrite testbit_field_put by done.
  destruct Hd; destruct (Z.leb_spec k i); try lia.
  - cbn. btauto.
  - destruct (Z.ltb_spec i (k + n)); [lia|]. cbn.
    rewrite (testbit_small v n) by lia. btauto.
Qed.
End fields.

Lemma lor_range n a b :
  0 <= n → 0 <= a < 2 ^ n → 0 <= b < 2 ^ n → 0 <= Z.lor a b < 2 ^ n.
Proof.
  intros Hn Ha Hb. assert (0 <= Z.lor a b) by (apply Z.lor_nonneg; lia).
  split; [done|]. apply bits_bound; [done..|]. intros i Hi.
  by rewrite Z.lor_spec, !(testbit_small _ n) by done.
Qed.

Lemma land_range n a b : 0 <= n → 0 <= a < 2 ^ n → 0 <= Z.land a b < 2 ^ n.
Proof.
  intros Hn Ha. assert (0 <= Z.land a b) by (apply Z.land_nonneg; lia).
  split; [done|]. apply bits_bound; [done..|]. intros i Hi.
  by rewrite Z.land_spec, (testbit_small _ n) by done.
Qed.

Lemma shiftl_range m n v :
  0 <= m → 0 <= n → 0 <= v < 2 ^ n → 0 <= Z.shiftl v m < 2 ^ (m + n).
Proof.
  intros Hm Hn Hv. rewrite Z.shiftl_mul_pow2 by done.
  rewrite Z.pow_add_r by done. assert (0 < 2 ^ m) by by apply Z.pow_pos_nonneg.
  nia.
Qed.

Lemma field_put_range m w k n v :
  0 <= k → 0 <= n → k + n <= m → 0 <= w < 2 ^ m → 0 <= v < 2 ^ n →
  0 <= field_put w k n v < 2 ^ m.
Proof.
  intros Hk Hn Hm Hw Hv. unfold field_put.
  apply lor_range; [lia| |apply land_range; lia].
  pose proof (shiftl_range k n v ltac:(lia) ltac:(lia) ltac:(lia)).
  pose proof (Z.pow_le_mono_r 2 (k + n) m). lia.
Qed.

Lemma flag_if_range b f n : 0 <= f < 2 ^ n → 0 <= flag_if b f < 2 ^ n.
Proof. destruct b; cbn; lia. Qed.

(** A one-bit mask tests one bit. *)
Lemma has_bit w i : 0 <= i → has w (2 ^ i) = Z.testbit w i.
Proof.
  intros Hi. unfold has. destruct (Z.testbit w i) eqn:E.
  - destruct (Z.eqb_spec (Z.land w (2 ^ i)) 0) as [Hz|]; [|done].
    apply (f_equal (λ x, Z.testbit x i)) in Hz.
    rewrite Z.land_spec, E, Z.pow2_bits_true, Z.bits_0 in Hz by done. done.
  - destruct (Z.eqb_spec (Z.land w (2 ^ i)) 0) as [Hz|Hz]; [done|].
    destruct Hz. apply Z.bits_inj'. intros j Hj.
    rewrite Z.land_spec, Z.bits_0. destruct (Z.eq_dec i j) as [->|].
    + by rewrite E.
    + rewrite Z.pow2_bits_false by done. btauto.
Qed.

Lemma has_0_l f : has 0 f = false.
Proof. done. Qed.

Lemma has_spec w f : has w f = true ↔ Z.land w f ≠ 0.
Proof. unfold has. rewrite negb_true_iff. apply Z.eqb_neq. Qed.

Lemma has_lor w f g : has w (Z.lor f g) = has w f || has w g.
Proof.
  apply eq_true_iff_eq. rewrite orb_true_iff, !has_spec, Z.land_lor_distr_r.
  rewrite Z.lor_eq_0_iff. destruct (Z.eq_dec (Z.land w f) 0); tauto.
Qed.

(** A mask is covered by a word when all its bits are set there. *)
Lemma land_covers w m :
  Z.land w m = m ↔ ∀ i, 0 <= i → Z.testbit m i = true → Z.testbit w i = true.
Proof.
  split.
  - intros E i Hi Hm. rewrite <-E, Z.land_spec in Hm. by apply andb_true_iff in Hm as [].
  - intros H. apply Z.bits_inj'. intros i Hi. rewrite Z.land_spec.
    specialize (H i Hi). destruct (Z.testbit m i); [by rewrite H|by rewrite andb_false_r].
Qed.

Lemma land_covers_bit w k :
  0 <= k → (∀ i, 0 <= i → Z.testbit (2 ^ k) i = true → Z.testbit w i = true) ↔
           Z.testbit w k = true.
Proof.
  intros Hk. split.
  - intros H. apply H; [done|]. by apply Z.pow2_bits_true.
  - intros H i Hi. rewrite Z.pow2_bits_eqb by done. by intros ->%Z.eqb_eq.
Qed.

Lemma land_covers_lor w m m' :
  Z.land w (Z.lor m m') = Z.lor m m' ↔ Z.land w m = m ∧ Z.land w m' = m'.
Proof.
  rewrite !land_covers. setoid_rewrite Z.lor_spec. setoid_rewrite orb_true_iff.
  naive_solver.
Qed.

(** ** Deciding equations between bit patterns

    [bits n] proves an equation between two words of at most [n] bits (every
    other bit is clear in both) by comparing them bit by bit. *)

Lemma bits_ext (n : nat) a b :
  (∀ i, (i < n)%nat → Z.testbit a (Z.of_nat i) = Z.testbit b (Z.of_nat i)) →
  (∀ i, Z.of_nat n <= i → Z.testbit a i = Z.testbit b i) →
  a = b.
Proof.
  intros Hlo Hhi. apply Z.bits_inj'. intros i Hi.
  destruct (Z.lt_ge_cases i (Z.of_nat n)); [|by apply Hhi].
  rewrite <-(Z2Nat.id i) by done. apply Hlo. lia.
Qed.

Lemma testbit_flag_if b f i : Z.testbit (flag_if b f) i = b && Z.testbit f i.
Proof. destruct b; [done|apply Z.bits_0]. Qed.

Ltac ground_int t :=
  lazymatch t with
  | Z0 => idtac | Zpos ?p => ground_int p | Zneg ?p => ground_int p
  | xH => idtac | xO ?p => ground_int p | xI ?p => ground_int p
  | _ => fail
  end.

(** Evaluate the test of a literal word at a literal index, and indices that are
    closed arithmetic. *)
Ltac bit_eval :=
  repeat match goal with
  | |- context [Z.testbit ?w ?i] =>
      lazymatch i with
      | Zpos ?p => fail | Z0 => fail | Zneg ?p => fail
      | _ => let v := eval vm_compute in i in ground_int v; change i with v
      end
  | |- context [Z.testbit ?w ?i] =>
      let w' := eval vm_compute in w in
      ground_int w'; ground_int i;
      let v := eval vm_compute in (Z.testbit w' i) in
      change (Z.testbit w i) with v
  end.

Ltac bit_push :=
  unfold field_put, field_get;
  repeat first
    [ rewrite Z.lor_spec | rewrite Z.land_spec | rewrite testbit_flag_if
    | rewrite Z.lnot_spec by lia | rewrite Z.shiftl_spec by lia
    | rewrite Z.shiftr_spec by lia ].

Ltac bit_at := bit_push; bit_eval; rewrite ?andb_true_r, ?andb_false_r,
  ?orb_false_r, ?andb_true_l, ?andb_false_l, ?orb_false_l, ?orb_true_l,
  ?orb_true_r; cbn [negb]; try reflexivity; try btauto.

(** Bits above the width: every word in sight is bounded. *)
Ltac bit_high n :=
  let z := eval vm_compute in (Z.of_nat n) in
  bit_push;
  repeat match goal with
  | |- context [Z.testbit ?w ?i] =>
      first
        [ rewrite (testbit_small w z i) by lia
        | let w' := eval vm_compute in w in ground_int w';
          rewrite (testbit_small w z i) by (change w with w'; lia) ]
  end; rewrite ?andb_false_r, ?orb_false_r; try reflexivity; try btauto.

Ltac bit_cases n i Hi :=
  lazymatch n with
  | O => exfalso; lia
  | S ?m => destruct i as [|i]; [clear Hi; bit_at | bit_cases m i Hi]
  end.

Tactic Notation "bits" constr(n) :=
  apply (bits_ext n);
  [ let i := fresh "i" in let Hi := fresh "Hi" in
    intros i Hi; bit_cases n i Hi
  | let i := fresh "i" in let Hi := fresh "Hi" in
    intros i Hi; bit_high n ].

(** ** Fields of words built with [|], [& ~] and [field_put] *)

Lemma field_get_lor w m k n :
  field_get (Z.lor w m) k n = Z.lor (field_get w k n) (field_get m k n).
Proof. unfold field_get. by rewrite Z.shiftr_lor, Z.land_lor_distr_l. Qed.

Lemma field_get_clear w m k n :
  0 <= k → 0 <= n →
  field_get (Z.land w (Z.lnot m)) k n =
    Z.land (field_get w k n) (Z.lnot (field_get m k n)).
Proof.
  intros Hk Hn. apply Z.bits_inj'. intros i Hi. unfold field_get.
  rewrite !Z.land_spec, Z.lnot_spec, !Z.shiftr_spec, !Z.land_spec, Z.lnot_spec,
    Z.shiftr_spec by lia. btauto.
Qed.

Lemma testbit_clear w m i :
  0 <= i → Z.testbit (Z.land w (Z.lnot m)) i = Z.testbit w i && negb (Z.testbit m i).
Proof. intros Hi. by rewrite Z.land_spec, Z.lnot_spec. Qed.

Lemma lor_idle w : Z.lor w 0 = w.
Proof. apply Z.lor_0_r. Qed.
Lemma clear_idle w : Z.land w (Z.lnot 0) = w.
Proof. apply Z.land_m1_r. Qed.

(** [if (b) x |= m;] *)
Definition or_if (b : bool) (m w : Z) : Z := if b then Z.lor w m else w.

Lemma field_get_or_if b m w k n :
  field_get m k n = 0 → field_get (or_if b m w) k n = field_get w k n.
Proof. intros H. destruct b; [|done]. cbn. by rewrite field_get_lor, H, Z.lor_0_r. Qed.

Lemma testbit_or_if b m w i :
  Z.testbit (or_if b m w) i = Z.testbit w i || (b && Z.testbit m i).
Proof.
  destruct b; cbn; [by rewrite Z.lor_spec|]. by rewrite orb_false_r.
Qed.

Lemma or_if_range b m w n :
  0 <= n → 0 <= w < 2 ^ n → 0 <= m < 2 ^ n → 0 <= or_if b m w < 2 ^ n.
Proof. intros. destruct b; cbn; [by apply lor_range|done]. Qed.

(** Reading a field or a flag of a word that was built from another one. *)
Ltac ground_field :=
  repeat match goal with
  | |- context [field_get ?m ?k ?n] =>
      let v := eval vm_compute in (field_get m k n) in
      ground_int v; change (field_get m k n) with v
  end.

Ltac word_simpl :=
  repeat first
    [ rewrite field_get_put_same by lia
    | rewrite field_get_put_other by lia
    | rewrite field_get_or_if by reflexivity
    | rewrite field_get_lor
    | rewrite field_get_clear by lia
    | rewrite testbit_field_put_other by lia
    | rewrite testbit_or_if
    | rewrite testbit_clear by lia
    | rewrite Z.lor_spec ];
  ground_field; bit_eval;
  rewrite ?lor_idle, ?clear_idle, ?andb_true_r, ?andb_false_r, ?orb_false_r,
    ?orb_true_r; cbn [negb]; rewrite ?andb_true_r, ?andb_false_r, ?orb_false_l.

(** ** Words packed from shifted fields *)

Lemma field_get_shiftl_same v k n :
  0 <= k → 0 <= n → 0 <= v < 2 ^ n → field_get (Z.shiftl v k) k n = v.
Proof.
  intros Hk Hn Hv. unfold field_get.
  rewrite Z.shiftr_shiftl_l, Z.sub_diag, Z.shiftl_0_r, Z.land_ones by done.
  by apply Z.mod_small.
Qed.

Lemma field_get_shiftl_other v k n k' n' :
  0 <= k → 0 <= k' → 0 <= n → 0 <= n' → 0 <= v < 2 ^ n → k' + n' <= k ∨ k + n <= k' →
  field_get (Z.shiftl v k) k' n' = 0.
Proof.
  intros Hk Hk' Hn Hn' Hv Hd. apply Z.bits_inj'. intros i Hi.
  rewrite testbit_field_get, Z.shiftl_spec, Z.bits_0 by lia.
  destruct (Z.ltb_spec i n'); [|done]. cbn [andb]. destruct Hd.
  - apply Z.testbit_neg_r. lia.
  - apply (testbit_small _ n); lia.
Qed.

Lemma field_get_small v n : 0 <= n → 0 <= v < 2 ^ n → field_get v 0 n = v.
Proof.
  intros Hn Hv. unfold field_get. rewrite Z.shiftr_0_r, Z.land_ones by done.
  by apply Z.mod_small.
Qed.

Lemma field_get_high v n k' n' :
  0 <= n → 0 <= k' → 0 <= n' → 0 <= v < 2 ^ n → n <= k' → field_get v k' n' = 0.
Proof.
  intros. rewrite <-(Z.shiftl_0_r v). by apply (field_get_shiftl_other v 0 n); lia.
Qed.

(** Reading a field of a word packed with [|] from fields of [n] bits. *)
Ltac unpack_field n :=
  rewrite !field_get_lor;
  rewrite ?(field_get_shiftl_same _ _ n) by lia;
  rewrite ?(field_get_shiftl_other _ _ n) by lia;
  rewrite ?(field_get_high _ n) by lia; rewrite ?(field_get_small _ n) by lia;
  rewrite ?Z.lor_0_l, ?Z.lor_0_r; try reflexivity.
