(* ===== verification/Atomics.v ===== *)
(** * Atomic read-modify-write operations and compare-and-swap loops

    Almost every shared word of the program is updated by the same shape of code:

      v = atomic_load(&cell);
      do { if (guard(v)) return ...; desired = f(v); }
      while (!atomic_compare_exchange_strong(&cell, &v, desired));

    [attempt] is what the body of such a loop decides for a value it saw: leave
    with a result, or try to swap a desired value in (with the result to return
    if the swap succeeds).  [rmw] is the atomic action the body denotes, and
    [cas_loop] the loop itself, run against a list of the values that the swaps
    find in the cell because other threads wrote there.  [cas_loop_atomic] is the
    bridge the other files rely on: whatever the interference, the loop ends and
    has the effect of one [rmw] at the value it linearises on. *)

From S2P Require Export Words.

Local Open Scope Z_scope.

Inductive attempt (V R : Type) : Type :=
  | Leave (r : R)
  | Swap (desired : V) (r : R).
Arguments Leave {_ _} _.
Arguments Swap {_ _} _ _.

Section cas.
Context {V R : Type} `{EqDecision V}.
Variable body : V → attempt V R.

(** The body as one atomic action on the cell. *)
Definition rmw (cell : V) : R * V :=
  match body cell with
  | Leave r => (r, cell)
  | Swap d r => (r, d)
  end.

(** The loop.  [seen] is the value loaded before the loop; the k-th swap finds
    the k-th value of [env] in the cell, and once [env] is exhausted nobody
    interferes any more.  The outcome is the result, the value the cell held at
    the loop's last access, and the value the loop wrote, if it wrote. *)
Fixpoint cas_loop (seen : V) (env : list V) : R * V * option V :=
  match body seen with
  | Leave r => (r, seen, None)
  | Swap d r =>
      match env with
      | [] => (r, seen, Some d)
      | v :: env' =>
          if decide (v = seen) then (r, seen, Some d) else cas_loop v env'
      end
  end.

(** Whatever other threads write, the loop returns, and it has the effect of
    one atomic application of its body to a value the cell really held. *)
Lemma cas_loop_atomic seen env :
  ∃ r v w, cas_loop seen env = (r, v, w) ∧ v ∈ seen :: env ∧
           rmw v = (r, default v w).
Proof.
  revert seen. induction env as [|u env IH]; intros seen; cbn.
  - unfold rmw. destruct (body seen) as [r|d r] eqn:E.
    + exists r, seen, None. rewrite E. split_and!; [done|by left|done].
    + exists r, seen, (Some d). rewrite E. split_and!; [done|by left|done].
  - unfold rmw. destruct (body seen) as [r|d r] eqn:E.
    + exists r, seen, None. rewrite E. split_and!; [done|by left|done].
    + destruct (decide (u = seen)) as [->|].
      * exists r, seen, (Some d). rewrite E. split_and!; [done|by left|done].
      * destruct (IH u) as (r' & v & w & -> & Hv & Hr).
        exists r', v, w. split_and!; [done|by right|done].
Qed.

(** Without interference the loop is the atomic action on the loaded value. *)
Lemma cas_loop_quiet seen :
  ∃ r w, cas_loop seen [] = (r, seen, w) ∧ rmw seen = (r, default seen w).
Proof.
  cbn. unfold rmw. destruct (body seen) as [r|d r].
  - by exists r, None.
  - by exists r, (Some d).
Qed.

(** The loop retries only because another thread changed the cell: if every
    swap finds the loaded value, the first one succeeds. *)
Lemma cas_loop_progress seen env d r :
  body seen = Swap d r → head env = Some seen →
  cas_loop seen env = (r, seen, Some d).
Proof.
  intros E Henv. destruct env as [|u env]; cbn in *; [done|].
  simplify_eq. rewrite E. by rewrite decide_True.
Qed.
End cas.

Arguments rmw {_ _} _ _.
Arguments cas_loop {_ _ _} _ _ _.

(** [atomic_fetch_add] and friends on a word: the old value and the new one. *)
Definition fetch_add (wrap : Z → Z) (d cell : Z) : Z * Z := (cell, wrap (cell + d)).
Definition fetch_or (m cell : Z) : Z * Z := (cell, Z.lor cell m).
Definition fetch_and (m cell : Z) : Z * Z := (cell, Z.land cell m).
