(* ===== verification/DList.v ===== *)
(** * The intrusive doubly-linked list (src/src/list.c)

    Nodes live in a store; a node's address is a [positive] and NULL is [None].
    Reading or writing through an address that is not in the store is undefined
    behaviour. *)

From S2P Require Export Prelude.

Local Open Scope nat_scope.

(** [struct schedi_list_node]. *)
Record schedi_list_node : Type := Node {
  prev : option positive;
  next : option positive;
}.

(** [struct schedi_list], with the memory that holds the nodes. *)
Record schedi_list : Type := List {
  first : option positive;
  last : option positive;
  nodes : gmap positive schedi_list_node;
}.

Definition set_first (p : option positive) (l : schedi_list) : schedi_list :=
  List p (last l) (nodes l).
Definition set_last (p : option positive) (l : schedi_list) : schedi_list :=
  List (first l) p (nodes l).
Definition set_nodes (h : gmap positive schedi_list_node) (l : schedi_list)
  : schedi_list := List (first l) (last l) h.

Definition load_node (a : positive) : M schedi_list schedi_list_node :=
  reads (λ l, nodes l !! a).

Definition store_node (a : positive) (n : schedi_list_node) : M schedi_list unit :=
  modify (λ l, set_nodes (<[a := n]> (nodes l)) l).

(** [a->prev = p] and [a->next = p]. *)
Definition store_prev (a : positive) (p : option positive) : M schedi_list unit :=
  n ← load_node a; store_node a (Node p (next n)).
Definition store_next (a : positive) (p : option positive) : M schedi_list unit :=
  n ← load_node a; store_node a (Node (prev n) p).

Definition schedi_list_init : M schedi_list unit :=
  modify (set_first None) ≫= λ _,
  modify (set_last None).

Definition schedi_list_add (node : positive) : M schedi_list unit :=
  l ← gets last;
  store_prev node l ≫= λ _,
  store_next node None ≫= λ _,
  (l ← gets last;
   match l with
   | Some a => store_next a (Some node)
   | None => modify (set_first (Some node))
   end) ≫= λ _,
  modify (set_last (Some node)).

Definition schedi_list_remove (node : positive) : M schedi_list unit :=
  n ← load_node node;
  match prev n with
  | Some a => store_next a (next n)
  | None => modify (set_first (next n))
  end ≫= λ _,
  n ← load_node node;
  match next n with
  | Some a => store_prev a (prev n)
  | None => modify (set_last (prev n))
  end.

Definition schedi_list_is_empty : M schedi_list bool :=
  f ← gets first; mret (bool_decide (f = None)).

(** ** The abstract list a linked list represents *)

Definition node_at (xs : list positive) (i : nat) : schedi_list_node :=
  Node (match i with O => None | S j => xs !! j end) (xs !! S i).

Definition dlist (l : schedi_list) (xs : list positive) : Prop :=
  NoDup xs ∧ first l = head xs ∧ last l = list.last xs ∧
  ∀ i x, xs !! i = Some x → nodes l !! x = Some (node_at xs i).

Lemma dlist_nodes l xs i x :
  dlist l xs → xs !! i = Some x → nodes l !! x = Some (node_at xs i).
Proof. intros (_ & _ & _ & H). apply H. Qed.

Lemma load_node_wp a n l (Q : schedi_list_node → schedi_list → Prop) :
  nodes l !! a = Some n → Q n l → wp (load_node a) Q l.
Proof. intros. apply wp_reads. eauto. Qed.

Lemma store_prev_wp a p n l (Q : unit → schedi_list → Prop) :
  nodes l !! a = Some n →
  Q () (set_nodes (<[a := Node p (next n)]> (nodes l)) l) →
  wp (store_prev a p) Q l.
Proof. intros Ha HQ. unfold store_prev. wp_simpl. by eapply load_node_wp. Qed.

Lemma store_next_wp a p n l (Q : unit → schedi_list → Prop) :
  nodes l !! a = Some n →
  Q () (set_nodes (<[a := Node (prev n) p]> (nodes l)) l) →
  wp (store_next a p) Q l.
Proof. intros Ha HQ. unfold store_next. wp_simpl. by eapply load_node_wp. Qed.

(** [node_at] of the neighbours, when an element is appended or removed. *)
Lemma node_at_snoc_old xs a i :
  S i < length xs → node_at (xs ++ [a]) i = node_at xs i.
Proof.
  intros Hi. unfold node_at. f_equal.
  - destruct i; [done|]. by apply lookup_app_l; lia.
  - by apply lookup_app_l.
Qed.

Lemma node_at_snoc_new xs a :
  node_at (xs ++ [a]) (length xs) = Node (list.last xs) None.
Proof.
  unfold node_at. f_equal.
  - rewrite last_lookup. destruct (length xs) as [|k] eqn:E.
    + by apply nil_length_inv in E as ->.
    + cbn. by rewrite lookup_app_l by lia.
  - apply lookup_ge_None. rewrite length_app. cbn. lia.
Qed.

Lemma node_at_snoc_last xs b a :
  node_at ((xs ++ [b]) ++ [a]) (length xs) =
  Node (prev (node_at (xs ++ [b]) (length xs))) (Some a).
Proof.
  unfold node_at. cbn. f_equal.
  - destruct (length xs) eqn:E; [done|].
    rewrite lookup_app_l; [done|]. rewrite length_app; cbn; lia.
  - rewrite lookup_app_r by (rewrite length_app; cbn; lia).
    rewrite length_app. cbn. by replace (S (length xs) - (length xs + 1)) with 0 by lia.
Qed.

(** [schedi_list_init] leaves a list that represents the empty sequence and
    touches no node. *)
Theorem schedi_list_init_spec l :
  wp schedi_list_init (λ _ l', dlist l' [] ∧ nodes l' = nodes l) l.
Proof.
  unfold schedi_list_init. wp_simpl. split; [|done].
  split_and!; [constructor|done|done|]. intros i x H. by rewrite lookup_nil in H.
Qed.

(** Appending a node that is in no list returns, meets no dangling pointer,
    and leaves a list that represents the old sequence with the node at its end;
    no node outside the list changes. *)
Theorem schedi_list_add_spec l xs a n :
  dlist l xs → a ∉ xs → nodes l !! a = Some n →
  wp (schedi_list_add a) (λ _ l', dlist l' (xs ++ [a]) ∧
    ∀ b, b ∉ xs ++ [a] → nodes l' !! b = nodes l !! b) l.
Proof.
  intros (Hnd & Hf & Hl & Hn) Ha Hna. unfold schedi_list_add. wp_simpl.
  eapply store_prev_wp; [done|]. wp_simpl.
  eapply store_next_wp; [apply lookup_insert_eq|]. wp_simpl. cbn.
  assert (NoDup (xs ++ [a])) as Hnd'.
  { apply NoDup_app. split_and!; [done| |apply NoDup_singleton].
    intros x Hx ->%list_elem_of_singleton. done. }
  rewrite insert_insert_eq, Hl.
  destruct xs as [|b ys _] using rev_ind.
  - cbn. wp_simpl. split; [split_and!|]; cbn; [done..| |].
    + intros [|i] x Hx; [|done]. cbn in Hx. simplify_eq.
      by rewrite lookup_insert_eq.
    + intros c Hc. rewrite lookup_insert_ne; [done|]. set_solver.
  - rewrite last_snoc.
    assert (a ≠ b) by set_solver.
    eapply store_next_wp.
    { cbn. rewrite lookup_insert_ne by done.
      apply (Hn (length ys)). by rewrite list_lookup_middle. }
    wp_simpl. split; [split_and!|]; cbn -[app].
    + done.
    + rewrite Hf. by destruct ys.
    + by rewrite last_snoc.
    + intros i x Hx. destruct (decide (i = length (ys ++ [b]))) as [->|].
      { rewrite lookup_app_r, Nat.sub_diag in Hx by done. cbn in Hx. simplify_eq.
        rewrite lookup_insert_ne, lookup_insert_eq by done.
        by rewrite node_at_snoc_new, last_snoc. }
      assert (i < length (ys ++ [b])) as Hi.
      { apply lookup_lt_Some in Hx. rewrite length_app in Hx. cbn in Hx. lia. }
      rewrite lookup_app_l in Hx by done.
      destruct (decide (i = length ys)) as [->|].
      { rewrite list_lookup_middle in Hx by done. simplify_eq.
        by rewrite lookup_insert_eq, node_at_snoc_last. }
      assert (x ≠ b ∧ x ≠ a) as [? ?].
      { split; [|intros ->; by apply list_elem_of_lookup_2 in Hx].
        intros ->. assert (i = length ys); [|done].
        eapply NoDup_lookup; [exact Hnd|exact Hx|]. by rewrite list_lookup_middle. }
      rewrite !lookup_insert_ne by done.
      rewrite node_at_snoc_old; [by apply Hn|].
      rewrite length_app in Hi |- *. cbn in *. lia.
    + intros c Hc. rewrite !lookup_insert_ne; [done|set_solver..].
Qed.

(** [node_at] around a removed element: [xs ++ a :: ys] becomes [xs ++ ys]. *)
Lemma lookup_cut xs (a : positive) ys i :
  (xs ++ ys) !! i =
    if decide (i < length xs) then (xs ++ a :: ys) !! i else (xs ++ a :: ys) !! S i.
Proof.
  case_decide.
  - by rewrite !lookup_app_l.
  - rewrite !lookup_app_r by lia.
    by replace (S i - length xs) with (S (i - length xs)) by lia.
Qed.

(** The node at position [i] after the cut, from the node it was before. *)
Lemma node_at_cut xs a ys i :
  node_at (xs ++ ys) i =
    let old := if decide (i < length xs) then i else S i in
    let n := node_at (xs ++ a :: ys) old in
    let n := if decide (S i = length xs) then Node (prev n) (head ys) else n in
    if decide (i = length xs) then Node (list.last xs) (next n) else n.
Proof.
  assert (xs !! pred (length xs) = list.last xs) as Hl by (by rewrite last_lookup).
  cbn zeta. destruct (decide (i < length xs)); destruct (decide (S i = length xs));
    destruct (decide (i = length xs)); try lia; unfold node_at; cbn [prev next];
    f_equal.
  - destruct i; [done|]. by rewrite !lookup_app_l by lia.
  - rewrite lookup_app_r, head_lookup by lia. f_equal. lia.
  - destruct i; [done|]. by rewrite !lookup_app_l by lia.
  - by rewrite !lookup_app_l by lia.
  - subst i. destruct (length xs) eqn:E; [by apply nil_length_inv in E as ->|].
    cbn in Hl. rewrite lookup_app_l by lia. done.
  - by rewrite (lookup_cut _ a), decide_False by lia.
  - destruct i; [lia|]. rewrite (lookup_cut _ a), decide_False by lia. done.
  - rewrite (lookup_cut _ a), decide_False by lia. done.
Qed.

Lemma dlist_middle l xs a ys :
  dlist l (xs ++ a :: ys) →
  nodes l !! a = Some (Node (list.last xs) (head ys)).
Proof.
  intros (_ & _ & _ & Hn). rewrite (Hn (length xs)) by by apply list_lookup_middle.
  f_equal. unfold node_at. f_equal.
  - rewrite last_lookup. destruct (length xs) as [|k] eqn:E.
    + by apply nil_length_inv in E as ->.
    + cbn. by rewrite lookup_app_l by lia.
  - rewrite lookup_app_r, head_lookup by lia.
    by replace (S (length xs) - length xs) with 1 by lia.
Qed.

(** Which element of [xs ++ ys] is the left or the right neighbour of the cut. *)
Lemma cut_neighbours (xs ys : list positive) i x :
  NoDup (xs ++ ys) → (xs ++ ys) !! i = Some x →
  (list.last xs = Some x ↔ S i = length xs) ∧ (head ys = Some x ↔ i = length xs).
Proof.
  intros Hnd Hi. split; split.
  - rewrite last_lookup. intros Hx. pose proof (lookup_lt_Some _ _ _ Hx).
    assert (i = pred (length xs)); [|lia].
    eapply NoDup_lookup; [done..|]. by rewrite lookup_app_l.
  - intros E. rewrite last_lookup, <-E. cbn. by rewrite lookup_app_l in Hi by lia.
  - rewrite head_lookup. intros Hx.
    eapply NoDup_lookup; [done..|].
    by rewrite lookup_app_r, Nat.sub_diag.
  - intros ->. rewrite head_lookup.
    by rewrite lookup_app_r, Nat.sub_diag in Hi.
Qed.

(** The memory after [schedi_list_remove]: the left neighbour's [next] and the
    right neighbour's [prev] are redirected. *)
Definition unlink (h : gmap positive schedi_list_node) (p q : option positive)
  : gmap positive schedi_list_node :=
  let h1 := match p with Some b => alter (λ n, Node (prev n) q) b h | None => h end in
  match q with Some c => alter (λ n, Node p (next n)) c h1 | None => h1 end.

Lemma unlink_lookup h p q x :
  unlink h p q !! x =
    (λ n, Node (if decide (q = Some x) then p else prev n)
               (if decide (p = Some x) then q else next n)) <$> h !! x.
Proof.
  unfold unlink. destruct q as [c|], p as [b|]; rewrite ?lookup_alter;
    repeat case_decide; simplify_eq; try done;
    destruct (h !! x) as [[]|]; done.
Qed.

(** The two writes of a neighbour, as updates of the memory. *)
Lemma store_next_run a p n l :
  nodes l !! a = Some n →
  store_next a p l = Done () (set_nodes (alter (λ n, Node (prev n) p) a (nodes l)) l).
Proof.
  intros H. unfold store_next, load_node, reads, mbind, M_bind. rewrite H.
  unfold store_node, modify. do 2 f_equal.
  by rewrite (alter_to_insert _ _ _ n).
Qed.

Lemma store_prev_run a p n l :
  nodes l !! a = Some n →
  store_prev a p l = Done () (set_nodes (alter (λ n, Node p (next n)) a (nodes l)) l).
Proof.
  intros H. unfold store_prev, load_node, reads, mbind, M_bind. rewrite H.
  unfold store_node, modify. do 2 f_equal.
  by rewrite (alter_to_insert _ _ _ n).
Qed.

(** The neighbours of an element are other elements, present in the store. *)
Lemma dlist_left l xs a ys b :
  dlist l (xs ++ a :: ys) → list.last xs = Some b →
  xs ≠ [] ∧ b ≠ a ∧ ∃ n, nodes l !! b = Some n.
Proof.
  intros (Hnd & _ & _ & Hn) [zs ->]%last_Some. rewrite <-app_assoc in Hnd, Hn.
  cbn in *. split_and!.
  - by destruct zs.
  - apply NoDup_app in Hnd as (_ & _ & Hnd). apply NoDup_cons in Hnd. set_solver.
  - eexists. apply (Hn (length zs)). by rewrite list_lookup_middle.
Qed.

Lemma dlist_right l xs a ys c :
  dlist l (xs ++ a :: ys) → head ys = Some c →
  ys ≠ [] ∧ c ≠ a ∧ list.last xs ≠ Some c ∧ ∃ n, nodes l !! c = Some n.
Proof.
  intros (Hnd & _ & _ & Hn) [zs ->]%head_Some.
  apply NoDup_app in Hnd as (_ & Hdis & Hnd). split_and!; [done| | |].
  - apply NoDup_cons in Hnd. set_solver.
  - intros [ws ->]%last_Some. apply (Hdis c); set_solver.
  - eexists. apply (Hn (S (length xs))).
    rewrite lookup_app_r by lia. by replace (S (length xs) - length xs) with 1 by lia.
Qed.

Lemma schedi_list_remove_run l xs a ys :
  dlist l (xs ++ a :: ys) →
  schedi_list_remove a l = Done ()
    (List (if decide (xs = []) then head ys else first l)
          (if decide (ys = []) then list.last xs else last l)
          (unlink (nodes l) (list.last xs) (head ys))).
Proof.
  intros Hd. pose proof (dlist_middle _ _ _ _ Hd) as Ha.
  pose proof (λ b, dlist_left _ _ _ _ b Hd) as Hleft.
  pose proof (λ c, dlist_right _ _ _ _ c Hd) as Hright.
  unfold schedi_list_remove.
  rewrite (bind_done _ _ _ (Node (list.last xs) (head ys)) l)
    by (unfold load_node, reads; by rewrite Ha).
  cbn [prev next]. unfold unlink.
  destruct (list.last xs) as [b|] eqn:Eb.
  - destruct (Hleft b eq_refl) as (? & Hba & nb & Hnb). rewrite decide_False by done.
    erewrite bind_done by (by eapply store_next_run).
    set (l1 := set_nodes _ l).
    assert (nodes l1 !! a = nodes l !! a) as Ha1 by (by apply lookup_alter_ne).
    erewrite bind_done by (unfold load_node, reads; by rewrite Ha1, Ha).
    cbn [prev next]. destruct (head ys) as [c|] eqn:Ec.
    + destruct (Hright c eq_refl) as (? & Hca & Hcb & nc & Hnc).
      rewrite decide_False by done.
      erewrite store_prev_run; [done|]. cbn. rewrite lookup_alter_ne; [done|congruence].
    + rewrite decide_True by (by destruct ys). done.
  - apply last_None in Eb as ->. rewrite decide_True by done.
    erewrite bind_done by done.
    erewrite bind_done by (unfold load_node, reads; cbn; by rewrite Ha).
    cbn [prev next]. destruct (head ys) as [c|] eqn:Ec.
    + destruct (Hright c eq_refl) as (? & Hca & Hcb & nc & Hnc).
      rewrite decide_False by done. by erewrite store_prev_run.
    + by rewrite decide_True by (by destruct ys).
Qed.

(** Removing a node of a list that represents [xs ++ a :: ys] returns, meets
    no dangling pointer, and leaves a list that represents [xs ++ ys], in the same
    order; the removed node keeps its own pointers, and no node outside the list
    changes. *)
Theorem schedi_list_remove_spec l xs a ys :
  dlist l (xs ++ a :: ys) →
  wp (schedi_list_remove a) (λ _ l', dlist l' (xs ++ ys) ∧
    nodes l' !! a = nodes l !! a ∧
    ∀ b, b ∉ xs ++ ys → nodes l' !! b = nodes l !! b) l.
Proof.
  intros Hd. eapply wp_run; [by apply schedi_list_remove_run|].
  pose proof (λ b, dlist_left _ _ _ _ b Hd) as Hleft.
  pose proof (λ c, dlist_right _ _ _ _ c Hd) as Hright.
  assert (∀ b, b ∉ xs ++ ys →
    unlink (nodes l) (list.last xs) (head ys) !! b = nodes l !! b) as Hframe.
  { intros b Hb. rewrite unlink_lookup.
    destruct (nodes l !! b) as [[p q]|]; [|done]. cbn. rewrite !decide_False; [done| |].
    - intros [zs ->]%last_Some. set_solver.
    - intros [zs ->]%head_Some. set_solver. }
  destruct Hd as (Hnd & Hf & Hl & Hn).
  assert (NoDup (xs ++ ys) ∧ a ∉ xs ++ ys) as [Hnd' Ha].
  { rewrite <-Permutation_middle in Hnd. apply NoDup_cons in Hnd. tauto. }
  split; [|by auto]. split_and!; cbn [first last nodes]; [done| | |].
  - rewrite Hf. by destruct xs.
  - rewrite Hl. destruct ys as [|y ys _] using rev_ind.
    + by rewrite decide_True, app_nil_r.
    + rewrite decide_False by (by destruct ys).
      by rewrite app_comm_cons, !app_assoc, !last_snoc.
  - intros i x Hi. destruct (cut_neighbours _ _ _ _ Hnd' Hi) as [Hb Hc].
    rewrite unlink_lookup, (node_at_cut _ a). cbn zeta.
    set (old := if decide (i < length xs) then i else S i).
    rewrite (Hn old x) by (rewrite (lookup_cut _ a) in Hi; unfold old; by case_decide).
    generalize (node_at (xs ++ a :: ys) old). intros [p q]. cbn.
    rewrite (decide_ext _ _ _ _ Hb), (decide_ext _ _ _ _ Hc).
    repeat case_decide; done || lia.
Qed.

(** The emptiness test is true exactly of the lists that represent the empty
    sequence. *)
Theorem schedi_list_is_empty_spec l xs :
  dlist l xs →
  schedi_list_is_empty l = Done (bool_decide (xs = [])) l.
Proof.
  intros (_ & Hf & _). unfold schedi_list_is_empty, gets, mbind, M_bind, mret, M_ret.
  rewrite Hf. f_equal. by destruct xs.
Qed.

(** ** A run on a concrete store *)

Definition demo_store : schedi_list :=
  List None None
    {[ 1%positive := Node None None; 2%positive := Node (Some 9%positive) None;
       3%positive := Node None (Some 9%positive) ]}.

Definition demo_add : M schedi_list unit :=
  schedi_list_init ≫= λ _, schedi_list_add 1 ≫= λ _,
  schedi_list_add 2 ≫= λ _, schedi_list_add 3.

Lemma demo_added :
  ∃ l, demo_add demo_store = Done () l ∧ dlist l [1; 2; 3]%positive.
Proof.
  eexists. split; [vm_compute; reflexivity|].
  split_and!; [|done|done|].
  - by apply (bool_decide_unpack _).
  - intros [|[|[|i]]] x Hx; cbn in Hx; simplify_eq; vm_compute; reflexivity.
Qed.

Lemma schedi_list_add_spec_witness :
  wp (schedi_list_add 1) (λ _ l', dlist l' [1%positive] ∧
    ∀ b, b ∉ [1%positive] → nodes l' !! b = nodes demo_store !! b) demo_store.
Proof.
  apply (schedi_list_add_spec demo_store [] 1 (Node None None)).
  - split_and!; [constructor|done|done|intros i x Hx; by rewrite lookup_nil in Hx].
  - apply not_elem_of_nil.
  - reflexivity.
Defined.

Lemma schedi_list_remove_spec_witness :
  ∃ l, demo_add demo_store = Done () l ∧
  wp (schedi_list_remove 2) (λ _ l', dlist l' [1; 3]%positive ∧
    nodes l' !! 2%positive = nodes l !! 2%positive ∧
    ∀ b, b ∉ [1; 3]%positive → nodes l' !! b = nodes l !! b) l.
Proof.
  destruct demo_added as (l & Hrun & Hd). exists l. split; [done|].
  exact (schedi_list_remove_spec l [1%positive] 2 [3%positive] Hd).
Defined.

Lemma schedi_list_is_empty_spec_witness :
  schedi_list_is_empty demo_store = Done true demo_store.
Proof.
  apply (schedi_list_is_empty_spec demo_store []).
  split_and!; [constructor|done|done|intros i x Hx; by rewrite lookup_nil in Hx].
Defined.
