(* ===== verification/Log.v ===== *)
(** * The in-memory event log (src/src/log.c)

    Two ring buffers of [SCHEDI_FLOG_SIZE] events, one for every event and one
    for errors.  A writer takes a ticket with an atomic increment of the head and
    fills the slot the ticket selects.  [schedi_flog_get] copies a ring out,
    oldest event first. *)

From S2P Require Export Words.
From stdpp Require Import strings.

Local Open Scope Z_scope.

Definition SCHEDI_FLOG_SIZE : Z := 4096.

(** [struct schedi_flog_event]. *)
Record schedi_flog_event : Type := Event {
  tid : Z;
  msg : option string;
  param : Z;
}.

(** The zero-initialised static event. *)
Definition no_event : schedi_flog_event := Event 0 None 0.

Record ring : Type := Ring { ring_head : Z; ring_events : list schedi_flog_event }.

Record log_state : Type := Log { flog_ring : ring; ferr_ring : ring }.

Definition ring_init : ring :=
  Ring 0 (replicate (Z.to_nat SCHEDI_FLOG_SIZE) no_event).
Definition log_init : log_state := Log ring_init ring_init.

(** [evnts[idx] = ev], undefined outside the array. *)
Definition store_event (idx : Z) (ev : schedi_flog_event) : M ring unit :=
  updates (λ r : ring,
    if decide (0 <= idx < Z.of_nat (length (ring_events r)))
    then Some (Ring (ring_head r) (<[Z.to_nat idx := ev]> (ring_events r)))
    else None).

(** [schedi_flog_explicit], called by the thread [gettid]. *)
Definition schedi_flog_explicit (gettid : Z) (m : string) (p : Z) : M ring unit :=
  h ← gets ring_head;
  modify (λ r, Ring (u32 (ring_head r + 1)) (ring_events r)) ≫= λ _,
  let idx := h mod SCHEDI_FLOG_SIZE in
  store_event idx (Event gettid (Some m) p).

Definition on_flog {A} : M ring A → M log_state A :=
  zoom flog_ring (λ r s, Log r (ferr_ring s)).
Definition on_ferr {A} : M ring A → M log_state A :=
  zoom ferr_ring (λ r s, Log (flog_ring s) r).

Definition schedi_flog (gettid : Z) (m : string) (p : Z) : M log_state unit :=
  on_flog (schedi_flog_explicit gettid m p).

Definition schedi_ferr (gettid : Z) (m : string) (p : Z) : M log_state unit :=
  schedi_flog gettid m p ≫= λ _,
  on_ferr (schedi_flog_explicit gettid m p).

(** The copy loop: [i] counts down from [SCHEDI_FLOG_SIZE - 1] to 0 ([k] is
    [i + 1], the iterations left). *)
Fixpoint ring_get_loop (k : nat) (out : list schedi_flog_event)
    : M ring (list schedi_flog_event) :=
  match k with
  | O => mret out
  | S i =>
      h ← gets ring_head;
      let j := u32 (h - Z.of_nat i) mod SCHEDI_FLOG_SIZE in
      ev ← reads (λ r, ring_events r !! Z.to_nat j);
      ring_get_loop i (<[Z.to_nat (SCHEDI_FLOG_SIZE - 1 - Z.of_nat i) := ev]> out)
  end.

(** [schedi_flog_get] and [schedi_ferr_get]: [out] is the caller's buffer. *)
Definition schedi_flog_get (out : list schedi_flog_event)
    : M log_state (list schedi_flog_event) :=
  on_flog (ring_get_loop (Z.to_nat SCHEDI_FLOG_SIZE) out).
Definition schedi_ferr_get (out : list schedi_flog_event)
    : M log_state (list schedi_flog_event) :=
  on_ferr (ring_get_loop (Z.to_nat SCHEDI_FLOG_SIZE) out).

(** ** What a ring holds

    [ring_holds r L]: [r] is the ring after the events [L] were logged, oldest
    first: its head is their number (modulo 2^32) and every one of the last
    [SCHEDI_FLOG_SIZE] events is in the slot its ticket selects. *)

Definition slot_of (k : nat) : nat := Z.to_nat (Z.of_nat k mod SCHEDI_FLOG_SIZE).

Definition ring_holds (r : ring) (L : list schedi_flog_event) : Prop :=
  ring_head r = u32 (Z.of_nat (length L)) ∧
  Z.of_nat (length (ring_events r)) = SCHEDI_FLOG_SIZE ∧
  (∀ k ev, L !! k = Some ev → Z.of_nat (length L) <= Z.of_nat k + SCHEDI_FLOG_SIZE →
     ring_events r !! slot_of k = Some ev) ∧
  (∀ k, (length L <= k)%nat → Z.of_nat k < SCHEDI_FLOG_SIZE →
     ring_events r !! k = Some no_event).

Lemma u32_mod_flog x : u32 x mod SCHEDI_FLOG_SIZE = x mod SCHEDI_FLOG_SIZE.
Proof.
  unfold u32, SCHEDI_FLOG_SIZE. apply Z.mod_mod_divide.
  exists (2 ^ 20). done.
Qed.

Lemma slot_of_range k : Z.of_nat (slot_of k) < SCHEDI_FLOG_SIZE.
Proof.
  unfold slot_of, SCHEDI_FLOG_SIZE.
  pose proof (Z.mod_pos_bound (Z.of_nat k) 4096). lia.
Qed.

Lemma slot_of_small k : Z.of_nat k < SCHEDI_FLOG_SIZE → slot_of k = k.
Proof. intros H. unfold slot_of. rewrite Z.mod_small; lia. Qed.

(** Two tickets less than a ring apart select different slots. *)
Lemma slot_of_inj k k' :
  (k < k')%nat → Z.of_nat k' < Z.of_nat k + SCHEDI_FLOG_SIZE → slot_of k ≠ slot_of k'.
Proof.
  unfold slot_of, SCHEDI_FLOG_SIZE. intros Hlt Hd E.
  apply (f_equal Z.of_nat) in E.
  rewrite !Z2Nat.id in E by (apply Z.mod_pos_bound; lia).
  rewrite !Z.mod_eq in E by done.
  pose proof (Z.mod_pos_bound (Z.of_nat k) 4096 ltac:(lia)).
  set (q := Z.of_nat k / 4096) in *. set (q' := Z.of_nat k' / 4096) in *. lia.
Qed.

Lemma ring_init_holds : ring_holds ring_init [].
Proof.
  split_and!; cbn [ring_head ring_events ring_init length].
  - done.
  - rewrite length_replicate. unfold SCHEDI_FLOG_SIZE. lia.
  - intros k ev Hk. by rewrite lookup_nil in Hk.
  - intros k _ Hk. apply lookup_replicate_2. lia.
Qed.

Lemma ring_holds_head r L :
  ring_holds r L → ring_head r mod SCHEDI_FLOG_SIZE = Z.of_nat (slot_of (length L)).
Proof.
  intros (-> & _). rewrite u32_mod_flog. unfold slot_of.
  rewrite Z2Nat.id; [done|]. by apply Z.mod_pos_bound.
Qed.

Lemma schedi_flog_explicit_run r L t m p :
  ring_holds r L →
  ∃ r', schedi_flog_explicit t m p r = Done () r' ∧
        ring_holds r' (L ++ [Event t (Some m) p]).
Proof.
  intros Hr. pose proof (ring_holds_head _ _ Hr) as Hidx.
  pose proof (slot_of_range (length L)) as Hrange.
  destruct Hr as (Hh & Hlen & Hlast & Hfresh).
  unfold schedi_flog_explicit. erewrite bind_done by done.
  erewrite bind_done by done. cbn beta. rewrite Hidx.
  unfold store_event, updates. cbn [ring_events ring_head].
  rewrite decide_True by lia. eexists. split; [done|]. rewrite Nat2Z.id.
  split_and!; cbn [ring_events ring_head].
  - rewrite Hh, length_app. cbn [length]. unfold u32.
    rewrite Zplus_mod_idemp_l. f_equal. lia.
  - by rewrite length_insert.
  - intros k ev Hk Hnew. rewrite length_app in Hnew. cbn in Hnew.
    apply lookup_snoc_Some in Hk as [[Hk1 Hk]|[-> <-]].
    + rewrite list_lookup_insert_ne; [apply Hlast; [done|lia]|].
      apply not_eq_sym, slot_of_inj; [done|]. lia.
    + apply list_lookup_insert_eq. lia.
  - intros k Hk Hsize. rewrite length_app in Hk. cbn in Hk.
    rewrite list_lookup_insert_ne; [apply Hfresh; lia|].
    rewrite slot_of_small by lia. lia.
Qed.

(** ** Reading a ring out *)

Lemma ring_get_loop_run r k out :
  Z.of_nat k <= SCHEDI_FLOG_SIZE → Z.of_nat (length out) = SCHEDI_FLOG_SIZE →
  Z.of_nat (length (ring_events r)) = SCHEDI_FLOG_SIZE →
  ∃ out', ring_get_loop k out r = Done out' r ∧ length out' = length out ∧
    ∀ p, Z.of_nat p < SCHEDI_FLOG_SIZE →
      out' !! p =
        if decide (SCHEDI_FLOG_SIZE - Z.of_nat k <= Z.of_nat p)
        then ring_events r !!
          Z.to_nat ((ring_head r - (SCHEDI_FLOG_SIZE - 1 - Z.of_nat p)) mod SCHEDI_FLOG_SIZE)
        else out !! p.
Proof.
  intros Hk Hout Hev. revert out Hout. induction k as [|i IH]; intros out Hout.
  { exists out. split_and!; [done..|]. intros p Hp. by rewrite decide_False by lia. }
  cbn [ring_get_loop]. erewrite bind_done by done. cbn zeta. rewrite u32_mod_flog.
  set (j := (ring_head r - Z.of_nat i) mod SCHEDI_FLOG_SIZE).
  assert (0 <= j < SCHEDI_FLOG_SIZE) as Hj by by apply Z.mod_pos_bound.
  destruct (lookup_lt_is_Some_2 (ring_events r) (Z.to_nat j)) as [ev Hjev]; [lia|].
  erewrite bind_done by (unfold reads; by rewrite Hjev). cbv beta.
  set (at_p := Z.to_nat (SCHEDI_FLOG_SIZE - 1 - Z.of_nat i)).
  destruct (IH ltac:(lia) (<[at_p := ev]> out)) as (out' & Hrun & Hlen & Hspec);
    [by rewrite length_insert|].
  exists out'. rewrite length_insert in Hlen. split_and!; [done..|].
  intros p Hp. rewrite (Hspec p Hp). case_decide; [by rewrite decide_True by lia|].
  destruct (decide (p = at_p)) as [->|Hne].
  - rewrite list_lookup_insert_eq by lia. rewrite decide_True by lia.
    rewrite <-Hjev. do 3 f_equal. lia.
  - rewrite list_lookup_insert_ne by done. rewrite decide_False by lia. done.
Qed.

Lemma ring_get_run r L out :
  ring_holds r L → Z.of_nat (length out) = SCHEDI_FLOG_SIZE →
  ∃ out', ring_get_loop (Z.to_nat SCHEDI_FLOG_SIZE) out r = Done out' r ∧
    (∀ d, 1 <= Z.of_nat d < SCHEDI_FLOG_SIZE → (d <= length L)%nat →
       out' !! Z.to_nat (SCHEDI_FLOG_SIZE - 1 - Z.of_nat d) = L !! (length L - d)%nat) ∧
    out' !! Z.to_nat (SCHEDI_FLOG_SIZE - 1) =
      if decide (SCHEDI_FLOG_SIZE <= Z.of_nat (length L))
      then L !! Z.to_nat (Z.of_nat (length L) - SCHEDI_FLOG_SIZE) else Some no_event.
Proof.
  intros (Hh & Hlen & Hlast & Hfresh) Hout.
  destruct (ring_get_loop_run r (Z.to_nat SCHEDI_FLOG_SIZE) out)
    as (out' & Hrun & _ & Hspec); [lia|done|done|].
  assert (∀ d, 0 <= Z.of_nat d < SCHEDI_FLOG_SIZE →
    out' !! Z.to_nat (SCHEDI_FLOG_SIZE - 1 - Z.of_nat d) =
    ring_events r !! Z.to_nat ((Z.of_nat (length L) - Z.of_nat d) mod SCHEDI_FLOG_SIZE))
    as Hat.
  { intros d Hd. rewrite Hspec by lia. rewrite decide_True by lia. do 2 f_equal.
    rewrite Hh. rewrite <-Zminus_mod_idemp_l, u32_mod_flog, Zminus_mod_idemp_l.
    f_equal. lia. }
  exists out'. split_and!; [done| |].
  - intros d Hd HdL. rewrite Hat by lia.
    destruct (lookup_lt_is_Some_2 L (length L - d)) as [ev Hev]; [lia|].
    rewrite Hev. rewrite <-(Hlast _ _ Hev) by lia. f_equal. unfold slot_of.
    do 2 f_equal. lia.
  - specialize (Hat O). rewrite Z.sub_0_r in Hat.
    rewrite Hat by (unfold SCHEDI_FLOG_SIZE; lia). rewrite Z.sub_0_r.
    case_decide as Hfull.
    + destruct (lookup_lt_is_Some_2 L (Z.to_nat (Z.of_nat (length L) - SCHEDI_FLOG_SIZE)))
        as [ev Hev]; [unfold SCHEDI_FLOG_SIZE in *; lia|].
      rewrite Hev, <-(Hlast _ _ Hev) by lia. f_equal. unfold slot_of. f_equal.
      rewrite Z2Nat.id by lia. rewrite <-(Z_mod_plus_full _ (-1)). f_equal; lia.
    + rewrite Z.mod_small, Nat2Z.id by lia. apply Hfresh; lia.
Qed.

(** Logging a sequence of events, each by the thread that logs it. *)
Definition log_events (L : list (Z * string * Z)) : M log_state unit :=
  foldr (λ '(t, m, p) k, schedi_flog t m p ≫= λ _, k) (mret ()) L.

Definition events_of (L : list (Z * string * Z)) : list schedi_flog_event :=
  (λ '(t, m, p), Event t (Some m) p) <$> L.

Lemma log_events_run s L0 L :
  ring_holds (flog_ring s) L0 →
  ∃ s', log_events L s = Done () s' ∧ ferr_ring s' = ferr_ring s ∧
        ring_holds (flog_ring s') (L0 ++ events_of L).
Proof.
  revert s L0. induction L as [|[[t m] p] L IH]; intros s L0 Hs; cbn.
  - exists s. by rewrite app_nil_r.
  - destruct (schedi_flog_explicit_run _ _ t m p Hs) as (r' & Hr & Hr').
    erewrite bind_done by by eapply zoom_done.
    destruct (IH (Log r' (ferr_ring s)) _ Hr') as (s' & ? & ? & ?).
    exists s'. split_and!; [done..|]. by rewrite (cons_middle _ L0), (app_assoc L0).
Qed.

(** The reader after any number of log calls: for every [d] from 1 to
    [SCHEDI_FLOG_SIZE - 1], the [d]-th newest event is copied to position
    [SCHEDI_FLOG_SIZE - 1 - d] (so the newest one is the second to last entry), and
    the last entry holds the oldest event still saved, or an empty event while the
    ring is not full. *)
Theorem schedi_flog_get_spec L out :
  Z.of_nat (length out) = SCHEDI_FLOG_SIZE →
  ∃ s out', log_events L log_init = Done () s ∧
    schedi_flog_get out s = Done out' s ∧
    (∀ d, 1 <= Z.of_nat d < SCHEDI_FLOG_SIZE → (d <= length L)%nat →
       out' !! Z.to_nat (SCHEDI_FLOG_SIZE - 1 - Z.of_nat d) =
         events_of L !! (length L - d)%nat) ∧
    out' !! Z.to_nat (SCHEDI_FLOG_SIZE - 1) =
      if decide (SCHEDI_FLOG_SIZE <= Z.of_nat (length L))
      then events_of L !! Z.to_nat (Z.of_nat (length L) - SCHEDI_FLOG_SIZE)
      else Some no_event.
Proof.
  intros Hout. destruct (log_events_run log_init [] L ring_init_holds)
    as (s & Hs & _ & Hr). rewrite app_nil_l in Hr.
  destruct (ring_get_run _ _ _ Hr Hout) as (out' & Hrun & Hnew & Hold).
  assert (length (events_of L) = length L) as E by apply length_fmap.
  rewrite E in Hnew, Hold.
  exists s, out'. split_and!; [done| |done|done].
  unfold schedi_flog_get, on_flog. rewrite (zoom_done _ _ _ _ _ _ Hrun). by destruct s.
Qed.

Lemma schedi_flog_get_spec_witness :
  ∃ s out', log_events [(7, "first"%string, 1); (8, "second"%string, 2)] log_init = Done () s ∧
    schedi_flog_get (replicate 4096 no_event) s = Done out' s ∧
    out' !! 4094%nat = Some (Event 8 (Some "second"%string) 2) ∧
    out' !! 4095%nat = Some no_event.
Proof.
  destruct (schedi_flog_get_spec [(7, "first"%string, 1); (8, "second"%string, 2)]
    (replicate 4096 no_event)) as (s & out' & H1 & H2 & H3 & H4).
  - by rewrite length_replicate.
  - exists s, out'. split; [exact H1|]. split; [exact H2|]. split.
    + change 4094%nat with (Z.to_nat (SCHEDI_FLOG_SIZE - 1 - Z.of_nat 1)).
      rewrite (H3 1%nat); [reflexivity|unfold SCHEDI_FLOG_SIZE; lia|cbn; lia].
    + change 4095%nat with (Z.to_nat (SCHEDI_FLOG_SIZE - 1)). rewrite H4.
      rewrite decide_False; [reflexivity|unfold SCHEDI_FLOG_SIZE; cbn; lia].
Defined.
