(* ===== verification/LogPrint.v ===== *)
(** * Printing the log (src/examples/logprinter.h)

    [LogPrint] copies the log out and prints what is in the copy.  Printing itself is left
    out: the function's result is the list of the events it prints, in order. *)

From S2P Require Export Log.
From stdpp Require Import strings.

Local Open Scope Z_scope.

(** [if (events[i].tid == 0) continue; printf(...)], for [i] from 0 up. *)
Fixpoint print_loop (events : list schedi_flog_event) : list schedi_flog_event :=
  match events with
  | [] => []
  | ev :: events => if tid ev =? 0 then print_loop events else ev :: print_loop events
  end.

(** [garbage] is what the local array holds at first. *)
Definition LogPrint (garbage : list schedi_flog_event) : M log_state (list schedi_flog_event) :=
  events ← schedi_flog_get garbage; mret (print_loop events).

(** ** What it prints *)

Lemma print_loop_app l1 l2 : print_loop (l1 ++ l2) = print_loop l1 ++ print_loop l2.
Proof. induction l1 as [|ev l1 IH]; cbn; [done|]. case_match; [done|]. by rewrite IH. Qed.
Lemma print_loop_empty n : print_loop (replicate n no_event) = [].
Proof. by induction n. Qed.
Lemma print_loop_all l : Forall (λ ev, tid ev ≠ 0) l → print_loop l = l.
Proof.
  induction 1 as [|ev l Hev _ IH]; cbn; [done|]. apply Z.eqb_neq in Hev. by rewrite Hev, IH.
Qed.

(** The copy of a ring after the events [L], as a list. *)
Definition ring_copy (L : list schedi_flog_event) : list schedi_flog_event :=
  let n := length L in
  if Z.of_nat n <? SCHEDI_FLOG_SIZE then replicate (4095 - n) no_event ++ L ++ [no_event]
  else drop (n - 4095) L ++ take 1 (drop (n - 4096) L).

Lemma length_ring_copy L : length (ring_copy L) = 4096%nat.
Proof.
  unfold ring_copy, SCHEDI_FLOG_SIZE. case_match eqn:E.
  - apply Z.ltb_lt in E. rewrite !length_app, length_replicate. cbn [length]. lia.
  - apply Z.ltb_ge in E. rewrite length_app, length_take, !length_drop. lia.
Qed.

Lemma ring_copy_lookup r L p :
  ring_holds r L → (p < 4096)%nat →
  ring_events r !! Z.to_nat ((ring_head r - (SCHEDI_FLOG_SIZE - 1 - Z.of_nat p)) mod SCHEDI_FLOG_SIZE) =
    ring_copy L !! p.
Proof.
  intros (Hh & Hlen & Hlast & Hfresh) Hp. rewrite Hh.
  rewrite <-Zminus_mod_idemp_l, u32_mod_flog, Zminus_mod_idemp_l.
  unfold ring_copy, SCHEDI_FLOG_SIZE in *. set (n := length L) in *.
  assert (∀ k, (k < n)%nat → Z.of_nat n <= Z.of_nat k + 4096 →
    (Z.of_nat n - (4096 - 1 - Z.of_nat p)) mod 4096 = Z.of_nat k mod 4096 →
    ring_events r !! Z.to_nat ((Z.of_nat n - (4096 - 1 - Z.of_nat p)) mod 4096) = L !! k) as Hk.
  { intros k Hkn Hko ->. destruct (lookup_lt_is_Some_2 L k Hkn) as [ev Hev]. rewrite Hev.
    by apply Hlast. }
  destruct (Z.ltb_spec (Z.of_nat n) 4096) as [Hn|Hn].
  - destruct (decide (p < 4095 - n)%nat) as [H1|H1].
    { rewrite lookup_app_l by (rewrite length_replicate; lia). rewrite lookup_replicate_2 by lia.
      replace ((Z.of_nat n - (4096 - 1 - Z.of_nat p)) mod 4096) with (Z.of_nat (n + 1 + p))
        by (apply Z.mod_unique with (-1); lia).
      rewrite Nat2Z.id. apply Hfresh; lia. }
    rewrite lookup_app_r by (rewrite length_replicate; lia). rewrite length_replicate.
    destruct (decide (p < 4095)%nat) as [H2|H2].
    + rewrite lookup_app_l by (fold n; lia). apply Hk; [lia|lia|]. f_equal. lia.
    + rewrite lookup_app_r by (fold n; lia). fold n. assert (p = 4095)%nat as -> by lia.
      replace (4095 - (4095 - n) - n)%nat with 0%nat by lia. cbn [lookup list_lookup].
      rewrite Z.mod_small, (Hfresh (Z.to_nat _)) by lia. done.
  - destruct (decide (p < 4095)%nat) as [H2|H2].
    + rewrite lookup_app_l by (rewrite length_drop; fold n; lia). rewrite lookup_drop.
      apply Hk; [lia|lia|]. f_equal. lia.
    + rewrite lookup_app_r by (rewrite length_drop; fold n; lia). rewrite length_drop. fold n.
      replace (p - (n - (n - 4095)))%nat with 0%nat by lia. rewrite lookup_take_lt by lia.
      rewrite lookup_drop. apply Hk; [lia|lia|].
      rewrite <-(Z_mod_plus_full (Z.of_nat (n - 4096 + 0)) 1). f_equal. lia.
Qed.

Lemma flog_get_list r L garbage :
  ring_holds r L → Z.of_nat (length garbage) = SCHEDI_FLOG_SIZE →
  ring_get_loop (Z.to_nat SCHEDI_FLOG_SIZE) garbage r = Done (ring_copy L) r.
Proof.
  intros Hr Hg. destruct (ring_get_loop_run r (Z.to_nat SCHEDI_FLOG_SIZE) garbage)
    as (out & Hrun & Hlen & Hspec); [lia|done|apply Hr|].
  rewrite Hrun. f_equal. apply list_eq_same_length with 4096%nat; [apply length_ring_copy| |].
  { unfold SCHEDI_FLOG_SIZE in Hg. lia. }
  intros p ev1 ev2 Hp H1 H2. unfold SCHEDI_FLOG_SIZE in Hspec. rewrite Hspec in H1 by lia.
  rewrite decide_True in H1 by lia. pose proof (ring_copy_lookup r L p Hr Hp) as E.
  unfold SCHEDI_FLOG_SIZE in E. congruence.
Qed.

Lemma log_printed L garbage :
  Z.of_nat (length garbage) = SCHEDI_FLOG_SIZE → Forall (λ '(t, _, _), t ≠ 0) L →
  ∃ s, log_events L log_init = Done () s ∧
    LogPrint garbage s = Done (let n := length L in
      if Z.of_nat n <? SCHEDI_FLOG_SIZE then events_of L
      else drop (n - 4095) (events_of L) ++ take 1 (drop (n - 4096) (events_of L))) s.
Proof.
  intros Hg HL. destruct (log_events_run log_init [] L ring_init_holds) as (s & Hs & _ & Hr).
  rewrite app_nil_l in Hr. exists s. split; [done|].
  assert (Forall (λ ev, tid ev ≠ 0) (events_of L)) as Htid.
  { apply Forall_fmap. eapply Forall_impl; [exact HL|]. by intros [[t m] p]. }
  assert (schedi_flog_get garbage s = Done (ring_copy (events_of L)) s) as Hget.
  { unfold schedi_flog_get, on_flog.
    rewrite (zoom_done _ _ _ _ _ _ (flog_get_list _ _ _ Hr Hg)). by destruct s. }
  unfold LogPrint. bind_by exact Hget. unfold mret, M_ret. f_equal. unfold ring_copy.
  assert (length (events_of L) = length L) as -> by apply length_fmap.
  case_match; rewrite ?print_loop_app.
  - rewrite print_loop_empty, (print_loop_all _ Htid). cbn. by rewrite app_nil_r.
  - rewrite !print_loop_all; [done|by apply Forall_take, Forall_drop|by apply Forall_drop].
Qed.

(** C32: the log printer, as long as the ring is not full.  After fewer than 4096 events, by
    threads whose number is not 0, [LogPrint] prints exactly these, oldest first, and nothing
    of what its array held before. *)
Theorem LogPrint_spec L garbage :
  Z.of_nat (length garbage) = SCHEDI_FLOG_SIZE → Forall (λ '(t, _, _), t ≠ 0) L →
  Z.of_nat (length L) < SCHEDI_FLOG_SIZE →
  ∃ s, log_events L log_init = Done () s ∧ LogPrint garbage s = Done (events_of L) s.
Proof.
  intros Hg HL Hn. destruct (log_printed L garbage Hg HL) as (s & Hs & Hp). exists s.
  split; [done|]. rewrite Hp. cbv zeta. by rewrite (proj2 (Z.ltb_lt _ _) Hn).
Qed.

(** From then on the order is not the documented one: log.h promises the last event in the
    last place of the array and the oldest in the first; the newest 4095 come first, in
    order, and the oldest event that is still saved comes after them, in the last place. *)
Theorem full_log_order L garbage :
  Z.of_nat (length garbage) = SCHEDI_FLOG_SIZE → Forall (λ '(t, _, _), t ≠ 0) L →
  SCHEDI_FLOG_SIZE <= Z.of_nat (length L) →
  ∃ s, log_events L log_init = Done () s ∧
    LogPrint garbage s = Done (drop (length L - 4095) (events_of L) ++
      take 1 (drop (length L - 4096) (events_of L))) s.
Proof.
  intros Hg HL Hn. destruct (log_printed L garbage Hg HL) as (s & Hs & Hp). exists s.
  split; [done|]. rewrite Hp. cbv zeta. by rewrite (proj2 (Z.ltb_ge _ _) Hn).
Qed.

Lemma LogPrint_spec_witness :
  ∃ s, log_events [(7, "first"%string, 1); (8, "second"%string, 2)] log_init = Done () s ∧
    LogPrint (replicate 4096 no_event) s =
      Done [Event 7 (Some "first"%string) 1; Event 8 (Some "second"%string) 2] s.
Proof.
  apply (LogPrint_spec [(7, "first"%string, 1); (8, "second"%string, 2)] (replicate 4096 no_event)).
  - by rewrite length_replicate.
  - by repeat constructor.
  - by vm_compute.
Defined.
