(* ===== verification/ThreadNames.v ===== *)
(** * Names for threads in the log (src/src/log.c, builds with SCHEDI_LOG_NAMED_THREADS)

    A table of 32 entries maps the threads that logged something to names; a thread that
    is new takes the next of the 20 names of [thread_names].  A name is its index there. *)

From S2P Require Export Prelude.

Local Open Scope nat_scope.

Definition SCHEDI_MAX_UNIQUE_THREAD_COUNT : nat := 32.
(** The number of names [thread_names] is initialised with. *)
Definition thread_names : nat := 20.

Record naming : Type := Naming { pt : Z; name : option nat }.

(** [ThreadNamings] and [ntn]. *)
Record namings : Type := Namings { ThreadNamings : list naming; ntn : nat }.

(** The loop: the index it ends with, and whether the thread is there. *)
Fixpoint find_naming (tid : Z) (i : nat) (table : list naming) : nat * option (option nat) :=
  match table with
  | [] => (i, None)
  | e :: table =>
      if (pt e =? tid)%Z then (i, Some (name e))
      else if (pt e =? 0)%Z then (i, None)
      else find_naming tid (S i) table
  end.

Definition GetThreadName (tid : Z) : M namings (option nat) :=
  table ← gets ThreadNamings;
  let '(i, found) := find_naming tid 0 table in
  match found with
  | Some n => mret n
  | None =>
      n ← gets ntn;
      if decide (i < length table ∧ n < thread_names) then
        modify (λ _, Namings (<[i := Naming tid (Some n)]> table) (S n)) ≫= λ _,
        mret (Some n)
      else undef
  end.

(** ** The table after the threads [known] came in that order *)

Definition empty_naming : naming := Naming 0 None.
Definition table_of (known : list Z) : namings :=
  Namings (imap (λ i t, Naming t (Some i)) known ++
    replicate (SCHEDI_MAX_UNIQUE_THREAD_COUNT - length known) empty_naming) (length known).

(** The entry of a thread, if it has one. *)
Fixpoint position (tid : Z) (known : list Z) : option nat :=
  match known with
  | [] => None
  | t :: known => if decide (t = tid) then Some 0 else S <$> position tid known
  end.

Lemma position_spec tid known i : position tid known = Some i → known !! i = Some tid.
Proof.
  revert i. induction known as [|t known IH]; intros i; cbn; [done|].
  case_decide as Ht; [intros [= <-]; by rewrite Ht|].
  destruct (position tid known) as [k|]; [|done]. intros [= <-]. by apply IH.
Qed.

Lemma position_none tid known : position tid known = None ↔ tid ∉ known.
Proof.
  induction known as [|t known IH]; cbn; [split; [intros _; apply not_elem_of_nil|done]|].
  case_decide as Ht; [subst; split; [done|intros Hn; destruct Hn; left]|].
  rewrite fmap_None, IH, not_elem_of_cons. naive_solver.
Qed.

Lemma find_table tid known k i n :
  (tid ≠ 0)%Z → (0%Z ∉ known) →
  find_naming tid i (imap (λ m t, Naming t (Some (k + m))) known ++ replicate n empty_naming) =
    match position tid known with
    | Some p => (i + p, Some (Some (k + p)))
    | None => (i + length known, None)
    end.
Proof.
  intros Ht. revert k i. induction known as [|t known IH]; intros k i H0.
  { cbn. rewrite Nat.add_0_r. destruct n as [|n]; [done|]. by destruct tid. }
  apply not_elem_of_cons in H0 as [Hz Hk]. rewrite imap_cons.
  cbn [app find_naming pt name position length].
  case_decide as Hd.
  { subst t. by rewrite Z.eqb_refl, !Nat.add_0_r. }
  rewrite (proj2 (Z.eqb_neq t tid)) by done. rewrite (proj2 (Z.eqb_neq t 0)) by congruence.
  rewrite (imap_ext _ (λ m t, Naming t (Some (S k + m))))
    by (intros; cbn; do 2 f_equal; lia).
  rewrite IH by done. destruct (position tid known); cbn; repeat f_equal; lia.
Qed.

Lemma find_known tid known :
  (tid ≠ 0)%Z → (0%Z ∉ known) →
  find_naming tid 0 (ThreadNamings (table_of known)) =
    match position tid known with
    | Some p => (p, Some (Some p))
    | None => (length known, None)
    end.
Proof. intros Ht Hz. exact (find_table tid known 0 0 _ Ht Hz). Qed.

Lemma length_table known :
  length known ≤ thread_names →
  length (ThreadNamings (table_of known)) = SCHEDI_MAX_UNIQUE_THREAD_COUNT.
Proof.
  intros Hlen. cbn. rewrite length_app, length_imap, length_replicate.
  unfold SCHEDI_MAX_UNIQUE_THREAD_COUNT, thread_names in *. lia.
Qed.

Lemma table_snoc known tid :
  length known < SCHEDI_MAX_UNIQUE_THREAD_COUNT →
  <[length known := Naming tid (Some (length known))]> (ThreadNamings (table_of known)) =
    ThreadNamings (table_of (known ++ [tid])).
Proof.
  intros Hlt. cbn. rewrite imap_app, length_app. cbn.
  rewrite <-(length_imap (λ i t, Naming t (Some i)) known) at 1.
  unfold SCHEDI_MAX_UNIQUE_THREAD_COUNT in Hlt.
  destruct (32 - length known) as [|m] eqn:Em; [lia|].
  replace (32 - (length known + 1)) with m by lia.
  rewrite insert_app_r_alt by lia. rewrite Nat.sub_diag. cbn.
  rewrite <-app_assoc. cbn. by rewrite Nat.add_0_r.
Qed.

Lemma get_name_run tid known :
  (tid ≠ 0)%Z → (0%Z ∉ known) → length known ≤ thread_names →
  GetThreadName tid (table_of known) =
    match position tid known with
    | Some p => Done (Some p) (table_of known)
    | None =>
        if decide (length known < thread_names)
        then Done (Some (length known)) (table_of (known ++ [tid]))
        else Undef
    end.
Proof.
  intros Ht Hz Hlen. unfold GetThreadName. bind_by done. rewrite find_known by done.
  destruct (position tid known) as [p|]; [done|]. bind_by done.
  rewrite length_table by done. change (ntn (table_of known)) with (length known).
  destruct (decide (length known < thread_names)) as [Hlt|Hge].
  - assert (length known < SCHEDI_MAX_UNIQUE_THREAD_COUNT) as Hroom
      by (unfold SCHEDI_MAX_UNIQUE_THREAD_COUNT, thread_names in *; lia).
    rewrite decide_True by done. bind_by done. rewrite table_snoc by done.
    assert (S (length known) = ntn (table_of (known ++ [tid]))) as ->
      by (cbn; rewrite length_app; cbn; lia).
    by destruct (table_of _).
  - rewrite decide_False by naive_solver. done.
Qed.

(** ** The properties *)

(** Every log call of a sequence of threads. *)
Fixpoint names_of (tids : list Z) : M namings (list (option nat)) :=
  match tids with
  | [] => mret []
  | t :: ts => n ← GetThreadName t; ns ← names_of ts; mret (n :: ns)
  end.

(** The threads in the order of their first call. *)
Fixpoint arrivals (known tids : list Z) : list Z :=
  match tids with
  | [] => known
  | t :: ts => arrivals (if decide (t ∈ known) then known else known ++ [t]) ts
  end.

Lemma arrivals_prefix tids known : ∃ more, arrivals known tids = known ++ more.
Proof.
  revert known. induction tids as [|t tids IH]; intros known; cbn.
  { exists []. by rewrite app_nil_r. }
  case_decide; [apply IH|]. destruct (IH (known ++ [t])) as [more ->].
  exists (t :: more). by rewrite <-app_assoc.
Qed.

Lemma position_app tid known more p :
  position tid known = Some p → position tid (known ++ more) = Some p.
Proof.
  revert p. induction known as [|t known IH]; intros p; cbn; [done|]. case_decide; [done|].
  destruct (position tid known) as [q|]; [|done]. by rewrite (IH q).
Qed.

Lemma position_last tid known :
  tid ∉ known → position tid (known ++ [tid]) = Some (length known).
Proof.
  induction known as [|t known IH]; cbn; [by rewrite decide_True|].
  intros [Hne Hk]%not_elem_of_cons. rewrite decide_False by congruence. by rewrite IH.
Qed.

Lemma names_run tids known :
  (0%Z ∉ tids) → (0%Z ∉ known) → length (arrivals known tids) ≤ thread_names →
  names_of tids (table_of known) =
    Done ((λ t, position t (arrivals known tids)) <$> tids) (table_of (arrivals known tids)).
Proof.
  revert known. induction tids as [|t tids IH]; intros known Hz Hk Hlen; [done|].
  apply not_elem_of_cons in Hz as [Hzt Hz]. cbn [names_of arrivals] in *.
  rewrite fmap_cons. destruct (decide (t ∈ known)) as [Hin|Hni].
  - destruct (arrivals_prefix tids known) as [more Hmore].
    pose proof Hlen as Hl. rewrite Hmore, length_app in Hl.
    destruct (position t known) as [p|] eqn:Ep; [|by apply position_none in Ep].
    bind_by (by rewrite get_name_run, Ep by (done || lia)). bind_by (by apply IH).
    rewrite Hmore, (position_app _ _ _ p) by done. done.
  - destruct (arrivals_prefix tids (known ++ [t])) as [more Hmore].
    pose proof Hlen as Hl. rewrite Hmore, !length_app in Hl. cbn in Hl.
    pose proof (proj2 (position_none t known) Hni) as Ep.
    bind_by (rewrite get_name_run, Ep, decide_True by (done || lia); reflexivity).
    bind_by (apply IH; [done| |done]; rewrite elem_of_app, list_elem_of_singleton; naive_solver).
    rewrite Hmore at 2. rewrite (position_app _ _ _ (length known)) by by apply position_last.
    done.
Qed.

(** As long as at most 20 threads log, every call returns a name, the one that the
    arrival order of its thread selects: a thread keeps its name, and two threads never
    share one. *)
Theorem thread_names_spec tids :
  (0%Z ∉ tids) → length (arrivals [] tids) ≤ thread_names →
  names_of tids (table_of []) =
    Done ((λ t, position t (arrivals [] tids)) <$> tids) (table_of (arrivals [] tids)) ∧
  ∀ t t' p, position t (arrivals [] tids) = Some p → position t' (arrivals [] tids) = Some p →
    t = t'.
Proof.
  intros Hz Hlen. split.
  - apply names_run; [done|apply not_elem_of_nil|done].
  - intros t t' p Hp%position_spec Hp'%position_spec. congruence.
Qed.

(** The 21st thread that logs reads past the 20 names of [thread_names], although the
    table has room for 32 threads. *)
Theorem thread_21_out_of_bounds known tid :
  (tid ≠ 0)%Z → (0%Z ∉ known) → tid ∉ known → length known = thread_names →
  GetThreadName tid (table_of known) = Undef ∧
  length known < length (ThreadNamings (table_of known)).
Proof.
  intros Ht Hz Hni Hlen. split.
  - rewrite get_name_run by (done || lia). rewrite (proj2 (position_none _ _) Hni).
    rewrite decide_False by lia. done.
  - rewrite length_table by lia. rewrite Hlen.
    unfold thread_names, SCHEDI_MAX_UNIQUE_THREAD_COUNT. lia.
Qed.

Lemma thread_names_spec_witness :
  names_of [7; 9; 7]%Z (table_of []) =
    Done ((λ t, position t [7; 9]%Z) <$> [7; 9; 7]%Z) (table_of [7; 9]%Z) ∧
  ∀ t t' p, position t [7; 9]%Z = Some p → position t' [7; 9]%Z = Some p → t = t'.
Proof.
  apply (thread_names_spec [7; 9; 7]%Z).
  - apply (bool_decide_unpack _). vm_compute. exact I.
  - apply (bool_decide_unpack _). vm_compute. exact I.
Defined.

Lemma thread_21_out_of_bounds_witness :
  let known := Z.of_nat <$> seq 1 20 in
  GetThreadName 21 (table_of known) = Undef ∧
  length known < length (ThreadNamings (table_of known)).
Proof.
  intros known. apply (thread_21_out_of_bounds known 21); try done.
  - apply (bool_decide_unpack _). vm_compute. exact I.
  - apply (bool_decide_unpack _). vm_compute. exact I.
Defined.
