(* ===== verification/SlotPool.v ===== *)
(** * The free-slot pool of the job array (src/src/jobs.c, sections)

    Free slots are tracked as half-open intervals [[a, b)] in a fixed table of 64
    sections.  Claiming takes the first slot of the first active section;
    releasing grows a section that borders the slot, or opens a new one, or, when
    the table is full, raises a warning flag and forgets the slot. *)

From S2P Require Export Words.

Local Open Scope nat_scope.

Definition SCHEDI_MAXIMUM_JOBS : nat := 256.
Definition SCHEDI_MAXIMUM_EMPTY_SECTIONS : nat := 64.
Definition SCHEDI_JOB_ARRAY_SECTION_WARN : Z := 1.
Definition SCHEDI_JOB_ARRAY_FULL : Z := 4.

(** [struct schedi_section]. *)
Record schedi_section : Type := Sec { sec_a : nat; sec_b : nat; active : bool }.

#[export] Instance schedi_section_eq_dec : EqDecision schedi_section.
Proof. solve_decision. Defined.

(** The part of [struct schedi_job_array] the pool works on. *)
Record slot_pool : Type := Pool {
  empty_sections : list schedi_section;
  section_lock : bool;
  pool_flags : Z;
}.

Definition set_sections (ss : list schedi_section) (p : slot_pool) : slot_pool :=
  Pool ss (section_lock p) (pool_flags p).
Definition set_section_lock (b : bool) (p : slot_pool) : slot_pool :=
  Pool (empty_sections p) b (pool_flags p).
Definition set_pool_flags (f : Z) (p : slot_pool) : slot_pool :=
  Pool (empty_sections p) (section_lock p) f.

Definition no_section : schedi_section := Sec 0 0 false.

(** The static table before [sections_init]. *)
Definition sections_zero : list schedi_section :=
  replicate SCHEDI_MAXIMUM_EMPTY_SECTIONS no_section.

Definition sections_init : M slot_pool unit :=
  modify (λ p, set_sections
    (<[0 := Sec 0 SCHEDI_MAXIMUM_JOBS true]> (empty_sections p)) p).

(** The loop of [section_claim]: the claimed index and the table after it. *)
Fixpoint claim_loop (ss : list schedi_section) : option (nat * list schedi_section) :=
  match ss with
  | [] => None
  | s :: ss' =>
      if negb (active s) then
        match claim_loop ss' with
        | Some (idx, ss'') => Some (idx, s :: ss'')
        | None => None
        end
      else
        let idx := sec_a s in
        let a := sec_a s + 1 in
        Some (idx, Sec a (sec_b s) (if sec_b s <=? a then false else active s) :: ss')
  end.

(** [section_claim] without its store to the claimed job (Jobs.v adds it). *)
Definition section_claim : M slot_pool (option nat) :=
  pthread_mutex_lock section_lock set_section_lock ≫= λ _,
  ss ← gets empty_sections;
  match claim_loop ss with
  | Some (idx, ss') =>
      modify (set_sections ss') ≫= λ _,
      pthread_mutex_unlock section_lock set_section_lock ≫= λ _,
      mret (Some idx)
  | None =>
      pthread_mutex_unlock section_lock set_section_lock ≫= λ _,
      mret None
  end.

(** The first loop of [section_release]: [None] is [merged = 0]. *)
Fixpoint merge_loop (idx : nat) (ss : list schedi_section)
    : option (list schedi_section) :=
  match ss with
  | [] => None
  | s :: ss' =>
      if negb (active s) then cons s <$> merge_loop idx ss'
      else if decide (idx + 1 = sec_a s) then
        Some (Sec idx (sec_b s) (active s) :: ss')
      else if decide (sec_b s = idx) then
        Some (Sec (sec_a s) (idx + 1) (active s) :: ss')
      else cons s <$> merge_loop idx ss'
  end.

(** The second loop: the first inactive section becomes [[idx, idx + 1)]. *)
Fixpoint open_loop (idx : nat) (ss : list schedi_section)
    : option (list schedi_section) :=
  match ss with
  | [] => None
  | s :: ss' =>
      if active s then cons s <$> open_loop idx ss'
      else Some (Sec idx (idx + 1) true :: ss')
  end.

Definition section_release (idx : nat) : M slot_pool unit :=
  pthread_mutex_lock section_lock set_section_lock ≫= λ _,
  ss ← gets empty_sections;
  match merge_loop idx ss with
  | Some ss' =>
      modify (set_sections ss') ≫= λ _,
      pthread_mutex_unlock section_lock set_section_lock
  | None =>
      match open_loop idx ss with
      | Some ss' =>
          modify (set_sections ss') ≫= λ _,
          pthread_mutex_unlock section_lock set_section_lock
      | None =>
          modify (λ p, set_pool_flags
            (Z.lor (pool_flags p) SCHEDI_JOB_ARRAY_SECTION_WARN) p) ≫= λ _,
          pthread_mutex_unlock section_lock set_section_lock
      end
  end.

(** ** The set of free slots a table represents *)

Definition section_set (s : schedi_section) : gset nat :=
  if active s then set_seq (sec_a s) (sec_b s - sec_a s) else ∅.

Definition free_slots (ss : list schedi_section) : gset nat :=
  ⋃ (section_set <$> ss).

Lemma elem_of_section_set s i :
  i ∈ section_set s ↔ active s = true ∧ sec_a s ≤ i < sec_b s.
Proof.
  unfold section_set. destruct (active s).
  - rewrite elem_of_set_seq. intuition lia.
  - rewrite elem_of_empty. intuition congruence.
Qed.

Lemma free_slots_nil : free_slots [] = ∅.
Proof. done. Qed.

Lemma free_slots_cons s ss : free_slots (s :: ss) = section_set s ∪ free_slots ss.
Proof. done. Qed.

(** A well-formed table: its active sections are non-empty, inside the array and
    pairwise disjoint. *)
Definition section_ok (s : schedi_section) : Prop :=
  active s = true → sec_a s < sec_b s ≤ SCHEDI_MAXIMUM_JOBS.

Fixpoint sections_ok (ss : list schedi_section) : Prop :=
  match ss with
  | [] => True
  | s :: ss' => section_ok s ∧ section_set s ## free_slots ss' ∧ sections_ok ss'
  end.

Definition pool_ok (p : slot_pool) : Prop :=
  length (empty_sections p) = SCHEDI_MAXIMUM_EMPTY_SECTIONS ∧
  sections_ok (empty_sections p).

Definition pool_free (p : slot_pool) : gset nat := free_slots (empty_sections p).

Lemma sections_ok_bound ss i :
  sections_ok ss → i ∈ free_slots ss → i < SCHEDI_MAXIMUM_JOBS.
Proof.
  induction ss as [|s ss IH]; cbn [sections_ok].
  - rewrite free_slots_nil. set_solver.
  - rewrite free_slots_cons, elem_of_union, elem_of_section_set.
    intros (Hs & _ & Hss) [[Ha Hi]|Hi]; [|by apply IH].
    specialize (Hs Ha). lia.
Qed.

(** ** Claiming *)

Lemma claim_loop_none ss :
  claim_loop ss = None → sections_ok ss → free_slots ss = ∅.
Proof.
  induction ss as [|s ss IH]; cbn [claim_loop sections_ok]; [done|].
  destruct (active s) eqn:Ha; cbn [negb]; [done|].
  destruct (claim_loop ss) as [[idx ss']|]; [done|]. intros _ (_ & _ & Hss).
  rewrite free_slots_cons, IH by done. unfold section_set. rewrite Ha. set_solver.
Qed.

Lemma claim_loop_some ss idx ss' :
  claim_loop ss = Some (idx, ss') → sections_ok ss →
  idx ∈ free_slots ss ∧ free_slots ss' = free_slots ss ∖ {[idx]} ∧
  sections_ok ss' ∧ length ss' = length ss.
Proof.
  revert ss'. induction ss as [|s ss IH]; intros ss'; cbn [claim_loop sections_ok]; [done|].
  destruct (active s) eqn:Ha; cbn [negb].
  - intros [= <- <-] (Hs & Hdis & Hss). specialize (Hs Ha).
    set (s' := Sec _ _ _).
    assert (∀ i, i ∈ section_set s' ↔ i ∈ section_set s ∧ i ≠ sec_a s) as Hs'.
    { intros i. rewrite !elem_of_section_set, Ha. unfold s'. cbn.
      case_match; [apply leb_complete in H|apply leb_complete_conv in H]; intuition (lia || congruence). }
    rewrite !free_slots_cons. cbn [sections_ok length].
    assert (sec_a s ∈ section_set s) as Hin by (apply elem_of_section_set; lia || (split; [done|lia])).
    split_and!; [set_solver|set_solver| |set_solver|done|done].
    intros Hact. unfold s' in *. cbn in *.
    case_match; [done|]. apply leb_complete_conv in H. lia.
  - destruct (claim_loop ss) as [[i ss'']|] eqn:Hc; [|done].
    intros [= <- <-] (Hs & Hdis & Hss). destruct (IH ss'') as (? & Hf & ? & ?); [done..|].
    rewrite !free_slots_cons, Hf. cbn [sections_ok length].
    assert (section_set s = ∅) as -> by (unfold section_set; by rewrite Ha).
    split_and!; [set_solver|set_solver|done|set_solver|done|lia].
Qed.

(** ** Releasing *)

Lemma merge_loop_some idx ss ss' :
  merge_loop idx ss = Some ss' → sections_ok ss →
  idx < SCHEDI_MAXIMUM_JOBS → idx ∉ free_slots ss →
  free_slots ss' = {[idx]} ∪ free_slots ss ∧ sections_ok ss' ∧ length ss' = length ss.
Proof.
  intros Hm Hok Hidx Hfree. revert ss' Hm.
  induction ss as [|s ss IH]; intros ss'; cbn [merge_loop]; [done|].
  destruct Hok as (Hs & Hdis & Hss). rewrite free_slots_cons in Hfree.
  assert (∀ s', active s = true → active s' = true →
    (∀ i, i ∈ section_set s' ↔ i = idx ∨ i ∈ section_set s) →
    sec_a s' < sec_b s' ≤ SCHEDI_MAXIMUM_JOBS →
    free_slots (s' :: ss) = {[idx]} ∪ free_slots (s :: ss) ∧
    sections_ok (s' :: ss) ∧ length (s' :: ss) = length (s :: ss)) as Hgrow.
  { intros s' Ha Ha' Hset Hb. rewrite !free_slots_cons. cbn [sections_ok].
    split_and!; [set_solver|by intros _|set_solver|done|done]. }
  assert (∀ ss'', merge_loop idx ss = Some ss'' →
    free_slots (s :: ss'') = {[idx]} ∪ free_slots (s :: ss) ∧
    sections_ok (s :: ss'') ∧ length (s :: ss'') = length (s :: ss)) as Hskip.
  { intros ss'' Hm. destruct (IH Hss ltac:(set_solver) _ Hm) as (Hf & ? & ?).
    rewrite !free_slots_cons, Hf. cbn [sections_ok length]. rewrite Hf.
    split_and!; [set_solver|done|set_solver|done|lia]. }
  destruct (active s) eqn:Ha; cbn [negb].
  - specialize (Hs Ha). repeat case_decide; intros [= <-] || intros Hm.
    + apply Hgrow; [done|done| |cbn; lia].
      intros i. rewrite !elem_of_section_set, Ha. cbn. intuition lia.
    + apply Hgrow; [done|done| |cbn; lia].
      intros i. rewrite !elem_of_section_set, Ha. cbn. intuition lia.
    + apply fmap_Some in Hm as (ss'' & Hm & ->). by apply Hskip.
  - intros Hm. apply fmap_Some in Hm as (ss'' & Hm & ->). by apply Hskip.
Qed.

Lemma open_loop_some idx ss ss' :
  open_loop idx ss = Some ss' → sections_ok ss →
  idx < SCHEDI_MAXIMUM_JOBS → idx ∉ free_slots ss →
  free_slots ss' = {[idx]} ∪ free_slots ss ∧ sections_ok ss' ∧ length ss' = length ss.
Proof.
  intros Hm Hok Hidx Hfree. revert ss' Hm.
  induction ss as [|s ss IH]; intros ss'; cbn [open_loop]; [done|].
  destruct Hok as (Hs & Hdis & Hss). rewrite free_slots_cons in Hfree.
  destruct (active s) eqn:Ha.
  - intros Hm. apply fmap_Some in Hm as (ss'' & Hm & ->).
    destruct (IH Hss ltac:(set_solver) _ Hm) as (Hf & ? & ?).
    rewrite !free_slots_cons. cbn [sections_ok length]. rewrite Hf.
    split_and!; [set_solver|done|set_solver|done|lia].
  - intros [= <-]. rewrite !free_slots_cons. cbn [sections_ok length].
    assert (section_set s = ∅) as -> by (unfold section_set; by rewrite Ha).
    assert (section_set (Sec idx (idx + 1) true) = {[idx]}) as ->.
    { apply set_eq. intros i. rewrite elem_of_section_set. cbn.
      rewrite elem_of_singleton. intuition lia. }
    split_and!; [set_solver|intros _; cbn; lia|set_solver|done|done].
Qed.

Lemma open_loop_none idx ss :
  open_loop idx ss = None ↔ Forall (λ s, active s = true) ss.
Proof.
  induction ss as [|s ss IH]; cbn [open_loop].
  - split; [by constructor|done].
  - rewrite Forall_cons, <-IH. destruct (active s); [|naive_solver].
    rewrite fmap_None. naive_solver.
Qed.

(** No active section borders the slot when the first loop merges nothing. *)
Lemma merge_loop_none idx ss :
  merge_loop idx ss = None →
  Forall (λ s, active s = true → idx + 1 ≠ sec_a s ∧ sec_b s ≠ idx) ss.
Proof.
  induction ss as [|s ss IH]; cbn [merge_loop]; [by constructor|].
  destruct (active s) eqn:Ha; cbn [negb].
  - repeat case_decide; try done. rewrite fmap_None. intros Hm.
    constructor; [done|by apply IH].
  - rewrite fmap_None. intros Hm. constructor; [congruence|by apply IH].
Qed.

(** ** The two operations on the whole pool *)

(** A pool nobody is operating on. *)
Definition pool_ready (p : slot_pool) : Prop := pool_ok p ∧ section_lock p = false.

Lemma pool_ready_intro (ss ss' : list schedi_section) fl :
  length ss = SCHEDI_MAXIMUM_EMPTY_SECTIONS → length ss' = length ss →
  sections_ok ss' → pool_ready (Pool ss' false fl).
Proof. intros Hl Hl' Hok. split; [split; [exact (eq_trans Hl' Hl)|done]|done]. Qed.

Lemma section_claim_run p :
  pool_ready p →
  ∃ r p', section_claim p = Done r p' ∧ pool_ready p' ∧ pool_flags p' = pool_flags p ∧
    match r with
    | Some idx => idx ∈ pool_free p ∧ pool_free p' = pool_free p ∖ {[idx]}
    | None => pool_free p = ∅ ∧ p' = p
    end.
Proof.
  destruct p as [ss lk fl]. intros [[Hlen Hok] Hlk]. cbn in Hlen, Hok, Hlk. subst lk.
  unfold section_claim. erewrite bind_done by done. erewrite bind_done by done.
  cbn [empty_sections set_section_lock].
  destruct (claim_loop ss) as [[idx ss']|] eqn:Hc.
  - destruct (claim_loop_some _ _ _ Hc Hok) as (Hin & Hfree & Hok' & Hlen').
    exists (Some idx), (Pool ss' false fl).
    split; [done|]. split; [by eapply pool_ready_intro|]. done.
  - exists None, (Pool ss false fl).
    split; [done|]. split; [by eapply pool_ready_intro|].
    split; [done|]. split; [|done]. by apply claim_loop_none.
Qed.

Lemma section_release_run p idx :
  pool_ready p → idx < SCHEDI_MAXIMUM_JOBS → idx ∉ pool_free p →
  ∃ p', section_release idx p = Done () p' ∧ pool_ready p' ∧
    ((pool_free p' = {[idx]} ∪ pool_free p ∧ pool_flags p' = pool_flags p) ∨
     (p' = set_pool_flags (Z.lor (pool_flags p) SCHEDI_JOB_ARRAY_SECTION_WARN) p ∧
      Forall (λ s, active s = true ∧ sec_a s ≠ idx + 1 ∧ sec_b s ≠ idx)
        (empty_sections p))).
Proof.
  destruct p as [ss lk fl]. intros [[Hlen Hok] Hlk] Hidx Hnot. cbn in Hlen, Hok, Hlk. subst lk.
  unfold section_release. erewrite bind_done by done. erewrite bind_done by done.
  cbn [empty_sections set_section_lock]. unfold pool_free in *. cbn [empty_sections] in *.
  destruct (merge_loop idx ss) as [ss'|] eqn:Hm.
  - destruct (merge_loop_some _ _ _ Hm Hok Hidx Hnot) as (Hfree & Hok' & Hlen').
    exists (Pool ss' false fl).
    split; [done|]. split; [by eapply pool_ready_intro|]. by left.
  - destruct (open_loop idx ss) as [ss'|] eqn:Ho.
    + destruct (open_loop_some _ _ _ Ho Hok Hidx Hnot) as (Hfree & Hok' & Hlen').
      exists (Pool ss' false fl).
      split; [done|]. split; [by eapply pool_ready_intro|]. by left.
    + eexists. split; [done|]. split; [by eapply pool_ready_intro|].
      right. split; [done|].
      apply open_loop_none in Ho. apply merge_loop_none in Hm.
      rewrite Forall_forall in Ho, Hm |- *. intros s Hs.
      destruct (Hm s Hs (Ho s Hs)). auto.
Qed.

(** A claim returns, leaves the lock free and the table well formed, and hands
    out a slot that was free, which is then not free; it fails exactly when no
    slot is free, and then changes nothing. *)
Theorem section_claim_spec p :
  pool_ready p →
  wp section_claim (λ r p', pool_ready p' ∧ pool_flags p' = pool_flags p ∧
    match r with
    | Some idx => idx ∈ pool_free p ∧ idx < SCHEDI_MAXIMUM_JOBS ∧
                  pool_free p' = pool_free p ∖ {[idx]}
    | None => pool_free p = ∅ ∧ p' = p
    end) p.
Proof.
  intros Hp. destruct (section_claim_run p Hp) as (r & p' & Hrun & Hp' & Hfl & Hr).
  eapply wp_run; [done|]. split_and!; [done..|]. destruct r as [idx|]; [|done].
  destruct Hr. split_and!; [done| |done]. destruct Hp as [[_ Hok] _].
  by eapply sections_ok_bound.
Qed.

(** Releasing a slot that is not free returns, leaves the lock free and the
    table well formed, and makes exactly that slot free again; the only other
    outcome is that the table is full of sections none of which borders the slot,
    and then the slot is forgotten and the warning flag is raised. *)
Theorem section_release_spec p idx :
  pool_ready p → idx < SCHEDI_MAXIMUM_JOBS → idx ∉ pool_free p →
  wp (section_release idx) (λ _ p', pool_ready p' ∧
    ((pool_free p' = {[idx]} ∪ pool_free p ∧ pool_flags p' = pool_flags p) ∨
     (pool_free p' = pool_free p ∧ has (pool_flags p') SCHEDI_JOB_ARRAY_SECTION_WARN = true ∧
      Forall (λ s, active s = true ∧ sec_a s ≠ idx + 1 ∧ sec_b s ≠ idx)
        (empty_sections p)))) p.
Proof.
  intros Hp Hidx Hnot.
  destruct (section_release_run p idx Hp Hidx Hnot) as (p' & Hrun & Hp' & Hr).
  eapply wp_run; [done|]. split; [done|]. destruct Hr as [?|[-> ?]]; [by left|right].
  split_and!; [done| |done]. cbn [pool_flags set_pool_flags].
  by rewrite (has_bit _ 0), Z.lor_spec, orb_true_r.
Qed.

(** ** The interface: what an allocator of slots promises

    The job layer needs only this of the pool. *)

Class SlotAllocator (P : Type) : Type := {
  sa_claim : M P (option nat);
  sa_release : nat → M P unit;
  sa_ready : P → Prop;
  sa_free : P → gset nat;
  sa_capacity : nat;
  sa_claim_law p : sa_ready p →
    ∃ r p', sa_claim p = Done r p' ∧ sa_ready p' ∧
      match r with
      | Some i => i ∈ sa_free p ∧ sa_free p' = sa_free p ∖ {[i]}
      | None => sa_free p = ∅ ∧ p' = p
      end;
  sa_release_law p i : sa_ready p → i < sa_capacity → i ∉ sa_free p →
    ∃ p', sa_release i p = Done () p' ∧ sa_ready p' ∧
      (sa_free p' = {[i]} ∪ sa_free p ∨ sa_free p' = sa_free p);
  sa_bound p i : sa_ready p → i ∈ sa_free p → i < sa_capacity;
}.

#[export] Program Instance section_allocator : SlotAllocator slot_pool := {
  sa_claim := section_claim;
  sa_release := section_release;
  sa_ready := pool_ready;
  sa_free := pool_free;
  sa_capacity := SCHEDI_MAXIMUM_JOBS;
}.
Next Obligation.
  intros p Hp. destruct (section_claim_run p Hp) as (r & p' & ? & ? & _ & ?). eauto.
Qed.
Next Obligation.
  intros p i Hp Hi Hnot.
  destruct (section_release_run p i Hp Hi Hnot) as (p' & ? & ? & [[? _]|[-> _]]);
    eexists; split_and!; eauto.
Qed.
Next Obligation. intros p i [[_ Hok] _] Hi. by eapply sections_ok_bound. Qed.

(** ** Clients of an allocator

    Claims and releases in any order; a client releases only a slot it holds. *)

Inductive request : Type := Claim | Release (i : nat).

Section client.
Context {P : Type} `{SlotAllocator P}.

(** One request, on the pool and the set of slots in use. *)
Definition serve (r : request) (s : P * gset nat) : option (P * gset nat) :=
  match r with
  | Claim =>
      match sa_claim s.1 with
      | Done (Some i) p => Some (p, {[i]} ∪ s.2)
      | Done None p => Some (p, s.2)
      | _ => None
      end
  | Release i =>
      if decide (i ∈ s.2) then
        match sa_release i s.1 with
        | Done _ p => Some (p, s.2 ∖ {[i]})
        | _ => None
        end
      else Some s
  end.

Fixpoint serve_all (rs : list request) (s : P * gset nat) : option (P * gset nat) :=
  match rs with
  | [] => Some s
  | r :: rs => serve r s ≫= serve_all rs
  end.

(** The slots in use are in range and never free. *)
Definition client_inv (s : P * gset nat) : Prop :=
  sa_ready s.1 ∧ sa_free s.1 ## s.2 ∧ ∀ i, i ∈ s.2 → i < sa_capacity.

Lemma serve_inv r s : client_inv s → ∃ s', serve r s = Some s' ∧ client_inv s'.
Proof.
  destruct s as [p used]. intros (Hp & Hdis & Hb). cbn in *. destruct r as [|i]; cbn.
  - destruct (sa_claim_law p Hp) as ([i|] & p' & -> & Hp' & Hr).
    + destruct Hr as [Hi Hfree]. eexists. split; [done|]. split_and!; cbn; [done| |].
      * rewrite Hfree. set_solver.
      * intros j [->%elem_of_singleton|]%elem_of_union; [|by apply Hb].
        by apply (sa_bound p).
    + destruct Hr as [_ ->]. eexists. split; [done|]. by split_and!.
  - case_decide as Hi; [|by eexists].
    destruct (sa_release_law p i Hp (Hb i Hi) ltac:(set_solver)) as (p' & -> & Hp' & Hr).
    eexists. split; [done|]. split_and!; cbn; [done|set_solver|].
    intros j Hj. apply Hb. set_solver.
Qed.

Lemma serve_all_inv rs s :
  client_inv s → ∃ s', serve_all rs s = Some s' ∧ client_inv s'.
Proof.
  revert s. induction rs as [|r rs IH]; intros s Hs; cbn; [by eexists|].
  destruct (serve_inv r s Hs) as (s1 & -> & Hs1). cbn. by apply IH.
Qed.
End client.

(** The pool at start-up. *)
Definition pool_zero : slot_pool := Pool sections_zero false 0.
Definition pool_init : slot_pool :=
  set_sections (<[0 := Sec 0 SCHEDI_MAXIMUM_JOBS true]> sections_zero) pool_zero.

Lemma pool_init_ready : pool_ready pool_init ∧ sections_init pool_zero = Done () pool_init.
Proof.
  split; [|done]. split; [split; [done|]|done].
  cbn [pool_init set_sections empty_sections sections_zero].
  assert (∀ n, sections_ok (replicate n no_section) ∧
    free_slots (replicate n no_section) = ∅) as Hz.
  { induction n as [|n [IH1 IH2]]; [done|]. cbn [replicate sections_ok].
    rewrite free_slots_cons, IH2. split_and!; [done|set_solver|done|set_solver]. }
  destruct (Hz 63) as [Hok Hfree].
  change (sections_ok (Sec 0 SCHEDI_MAXIMUM_JOBS true :: replicate 63 no_section)).
  cbn [sections_ok]. rewrite Hfree. split_and!; [|set_solver|done].
  intros _. cbn. unfold SCHEDI_MAXIMUM_JOBS. lia.
Qed.

(** C18: from start-up, whatever sequence of claims and releases clients make (a
    client releases only what it holds), every request returns, and a claim never
    hands out a slot that is in use. *)
Theorem pool_never_double_allocates rs :
  ∃ p used, serve_all rs (pool_init, ∅) = Some (p, used) ∧ pool_ready p ∧
    pool_free p ## used ∧
    (∀ i p', section_claim p = Done (Some i) p' → i ∉ used).
Proof.
  destruct (serve_all_inv rs (pool_init, ∅)) as ([p used] & Hrun & Hp & Hdis & _).
  { split; [apply pool_init_ready|]. split; [apply disjoint_empty_r|].
    intros i Hi. by apply not_elem_of_empty in Hi. }
  exists p, used. split_and!; [done..|]. intros i p' Hc Hi.
  destruct (section_claim_run p Hp) as (r & p'' & Hc' & _ & _ & Hr).
  rewrite Hc in Hc'. simplify_eq. destruct Hr. set_solver.
Qed.

(** The claimed slot is not always the lowest free one, and bordering
    sections are not always merged: after claiming every slot and releasing 10, 3,
    5 and 4, the next claim takes 10 although 3 is free, and [[3, 5)] and [[5, 6)]
    stay separate sections. *)
Theorem section_claim_not_lowest :
  ∃ p used p', serve_all (replicate 256 Claim ++ (Release <$> [10; 3; 5; 4]))
      (pool_init, ∅) = Some (p, used) ∧
    take 3 (empty_sections p) = [Sec 10 11 true; Sec 3 5 true; Sec 5 6 true] ∧
    3 ∈ pool_free p ∧ section_claim p = Done (Some 10) p'.
Proof.
  eexists _, _, _. split; [vm_compute; reflexivity|].
  split; [vm_compute; reflexivity|]. split; [|vm_compute; reflexivity].
  apply (bool_decide_unpack _); vm_compute; exact I.
Qed.

Lemma section_claim_spec_witness :
  pool_ready pool_init ∧
  wp section_claim (λ r p', pool_ready p' ∧ pool_flags p' = pool_flags pool_init ∧
    match r with
    | Some idx => idx ∈ pool_free pool_init ∧ idx < SCHEDI_MAXIMUM_JOBS ∧
                  pool_free p' = pool_free pool_init ∖ {[idx]}
    | None => pool_free pool_init = ∅ ∧ p' = pool_init
    end) pool_init.
Proof.
  split; [apply pool_init_ready|].
  apply (section_claim_spec pool_init). apply pool_init_ready.
Defined.

(** The pool after one claim. *)
Definition pool_one : slot_pool :=
  Pool (Sec 1 256 true :: replicate 63 no_section) false 0.

Lemma pool_one_ready : section_claim pool_init = Done (Some 0) pool_one ∧ pool_ready pool_one.
Proof.
  assert (section_claim pool_init = Done (Some 0) pool_one) as E by (vm_compute; reflexivity).
  split; [done|]. destruct (section_claim_run pool_init) as (r & p' & Hrun & Hp' & _);
    [apply pool_init_ready|]. rewrite Hrun in E. by simplify_eq.
Qed.

Lemma section_release_spec_witness :
  wp (section_release 0) (λ _ p', pool_ready p' ∧
    ((pool_free p' = {[0]} ∪ pool_free pool_one ∧ pool_flags p' = pool_flags pool_one) ∨
     (pool_free p' = pool_free pool_one ∧
      has (pool_flags p') SCHEDI_JOB_ARRAY_SECTION_WARN = true ∧
      Forall (λ s, active s = true ∧ sec_a s ≠ 0 + 1 ∧ sec_b s ≠ 0)
        (empty_sections pool_one)))) pool_one.
Proof.
  apply (section_release_spec pool_one 0).
  - apply pool_one_ready.
  - unfold SCHEDI_MAXIMUM_JOBS. lia.
  - apply (bool_decide_unpack _); vm_compute; exact I.
Defined.
