(* ===== verification/MetaFlag.v ===== *)
(** * The atomic state word of a job (src/src/jobs.c and jobs.h, [meta_flag])

    [meta_flag] packs the life-cycle flags of a job slot, its readiness bits, three
    4-bit counters and the 4-bit access count.  The definitions are the bodies of
    the compare-and-swap loops of jobs.c, as functions of the word they see; the
    second half relates them to an abstract record ([view]) and proves the access
    protocol they implement for any interleaving of threads. *)

From S2P Require Export Atomics.

Local Open Scope Z_scope.

(** ** The layout (jobs.h) *)

Definition SCHEDI_JOB_METAFLAG_ALIVE : Z := Z.shiftl 1 0.
Definition SCHEDI_JOB_METAFLAG_UNSTABLE : Z := Z.shiftl 1 1.
Definition SCHEDI_JOB_METAFLAG_EXECUTING : Z := Z.shiftl 1 2.
Definition SCHEDI_JOB_METAFLAG_WLLDESTROY : Z := Z.shiftl 1 3.
Definition SCHEDI_JOB_METAFLAG_DESTROYNOTENT : Z := Z.shiftl 1 4.
Definition SCHEDI_JOB_METAFLAG_READY : Z := Z.shiftl 1 5.
Definition SCHEDI_JOB_METAFLAG_READYBASIC : Z := Z.shiftl 1 6.
Definition SCHEDI_JOB_METAFLAG_READYEPOLLTOOL : Z := Z.shiftl 1 7.
Definition SCHEDI_JOB_METAFLAG_READYEPOLLSOCK : Z := Z.shiftl 1 8.
Definition SCHEDI_JOB_METAFLAG_READYJOB : Z := Z.shiftl 1 21.

Definition SCHEDI_JOB_METAFLAG_AVSOCK_SHIFT : Z := 9.
Definition SCHEDI_JOB_METAFLAG_WAIT_SHIFT : Z := 13.
Definition SCHEDI_JOB_METAFLAG_AVJOBS_SHIFT : Z := 17.

(** [GET...(x)] and [SET...(x, a)] of a 4-bit field: every such macro is
    [(x >> shift) & 0b1111] and [x = (a << shift) | (x & ~(0b1111 << shift))]. *)
Definition SCHEDI_JOB_METAFLAG_GETAVSOCK (x : Z) : Z :=
  field_get x SCHEDI_JOB_METAFLAG_AVSOCK_SHIFT 4.
Definition SCHEDI_JOB_METAFLAG_SETAVSOCK (x a : Z) : Z :=
  field_put x SCHEDI_JOB_METAFLAG_AVSOCK_SHIFT 4 a.
Definition SCHEDI_JOB_METAFLAG_GETWAIT (x : Z) : Z :=
  field_get x SCHEDI_JOB_METAFLAG_WAIT_SHIFT 4.
Definition SCHEDI_JOB_METAFLAG_SETWAIT (x a : Z) : Z :=
  field_put x SCHEDI_JOB_METAFLAG_WAIT_SHIFT 4 a.
Definition SCHEDI_JOB_METAFLAG_GETAVJOBS (x : Z) : Z :=
  field_get x SCHEDI_JOB_METAFLAG_AVJOBS_SHIFT 4.
Definition SCHEDI_JOB_METAFLAG_SETAVJOBS (x a : Z) : Z :=
  field_put x SCHEDI_JOB_METAFLAG_AVJOBS_SHIFT 4 a.

Definition SCHEDI_JOB_METAFLAG_ACCESS : Z := Z.shiftl 15 28.
Definition SCHEDI_JOB_METAFLAG_GETACCESS (x : Z) : Z := field_get x 28 4.

(** The shift of [acc << 28] happens on an [unsigned int]. *)
Definition SCHEDI_JOB_METAFLAG_SETACCESS (x acc : Z) : Z :=
  Z.lor (u32 (Z.shiftl acc 28)) (Z.land x (Z.lnot SCHEDI_JOB_METAFLAG_ACCESS)).

(** ** The loops' bodies (jobs.c) *)

(** [(w & banned) | (-(int)ban_access & (w & ACCESS))]. *)
Definition ban_of (banned : Z) (ban_access : bool) (w : Z) : Z :=
  Z.lor (Z.land w banned)
    (Z.land (u32 (- Z.b2z ban_access)) (Z.land w SCHEDI_JOB_METAFLAG_ACCESS)).

Definition mark_or_body (flag banned : Z) (ban_access : bool) (w : Z) : attempt Z Z :=
  let ban := ban_of banned ban_access w in
  if ban =? 0 then Swap (Z.lor w flag) 0 else Leave ban.

Definition unmark_or_body (flag banned : Z) (ban_access : bool) (w : Z) : attempt Z Z :=
  let ban := ban_of banned ban_access w in
  if (ban =? 0) && has w flag then Swap (Z.land w (Z.lnot flag)) 0 else Leave ban.

Definition mark_access_body (w : Z) : attempt Z Z :=
  let banned := Z.lor SCHEDI_JOB_METAFLAG_UNSTABLE SCHEDI_JOB_METAFLAG_WLLDESTROY in
  let ban := Z.land w banned in
  if ban =? 0 then
    let accesses := SCHEDI_JOB_METAFLAG_GETACCESS w in
    if accesses =? 15 then Leave (Z.land w SCHEDI_JOB_METAFLAG_ACCESS)
    else Swap (SCHEDI_JOB_METAFLAG_SETACCESS w (accesses + 1)) 0
  else Leave ban.

Definition unmark_access_body (w : Z) : attempt Z Z :=
  let ban := Z.land w SCHEDI_JOB_METAFLAG_UNSTABLE in
  if ban =? 0 then
    let accesses := u32 (SCHEDI_JOB_METAFLAG_GETACCESS w - 1) in
    Swap (SCHEDI_JOB_METAFLAG_SETACCESS w accesses) 0
  else Leave ban.

Definition schedi_job_meta_flag_check_allready (w : Z) : bool :=
  let req := Z.lor SCHEDI_JOB_METAFLAG_READYBASIC
    (Z.lor SCHEDI_JOB_METAFLAG_READYEPOLLTOOL
      (Z.lor SCHEDI_JOB_METAFLAG_READYEPOLLSOCK SCHEDI_JOB_METAFLAG_READYJOB)) in
  Z.land w req =? req.

(** The word [schedi_job_meta_flag_cas_update] tries to install. *)
Definition cas_update_desired (avail waiting jobcount flag required_socks required_jobs w : Z) : Z :=
  let d := SCHEDI_JOB_METAFLAG_SETAVSOCK w avail in
  let d := SCHEDI_JOB_METAFLAG_SETWAIT d waiting in
  let d := SCHEDI_JOB_METAFLAG_SETAVJOBS d jobcount in
  let d := Z.lor d flag in
  let d := Z.land d (Z.lnot (Z.lor SCHEDI_JOB_METAFLAG_READYEPOLLSOCK
    (Z.lor SCHEDI_JOB_METAFLAG_READYEPOLLTOOL SCHEDI_JOB_METAFLAG_READYJOB))) in
  let d := or_if (required_socks <=? avail) SCHEDI_JOB_METAFLAG_READYEPOLLSOCK d in
  let d := or_if (waiting =? 0) SCHEDI_JOB_METAFLAG_READYEPOLLTOOL d in
  or_if (required_jobs <=? jobcount) SCHEDI_JOB_METAFLAG_READYJOB d.

(** The body of [schedi_job_meta_flag_cas_update]: the result is the return value
    and whether the update completed the readiness set. *)
Definition cas_update_body (required_socks required_jobs sock_delta wait_delta
    jobcount_delta flag banned : Z) (ban_access : bool) (w : Z) : attempt Z (Z * bool) :=
  let ban := ban_of banned ban_access w in
  if ban =? 0 then
    let avail := SCHEDI_JOB_METAFLAG_GETAVSOCK w + sock_delta in
    let waiting := SCHEDI_JOB_METAFLAG_GETWAIT w + wait_delta in
    let jobcount := SCHEDI_JOB_METAFLAG_GETAVJOBS w + jobcount_delta in
    if (avail <? 0) || (15 <? avail) || (waiting <? 0) || (15 <? waiting)
       || (jobcount <? 0) || (15 <? jobcount)
    then Leave (-1, false)
    else
      let desired := cas_update_desired avail waiting jobcount flag
                       required_socks required_jobs w in
      let pre_ready := schedi_job_meta_flag_check_allready w in
      let ready := schedi_job_meta_flag_check_allready desired in
      Swap desired (0, negb pre_ready && ready)
  else Leave (s32 ban, false).

(** The named marks, with their flags and bans. *)
Definition mark_default_body (flag : Z) : Z → attempt Z Z :=
  mark_or_body flag SCHEDI_JOB_METAFLAG_UNSTABLE false.
Definition mark_alive_body : Z → attempt Z Z :=
  mark_or_body SCHEDI_JOB_METAFLAG_ALIVE SCHEDI_JOB_METAFLAG_UNSTABLE false.
Definition mark_executing_body : Z → attempt Z Z :=
  mark_or_body SCHEDI_JOB_METAFLAG_EXECUTING
    (Z.lor SCHEDI_JOB_METAFLAG_UNSTABLE SCHEDI_JOB_METAFLAG_EXECUTING) false.
Definition unmark_executing_body : Z → attempt Z Z :=
  unmark_or_body SCHEDI_JOB_METAFLAG_EXECUTING SCHEDI_JOB_METAFLAG_UNSTABLE false.
Definition mark_unstable_body : Z → attempt Z Z :=
  mark_or_body SCHEDI_JOB_METAFLAG_UNSTABLE
    (Z.lor SCHEDI_JOB_METAFLAG_UNSTABLE
      (Z.lor SCHEDI_JOB_METAFLAG_EXECUTING SCHEDI_JOB_METAFLAG_READY)) true.
Definition mark_wlldestroy_body : Z → attempt Z Z :=
  mark_or_body SCHEDI_JOB_METAFLAG_WLLDESTROY SCHEDI_JOB_METAFLAG_UNSTABLE false.
Definition unmark_wlldestroy_body : Z → attempt Z Z :=
  unmark_or_body SCHEDI_JOB_METAFLAG_WLLDESTROY SCHEDI_JOB_METAFLAG_UNSTABLE false.
Definition mark_ready_body : Z → attempt Z Z :=
  mark_or_body SCHEDI_JOB_METAFLAG_READY
    (Z.lor SCHEDI_JOB_METAFLAG_UNSTABLE
      (Z.lor SCHEDI_JOB_METAFLAG_WLLDESTROY SCHEDI_JOB_METAFLAG_READY)) false.
Definition unmark_ready_body : Z → attempt Z Z :=
  unmark_or_body SCHEDI_JOB_METAFLAG_READY
    (Z.lor SCHEDI_JOB_METAFLAG_UNSTABLE SCHEDI_JOB_METAFLAG_WLLDESTROY) false.
Definition unmark_readybasic_body : Z → attempt Z Z :=
  unmark_or_body SCHEDI_JOB_METAFLAG_READYBASIC
    (Z.lor SCHEDI_JOB_METAFLAG_UNSTABLE SCHEDI_JOB_METAFLAG_WLLDESTROY) false.

(** ** The abstract state of a job's word *)

Record view : Type := View {
  v_alive : bool; v_unstable : bool; v_executing : bool; v_wlldestroy : bool;
  v_destroynotent : bool; v_ready : bool; v_readybasic : bool;
  v_readyepolltool : bool; v_readyepollsock : bool; v_readyjob : bool;
  v_avsock : Z; v_wait : Z; v_avjobs : Z; v_access : Z;
}.

Definition view_of (w : Z) : view :=
  View (Z.testbit w 0) (Z.testbit w 1) (Z.testbit w 2) (Z.testbit w 3)
    (Z.testbit w 4) (Z.testbit w 5) (Z.testbit w 6) (Z.testbit w 7)
    (Z.testbit w 8) (Z.testbit w 21)
    (SCHEDI_JOB_METAFLAG_GETAVSOCK w) (SCHEDI_JOB_METAFLAG_GETWAIT w)
    (SCHEDI_JOB_METAFLAG_GETAVJOBS w) (SCHEDI_JOB_METAFLAG_GETACCESS w).

Definition set_unstable b v :=
  View (v_alive v) b (v_executing v) (v_wlldestroy v) (v_destroynotent v) (v_ready v)
    (v_readybasic v) (v_readyepolltool v) (v_readyepollsock v) (v_readyjob v)
    (v_avsock v) (v_wait v) (v_avjobs v) (v_access v).
Definition set_executing b v :=
  View (v_alive v) (v_unstable v) b (v_wlldestroy v) (v_destroynotent v) (v_ready v)
    (v_readybasic v) (v_readyepolltool v) (v_readyepollsock v) (v_readyjob v)
    (v_avsock v) (v_wait v) (v_avjobs v) (v_access v).
Definition set_wlldestroy b v :=
  View (v_alive v) (v_unstable v) (v_executing v) b (v_destroynotent v) (v_ready v)
    (v_readybasic v) (v_readyepolltool v) (v_readyepollsock v) (v_readyjob v)
    (v_avsock v) (v_wait v) (v_avjobs v) (v_access v).
Definition set_ready b v :=
  View (v_alive v) (v_unstable v) (v_executing v) (v_wlldestroy v) (v_destroynotent v) b
    (v_readybasic v) (v_readyepolltool v) (v_readyepollsock v) (v_readyjob v)
    (v_avsock v) (v_wait v) (v_avjobs v) (v_access v).
Definition set_readybasic b v :=
  View (v_alive v) (v_unstable v) (v_executing v) (v_wlldestroy v) (v_destroynotent v)
    (v_ready v) b (v_readyepolltool v) (v_readyepollsock v) (v_readyjob v)
    (v_avsock v) (v_wait v) (v_avjobs v) (v_access v).
Definition set_access a v :=
  View (v_alive v) (v_unstable v) (v_executing v) (v_wlldestroy v) (v_destroynotent v)
    (v_ready v) (v_readybasic v) (v_readyepolltool v) (v_readyepollsock v) (v_readyjob v)
    (v_avsock v) (v_wait v) (v_avjobs v) a.

(** The counters move by the deltas and the three derived bits are recomputed. *)
Definition refresh (rs rj sd wd jd : Z) (basic : bool) v :=
  let a := v_avsock v + sd in let w := v_wait v + wd in let j := v_avjobs v + jd in
  View (v_alive v) (v_unstable v) (v_executing v) (v_wlldestroy v) (v_destroynotent v)
    (v_ready v) (v_readybasic v || basic) (w =? 0) (rs <=? a) (rj <=? j)
    a w j (v_access v).

(** The flags of the word by name, and what a view says of one. *)
Inductive job_flag : Type :=
  | FAlive | FUnstable | FExecuting | FWlldestroy | FDestroynotent | FReady
  | FReadybasic | FReadyepolltool | FReadyepollsock | FReadyjob.

#[export] Instance job_flag_decision : EqDecision job_flag.
Proof. solve_decision. Defined.

Definition flag_bit (f : job_flag) : Z :=
  match f with
  | FAlive => SCHEDI_JOB_METAFLAG_ALIVE
  | FUnstable => SCHEDI_JOB_METAFLAG_UNSTABLE
  | FExecuting => SCHEDI_JOB_METAFLAG_EXECUTING
  | FWlldestroy => SCHEDI_JOB_METAFLAG_WLLDESTROY
  | FDestroynotent => SCHEDI_JOB_METAFLAG_DESTROYNOTENT
  | FReady => SCHEDI_JOB_METAFLAG_READY
  | FReadybasic => SCHEDI_JOB_METAFLAG_READYBASIC
  | FReadyepolltool => SCHEDI_JOB_METAFLAG_READYEPOLLTOOL
  | FReadyepollsock => SCHEDI_JOB_METAFLAG_READYEPOLLSOCK
  | FReadyjob => SCHEDI_JOB_METAFLAG_READYJOB
  end.

Definition v_flag (f : job_flag) (v : view) : bool :=
  match f with
  | FAlive => v_alive v | FUnstable => v_unstable v | FExecuting => v_executing v
  | FWlldestroy => v_wlldestroy v | FDestroynotent => v_destroynotent v
  | FReady => v_ready v | FReadybasic => v_readybasic v
  | FReadyepolltool => v_readyepolltool v | FReadyepollsock => v_readyepollsock v
  | FReadyjob => v_readyjob v
  end.

Definition put_flag (f : job_flag) (b : bool) (v : view) : view :=
  let at_flag g (old : bool) := if decide (f = g) then b else old in
  View (at_flag FAlive (v_alive v)) (at_flag FUnstable (v_unstable v))
    (at_flag FExecuting (v_executing v)) (at_flag FWlldestroy (v_wlldestroy v))
    (at_flag FDestroynotent (v_destroynotent v)) (at_flag FReady (v_ready v))
    (at_flag FReadybasic (v_readybasic v)) (at_flag FReadyepolltool (v_readyepolltool v))
    (at_flag FReadyepollsock (v_readyepollsock v)) (at_flag FReadyjob (v_readyjob v))
    (v_avsock v) (v_wait v) (v_avjobs v) (v_access v).

(** Some flags as a mask. *)
Definition flags_word (fs : list job_flag) : Z := foldr (λ f, Z.lor (flag_bit f)) 0 fs.
Definition any_flag (fs : list job_flag) (v : view) : bool := existsb (λ f, v_flag f v) fs.

(** Every component of the readiness set is there. *)
Definition all_ready v : bool :=
  v_readybasic v && v_readyepolltool v && v_readyepollsock v && v_readyjob v.

(** ** The word-level operations on the view *)

Lemma u32_neg_b2z b : u32 (- Z.b2z b) = flag_if b (2 ^ 32 - 1).
Proof. by destruct b. Qed.

Lemma ban_of_zero banned ba w :
  (ban_of banned ba w =? 0) =
    negb (has w banned || (ba && has w SCHEDI_JOB_METAFLAG_ACCESS)).
Proof.
  unfold ban_of. rewrite u32_neg_b2z.
  assert (Z.land (flag_if ba (2 ^ 32 - 1)) (Z.land w SCHEDI_JOB_METAFLAG_ACCESS) =
          flag_if ba (Z.land w SCHEDI_JOB_METAFLAG_ACCESS)) as ->.
  { destruct ba; [|done]. cbn [flag_if].
    rewrite (Z.land_comm w), Z.land_assoc. done. }
  apply eq_true_iff_eq. rewrite Z.eqb_eq, Z.lor_eq_0_iff, negb_true_iff, orb_false_iff,
    andb_false_iff. unfold has. rewrite !negb_false_iff, !Z.eqb_eq.
  destruct ba; cbn; intuition congruence.
Qed.

Lemma land_access w :
  Z.land w SCHEDI_JOB_METAFLAG_ACCESS = Z.shiftl (SCHEDI_JOB_METAFLAG_GETACCESS w) 28.
Proof.
  unfold SCHEDI_JOB_METAFLAG_GETACCESS, SCHEDI_JOB_METAFLAG_ACCESS.
  apply Z.bits_inj'. intros i Hi. unfold field_get.
  rewrite Z.land_spec, !Z.shiftl_spec by done.
  destruct (Z.ltb_spec i 28).
  - rewrite !(Z.testbit_neg_r _ (i - 28)) by lia. by rewrite andb_false_r.
  - rewrite Z.land_spec, Z.shiftr_spec by lia. do 2 f_equal. lia.
Qed.

Lemma has_access w :
  has w SCHEDI_JOB_METAFLAG_ACCESS = negb (SCHEDI_JOB_METAFLAG_GETACCESS w =? 0).
Proof.
  unfold has. f_equal. rewrite land_access.
  apply eq_true_iff_eq. rewrite !Z.eqb_eq. rewrite Z.shiftl_eq_0_iff by done. done.
Qed.

Lemma setaccess_put w a :
  SCHEDI_JOB_METAFLAG_SETACCESS w (u32 a) = field_put w 28 4 (a mod 16).
Proof.
  unfold SCHEDI_JOB_METAFLAG_SETACCESS, field_put, SCHEDI_JOB_METAFLAG_ACCESS. f_equal.
  rewrite !Z.shiftl_mul_pow2 by done. unfold u32.
  change (2 ^ 32) with (16 * 2 ^ 28). rewrite Z.mul_mod_distr_r by done.
  f_equal. change (16 * 2 ^ 28) with (2 ^ 28 * 16). apply Z.mod_mod_divide.
  by exists (2 ^ 28).
Qed.

Lemma setaccess_small w a :
  0 <= a < 16 → SCHEDI_JOB_METAFLAG_SETACCESS w a = field_put w 28 4 a.
Proof.
  intros Ha. rewrite <-(u32_small a) at 1 by lia. rewrite setaccess_put.
  by rewrite Z.mod_small.
Qed.

Lemma getaccess_range w : 0 <= SCHEDI_JOB_METAFLAG_GETACCESS w < 16.
Proof. by apply (field_get_range w 28 4). Qed.
Lemma getavsock_range w : 0 <= SCHEDI_JOB_METAFLAG_GETAVSOCK w < 16.
Proof. by apply (field_get_range w 9 4). Qed.
Lemma getwait_range w : 0 <= SCHEDI_JOB_METAFLAG_GETWAIT w < 16.
Proof. by apply (field_get_range w 13 4). Qed.
Lemma getavjobs_range w : 0 <= SCHEDI_JOB_METAFLAG_GETAVJOBS w < 16.
Proof. by apply (field_get_range w 17 4). Qed.

(** Both sides are records of flags and fields of words: compare them one by one. *)
Ltac view_eq :=
  unfold view_of, set_unstable, set_executing, set_wlldestroy, set_ready,
    set_readybasic, set_access, refresh,
    SCHEDI_JOB_METAFLAG_GETAVSOCK, SCHEDI_JOB_METAFLAG_GETWAIT,
    SCHEDI_JOB_METAFLAG_GETAVJOBS, SCHEDI_JOB_METAFLAG_GETACCESS,
    SCHEDI_JOB_METAFLAG_AVSOCK_SHIFT, SCHEDI_JOB_METAFLAG_WAIT_SHIFT,
    SCHEDI_JOB_METAFLAG_AVJOBS_SHIFT;
  cbn [v_alive v_unstable v_executing v_wlldestroy v_destroynotent v_ready
    v_readybasic v_readyepolltool v_readyepollsock v_readyjob v_avsock v_wait
    v_avjobs v_access];
  f_equal; word_simpl; try reflexivity; try btauto.

Lemma view_mark_unstable w :
  view_of (Z.lor w SCHEDI_JOB_METAFLAG_UNSTABLE) = set_unstable true (view_of w).
Proof. view_eq. Qed.
Lemma view_mark_executing w :
  view_of (Z.lor w SCHEDI_JOB_METAFLAG_EXECUTING) = set_executing true (view_of w).
Proof. view_eq. Qed.
Lemma view_unmark_executing w :
  view_of (Z.land w (Z.lnot SCHEDI_JOB_METAFLAG_EXECUTING)) = set_executing false (view_of w).
Proof. view_eq. Qed.
Lemma view_mark_wlldestroy w :
  view_of (Z.lor w SCHEDI_JOB_METAFLAG_WLLDESTROY) = set_wlldestroy true (view_of w).
Proof. view_eq. Qed.
Lemma view_unmark_wlldestroy w :
  view_of (Z.land w (Z.lnot SCHEDI_JOB_METAFLAG_WLLDESTROY)) = set_wlldestroy false (view_of w).
Proof. view_eq. Qed.
Lemma view_mark_ready w :
  view_of (Z.lor w SCHEDI_JOB_METAFLAG_READY) = set_ready true (view_of w).
Proof. view_eq. Qed.
Lemma view_unmark_ready w :
  view_of (Z.land w (Z.lnot SCHEDI_JOB_METAFLAG_READY)) = set_ready false (view_of w).
Proof. view_eq. Qed.
Lemma view_unmark_readybasic w :
  view_of (Z.land w (Z.lnot SCHEDI_JOB_METAFLAG_READYBASIC)) = set_readybasic false (view_of w).
Proof. view_eq. Qed.
Lemma view_mark_flag f w : view_of (Z.lor w (flag_bit f)) = put_flag f true (view_of w).
Proof. destruct f; unfold put_flag; cbn [flag_bit]; simpl (decide _); view_eq. Qed.
Lemma view_unmark_flag f w :
  view_of (Z.land w (Z.lnot (flag_bit f))) = put_flag f false (view_of w).
Proof. destruct f; unfold put_flag; cbn [flag_bit]; simpl (decide _); view_eq. Qed.
Lemma put_flag_same f v : v_flag f v = false → put_flag f false v = v.
Proof. destruct v, f; cbn; by intros ->. Qed.
Lemma flag_bit_pow f : ∃ k, 0 <= k ∧ flag_bit f = 2 ^ k.
Proof.
  exists (Z.log2 (flag_bit f)). by destruct f.
Qed.
Lemma has_flag w f : has w (flag_bit f) = v_flag f (view_of w).
Proof.
  destruct f; cbn [v_flag view_of v_alive v_unstable v_executing v_wlldestroy v_destroynotent
    v_ready v_readybasic v_readyepolltool v_readyepollsock v_readyjob];
    rewrite <-has_bit by done; reflexivity.
Qed.
Lemma has_flags w fs : has w (flags_word fs) = any_flag fs (view_of w).
Proof.
  induction fs as [|f fs IH]; cbn [flags_word foldr any_flag existsb].
  - unfold has. by rewrite Z.land_0_r.
  - rewrite has_lor, has_flag. f_equal. exact IH.
Qed.
(** The flags of a mask that a word has. *)
Lemma land_flags w fs :
  Z.land w (flags_word fs) = flags_word (filter (λ f, v_flag f (view_of w) = true) fs).
Proof.
  induction fs as [|f fs IH]; [apply Z.land_0_r|].
  cbn [flags_word foldr]. rewrite Z.land_lor_distr_r.
  change (foldr (λ f0, Z.lor (flag_bit f0)) 0 fs) with (flags_word fs). rewrite IH.
  rewrite filter_cons, <-has_flag. case_decide as Hf.
  - cbn [flags_word foldr]. f_equal. destruct (flag_bit_pow f) as (k & Hk & E).
    rewrite E in Hf |- *. apply land_covers, land_covers_bit; [done|]. by rewrite <-has_bit.
  - apply not_true_iff_false in Hf. unfold has in Hf. apply negb_false_iff, Z.eqb_eq in Hf.
    by rewrite Hf, Z.lor_0_l.
Qed.

(** The bans that a loop finds, as the view has them. *)
Lemma refused_word banned ba w :
  has w (flags_word banned) || (ba && has w SCHEDI_JOB_METAFLAG_ACCESS) =
    any_flag banned (view_of w) || (ba && negb (v_access (view_of w) =? 0)).
Proof. by rewrite has_flags, has_access. Qed.
Lemma ban_of_flags banned ba w :
  ban_of (flags_word banned) ba w =
    Z.lor (flags_word (filter (λ f, v_flag f (view_of w) = true) banned))
      (flag_if ba (Z.shiftl (v_access (view_of w)) 28)).
Proof.
  unfold ban_of. rewrite land_flags. f_equal. rewrite u32_neg_b2z, land_access.
  cbn [view_of v_access]. rewrite <-land_access. destruct ba; [|done]. cbn [flag_if].
  by rewrite (Z.land_comm w), Z.land_assoc.
Qed.

(** Marking flags does not touch the counters, and commutes with setting them. *)
Lemma testbit_flag_bit f i : 9 <= i < 21 ∨ 28 <= i → Z.testbit (flag_bit f) i = false.
Proof.
  intros Hi. assert (∃ k, 0 <= k ∧ flag_bit f = 2 ^ k ∧ (k < 9 ∨ k = 21)) as (k & Hk & -> & Hr).
  { exists (Z.log2 (flag_bit f)). destruct f; (split; [done|]); (split; [reflexivity|]);
      vm_compute; tauto. }
  apply Z.pow2_bits_false. lia.
Qed.
Lemma testbit_flags_word fs i : 9 <= i < 21 ∨ 28 <= i → Z.testbit (flags_word fs) i = false.
Proof.
  intros Hi. induction fs as [|f fs IH]; [apply Z.bits_0|]. cbn [flags_word foldr].
  rewrite Z.lor_spec, testbit_flag_bit by done. exact IH.
Qed.
Lemma field_get_flags w fs k :
  9 <= k ∧ k + 4 <= 21 ∨ 28 <= k → field_get (Z.lor w (flags_word fs)) k 4 = field_get w k 4.
Proof.
  intros Hk. apply Z.bits_inj'. intros i Hi. rewrite !testbit_field_get, Z.lor_spec by lia.
  destruct (Z.ltb_spec i 4); [|done]. rewrite testbit_flags_word by lia. by rewrite orb_false_r.
Qed.
Lemma field_put_flags w fs k v :
  9 <= k ∧ k + 4 <= 21 → field_put (Z.lor w (flags_word fs)) k 4 v =
    Z.lor (field_put w k 4 v) (flags_word fs).
Proof.
  intros Hk. apply Z.bits_inj'. intros i Hi.
  rewrite Z.lor_spec, !testbit_field_put, Z.lor_spec by lia.
  destruct (Z.leb_spec k i), (Z.ltb_spec i (k + 4)); cbn [andb negb]; try btauto.
  rewrite testbit_flags_word by lia. btauto.
Qed.
Lemma desired_flags avail waiting jobcount fs rs rj w :
  cas_update_desired avail waiting jobcount (flags_word fs) rs rj w =
    cas_update_desired avail waiting jobcount 0 rs rj (Z.lor w (flags_word fs)).
Proof.
  unfold cas_update_desired, SCHEDI_JOB_METAFLAG_SETAVSOCK, SCHEDI_JOB_METAFLAG_SETWAIT,
    SCHEDI_JOB_METAFLAG_SETAVJOBS, SCHEDI_JOB_METAFLAG_AVSOCK_SHIFT,
    SCHEDI_JOB_METAFLAG_WAIT_SHIFT, SCHEDI_JOB_METAFLAG_AVJOBS_SHIFT.
  by rewrite !field_put_flags, Z.lor_0_r by lia.
Qed.
Lemma view_mark_flags w fs :
  view_of (Z.lor w (flags_word fs)) = foldr (λ f, put_flag f true) (view_of w) fs.
Proof.
  induction fs as [|f fs IH]; cbn [flags_word foldr]; [by rewrite Z.lor_0_r|].
  change (foldr (λ f0, Z.lor (flag_bit f0)) 0 fs) with (flags_word fs).
  by rewrite <-IH, (Z.lor_comm (flag_bit f)), Z.lor_assoc, view_mark_flag.
Qed.

Lemma view_set_access w a : 0 <= a < 16 →
  view_of (field_put w 28 4 a) = set_access a (view_of w).
Proof. intros Ha. view_eq. Qed.

Lemma view_desired rs rj avail waiting jobcount fs w :
  0 <= avail < 16 → 0 <= waiting < 16 → 0 <= jobcount < 16 →
  view_of (cas_update_desired avail waiting jobcount (flags_word fs) rs rj w) =
  refresh rs rj (avail - SCHEDI_JOB_METAFLAG_GETAVSOCK w)
    (waiting - SCHEDI_JOB_METAFLAG_GETWAIT w)
    (jobcount - SCHEDI_JOB_METAFLAG_GETAVJOBS w) false
    (foldr (λ f, put_flag f true) (view_of w) fs).
Proof.
  intros Ha Hw Hj. rewrite desired_flags, <-view_mark_flags.
  unfold SCHEDI_JOB_METAFLAG_GETAVSOCK, SCHEDI_JOB_METAFLAG_GETWAIT,
    SCHEDI_JOB_METAFLAG_GETAVJOBS.
  rewrite <-(field_get_flags w fs SCHEDI_JOB_METAFLAG_AVSOCK_SHIFT),
    <-(field_get_flags w fs SCHEDI_JOB_METAFLAG_WAIT_SHIFT),
    <-(field_get_flags w fs SCHEDI_JOB_METAFLAG_AVJOBS_SHIFT) by by left.
  generalize (Z.lor w (flags_word fs)). clear w. intros w.
  unfold cas_update_desired, SCHEDI_JOB_METAFLAG_SETAVSOCK, SCHEDI_JOB_METAFLAG_SETWAIT,
    SCHEDI_JOB_METAFLAG_SETAVJOBS.
  unfold view_of, refresh, SCHEDI_JOB_METAFLAG_GETAVSOCK, SCHEDI_JOB_METAFLAG_GETWAIT,
    SCHEDI_JOB_METAFLAG_GETAVJOBS, SCHEDI_JOB_METAFLAG_GETACCESS,
    SCHEDI_JOB_METAFLAG_AVSOCK_SHIFT, SCHEDI_JOB_METAFLAG_WAIT_SHIFT,
    SCHEDI_JOB_METAFLAG_AVJOBS_SHIFT;
  cbn [v_alive v_unstable v_executing v_wlldestroy v_destroynotent v_ready
    v_readybasic v_readyepolltool v_readyepollsock v_readyjob v_avsock v_wait
    v_avjobs v_access].
  rewrite !Zplus_minus; f_equal; word_simpl; try reflexivity; try btauto.
Qed.

Lemma check_allready_view w :
  schedi_job_meta_flag_check_allready w = all_ready (view_of w).
Proof.
  unfold schedi_job_meta_flag_check_allready, all_ready, view_of.
  cbn [v_readybasic v_readyepolltool v_readyepollsock v_readyjob].
  apply eq_true_iff_eq. rewrite Z.eqb_eq, !andb_true_iff, !land_covers_lor.
  rewrite !land_covers.
  change SCHEDI_JOB_METAFLAG_READYBASIC with (2 ^ 6).
  change SCHEDI_JOB_METAFLAG_READYEPOLLTOOL with (2 ^ 7).
  change SCHEDI_JOB_METAFLAG_READYEPOLLSOCK with (2 ^ 8).
  change SCHEDI_JOB_METAFLAG_READYJOB with (2 ^ 21).
  rewrite !land_covers_bit by done. tauto.
Qed.

(** ** Words stay 32-bit words *)

Definition word32 (w : Z) : Prop := 0 <= w < 2 ^ 32.

Lemma word32_lor w f : word32 w → word32 f → word32 (Z.lor w f).
Proof. by apply lor_range. Qed.
Lemma word32_clear w f : word32 w → word32 (Z.land w (Z.lnot f)).
Proof. by apply land_range. Qed.
Lemma word32_put w k v : 0 <= k <= 28 → word32 w → 0 <= v < 16 → word32 (field_put w k 4 v).
Proof. intros Hk Hw Hv. apply field_put_range; [lia..|done|done]. Qed.
Lemma word32_or_if b m w : word32 w → word32 m → word32 (or_if b m w).
Proof. by apply or_if_range. Qed.

Create HintDb word32.
#[export] Hint Resolve word32_lor word32_clear word32_put word32_or_if : word32.
#[export] Hint Extern 1 (word32 (Z.shiftl _ _)) => (split; [done|reflexivity]) : word32.
#[export] Hint Extern 1 (_ <= _ <= _) => lia : word32.
#[export] Hint Extern 1 (_ <= _ < _) => lia : word32.

Lemma word32_flag_bit f : word32 (flag_bit f).
Proof. by destruct f. Qed.
Lemma word32_flags fs : word32 (flags_word fs).
Proof. induction fs; [done|]. apply word32_lor; [apply word32_flag_bit|done]. Qed.

Lemma word32_desired rs rj avail waiting jobcount fs w :
  word32 w → 0 <= avail < 16 → 0 <= waiting < 16 → 0 <= jobcount < 16 →
  word32 (cas_update_desired avail waiting jobcount (flags_word fs) rs rj w).
Proof.
  intros. unfold cas_update_desired, SCHEDI_JOB_METAFLAG_SETAVSOCK,
    SCHEDI_JOB_METAFLAG_SETWAIT, SCHEDI_JOB_METAFLAG_SETAVJOBS,
    SCHEDI_JOB_METAFLAG_AVSOCK_SHIFT, SCHEDI_JOB_METAFLAG_WAIT_SHIFT,
    SCHEDI_JOB_METAFLAG_AVJOBS_SHIFT.
  pose proof (word32_flags fs). repeat apply word32_or_if; try (split; [done|reflexivity]).
  auto 10 with word32.
Qed.

(** ** The abstract specification of the operations

    Every operation of jobs.c on a job's word, with its guard and its effect on the view:
    the two generic marks with any flag and any bans, the marks with a name, the access
    count, and the update of the counters.  [OpUpdateOr] is
    [schedi_job_meta_flag_cas_update] with any flags and bans, which
    [schedi_job_mark_or_readiness] calls; [OpUpdate] is its use in jobs.c, where [basic]
    says that the update also marks READYBASIC, with the bans of that caller. *)

Inductive meta_op : Type :=
  | OpMarkOr (f : job_flag) (banned : list job_flag) (ban_access : bool)
  | OpUnmarkOr (f : job_flag) (banned : list job_flag) (ban_access : bool)
  | OpMarkDefault (f : job_flag)
  | OpMarkAlive
  | OpMarkExecuting | OpUnmarkExecuting
  | OpMarkUnstable
  | OpMarkWlldestroy | OpUnmarkWlldestroy
  | OpMarkAccess | OpUnmarkAccess
  | OpMarkReady | OpUnmarkReady | OpUnmarkReadybasic
  | OpUpdateOr (rs rj sd wd jd : Z) (fs banned : list job_flag) (ban_access : bool)
  | OpUpdate (rs rj sd wd jd : Z) (basic : bool).

(** [schedi_job_mark_readybasic] bans UNSTABLE and WLLDESTROY; the other callers of
    the update ban nothing. *)
Definition update_banned (basic : bool) : Z :=
  flag_if basic (Z.lor SCHEDI_JOB_METAFLAG_UNSTABLE SCHEDI_JOB_METAFLAG_WLLDESTROY).
Definition update_flag (basic : bool) : Z :=
  flag_if basic SCHEDI_JOB_METAFLAG_READYBASIC.

Definition drop_trigger (a : attempt Z (Z * bool)) : attempt Z Z :=
  match a with Leave r => Leave r.1 | Swap d r => Swap d r.1 end.

Definition op_body (op : meta_op) : Z → attempt Z Z :=
  match op with
  | OpMarkOr f banned ba => mark_or_body (flag_bit f) (flags_word banned) ba
  | OpUnmarkOr f banned ba => unmark_or_body (flag_bit f) (flags_word banned) ba
  | OpMarkDefault f => mark_default_body (flag_bit f)
  | OpMarkAlive => mark_alive_body
  | OpMarkExecuting => mark_executing_body
  | OpUnmarkExecuting => unmark_executing_body
  | OpMarkUnstable => mark_unstable_body
  | OpMarkWlldestroy => mark_wlldestroy_body
  | OpUnmarkWlldestroy => unmark_wlldestroy_body
  | OpMarkAccess => mark_access_body
  | OpUnmarkAccess => unmark_access_body
  | OpMarkReady => mark_ready_body
  | OpUnmarkReady => unmark_ready_body
  | OpUnmarkReadybasic => unmark_readybasic_body
  | OpUpdateOr rs rj sd wd jd fs banned ba => λ w, drop_trigger
      (cas_update_body rs rj sd wd jd (flags_word fs) (flags_word banned) ba w)
  | OpUpdate rs rj sd wd jd basic => λ w, drop_trigger
      (cas_update_body rs rj sd wd jd (update_flag basic) (update_banned basic) false w)
  end.

Definition in_count (x : Z) : bool := (0 <=? x) && (x <=? 15).

Definition refused (banned : list job_flag) (ban_access : bool) (v : view) : bool :=
  any_flag banned v || (ban_access && negb (v_access v =? 0)).

Definition op_guard (op : meta_op) (v : view) : bool :=
  match op with
  | OpMarkOr _ banned ba | OpUnmarkOr _ banned ba => negb (refused banned ba v)
  | OpMarkDefault _ | OpMarkAlive => negb (v_unstable v)
  | OpMarkExecuting => negb (v_unstable v || v_executing v)
  | OpUnmarkExecuting => negb (v_unstable v)
  | OpMarkUnstable =>
      negb (v_unstable v || v_executing v || v_ready v || negb (v_access v =? 0))
  | OpMarkWlldestroy | OpUnmarkWlldestroy => negb (v_unstable v)
  | OpMarkAccess => negb (v_unstable v || v_wlldestroy v) && negb (v_access v =? 15)
  | OpUnmarkAccess => negb (v_unstable v)
  | OpMarkReady => negb (v_unstable v || v_wlldestroy v || v_ready v)
  | OpUnmarkReady | OpUnmarkReadybasic => negb (v_unstable v || v_wlldestroy v)
  | OpUpdateOr _ _ sd wd jd _ banned ba =>
      negb (refused banned ba v) &&
      in_count (v_avsock v + sd) && in_count (v_wait v + wd) && in_count (v_avjobs v + jd)
  | OpUpdate _ _ sd wd jd basic =>
      negb (basic && (v_unstable v || v_wlldestroy v)) &&
      in_count (v_avsock v + sd) && in_count (v_wait v + wd) && in_count (v_avjobs v + jd)
  end.

Definition op_effect (op : meta_op) (v : view) : view :=
  match op with
  | OpMarkOr f _ _ | OpMarkDefault f => put_flag f true v
  | OpUnmarkOr f _ _ => put_flag f false v
  | OpMarkAlive => put_flag FAlive true v
  | OpMarkExecuting => set_executing true v
  | OpUnmarkExecuting => set_executing false v
  | OpMarkUnstable => set_unstable true v
  | OpMarkWlldestroy => set_wlldestroy true v
  | OpUnmarkWlldestroy => set_wlldestroy false v
  | OpMarkAccess => set_access (v_access v + 1) v
  | OpUnmarkAccess => set_access ((v_access v - 1) mod 16) v
  | OpMarkReady => set_ready true v
  | OpUnmarkReady => set_ready false v
  | OpUnmarkReadybasic => set_readybasic false v
  | OpUpdateOr rs rj sd wd jd fs _ _ =>
      refresh rs rj sd wd jd false (foldr (λ f, put_flag f true) v fs)
  | OpUpdate rs rj sd wd jd basic => refresh rs rj sd wd jd basic v
  end.

(** What a refused operation returns: the banned flags that are set, with the access
    count in its place when that is banned too; -1 for a count out of range. *)
Definition bans (banned : list job_flag) (ban_access : bool) (v : view) : Z :=
  Z.lor (flags_word (filter (λ f, v_flag f v = true) banned))
    (flag_if ban_access (Z.shiftl (v_access v) 28)).

Definition op_refusal (op : meta_op) (v : view) : Z :=
  match op with
  | OpMarkOr _ banned ba | OpUnmarkOr _ banned ba => bans banned ba v
  | OpMarkDefault _ | OpMarkAlive | OpUnmarkExecuting | OpMarkWlldestroy | OpUnmarkWlldestroy
  | OpUnmarkAccess => bans [FUnstable] false v
  | OpMarkExecuting => bans [FUnstable; FExecuting] false v
  | OpMarkUnstable => bans [FUnstable; FExecuting; FReady] true v
  | OpMarkAccess =>
      if any_flag [FUnstable; FWlldestroy] v then bans [FUnstable; FWlldestroy] false v
      else SCHEDI_JOB_METAFLAG_ACCESS
  | OpMarkReady => bans [FUnstable; FWlldestroy; FReady] false v
  | OpUnmarkReady | OpUnmarkReadybasic => bans [FUnstable; FWlldestroy] false v
  | OpUpdateOr _ _ _ _ _ _ banned ba =>
      if refused banned ba v then s32 (bans banned ba v) else -1
  | OpUpdate _ _ _ _ _ basic =>
      let banned := if basic then [FUnstable; FWlldestroy] else [] in
      if refused banned false v then s32 (bans banned false v) else -1
  end.

(** What refining the specification means for one attempt on a word. *)
Definition refines (op : meta_op) (w : Z) (out : Z * Z) : Prop :=
  word32 out.2 ∧
  if op_guard op (view_of w)
  then out.1 = 0 ∧ view_of out.2 = op_effect op (view_of w)
  else out.1 ≠ 0 ∧ out.2 = w.

Ltac flags_to_view :=
  rewrite ?has_lor, ?has_access;
  change SCHEDI_JOB_METAFLAG_UNSTABLE with (2 ^ 1);
  change SCHEDI_JOB_METAFLAG_EXECUTING with (2 ^ 2);
  change SCHEDI_JOB_METAFLAG_WLLDESTROY with (2 ^ 3);
  change SCHEDI_JOB_METAFLAG_READY with (2 ^ 5);
  change SCHEDI_JOB_METAFLAG_READYBASIC with (2 ^ 6);
  rewrite ?has_bit by done.

Ltac word32_flag := split; [done|reflexivity].
Ltac guard_eq :=
  flags_to_view;
  cbn [op_guard view_of v_unstable v_executing v_ready v_access v_wlldestroy andb];
  rewrite ?orb_false_r, ?orb_assoc; reflexivity.
Ltac absent_eq :=
  flags_to_view; intros E;
  unfold op_effect, set_executing, set_wlldestroy, set_ready, set_readybasic, view_of;
  cbn [v_alive v_unstable v_executing v_wlldestroy v_destroynotent v_ready
    v_readybasic v_readyepolltool v_readyepollsock v_readyjob v_avsock v_wait
    v_avjobs v_access];
  by rewrite E.

(** The two generic loops, when the guard on the view is the ban on the word. *)
Lemma mark_or_refines op flag banned ba w :
  word32 w → op_body op w = mark_or_body flag banned ba w → word32 flag →
  op_guard op (view_of w) =
    negb (has w banned || (ba && has w SCHEDI_JOB_METAFLAG_ACCESS)) →
  view_of (Z.lor w flag) = op_effect op (view_of w) →
  refines op w (rmw (op_body op) w).
Proof.
  intros Hw Hb Hf Hg He. unfold refines, rmw. rewrite Hb, Hg. unfold mark_or_body.
  rewrite <-ban_of_zero. destruct (Z.eqb_spec (ban_of banned ba w) 0); cbn.
  - auto using word32_lor.
  - auto.
Qed.

(** Clearing a flag the view does not show changes nothing. *)
Lemma unmark_or_refines op flag banned ba w :
  word32 w → op_body op w = unmark_or_body flag banned ba w →
  op_guard op (view_of w) =
    negb (has w banned || (ba && has w SCHEDI_JOB_METAFLAG_ACCESS)) →
  view_of (Z.land w (Z.lnot flag)) = op_effect op (view_of w) →
  (has w flag = false → op_effect op (view_of w) = view_of w) →
  refines op w (rmw (op_body op) w).
Proof.
  intros Hw Hb Hg He Habs. unfold refines, rmw. rewrite Hb, Hg. unfold unmark_or_body.
  rewrite <-ban_of_zero. destruct (Z.eqb_spec (ban_of banned ba w) 0) as [E|]; cbn.
  - destruct (has w flag); cbn; [auto using word32_clear|].
    rewrite E, Habs by done. auto.
  - auto.
Qed.

Lemma drop_trigger_rmw (b : Z → attempt Z (Z * bool)) w :
  rmw (λ w, drop_trigger (b w)) w = ((rmw b w).1.1, (rmw b w).2).
Proof. unfold rmw. by destruct (b w). Qed.

Lemma in_count_spec x : in_count x = true ↔ 0 <= x < 16.
Proof. unfold in_count. lia. Qed.

Lemma s32_nonzero x : 0 <= x < 2 ^ 32 → x ≠ 0 → s32 x ≠ 0.
Proof. intros Hx Hn. unfold s32. rewrite u32_small by done. case_match; lia. Qed.

Lemma ban_of_range banned ba w :
  0 <= banned < 2 ^ 32 → word32 w → 0 <= ban_of banned ba w < 2 ^ 32.
Proof.
  intros Hb Hw. unfold ban_of. apply lor_range; [done|by apply land_range|].
  apply land_range; [done|apply u32_range].
Qed.

Lemma mark_access_refines w : word32 w → refines OpMarkAccess w (rmw mark_access_body w).
Proof.
  intros Hw. unfold refines, rmw, mark_access_body. cbn [op_guard op_effect].
  set (banned := Z.lor _ _).
  assert ((Z.land w banned =? 0) =
    negb (v_unstable (view_of w) || v_wlldestroy (view_of w))) as ->.
  { transitivity (negb (has w banned)); [unfold has; by rewrite negb_involutive|].
    unfold banned. flags_to_view. done. }
  cbn [view_of v_access v_unstable v_wlldestroy].
  pose proof (getaccess_range w).
  destruct (negb _) eqn:Hb; cbn [andb].
  - destruct (Z.eqb_spec (SCHEDI_JOB_METAFLAG_GETACCESS w) 15) as [E|E]; cbn [negb].
    + split; [done|]. split; [|done]. cbn. apply has_spec. rewrite has_access, E. done.
    + rewrite setaccess_small by lia.
      split; [apply word32_put; [lia|done|lia]|]. split; [done|].
      cbn [fst snd]. by rewrite view_set_access by lia.
  - split; [done|]. split; [|done]. cbn. apply has_spec. unfold banned. flags_to_view.
    by apply negb_false_iff in Hb.
Qed.

Lemma unmark_access_refines w :
  word32 w → refines OpUnmarkAccess w (rmw unmark_access_body w).
Proof.
  intros Hw. unfold refines, rmw, unmark_access_body. cbn [op_guard op_effect].
  assert ((Z.land w SCHEDI_JOB_METAFLAG_UNSTABLE =? 0) = negb (v_unstable (view_of w))) as ->.
  { transitivity (negb (has w SCHEDI_JOB_METAFLAG_UNSTABLE)).
    - unfold has; by rewrite negb_involutive.
    - flags_to_view. done. }
  cbn [view_of v_access v_unstable].
  destruct (Z.testbit w 1) eqn:Hb; cbn [negb].
  - split; [done|]. split; [|done]. cbn. apply has_spec. flags_to_view. done.
  - rewrite setaccess_put.
    pose proof (Z.mod_pos_bound (SCHEDI_JOB_METAFLAG_GETACCESS w - 1) 16 ltac:(lia)).
    split; [apply word32_put; [lia|done|lia]|]. split; [done|].
    cbn [fst snd]. by rewrite view_set_access by lia.
Qed.

Lemma update_or_refines rs rj sd wd jd fs banned ba w :
  word32 w →
  let op := OpUpdateOr rs rj sd wd jd fs banned ba in refines op w (rmw (op_body op) w).
Proof.
  intros Hw. cbn [op_body]. rewrite drop_trigger_rmw.
  unfold refines, rmw, cas_update_body. cbn [op_guard op_effect].
  pose proof (ban_of_range (flags_word banned) ba w (word32_flags banned) Hw) as Hban.
  pose proof (ban_of_zero (flags_word banned) ba w) as Hz. rewrite refused_word in Hz.
  fold (refused banned ba (view_of w)) in Hz. rewrite <-Hz.
  cbn [view_of v_avsock v_wait v_avjobs].
  destruct (Z.eqb_spec (ban_of (flags_word banned) ba w) 0) as [E|E]; cbn [andb].
  - set (a := SCHEDI_JOB_METAFLAG_GETAVSOCK w + sd).
    set (wt := SCHEDI_JOB_METAFLAG_GETWAIT w + wd).
    set (j := SCHEDI_JOB_METAFLAG_GETAVJOBS w + jd).
    destruct (in_count a && in_count wt && in_count j) eqn:Hin.
    + apply andb_true_iff in Hin as [[Ha Hwt]%andb_true_iff Hj].
      apply in_count_spec in Ha, Hwt, Hj.
      assert ((a <? 0) || (15 <? a) || (wt <? 0) || (15 <? wt) || (j <? 0) || (15 <? j)
        = false) as -> by lia.
      cbn. split; [by apply word32_desired|]. split; [done|].
      rewrite view_desired by done. unfold a, wt, j. by rewrite !Z.add_simpl_l.
    + assert ((a <? 0) || (15 <? a) || (wt <? 0) || (15 <? wt) || (j <? 0) || (15 <? j)
        = true) as -> by (unfold in_count in Hin; lia).
      done.
  - split; [done|]. split; [|done]. by apply s32_nonzero.
Qed.

(** The update of jobs.c is the general one at one flag and its bans. *)
Definition update_flags (basic : bool) : list job_flag := if basic then [FReadybasic] else [].
Definition update_bans (basic : bool) : list job_flag :=
  if basic then [FUnstable; FWlldestroy] else [].

Lemma op_update_or rs rj sd wd jd basic v :
  let op := OpUpdate rs rj sd wd jd basic in
  let op' := OpUpdateOr rs rj sd wd jd (update_flags basic) (update_bans basic) false in
  op_body op = op_body op' ∧ op_guard op v = op_guard op' v ∧ op_effect op v = op_effect op' v ∧
  op_refusal op v = op_refusal op' v.
Proof.
  destruct basic, v; cbn; unfold refresh, refused; cbn; rewrite ?orb_false_r, ?orb_true_r;
    by split_and!.
Qed.

Lemma update_refines rs rj sd wd jd basic w :
  word32 w →
  refines (OpUpdate rs rj sd wd jd basic) w (rmw (op_body (OpUpdate rs rj sd wd jd basic)) w).
Proof.
  intros Hw. destruct (op_update_or rs rj sd wd jd basic (view_of w)) as (Hb & Hg & He & _).
  unfold refines. rewrite Hb, Hg, He. by apply update_or_refines.
Qed.

Ltac named_mark L :=
  eapply mark_or_refines; [done|reflexivity|word32_flag|guard_eq|apply L].
Ltac named_unmark L :=
  eapply unmark_or_refines; [done|reflexivity|guard_eq|apply L|absent_eq].

Lemma meta_op_refines_core op w : word32 w → refines op w (rmw (op_body op) w).
Proof.
  intros Hw. destruct op.
  - eapply mark_or_refines; [done|reflexivity|apply word32_flag_bit| |apply view_mark_flag].
    by rewrite refused_word.
  - eapply unmark_or_refines; [done|reflexivity|by rewrite refused_word|apply view_unmark_flag|].
    rewrite has_flag. by apply put_flag_same.
  - eapply mark_or_refines; [done|reflexivity|apply word32_flag_bit|guard_eq|apply view_mark_flag].
  - named_mark (view_mark_flag FAlive).
  - named_mark view_mark_executing.
  - named_unmark view_unmark_executing.
  - named_mark view_mark_unstable.
  - named_mark view_mark_wlldestroy.
  - named_unmark view_unmark_wlldestroy.
  - by apply mark_access_refines.
  - by apply unmark_access_refines.
  - named_mark view_mark_ready.
  - named_unmark view_unmark_ready.
  - named_unmark view_unmark_readybasic.
  - by apply update_or_refines.
  - by apply update_refines.
Qed.

(** ** What a refusal returns *)

Lemma mark_or_refusal op flag banned ba w :
  word32 w → op_guard op (view_of w) = false →
  op_body op w = mark_or_body flag (flags_word banned) ba w →
  op_refusal op (view_of w) = bans banned ba (view_of w) →
  (rmw (op_body op) w).1 = op_refusal op (view_of w).
Proof.
  intros Hw Hg Hb ->. destruct (meta_op_refines_core op w Hw) as [_ Hr]. rewrite Hg in Hr.
  destruct Hr as [Hr _]. revert Hr. unfold rmw. rewrite Hb. unfold mark_or_body.
  rewrite ban_of_flags. fold (bans banned ba (view_of w)). destruct (_ =? 0); cbn; congruence.
Qed.
Lemma unmark_or_refusal op flag banned ba w :
  word32 w → op_guard op (view_of w) = false →
  op_body op w = unmark_or_body flag (flags_word banned) ba w →
  op_refusal op (view_of w) = bans banned ba (view_of w) →
  (rmw (op_body op) w).1 = op_refusal op (view_of w).
Proof.
  intros Hw Hg Hb ->. destruct (meta_op_refines_core op w Hw) as [_ Hr]. rewrite Hg in Hr.
  destruct Hr as [Hr _]. revert Hr. unfold rmw. rewrite Hb. unfold unmark_or_body.
  rewrite ban_of_flags. fold (bans banned ba (view_of w)). destruct (_ && _); cbn; [congruence|done].
Qed.

Lemma land_bans w fs : Z.land w (flags_word fs) = bans fs false (view_of w).
Proof. unfold bans. by rewrite land_flags, Z.lor_0_r. Qed.
Lemma land_ban_zero w fs : (Z.land w (flags_word fs) =? 0) = negb (any_flag fs (view_of w)).
Proof. rewrite <-has_flags. unfold has. by rewrite negb_involutive. Qed.

Lemma mark_access_refusal w :
  op_guard OpMarkAccess (view_of w) = false →
  (rmw mark_access_body w).1 = op_refusal OpMarkAccess (view_of w).
Proof.
  intros Hg. cbn [op_guard op_refusal] in *. unfold rmw, mark_access_body.
  change (Z.lor SCHEDI_JOB_METAFLAG_UNSTABLE SCHEDI_JOB_METAFLAG_WLLDESTROY)
    with (flags_word [FUnstable; FWlldestroy]).
  rewrite land_ban_zero, land_bans.
  assert (any_flag [FUnstable; FWlldestroy] (view_of w) =
    v_unstable (view_of w) || v_wlldestroy (view_of w)) as E by (cbn; by rewrite orb_false_r).
  rewrite E in *. destruct (_ || _); cbn [negb andb] in *; [done|].
  cbn [view_of v_access] in Hg. apply negb_false_iff, Z.eqb_eq in Hg.
  rewrite Hg. cbn [Z.eqb Pos.eqb]. rewrite land_access, Hg. done.
Qed.
Lemma update_or_refusal rs rj sd wd jd fs banned ba w :
  let op := OpUpdateOr rs rj sd wd jd fs banned ba in
  op_guard op (view_of w) = false → (rmw (op_body op) w).1 = op_refusal op (view_of w).
Proof.
  cbn [op_body op_guard op_refusal]. rewrite drop_trigger_rmw. unfold rmw, cas_update_body.
  rewrite ban_of_zero, refused_word. fold (refused banned ba (view_of w)).
  destruct (refused banned ba (view_of w)); cbn [negb andb fst].
  { intros _. by rewrite ban_of_flags. }
  cbn [view_of v_avsock v_wait v_avjobs].
  set (a := SCHEDI_JOB_METAFLAG_GETAVSOCK w + sd).
  set (wt := SCHEDI_JOB_METAFLAG_GETWAIT w + wd).
  set (j := SCHEDI_JOB_METAFLAG_GETAVJOBS w + jd). intros Hin.
  by assert ((a <? 0) || (15 <? a) || (wt <? 0) || (15 <? wt) || (j <? 0) || (15 <? j)
    = true) as -> by (unfold in_count in Hin; lia).
Qed.

Lemma meta_op_refusal op w :
  word32 w → op_guard op (view_of w) = false →
  (rmw (op_body op) w).1 = op_refusal op (view_of w).
Proof.
  intros Hw Hg. destruct op as
    [f banned ba|f banned ba|f| | | | | | | | | | | | |rs rj sd wd jd basic].
  - by eapply mark_or_refusal.
  - by eapply unmark_or_refusal.
  - by eapply (mark_or_refusal _ _ [FUnstable]).
  - by eapply (mark_or_refusal _ _ [FUnstable]).
  - by eapply (mark_or_refusal _ _ [FUnstable; FExecuting]).
  - by eapply (unmark_or_refusal _ _ [FUnstable]).
  - by eapply (mark_or_refusal _ _ [FUnstable; FExecuting; FReady]).
  - by eapply (mark_or_refusal _ _ [FUnstable]).
  - by eapply (unmark_or_refusal _ _ [FUnstable]).
  - by apply mark_access_refusal.
  - cbn [op_guard op_refusal op_body] in *. apply negb_false_iff in Hg.
    unfold rmw, unmark_access_body.
    change SCHEDI_JOB_METAFLAG_UNSTABLE with (flags_word [FUnstable]).
    rewrite land_ban_zero, land_bans. cbn [any_flag existsb v_flag]. by rewrite Hg.
  - by eapply (mark_or_refusal _ _ [FUnstable; FWlldestroy; FReady]).
  - by eapply (unmark_or_refusal _ _ [FUnstable; FWlldestroy]).
  - by eapply (unmark_or_refusal _ _ [FUnstable; FWlldestroy]).
  - by apply update_or_refusal.
  - destruct (op_update_or rs rj sd wd jd basic (view_of w)) as (Hb & Hgu & _ & Hr).
    rewrite Hb, Hr. apply update_or_refusal. by rewrite <-Hgu.
Qed.

(** Unmarking a flag that is not there: jobs.h documents the flag as the result; the code
    returns 0, as after a success. *)
Lemma unmark_absent_returns_zero f banned ba w :
  refused banned ba (view_of w) = false → v_flag f (view_of w) = false →
  rmw (op_body (OpUnmarkOr f banned ba)) w = (0, w).
Proof.
  intros Hr Hf. cbn [op_body]. unfold rmw, unmark_or_body. unfold refused in Hr.
  pose proof (ban_of_zero (flags_word banned) ba w) as Hz. rewrite refused_word, Hr in Hz.
  rewrite Hz, has_flag, Hf. by apply Z.eqb_eq in Hz as ->.
Qed.


(** ** What a refused access says *)

Lemma has_land w m f : has (Z.land w m) f = has w (Z.land m f).
Proof. unfold has. by rewrite Z.land_assoc. Qed.

Lemma mark_access_bans w :
  has (rmw mark_access_body w).1 SCHEDI_JOB_METAFLAG_UNSTABLE = v_unstable (view_of w) ∧
  has (rmw mark_access_body w).1 SCHEDI_JOB_METAFLAG_ACCESS =
    negb (v_unstable (view_of w) || v_wlldestroy (view_of w)) && (v_access (view_of w) =? 15).
Proof.
  set (banned := Z.lor SCHEDI_JOB_METAFLAG_UNSTABLE SCHEDI_JOB_METAFLAG_WLLDESTROY).
  assert (has w banned = v_unstable (view_of w) || v_wlldestroy (view_of w)) as Hban.
  { unfold banned. flags_to_view. done. }
  assert (has w SCHEDI_JOB_METAFLAG_UNSTABLE = v_unstable (view_of w)) as Hun.
  { flags_to_view. done. }
  unfold rmw, mark_access_body. fold banned. unfold has at 1 in Hban.
  destruct (Z.land w banned =? 0); cbn [negb] in Hban; rewrite <-Hban; cbn [negb andb].
  - symmetry in Hban. apply orb_false_iff in Hban as [Eu _].
    change (v_access (view_of w)) with (SCHEDI_JOB_METAFLAG_GETACCESS w).
    destruct (Z.eqb_spec (SCHEDI_JOB_METAFLAG_GETACCESS w) 15) as [E|]; cbn [fst];
      rewrite Eu; [|by rewrite !has_0_l].
    rewrite !has_land.
    change (Z.land SCHEDI_JOB_METAFLAG_ACCESS SCHEDI_JOB_METAFLAG_ACCESS)
      with SCHEDI_JOB_METAFLAG_ACCESS.
    rewrite has_access, E. split; [|done].
    change (Z.land SCHEDI_JOB_METAFLAG_ACCESS SCHEDI_JOB_METAFLAG_UNSTABLE) with 0.
    unfold has. by rewrite Z.land_0_r.
  - cbn [fst]. rewrite !has_land.
    change (Z.land banned SCHEDI_JOB_METAFLAG_UNSTABLE) with SCHEDI_JOB_METAFLAG_UNSTABLE.
    change (Z.land banned SCHEDI_JOB_METAFLAG_ACCESS) with 0.
    split; [done|]. unfold has. by rewrite Z.land_0_r.
Qed.

(** ** Taking an access and giving it back *)

Lemma field_put_put w k n v v' :
  0 <= k → 0 <= n → 0 <= v < 2 ^ n → field_put (field_put w k n v) k n v' = field_put w k n v'.
Proof.
  intros Hk Hn Hv. apply Z.bits_inj'. intros i Hi. rewrite !testbit_field_put by done.
  destruct (Z.leb_spec k i), (Z.ltb_spec i (k + n)); cbn [andb negb];
    rewrite ?(testbit_small v n) by lia; btauto.
Qed.

Lemma field_put_get w k n : 0 <= k → 0 <= n → field_put w k n (field_get w k n) = w.
Proof.
  intros Hk Hn. apply Z.bits_inj'. intros i Hi. rewrite testbit_field_put by done.
  destruct (Z.leb_spec k i); cbn [andb].
  - rewrite testbit_field_get by lia. replace (i - k + k) with i by lia.
    replace (i - k <? n) with (i <? k + n) by
      (destruct (Z.ltb_spec (i - k) n), (Z.ltb_spec i (k + n)); lia || done).
    btauto.
  - cbn. btauto.
Qed.

Lemma access_round_trip w :
  op_guard OpMarkAccess (view_of w) = true →
  rmw unmark_access_body (rmw mark_access_body w).2 = (0, w).
Proof.
  intros Hg. cbn [op_guard] in Hg. apply andb_true_iff in Hg as [Hban Ha].
  apply negb_true_iff in Hban. apply negb_true_iff, Z.eqb_neq in Ha.
  change (v_access (view_of w)) with (SCHEDI_JOB_METAFLAG_GETACCESS w) in Ha.
  pose proof (getaccess_range w) as Hr.
  assert (has w (Z.lor SCHEDI_JOB_METAFLAG_UNSTABLE SCHEDI_JOB_METAFLAG_WLLDESTROY) = false)
    as Hb by (flags_to_view; exact Hban).
  unfold has in Hb. apply negb_false_iff in Hb.
  assert ((rmw mark_access_body w).2 =
    field_put w 28 4 (SCHEDI_JOB_METAFLAG_GETACCESS w + 1)) as Hw1.
  { unfold rmw, mark_access_body. rewrite Hb.
    destruct (Z.eqb_spec (SCHEDI_JOB_METAFLAG_GETACCESS w) 15); [done|]. cbn [snd].
    by rewrite setaccess_small by lia. }
  rewrite Hw1. set (w1 := field_put w 28 4 _).
  assert ((Z.land w1 SCHEDI_JOB_METAFLAG_UNSTABLE =? 0) = true) as Hu.
  { apply negb_false_iff. change (has w1 (2 ^ 1) = false). rewrite has_bit by done.
    unfold w1. rewrite testbit_field_put_other by lia.
    apply orb_false_iff in Hban as [Hban _]. exact Hban. }
  unfold rmw, unmark_access_body. rewrite Hu. f_equal.
  assert (SCHEDI_JOB_METAFLAG_GETACCESS w1 = SCHEDI_JOB_METAFLAG_GETACCESS w + 1) as ->
    by (apply field_get_put_same; lia).
  rewrite Z.add_simpl_r, setaccess_put, Z.mod_small by lia. unfold w1.
  rewrite field_put_put by lia. by apply field_put_get.
Qed.

(** ** The loops against interference *)

(** The compare-and-swap loop of every operation, whatever 32-bit words other
    threads leave in [meta_flag] while it runs, returns, and its result and its
    write are those of the operation's abstract specification at one word that the
    cell held during the call. *)
Lemma meta_op_loop_refines op w env :
  word32 w → Forall word32 env →
  ∃ r v wr, cas_loop (op_body op) w env = (r, v, wr) ∧ v ∈ w :: env ∧
    refines op v (r, default v wr).
Proof.
  intros Hw Henv. destruct (cas_loop_atomic (op_body op) w env)
    as (r & v & wr & Hrun & Hv & Hrmw).
  exists r, v, wr. split_and!; [done..|]. rewrite <-Hrmw. apply meta_op_refines_core.
  rewrite Forall_forall in Henv. apply elem_of_cons in Hv as [->|]; auto.
Qed.


(** ** The access protocol

    One life of a job slot, from the store that ends [schedi_job_create] on.  Any
    number of threads run the operations above in any order; the state counts the
    threads that hold an access, those that were granted EXECUTING and have not
    returned it, and those that were granted UNSTABLE.  A thread gives back only what
    it was granted. *)

Record protocol : Type := Protocol {
  p_word : Z;
  p_accessors : nat;
  p_executors : nat;
  p_editors : nat;
}.

(** Flags whose marks no rule of the protocol is about; READYEPOLLTOOL is derived. *)
Definition free_flag (f : job_flag) : bool :=
  match f with FUnstable | FExecuting | FReadyepolltool => false | _ => true end.
Definition neutral (op : meta_op) : bool :=
  match op with
  | OpMarkOr f _ _ | OpUnmarkOr f _ _ | OpMarkDefault f => free_flag f
  | OpUpdateOr _ _ _ _ _ fs _ _ => forallb free_flag fs
  | OpMarkAlive | OpMarkWlldestroy | OpUnmarkWlldestroy | OpMarkReady | OpUnmarkReady
  | OpUnmarkReadybasic | OpUpdate _ _ _ _ _ _ => true
  | OpMarkExecuting | OpUnmarkExecuting | OpMarkUnstable | OpMarkAccess | OpUnmarkAccess => false
  end.

Definition try_op (op : meta_op) (w : Z) : Z * Z := rmw (op_body op) w.

Inductive pstep : protocol → protocol → Prop :=
  | P_access w a e d :
      (try_op OpMarkAccess w).1 = 0 →
      pstep (Protocol w a e d) (Protocol (try_op OpMarkAccess w).2 (S a) e d)
  | P_unaccess w a e d :
      pstep (Protocol w (S a) e d) (Protocol (try_op OpUnmarkAccess w).2 a e d)
  | P_execute w a e d :
      (try_op OpMarkExecuting w).1 = 0 →
      pstep (Protocol w a e d) (Protocol (try_op OpMarkExecuting w).2 a (S e) d)
  | P_unexecute w a e d :
      pstep (Protocol w a (S e) d) (Protocol (try_op OpUnmarkExecuting w).2 a e d)
  | P_edit w a e d :
      (try_op OpMarkUnstable w).1 = 0 →
      pstep (Protocol w a e d) (Protocol (try_op OpMarkUnstable w).2 a e (S d))
  | P_neutral op w a e d :
      neutral op = true →
      pstep (Protocol w a e d) (Protocol (try_op op w).2 a e d).

(** The word [schedi_job_create] stores. *)
Definition created_word : Z :=
  Z.lor SCHEDI_JOB_METAFLAG_ALIVE (Z.lor SCHEDI_JOB_METAFLAG_READYEPOLLSOCK
    (Z.lor SCHEDI_JOB_METAFLAG_READYEPOLLTOOL SCHEDI_JOB_METAFLAG_READYJOB)).

Definition protocol_inv (p : protocol) : Prop :=
  let v := view_of (p_word p) in
  word32 (p_word p) ∧
  v_access v = Z.of_nat (p_accessors p) ∧
  p_executors p = Nat.b2n (v_executing v) ∧ p_editors p = Nat.b2n (v_unstable v) ∧
  v_readyepolltool v = (v_wait v =? 0) ∧
  (v_unstable v = true → p_accessors p = O ∧ v_executing v = false).

Lemma try_op_spec op w : word32 w → refines op w (try_op op w).
Proof. apply meta_op_refines_core. Qed.

Lemma try_op_granted op w :
  word32 w → (try_op op w).1 = 0 →
  op_guard op (view_of w) = true ∧ view_of (try_op op w).2 = op_effect op (view_of w).
Proof.
  intros Hw H0. destruct (try_op_spec op w Hw) as [_ Hr].
  destruct (op_guard op (view_of w)); destruct Hr; auto. congruence.
Qed.

Lemma try_op_guarded op w :
  word32 w → op_guard op (view_of w) = true →
  view_of (try_op op w).2 = op_effect op (view_of w).
Proof.
  intros Hw Hg. destruct (try_op_spec op w Hw) as [_ Hr]. rewrite Hg in Hr. by destruct Hr.
Qed.

Lemma view_of_access_bound w : 0 <= v_access (view_of w) < 16.
Proof. apply getaccess_range. Qed.

(** What a neutral operation leaves as it is. *)
Definition same_protocol (v v' : view) : Prop :=
  v_access v' = v_access v ∧ v_executing v' = v_executing v ∧ v_unstable v' = v_unstable v.

Lemma put_flag_protocol f b v : free_flag f = true →
  same_protocol v (put_flag f b v) ∧ v_readyepolltool (put_flag f b v) = v_readyepolltool v ∧
  v_wait (put_flag f b v) = v_wait v.
Proof. by destruct f. Qed.
Lemma put_flags_protocol fs v : forallb free_flag fs = true →
  same_protocol v (foldr (λ f, put_flag f true) v fs).
Proof.
  induction fs as [|f fs IH]; cbn [foldr forallb]; [done|]. intros [Hf Hfs]%andb_true_iff.
  destruct (put_flag_protocol f true (foldr (λ f, put_flag f true) v fs) Hf) as [(E1 & E2 & E3) _].
  destruct (IH Hfs) as (E4 & E5 & E6). split_and!; congruence.
Qed.

Lemma neutral_effect op v :
  neutral op = true → v_readyepolltool v = (v_wait v =? 0) →
  same_protocol v (op_effect op v) ∧
  v_readyepolltool (op_effect op v) = (v_wait (op_effect op v) =? 0).
Proof.
  intros Hop Ht. destruct op; try discriminate Hop; cbn [neutral op_effect] in *;
    try match goal with |- context [put_flag ?f ?b v] =>
      destruct (put_flag_protocol f b v) as (Hs & -> & ->); [done|by split] end;
    try by split.
  split; [|done]. exact (put_flags_protocol fs v Hop).
Qed.

Ltac proto_simpl :=
  unfold protocol_inv;
  cbn [p_word p_accessors p_executors p_editors op_effect op_guard set_access
    set_unstable set_executing set_wlldestroy set_ready set_readybasic refresh
    v_alive v_unstable v_executing v_wlldestroy v_destroynotent v_ready v_readybasic
    v_readyepolltool v_readyepollsock v_readyjob v_avsock v_wait v_avjobs v_access].

(** One lemma per kind of step: from the facts about the word to those about the
  new one. *)
Lemma step_access w a e d :
  protocol_inv (Protocol w a e d) →
  (try_op OpMarkAccess w).1 = 0 →
  protocol_inv (Protocol (try_op OpMarkAccess w).2 (S a) e d).
Proof.
  intros (Hw & Ha & He & Hd & Ht & Hx) H0.
  cbn [p_word p_accessors p_executors p_editors] in *.
  destruct (try_op_granted _ _ Hw H0) as [Hg Hv]. cbn [op_guard] in Hg.
  proto_simpl. rewrite Hv. proto_simpl.
  split_and!; [by apply (try_op_spec OpMarkAccess)|lia|done|done|done|].
  intros Hu. by rewrite Hu in Hg.
Qed.

Lemma step_execute w a e d :
  protocol_inv (Protocol w a e d) →
  (try_op OpMarkExecuting w).1 = 0 →
  protocol_inv (Protocol (try_op OpMarkExecuting w).2 a (S e) d).
Proof.
  intros (Hw & Ha & He & Hd & Ht & Hx) H0.
  cbn [p_word p_accessors p_executors p_editors] in *.
  destruct (try_op_granted _ _ Hw H0) as [Hg Hv]. cbn [op_guard] in Hg.
  proto_simpl. rewrite Hv. proto_simpl.
  apply negb_true_iff, orb_false_iff in Hg as [Hu Hex]. rewrite Hex in He. cbn [Nat.b2n] in *.
  split_and!; [by apply (try_op_spec OpMarkExecuting)|done|by rewrite He|done|done|].
  by rewrite Hu.
Qed.

Lemma step_edit w a e d :
  protocol_inv (Protocol w a e d) →
  (try_op OpMarkUnstable w).1 = 0 →
  protocol_inv (Protocol (try_op OpMarkUnstable w).2 a e (S d)).
Proof.
  intros (Hw & Ha & He & Hd & Ht & Hx) H0.
  cbn [p_word p_accessors p_executors p_editors] in *.
  destruct (try_op_granted _ _ Hw H0) as [Hg Hv]. cbn [op_guard] in Hg.
  proto_simpl. rewrite Hv. proto_simpl.
  apply negb_true_iff, orb_false_iff in Hg as [Hg Hac].
  apply orb_false_iff in Hg as [Hg _]. apply orb_false_iff in Hg as [Hu Hex].
  apply negb_false_iff, Z.eqb_eq in Hac. rewrite Hu in Hd. cbn [Nat.b2n] in *.
  split_and!; [by apply (try_op_spec OpMarkUnstable)|done|done|by rewrite Hd|done|].
  intros _. split; [lia|done].
Qed.

Lemma step_neutral w a e d op :
  protocol_inv (Protocol w a e d) →
  neutral op = true → protocol_inv (Protocol (try_op op w).2 a e d).
Proof.
  intros (Hw & Ha & He & Hd & Ht & Hx) Hop.
  cbn [p_word p_accessors p_executors p_editors] in *.
  destruct (try_op_spec op w Hw) as [Hw' Hr]. proto_simpl.
  destruct (op_guard op (view_of w)); destruct Hr as [_ ->]; [|done].
  destruct (neutral_effect op (view_of w) Hop Ht) as [(-> & -> & ->) Ht']. done.
Qed.

Lemma step_unaccess w a e d :
  protocol_inv (Protocol w (S a) e d) →
  protocol_inv (Protocol (try_op OpUnmarkAccess w).2 a e d).
Proof.
  intros (Hw & Ha & He & Hd & Ht & Hx). cbn [p_word p_accessors p_executors p_editors] in *.
  assert (op_guard OpUnmarkAccess (view_of w) = true) as Hg.
  { cbn [op_guard]. destruct (v_unstable (view_of w)); [by destruct Hx|done]. }
  pose proof (try_op_guarded _ _ Hw Hg) as Hv.
  pose proof (view_of_access_bound w).
  proto_simpl. rewrite Hv. proto_simpl. rewrite Z.mod_small by lia.
  split_and!; [by apply (try_op_spec OpUnmarkAccess)|lia|done..|].
  intros Hu. by destruct Hx.
Qed.

Lemma step_unexecute w a e d :
  protocol_inv (Protocol w a (S e) d) →
  protocol_inv (Protocol (try_op OpUnmarkExecuting w).2 a e d).
Proof.
  intros (Hw & Ha & He & Hd & Ht & Hx). cbn [p_word p_accessors p_executors p_editors] in *.
  assert (v_executing (view_of w) = true) as Hex by by destruct (v_executing (view_of w)).
  assert (op_guard OpUnmarkExecuting (view_of w) = true) as Hg.
  { cbn [op_guard]. destruct (v_unstable (view_of w)); [|done]. destruct Hx; congruence. }
  pose proof (try_op_guarded _ _ Hw Hg) as Hv. rewrite Hex in He. injection He as ->.
  proto_simpl. rewrite Hv. proto_simpl.
  split_and!; [by apply (try_op_spec OpUnmarkExecuting)|done..|].
  intros Hu. by destruct Hx.
Qed.

Lemma protocol_step p p' : protocol_inv p → pstep p p' → protocol_inv p'.
Proof.
  intros Hp Hstep. destruct Hstep.
  - by apply step_access.
  - by apply step_unaccess.
  - by eapply step_execute.
  - by apply step_unexecute.
  - by eapply step_edit.
  - by apply step_neutral.
Qed.

Lemma protocol_steps p p' : protocol_inv p → rtc pstep p p' → protocol_inv p'.
Proof. intros Hp. induction 1; [done|]. eauto using protocol_step. Qed.

Lemma protocol_created : protocol_inv (Protocol created_word 0 0 0).
Proof. split_and!; try done. Qed.

(** C2: in every interleaving of the threads that use a job after its creation,
    the access field is exactly the number of threads holding an access (never
    more than 15); at most one thread has been granted EXECUTING and not returned
    it, and the flag is set exactly while there is one; at most one thread was
    granted [schedi_job_mark_unstable], and while there is one nobody accesses or
    executes the job; READYEPOLLTOOL is set exactly when the waiting count is 0. *)
Theorem access_protocol_safe p :
  rtc pstep (Protocol created_word 0 0 0) p →
  SCHEDI_JOB_METAFLAG_GETACCESS (p_word p) = Z.of_nat (p_accessors p) ∧
  (p_accessors p <= 15)%nat ∧ (p_executors p <= 1)%nat ∧ (p_editors p <= 1)%nat ∧
  has (p_word p) SCHEDI_JOB_METAFLAG_EXECUTING = (1 <=? p_executors p)%nat ∧
  has (p_word p) SCHEDI_JOB_METAFLAG_READYEPOLLTOOL =
    (SCHEDI_JOB_METAFLAG_GETWAIT (p_word p) =? 0) ∧
  (p_editors p = 1%nat → p_accessors p = O ∧ p_executors p = O).
Proof.
  intros Hp. destruct (protocol_steps _ _ protocol_created Hp) as (Hw & Ha & He & Hd & Ht & Hx).
  pose proof (view_of_access_bound (p_word p)). rewrite He, Hd.
  assert (has (p_word p) SCHEDI_JOB_METAFLAG_EXECUTING = v_executing (view_of (p_word p))) as ->.
  { change SCHEDI_JOB_METAFLAG_EXECUTING with (2 ^ 2). by rewrite has_bit. }
  split_and!; [done|lia|destruct (v_executing _); cbn; lia|destruct (v_unstable _); cbn; lia|
    by destruct (v_executing _)| |].
  - change SCHEDI_JOB_METAFLAG_READYEPOLLTOOL with (2 ^ 7). by rewrite has_bit.
  - destruct (v_unstable _); [|done]. intros _. by destruct Hx as [-> ->].
Qed.

Lemma access_protocol_safe_witness :
  let p := Protocol (Z.lor created_word (Z.lor SCHEDI_JOB_METAFLAG_EXECUTING
             (Z.shiftl 1 28))) 1 1 0 in
  SCHEDI_JOB_METAFLAG_GETACCESS (p_word p) = Z.of_nat (p_accessors p) ∧
  (p_accessors p <= 15)%nat ∧ (p_executors p <= 1)%nat ∧ (p_editors p <= 1)%nat ∧
  has (p_word p) SCHEDI_JOB_METAFLAG_EXECUTING = (1 <=? p_executors p)%nat ∧
  has (p_word p) SCHEDI_JOB_METAFLAG_READYEPOLLTOOL =
    (SCHEDI_JOB_METAFLAG_GETWAIT (p_word p) =? 0) ∧
  (p_editors p = 1%nat → p_accessors p = O ∧ p_executors p = O).
Proof.
  apply access_protocol_safe.
  eapply rtc_l; [apply (P_access created_word 0 0 0); reflexivity|].
  eapply rtc_l; [apply P_execute; reflexivity|]. apply rtc_refl.
Defined.
