(* ===== verification/ReadyCache.v ===== *)
(** * The ready-job cache (src/src/jobs.c, lines 284-569)

    Jobs that are ready to run wait in a table of slots that any thread fills and
    empties with compare-and-swap.  A packed word counts the cached jobs and
    remembers their peak; pickers look only at the first [SCHEDI_JOBS_CACHE_CHECK]
    slots, and a counter of operations triggers a reorganisation that moves the
    jobs together.  The mutex and the condition variable that workers sleep on
    belong to the same state. *)

From S2P Require Export Atomics SlotPool.

Local Open Scope nat_scope.

(** Build-time switches of the library (README.md, Makefile). *)
Class BuildConfig : Type := {
  lockless_readyjob : bool;   (** [LOCKLESS_READYJOB] *)
  ext_timeout : bool;         (** [SCHEDI_EXT_TIMEOUT] *)
}.

Definition SCHEDI_JOBS_CACHE_CHECK : nat := 16.

(** The part of [struct schedi_job_array] the cache works on, with
    [readyjob_mutex] and the number of wake-ups sent to [readyjob_cond]. *)
Record ready_cache : Type := Cache {
  ready_jobs_cache : list (option nat);
  job_count : Z;
  reorganize_counter : Z;
  cache_flags : Z;
  readyjob_mutex : bool;
  readyjob_wakeups : nat;
}.

Definition set_slots x c := Cache x (job_count c) (reorganize_counter c) (cache_flags c)
  (readyjob_mutex c) (readyjob_wakeups c).
Definition set_job_count x c := Cache (ready_jobs_cache c) x (reorganize_counter c)
  (cache_flags c) (readyjob_mutex c) (readyjob_wakeups c).
Definition set_counter x c := Cache (ready_jobs_cache c) (job_count c) x (cache_flags c)
  (readyjob_mutex c) (readyjob_wakeups c).
Definition set_cache_flags x c := Cache (ready_jobs_cache c) (job_count c)
  (reorganize_counter c) x (readyjob_mutex c) (readyjob_wakeups c).
Definition set_mutex x c := Cache (ready_jobs_cache c) (job_count c)
  (reorganize_counter c) (cache_flags c) x (readyjob_wakeups c).
Definition set_wakeups x c := Cache (ready_jobs_cache c) (job_count c)
  (reorganize_counter c) (cache_flags c) (readyjob_mutex c) x.

(** ** The mutex and the condition variable *)

Definition pthread_cond_signal : M ready_cache Z :=
  modify (λ c, set_wakeups (S (readyjob_wakeups c)) c) ≫= λ _, mret 0%Z.
Definition pthread_cond_broadcast : M ready_cache Z := pthread_cond_signal.

Definition schedi_pickingreadyjob : M ready_cache unit :=
  pthread_mutex_lock readyjob_mutex set_mutex.

Definition schedi_pickedreadyjob : M ready_cache unit :=
  pthread_mutex_unlock readyjob_mutex set_mutex.

Definition schedi_lock_readyjob_mutex : M ready_cache Z :=
  pthread_mutex_lock readyjob_mutex set_mutex ≫= λ _, mret 0%Z.

Definition schedi_unlock_readyjob_mutex : M ready_cache Z :=
  pthread_mutex_unlock readyjob_mutex set_mutex ≫= λ _, mret 0%Z.

Definition schedi_wake_all_job_waiters_lockless : M ready_cache Z :=
  pthread_cond_broadcast.

Definition schedi_wake_all_job_waiters `{BuildConfig} : M ready_cache Z :=
  if lockless_readyjob then mret 0%Z
  else
    r1 ← schedi_lock_readyjob_mutex;
    r2 ← pthread_cond_broadcast;
    r3 ← schedi_unlock_readyjob_mutex;
    mret (Z.lor (Z.lor r1 r2) r3).

Definition schedi_wake_job_waiter : M ready_cache Z :=
  pthread_mutex_lock readyjob_mutex set_mutex ≫= λ _,
  ret ← pthread_cond_signal;
  pthread_mutex_unlock readyjob_mutex set_mutex ≫= λ _,
  mret ret.

(** ** The packed count *)

Definition count_low (w : Z) : Z := field_get w 0 32.
Definition count_peak (w : Z) : Z := field_get w 32 32.
Definition pack_count (n peak : Z) : Z := Z.lor n (Z.shiftl peak 32).

Definition add_job_count_body (w : Z) : attempt Z unit :=
  let peaked := count_peak w in
  let n := u32 (count_low w + 1) in
  let peaked := if (peaked <? n)%Z then n else peaked in
  Swap (pack_count n peaked) ().

Definition sub_job_count_body (w : Z) : attempt Z unit :=
  let peaked := count_peak w in
  let n := u32 (count_low w - 1) in
  Swap (pack_count n peaked) ().

(** One increment of the [_Atomic int] operation counter. *)
Definition bump_counter : M ready_cache unit :=
  modify (λ c, set_counter (fetch_add s32 1 (reorganize_counter c)).2 c).

Definition schedi_ready_jobs_cache_add_job_count : M ready_cache unit :=
  bump_counter ≫= λ _,
  modify (λ c, set_job_count (rmw add_job_count_body (job_count c)).2 c).

Definition schedi_ready_jobs_cache_sub_job_count : M ready_cache unit :=
  bump_counter ≫= λ _,
  modify (λ c, set_job_count (rmw sub_job_count_body (job_count c)).2 c).

(** ** The slots *)

(** The compare-and-swap loop on one slot that puts a job in, or takes one out. *)
Definition slot_put_body (job : nat) (slot : option nat) : attempt (option nat) bool :=
  match slot with
  | Some _ => Leave false
  | None => Swap (Some job) true
  end.

Definition slot_take_body (slot : option nat) : attempt (option nat) (option nat) :=
  match slot with
  | None => Leave None
  | Some job => Swap None (Some job)
  end.

Definition slot_rmw {R} (body : option nat → attempt (option nat) R) (i : nat)
    : M ready_cache R :=
  slot ← reads (λ c, ready_jobs_cache c !! i);
  let '(r, slot') := rmw body slot in
  modify (λ c, set_slots (<[i := slot']> (ready_jobs_cache c)) c) ≫= λ _,
  mret r.

Fixpoint pop_loop (n i : nat) : M ready_cache (option nat) :=
  match n with
  | O => mret None
  | S n' =>
      r ← slot_rmw slot_take_body i;
      match r with
      | Some job =>
          schedi_ready_jobs_cache_sub_job_count ≫= λ _,
          modify (λ c, set_cache_flags
            (fetch_and (Z.lnot SCHEDI_JOB_ARRAY_FULL) (cache_flags c)).2 c) ≫= λ _,
          mret (Some job)
      | None => pop_loop n' (S i)
      end
  end.

Definition schedi_cache_job_ready_pop : M ready_cache (option nat) :=
  w ← gets job_count;
  if (count_low w =? 0)%Z then mret None else pop_loop SCHEDI_JOBS_CACHE_CHECK 0.

Fixpoint cache_loop (job n i : nat) : M ready_cache Z :=
  match n with
  | O =>
      modify (λ c, set_cache_flags
        (fetch_or SCHEDI_JOB_ARRAY_FULL (cache_flags c)).2 c) ≫= λ _,
      mret (-1)%Z
  | S n' =>
      done ← slot_rmw (slot_put_body job) i;
      if (done : bool) then
        schedi_ready_jobs_cache_add_job_count ≫= λ _, mret 0%Z
      else cache_loop job n' (S i)
  end.

Definition schedi_cache_job_ready (job : nat) : M ready_cache Z :=
  cache_loop job SCHEDI_MAXIMUM_JOBS 0.

Definition schedi_ready_jobs_cache_pop_specific (i : nat) : M ready_cache (option nat) :=
  r ← slot_rmw slot_take_body i;
  match r with
  | Some job => schedi_ready_jobs_cache_sub_job_count ≫= λ _, mret (Some job)
  | None => mret None
  end.

(** The loop of the reorganisation; [k] is [i + 1]. *)
Fixpoint reorganize_loop `{BuildConfig} (k : nat) (reorganized : Z) : M ready_cache unit :=
  match k with
  | O => mret ()
  | S i =>
      job ← schedi_ready_jobs_cache_pop_specific i;
      match job with
      | None => reorganize_loop i reorganized
      | Some job =>
          schedi_cache_job_ready job ≫= λ _,
          when (negb lockless_readyjob) (schedi_wake_job_waiter ≫= λ _, mret ()) ≫= λ _,
          let reorganized := u32 (reorganized + 1) in
          if (Z.of_nat i <=? reorganized)%Z then mret ()
          else reorganize_loop i reorganized
      end
  end.

Definition schedi_ready_jobs_cache_reorganize `{BuildConfig} : M ready_cache unit :=
  w ← gets job_count;
  let i := s32 (u32 (count_peak w - 1)) in
  reorganize_loop (Z.to_nat (i + 1)) 0.

Definition tick_body (counter : Z) : attempt Z bool :=
  if (counter <? Z.of_nat SCHEDI_JOBS_CACHE_CHECK)%Z then Leave false else Swap 0%Z true.

Definition schedi_ready_jobs_cache_reorganize_tick `{BuildConfig} : M ready_cache unit :=
  counter ← gets reorganize_counter;
  let '(ours, counter') := rmw tick_body counter in
  modify (set_counter counter') ≫= λ _,
  when ours schedi_ready_jobs_cache_reorganize.

(** ** Occupied slots *)

(** How many elements at the front of a list satisfy [p]. *)
Fixpoint leading {A} (p : A → bool) (l : list A) : nat :=
  match l with
  | [] => 0
  | x :: l' => if p x then S (leading p l') else 0
  end.

Definition occupied (s : option nat) : bool :=
  match s with Some _ => true | None => false end.
Definition vacant (s : option nat) : bool :=
  match s with Some _ => false | None => true end.

Definition first_vacant (l : list (option nat)) : nat := leading occupied l.
Definition first_occupied (l : list (option nat)) : nat := leading vacant l.

Section leading.
Context {A : Type} (p : A → bool).
Implicit Types l : list A.

Lemma leading_le l : leading p l ≤ length l.
Proof. induction l as [|x l IH]; cbn; [lia|]. destruct (p x); lia. Qed.

Lemma leading_before l i x : i < leading p l → l !! i = Some x → p x = true.
Proof.
  revert i. induction l as [|y l IH]; intros i; cbn; [lia|].
  destruct (p y) eqn:E; [|lia]. destruct i; cbn.
  - by intros _ [= <-].
  - intros Hi. apply IH. lia.
Qed.

Lemma leading_at l x : l !! leading p l = Some x → p x = false.
Proof.
  induction l as [|y l IH]; cbn; [done|].
  destruct (p y) eqn:E; cbn; [done|]. by intros [= <-].
Qed.

(** The only number with these two properties. *)
Lemma leading_unique l n :
  (∀ i, i < n → ∃ x, l !! i = Some x ∧ p x = true) →
  (∀ x, l !! n = Some x → p x = false) → leading p l = n.
Proof.
  revert n. induction l as [|y l IH]; intros n Hlt Hat; cbn.
  - destruct n; [done|]. destruct (Hlt 0) as (? & ? & _); [lia|done].
  - destruct n.
    + by rewrite (Hat y).
    + destruct (Hlt 0) as (x & [= <-] & ->); [lia|]. f_equal. apply IH.
      * intros i Hi. apply (Hlt (S i)). lia.
      * intros x. apply (Hat x).
Qed.
End leading.

Lemma occupied_inv s : occupied s = true → ∃ job, s = Some job.
Proof. destruct s as [job|]; [by exists job|done]. Qed.

Lemma first_vacant_before l i :
  i < first_vacant l → ∃ job, l !! i = Some (Some job).
Proof.
  intros Hi. pose proof (leading_le occupied l).
  destruct (lookup_lt_is_Some_2 l i) as [s Hs]; [unfold first_vacant in *; lia|].
  destruct (occupied_inv s) as [job ->]; [|by exists job].
  by eapply leading_before.
Qed.

Lemma first_vacant_at l :
  first_vacant l < length l → l !! first_vacant l = Some None.
Proof.
  intros Hl. destruct (lookup_lt_is_Some_2 l _ Hl) as [s Hs].
  rewrite Hs. apply leading_at in Hs. by destruct s.
Qed.

Lemma first_vacant_count l : first_vacant l ≤ length (somes l).
Proof. apply somes_app_full. apply first_vacant_before. Qed.

Lemma first_occupied_before l i :
  i < first_occupied l → l !! i = Some None.
Proof.
  intros Hi. pose proof (leading_le vacant l).
  destruct (lookup_lt_is_Some_2 l i) as [s Hs]; [unfold first_occupied in *; lia|].
  rewrite Hs. pose proof (leading_before _ _ _ _ Hi Hs) as H'. by destruct s.
Qed.

Lemma first_occupied_at l :
  first_occupied l < length l → ∃ job, l !! first_occupied l = Some (Some job).
Proof.
  intros Hl. destruct (lookup_lt_is_Some_2 l _ Hl) as [s Hs].
  rewrite Hs. apply leading_at in Hs. destruct s as [job|]; [by exists job|done].
Qed.

(** The first job of the first [n] slots is the first occupied slot's. *)
Lemma somes_take_first n l job :
  l !! first_occupied l = Some (Some job) → first_occupied l < n →
  somes (take n l) = job :: somes (take n (<[first_occupied l := None]> l)).
Proof.
  revert n. induction l as [|[j|] l IH]; intros n Hl Hn; cbn in Hl; [done| |].
  - injection Hl as ->. destruct n; [cbn in Hn; lia|]. cbn. done.
  - destruct n; [cbn in Hn; lia|]. cbn in Hn.
    change (somes (take n l) = job :: somes (take n (<[first_occupied l := None]> l))).
    apply IH; [done|]. unfold first_occupied. lia.
Qed.
Lemma somes_take_none n l : n ≤ first_occupied l → somes (take n l) = [].
Proof.
  intros Hn. apply somes_nil_iff. intros i Hi. rewrite length_take in Hi.
  rewrite lookup_take_lt by lia. apply first_occupied_before. lia.
Qed.

(** All jobs together at the front. *)
Definition dense (l : list (option nat)) : Prop :=
  ∀ i job, l !! i = Some (Some job) → i < first_vacant l.

Lemma dense_count l : dense l → first_vacant l = length (somes l).
Proof.
  intros H. apply Nat.le_antisymm; [apply first_vacant_count|].
  revert H. unfold dense, first_vacant. induction l as [|[job|] l IH]; intros H; cbn; [done| |].
  - apply le_n_S. apply IH. intros i j Hi. specialize (H (S i) j Hi). cbn in H. lia.
  - change (length (somes l) ≤ 0). destruct (somes l) as [|j k] eqn:E; [done|].
    assert (j ∈ somes l) as Hj by (rewrite E; left).
    apply elem_of_somes, list_elem_of_lookup in Hj as [i Hi].
    specialize (H (S i) j Hi). cbn in H. lia.
Qed.

(** ** The packed count *)

Lemma count_low_pack n peak :
  (0 <= n < 2 ^ 32)%Z → (0 <= peak)%Z → count_low (pack_count n peak) = n.
Proof.
  intros Hn Hp. unfold count_low, pack_count, field_get.
  rewrite Z.shiftr_0_r, Z.land_ones by done.
  rewrite <-Z.land_ones, Z.land_lor_distr_l, !Z.land_ones by done.
  rewrite Z.shiftl_mul_pow2, Z.mod_mul, Z.lor_0_r by done. by apply Z.mod_small.
Qed.

Lemma count_peak_pack n peak :
  (0 <= n < 2 ^ 32)%Z → (0 <= peak < 2 ^ 32)%Z → count_peak (pack_count n peak) = peak.
Proof.
  intros Hn Hp. unfold count_peak, pack_count, field_get.
  rewrite Z.shiftr_lor, Z.shiftr_shiftl_l, Z.sub_diag, Z.shiftl_0_r by done.
  rewrite (Z.shiftr_div_pow2 n), Z.div_small, Z.lor_0_l, Z.land_ones by done.
  by apply Z.mod_small.
Qed.

(** The table, its count, and the peak that bounds every occupied slot. *)
Record cache_ok (c : ready_cache) (peak : nat) : Prop := {
  ok_length : length (ready_jobs_cache c) = SCHEDI_MAXIMUM_JOBS;
  ok_count : job_count c =
    pack_count (Z.of_nat (length (somes (ready_jobs_cache c)))) (Z.of_nat peak);
  ok_peak : length (somes (ready_jobs_cache c)) ≤ peak ≤ SCHEDI_MAXIMUM_JOBS;
  ok_below : ∀ i job, ready_jobs_cache c !! i = Some (Some job) → i < peak;
}.

Lemma ok_counts c peak :
  cache_ok c peak →
  count_low (job_count c) = Z.of_nat (length (somes (ready_jobs_cache c))) ∧
  count_peak (job_count c) = Z.of_nat peak.
Proof.
  intros Hok. destruct (ok_peak _ _ Hok). unfold SCHEDI_MAXIMUM_JOBS in *.
  rewrite (ok_count _ _ Hok). split.
  - apply count_low_pack; lia.
  - apply count_peak_pack; lia.
Qed.

(** ** One slot *)

(** Only the slots, the count and the operation counter change. *)
Definition same_rest (c c' : ready_cache) : Prop :=
  readyjob_mutex c' = readyjob_mutex c ∧ readyjob_wakeups c' = readyjob_wakeups c.

Lemma slot_rmw_run {R} (body : option nat → attempt (option nat) R) i c s :
  ready_jobs_cache c !! i = Some s →
  slot_rmw body i c = Done (rmw body s).1
    (set_slots (<[i := (rmw body s).2]> (ready_jobs_cache c)) c).
Proof.
  intros Hs. unfold slot_rmw. erewrite bind_done by (unfold reads; by rewrite Hs).
  by destruct (rmw body s).
Qed.

Lemma set_slots_id c : set_slots (ready_jobs_cache c) c = c.
Proof. by destruct c. Qed.

Lemma slot_rmw_leave {R} (body : option nat → attempt (option nat) R) i c s r :
  ready_jobs_cache c !! i = Some s → body s = Leave r → slot_rmw body i c = Done r c.
Proof.
  intros Hs Hb. erewrite slot_rmw_run by done. unfold rmw. rewrite Hb. cbn [fst snd].
  by rewrite list_insert_id, set_slots_id.
Qed.

Lemma slot_rmw_swap {R} (body : option nat → attempt (option nat) R) i c s s' r :
  ready_jobs_cache c !! i = Some s → body s = Swap s' r →
  slot_rmw body i c = Done r (set_slots (<[i := s']> (ready_jobs_cache c)) c).
Proof.
  intros Hs Hb. erewrite slot_rmw_run by done. unfold rmw. by rewrite Hb.
Qed.

(** The counter after one more operation. *)
Definition bumped (c : ready_cache) : Z := s32 (reorganize_counter c + 1).

(** What putting job [job] in slot [i] leaves. *)
Definition put_at (i job peak : nat) (c : ready_cache) : ready_cache :=
  let n := S (length (somes (ready_jobs_cache c))) in
  Cache (<[i := Some job]> (ready_jobs_cache c))
    (pack_count (Z.of_nat n) (Z.of_nat (Nat.max peak n))) (bumped c) (cache_flags c)
    (readyjob_mutex c) (readyjob_wakeups c).

(** What taking the job out of slot [i] leaves. *)
Definition taken_at (i peak : nat) (c : ready_cache) : ready_cache :=
  Cache (<[i := None]> (ready_jobs_cache c))
    (pack_count (Z.of_nat (length (somes (ready_jobs_cache c)) - 1)) (Z.of_nat peak))
    (bumped c) (cache_flags c) (readyjob_mutex c) (readyjob_wakeups c).

Lemma add_job_count_run c peak slots :
  cache_ok c peak → length (somes (ready_jobs_cache c)) < SCHEDI_MAXIMUM_JOBS →
  schedi_ready_jobs_cache_add_job_count (set_slots slots c) =
    let n := S (length (somes (ready_jobs_cache c))) in
    Done () (Cache slots (pack_count (Z.of_nat n) (Z.of_nat (Nat.max peak n)))
      (bumped c) (cache_flags c) (readyjob_mutex c) (readyjob_wakeups c)).
Proof.
  intros Hok Hlt. destruct (ok_counts _ _ Hok) as [Hlow Hpeak].
  unfold schedi_ready_jobs_cache_add_job_count. erewrite bind_done by done.
  unfold modify. f_equal. unfold set_job_count, rmw, add_job_count_body, set_slots, set_counter.
  cbn. rewrite Hlow, Hpeak. f_equal. unfold SCHEDI_MAXIMUM_JOBS in *.
  rewrite u32_small by lia. f_equal; [lia|]. case_match; lia.
Qed.

Lemma sub_job_count_run c peak slots :
  cache_ok c peak → 0 < length (somes (ready_jobs_cache c)) →
  schedi_ready_jobs_cache_sub_job_count (set_slots slots c) =
    Done () (Cache slots
      (pack_count (Z.of_nat (length (somes (ready_jobs_cache c)) - 1)) (Z.of_nat peak))
      (bumped c) (cache_flags c) (readyjob_mutex c) (readyjob_wakeups c)).
Proof.
  intros Hok Hlt. destruct (ok_counts _ _ Hok) as [Hlow Hpeak].
  pose proof (ok_peak _ _ Hok). unfold SCHEDI_MAXIMUM_JOBS in *.
  unfold schedi_ready_jobs_cache_sub_job_count. erewrite bind_done by done.
  unfold modify. f_equal. unfold set_job_count, rmw, sub_job_count_body, set_slots, set_counter.
  cbn. rewrite Hlow, Hpeak. f_equal.
  rewrite u32_small by lia. f_equal; lia.
Qed.

Lemma length_somes_put (l : list (option nat)) i job :
  l !! i = Some None → length (somes (<[i := Some job]> l)) = S (length (somes l)).
Proof. intros Hi. by rewrite (somes_insert_Some _ _ _ Hi). Qed.

Lemma length_somes_take (l : list (option nat)) i job :
  l !! i = Some (Some job) → S (length (somes (<[i := None]> l))) = length (somes l).
Proof. intros Hi. by rewrite <-(somes_insert_None _ _ _ Hi). Qed.

Lemma put_at_ok c peak i job :
  cache_ok c peak → i ≤ length (somes (ready_jobs_cache c)) →
  ready_jobs_cache c !! i = Some None →
  cache_ok (put_at i job peak c) (Nat.max peak (S (length (somes (ready_jobs_cache c))))).
Proof.
  intros Hok Hin Hi. pose proof (length_somes_put _ _ job Hi) as Hn.
  pose proof (length_somes_le (<[i := Some job]> (ready_jobs_cache c))) as Hle.
  rewrite length_insert, (ok_length _ _ Hok), Hn in Hle.
  pose proof (ok_peak _ _ Hok).
  split; cbn [put_at ready_jobs_cache job_count].
  - by rewrite length_insert, (ok_length _ _ Hok).
  - by rewrite Hn.
  - rewrite Hn. lia.
  - intros j job'. rewrite list_lookup_insert_Some.
    intros [(-> & _ & _)|[_ Hj]]; [lia|]. pose proof (ok_below _ _ Hok _ _ Hj). lia.
Qed.

Lemma taken_at_ok c peak i job :
  cache_ok c peak → ready_jobs_cache c !! i = Some (Some job) →
  cache_ok (taken_at i peak c) peak.
Proof.
  intros Hok Hi. pose proof (length_somes_take _ _ _ Hi) as Hn.
  pose proof (ok_peak _ _ Hok).
  split; cbn [taken_at ready_jobs_cache job_count].
  - by rewrite length_insert, (ok_length _ _ Hok).
  - f_equal. lia.
  - lia.
  - intros j job'. rewrite list_lookup_insert_Some.
    intros [(-> & [=] & _)|[_ Hj]]. by apply (ok_below _ _ Hok _ _ Hj).
Qed.

(** ** Caching and picking *)

Definition raise_full (c : ready_cache) : ready_cache :=
  set_cache_flags (Z.lor (cache_flags c) SCHEDI_JOB_ARRAY_FULL) c.
Definition clear_full (c : ready_cache) : ready_cache :=
  set_cache_flags (Z.land (cache_flags c) (Z.lnot SCHEDI_JOB_ARRAY_FULL)) c.

Abbreviation vacancy c := (first_vacant (ready_jobs_cache c)).
Abbreviation candidate c := (first_occupied (ready_jobs_cache c)).
Abbreviation cached c := (somes (ready_jobs_cache c)).

Lemma ok_vacant c peak :
  cache_ok c peak → vacancy c < SCHEDI_MAXIMUM_JOBS →
  ready_jobs_cache c !! vacancy c = Some None.
Proof. intros Hok Hlt. apply first_vacant_at. by rewrite (ok_length _ _ Hok). Qed.

Lemma ok_not_full c peak :
  cache_ok c peak → vacancy c < SCHEDI_MAXIMUM_JOBS →
  length (cached c) < SCHEDI_MAXIMUM_JOBS.
Proof.
  intros Hok Hlt. pose proof (length_somes_put _ _ 0 (ok_vacant _ _ Hok Hlt)) as Hn.
  pose proof (length_somes_le (<[vacancy c := Some 0]> (ready_jobs_cache c))) as Hle.
  rewrite length_insert, (ok_length _ _ Hok) in Hle. lia.
Qed.

Lemma cache_loop_run job n i c peak :
  cache_ok c peak → i + n = SCHEDI_MAXIMUM_JOBS → i ≤ vacancy c →
  cache_loop job n i c =
    if decide (vacancy c < SCHEDI_MAXIMUM_JOBS)
    then Done 0%Z (put_at (vacancy c) job peak c)
    else Done (-1)%Z (raise_full c).
Proof.
  intros Hok. revert i. induction n as [|n IH]; intros i Hin Hi; cbn [cache_loop].
  - rewrite decide_False by lia. done.
  - destruct (decide (i = vacancy c)) as [->|Hne].
    + assert (vacancy c < SCHEDI_MAXIMUM_JOBS) as Hlt by lia.
      rewrite decide_True by done.
      bind_by (eapply slot_rmw_swap; [by eapply ok_vacant|done]).
      bind_by (eapply add_job_count_run; [done|by eapply ok_not_full]). done.
    + destruct (first_vacant_before (ready_jobs_cache c) i) as [j Hj]; [lia|].
      bind_by (by eapply slot_rmw_leave).
      apply IH; lia.
Qed.

Lemma cache_job_ready_run job c peak :
  cache_ok c peak →
  schedi_cache_job_ready job c =
    if decide (vacancy c < SCHEDI_MAXIMUM_JOBS)
    then Done 0%Z (put_at (vacancy c) job peak c)
    else Done (-1)%Z (raise_full c).
Proof. intros Hok. apply cache_loop_run; [done|done|lia]. Qed.

Lemma cached_nonempty c i job :
  ready_jobs_cache c !! i = Some (Some job) → 0 < length (cached c).
Proof. intros Hi. pose proof (length_somes_take _ _ _ Hi). lia. Qed.

Lemma pop_loop_run n i c peak :
  cache_ok c peak → i + n = SCHEDI_JOBS_CACHE_CHECK → i ≤ candidate c →
  pop_loop n i c =
    match ready_jobs_cache c !! candidate c with
    | Some (Some job) =>
        if decide (candidate c < SCHEDI_JOBS_CACHE_CHECK)
        then Done (Some job) (clear_full (taken_at (candidate c) peak c))
        else Done None c
    | _ => Done None c
    end.
Proof.
  intros Hok. assert (SCHEDI_JOBS_CACHE_CHECK < SCHEDI_MAXIMUM_JOBS) as Hc
    by (apply (bool_decide_unpack _); vm_compute; exact I).
  revert i. induction n as [|n IH]; intros i Hin Hi; cbn [pop_loop].
  - destruct (ready_jobs_cache c !! candidate c) as [[job|]|]; [|done..].
    by rewrite decide_False by lia.
  - destruct (decide (i = candidate c)) as [->|Hne].
    + destruct (first_occupied_at (ready_jobs_cache c)) as [job Hjob].
      { rewrite (ok_length _ _ Hok). lia. }
      rewrite Hjob. rewrite decide_True by lia.
      bind_by (by eapply slot_rmw_swap).
      bind_by (eapply sub_job_count_run; [done|by eapply cached_nonempty]).
      done.
    + bind_by (eapply slot_rmw_leave; [apply first_occupied_before; lia|done]).
      apply IH; lia.
Qed.

Lemma candidate_bound c peak :
  cache_ok c peak → candidate c < SCHEDI_JOBS_CACHE_CHECK →
  ∃ job, ready_jobs_cache c !! candidate c = Some (Some job).
Proof.
  intros Hok Hlt. apply first_occupied_at. rewrite (ok_length _ _ Hok).
  assert (SCHEDI_JOBS_CACHE_CHECK < SCHEDI_MAXIMUM_JOBS)
    by (apply (bool_decide_unpack _); vm_compute; exact I). lia.
Qed.

Lemma pop_run c peak :
  cache_ok c peak →
  (candidate c < SCHEDI_JOBS_CACHE_CHECK ∧ ∃ job,
     ready_jobs_cache c !! candidate c = Some (Some job) ∧
     schedi_cache_job_ready_pop c =
       Done (Some job) (clear_full (taken_at (candidate c) peak c))) ∨
  (SCHEDI_JOBS_CACHE_CHECK ≤ candidate c ∧ schedi_cache_job_ready_pop c = Done None c).
Proof.
  intros Hok. unfold schedi_cache_job_ready_pop. bind_by done.
  destruct (ok_counts _ _ Hok) as [-> _].
  assert (pop_loop SCHEDI_JOBS_CACHE_CHECK 0 c = _) as Hrun
    by (apply (pop_loop_run _ _ _ _ Hok); [done|lia]).
  destruct (decide (candidate c < SCHEDI_JOBS_CACHE_CHECK)) as [Hlt|Hge].
  - left. split; [done|]. destruct (candidate_bound _ _ Hok Hlt) as [job Hjob].
    exists job. split; [done|]. pose proof (cached_nonempty _ _ _ Hjob).
    destruct (Z.eqb_spec (Z.of_nat (length (cached c))) 0); [lia|].
    rewrite Hrun, Hjob. done.
  - right. split; [lia|]. destruct (_ =? _)%Z; [done|]. rewrite Hrun.
    by destruct (ready_jobs_cache c !! candidate c) as [[job|]|].
Qed.

Lemma pop_specific_run i c peak :
  cache_ok c peak → i < SCHEDI_MAXIMUM_JOBS →
  schedi_ready_jobs_cache_pop_specific i c =
    match ready_jobs_cache c !! i with
    | Some (Some job) => Done (Some job) (taken_at i peak c)
    | _ => Done None c
    end.
Proof.
  intros Hok Hi. unfold schedi_ready_jobs_cache_pop_specific.
  destruct (lookup_lt_is_Some_2 (ready_jobs_cache c) i) as [[job|] Hs].
  { by rewrite (ok_length _ _ Hok). }
  - rewrite Hs. bind_by (by eapply slot_rmw_swap).
    bind_by (eapply sub_job_count_run; [done|by eapply cached_nonempty]).
    done.
  - rewrite Hs. by bind_by (by eapply slot_rmw_leave).
Qed.

(** ** Reorganising: what one move does to the table *)

(** The job of slot [i] moved to the first vacant slot. *)
Definition move (i job : nat) (l : list (option nat)) : list (option nat) :=
  let l1 := <[i := None]> l in <[first_vacant l1 := Some job]> l1.

(** The scan came down to slot [k] having moved [r] jobs: no job is beyond the
    first gap from [k] on, and enough jobs lie below that gap. *)
Definition scanned (k r : nat) (l : list (option nat)) : Prop :=
  (∀ j job, k ≤ j → l !! j = Some (Some job) → j < first_vacant l) ∧
  (r ≤ first_vacant l ∨ dense l).

Section move.
Variables (l : list (option nat)) (i job : nat).
Hypothesis Hi : l !! i = Some (Some job).

Lemma move_vacancy :
  first_vacant (<[i := None]> l) = if decide (i < first_vacant l) then i else first_vacant l.
Proof using Hi.
  pose proof (lookup_lt_Some _ _ _ Hi) as Hlt.
  apply leading_unique.
  - intros j Hj. assert (j < first_vacant l ∧ j ≠ i) as [Hj' Hne] by (case_decide; lia).
    destruct (first_vacant_before _ _ Hj') as [job' Hj''].
    exists (Some job'). by rewrite list_lookup_insert_ne by done.
  - intros s. case_decide as Hc.
    + rewrite list_lookup_insert_eq by done. by intros [= <-].
    + destruct (decide (i = first_vacant l)) as [->|Hne].
      * rewrite list_lookup_insert_eq by done. by intros [= <-].
      * rewrite list_lookup_insert_ne by done. apply leading_at.
Qed.

(** A job that already lies before the first gap goes back to its slot. *)
Lemma move_stay : i < first_vacant l → move i job l = l.
Proof using Hi.
  intros Hlt. unfold move. rewrite move_vacancy, decide_True by done.
  rewrite list_insert_insert_eq. by apply list_insert_id.
Qed.

Lemma move_slot : first_vacant (<[i := None]> l) ≤ i.
Proof using Hi. rewrite move_vacancy. case_decide; lia. Qed.

Lemma move_hole : <[i := None]> l !! first_vacant (<[i := None]> l) = Some None.
Proof using Hi.
  apply first_vacant_at. pose proof move_slot. rewrite length_insert.
  pose proof (lookup_lt_Some _ _ _ Hi). lia.
Qed.

Lemma move_somes : somes (move i job l) ≡ₚ somes l.
Proof using Hi.
  unfold move. rewrite somes_insert_Some by apply move_hole.
  by apply somes_insert_None.
Qed.

Lemma move_length : length (move i job l) = length l.
Proof using. unfold move. by rewrite !length_insert. Qed.

Section down.
Hypothesis Hdown : first_vacant l < i.

Lemma move_down_lookup j s :
  move i job l !! j = Some s →
  (j = first_vacant l ∧ s = Some job) ∨ (j = i ∧ s = None) ∨
  (j ≠ first_vacant l ∧ j ≠ i ∧ l !! j = Some s).
Proof using Hi Hdown.
  unfold move. rewrite move_vacancy, decide_False by lia.
  intros [(-> & -> & _)|[Hne Hj]]%list_lookup_insert_Some; [by left|right].
  apply list_lookup_insert_Some in Hj as [(-> & -> & _)|[Hne' Hj]]; [by left|right].
  done.
Qed.

Lemma move_down_vacancy : S (first_vacant l) ≤ first_vacant (move i job l).
Proof using Hi Hdown.
  destruct (Nat.lt_ge_cases (first_vacant (move i job l)) (S (first_vacant l)))
    as [Hlt|]; [exfalso|done].
  pose proof (lookup_lt_Some _ _ _ Hi) as Hlen.
  assert (move i job l !! first_vacant (move i job l) = Some None) as Hhole.
  { apply first_vacant_at. rewrite move_length. lia. }
  destruct (move_down_lookup _ _ Hhole) as [[_ [=]]|[[Heq _]|(Hne & _ & Hj)]].
  - lia.
  - destruct (first_vacant_before l (first_vacant (move i job l))) as [job' Hj'];
      [lia|]. congruence.
Qed.
End down.

Lemma scanned_move r : scanned (S i) r l → scanned i (S r) (move i job l).
Proof using Hi.
  intros [Habove Hr]. destruct (Nat.lt_total i (first_vacant l)) as [Hlt|[Heq|Hgt]].
  - rewrite move_stay by done. assert (dense l) as Hd.
    { intros j job' Hj. destruct (decide (S i ≤ j)); [by eapply Habove|lia]. }
    split; [|by right]. intros j job' _ Hj. by eapply Hd.
  - rewrite Heq in Hi. apply leading_at in Hi. done.
  - pose proof (move_down_vacancy Hgt). split.
    + intros j job' Hij Hj.
      destruct (move_down_lookup Hgt _ _ Hj) as [[-> _]|[[-> [=]]|(Hne & Hne' & Hj')]].
      * lia.
      * pose proof (Habove j job' ltac:(lia) Hj'). lia.
    + left. destruct Hr as [|Hd]; [lia|]. pose proof (Hd _ _ Hi). lia.
Qed.
End move.

Lemma scanned_skip l i r : l !! i = Some None → scanned (S i) r l → scanned i r l.
Proof.
  intros Hi [Habove Hr]. split; [|done]. intros j job Hij Hj.
  destruct (decide (i = j)) as [->|]; [congruence|]. apply (Habove _ job); [lia|done].
Qed.

Lemma scanned_stop l i r : i ≤ r → scanned i r l → dense l.
Proof.
  intros Hir [Habove [Hr|Hd]]; [|done]. intros j job Hj.
  destruct (decide (i ≤ j)); [by eapply Habove|lia].
Qed.

(** ** Reorganising: the whole scan *)

Definition moved (i job peak : nat) (c : ready_cache) : ready_cache :=
  let c1 := taken_at i peak c in put_at (vacancy c1) job peak c1.

Definition woken (c : ready_cache) : ready_cache := set_wakeups (S (readyjob_wakeups c)) c.

Lemma recache_run i job c peak :
  cache_ok c peak → ready_jobs_cache c !! i = Some (Some job) →
  schedi_cache_job_ready job (taken_at i peak c) = Done 0%Z (moved i job peak c) ∧
  cache_ok (moved i job peak c) peak ∧
  ready_jobs_cache (moved i job peak c) = move i job (ready_jobs_cache c) ∧
  cache_flags (moved i job peak c) = cache_flags c ∧ same_rest c (moved i job peak c).
Proof.
  intros Hok Hi. pose proof (taken_at_ok _ _ _ _ Hok Hi) as Hok1.
  pose proof (move_slot _ _ _ Hi) as Hslot. pose proof (lookup_lt_Some _ _ _ Hi) as Hlt.
  rewrite (ok_length _ _ Hok) in Hlt.
  change (vacancy (taken_at i peak c) ≤ i) in Hslot.
  split; [|split].
  - rewrite (cache_job_ready_run _ _ _ Hok1), decide_True by lia. done.
  - pose proof (length_somes_take _ _ _ Hi) as Hn. pose proof (ok_peak _ _ Hok).
    assert (Nat.max peak (S (length (cached (taken_at i peak c)))) = peak) as Hmax
      by (cbn [taken_at ready_jobs_cache]; lia).
    rewrite <-Hmax at 2. apply put_at_ok; [done|apply first_vacant_count|].
    exact (move_hole _ _ _ Hi).
  - done.
Qed.

Section reorganize.
Context `{BuildConfig}.

(** A move counts two operations; nothing wraps while there is room in the counter. *)
Definition counted (k : nat) (c c' : ready_cache) : Prop :=
  (0 <= reorganize_counter c → reorganize_counter c + 2 * Z.of_nat k < 2 ^ 31 →
   reorganize_counter c <= reorganize_counter c' <= reorganize_counter c + 2 * Z.of_nat k)%Z.

(** What a scan guarantees; [k] is where it started. *)
Definition gathered (k peak : nat) (c c' : ready_cache) : Prop :=
  cache_ok c' peak ∧ dense (ready_jobs_cache c') ∧ cached c' ≡ₚ cached c ∧
  cache_flags c' = cache_flags c ∧ readyjob_mutex c' = readyjob_mutex c ∧
  counted k c c' ∧
  ∃ moves, readyjob_wakeups c' = readyjob_wakeups c + (if lockless_readyjob then 0 else moves) ∧
    (moves = 0 → ∀ j job, ready_jobs_cache c !! j = Some (Some job) → k ≤ j).

Lemma wake_job_waiter_run c :
  readyjob_mutex c = false → schedi_wake_job_waiter c = Done 0%Z (woken c).
Proof. destruct c as [? ? ? ? m ?]. cbn. by intros ->. Qed.

(** The wake-up that follows a move. *)
Definition after_move (c : ready_cache) : ready_cache :=
  if lockless_readyjob then c else woken c.

Lemma after_move_run c :
  readyjob_mutex c = false →
  when (negb lockless_readyjob) (schedi_wake_job_waiter ≫= λ _, mret ()) c =
    Done () (after_move c).
Proof.
  intros Hm. unfold after_move. destruct lockless_readyjob; [done|]. cbn [negb when].
  by bind_by (by apply wake_job_waiter_run).
Qed.

Lemma after_move_ok c peak : cache_ok c peak → cache_ok (after_move c) peak.
Proof.
  unfold after_move. destruct lockless_readyjob; [done|].
  intros [? ? ? ?]. by split.
Qed.

Lemma after_move_fields c :
  ready_jobs_cache (after_move c) = ready_jobs_cache c ∧
  cache_flags (after_move c) = cache_flags c ∧
  readyjob_mutex (after_move c) = readyjob_mutex c ∧
  readyjob_wakeups (after_move c) =
    readyjob_wakeups c + (if lockless_readyjob then 0 else 1).
Proof.
  unfold after_move. destruct lockless_readyjob; cbn; split_and!; lia || done.
Qed.

Lemma moved_counted k i job peak c c' :
  counted k (after_move (moved i job peak c)) c' → counted (S k) c c'.
Proof.
  unfold counted. intros Hc H0 Hr.
  assert (reorganize_counter (after_move (moved i job peak c)) = reorganize_counter c + 2)%Z as E.
  { transitivity (s32 (s32 (reorganize_counter c + 1) + 1)).
    { unfold after_move. by destruct lockless_readyjob. }
    rewrite (s32_small (reorganize_counter c + 1)), s32_small by lia. lia. }
  rewrite E in Hc. specialize (Hc ltac:(lia) ltac:(lia)). lia.
Qed.

(** One move after another. *)
Lemma gathered_move k i job peak c c' :
  k ≤ i → cache_ok c peak → ready_jobs_cache c !! i = Some (Some job) →
  gathered k peak (after_move (moved i job peak c)) c' →
  gathered (S i) peak c c'.
Proof.
  intros Hki Hok Hi (Hok' & Hd & Hp & Hf & Hm & Hcn & moves & Hw & _).
  destruct (recache_run _ _ _ _ Hok Hi) as (_ & _ & Hs & Hfl & Hmu & Hwk).
  destruct (after_move_fields (moved i job peak c)) as (Es & Ef & Em & Ew).
  rewrite Es, Hs in Hp. rewrite Ef, Hfl in Hf. rewrite Em, Hmu in Hm. rewrite Ew, Hwk in Hw.
  split_and!; [done|done| |done|done| |].
  - rewrite Hp. by apply move_somes.
  - apply moved_counted in Hcn. intros Hlo Hr. specialize (Hcn Hlo ltac:(lia)). lia.
  - exists (S moves). split; [|done]. rewrite Hw. destruct lockless_readyjob; lia.
Qed.

Lemma gathered_stop k peak c :
  cache_ok c peak → dense (ready_jobs_cache c) →
  (∀ j job, ready_jobs_cache c !! j = Some (Some job) → k ≤ j) →
  gathered k peak c c.
Proof.
  intros Hok Hd Hk. split_and!; try done; [unfold counted; lia|]. exists 0. split; [|done].
  destruct lockless_readyjob; lia.
Qed.

Lemma gathered_skip i peak c c' :
  ready_jobs_cache c !! i = Some None → gathered i peak c c' → gathered (S i) peak c c'.
Proof.
  intros Hi (? & ? & ? & ? & ? & Hcn & moves & ? & Hk). split_and!; try done.
  { intros Hlo Hr. specialize (Hcn Hlo ltac:(lia)). lia. }
  exists moves. split; [done|]. intros Hz j job Hj. pose proof (Hk Hz _ _ Hj).
  destruct (decide (i = j)) as [->|]; [congruence|lia].
Qed.

Lemma reorganize_loop_run k r peak c :
  cache_ok c peak → readyjob_mutex c = false → scanned k r (ready_jobs_cache c) →
  r + k ≤ SCHEDI_MAXIMUM_JOBS →
  ∃ c', reorganize_loop k (Z.of_nat r) c = Done () c' ∧ gathered k peak c c'.
Proof.
  revert r c. induction k as [|i IH]; intros r c Hok Hm Hsc Hrk; cbn [reorganize_loop].
  - exists c. split; [done|]. apply gathered_stop; [done| |intros; lia].
    eapply scanned_stop; [|done]. lia.
  - assert (i < SCHEDI_MAXIMUM_JOBS) as Hlt by lia.
    destruct (lookup_lt_is_Some_2 (ready_jobs_cache c) i) as [[job|] Hs].
    { by rewrite (ok_length _ _ Hok). }
    + bind_by (rewrite (pop_specific_run _ _ _ Hok Hlt), Hs; done).
      destruct (recache_run _ _ _ _ Hok Hs) as (Hrun & Hok1 & Hs1 & Hfl & Hm1 & Hw1).
      bind_by done. bind_by (apply after_move_run; congruence).
      unfold SCHEDI_MAXIMUM_JOBS in Hrk. rewrite u32_small by lia.
      pose proof (after_move_ok _ _ Hok1) as Hok2.
      destruct (after_move_fields (moved i job peak c)) as (Es & _ & Em & _).
      assert (scanned i (S r) (ready_jobs_cache (after_move (moved i job peak c)))) as Hsc2.
      { rewrite Es, Hs1. by apply scanned_move. }
      destruct (Z.leb_spec (Z.of_nat i) (Z.of_nat r + 1)) as [Hle|Hgt].
      * eexists. split; [done|]. eapply (gathered_move 0); [lia|done|done|].
        apply gathered_stop; [done| |intros; lia].
        eapply scanned_stop; [|exact Hsc2]. lia.
      * replace (Z.of_nat r + 1)%Z with (Z.of_nat (S r)) by lia.
        destruct (IH (S r) (after_move (moved i job peak c))) as (c' & Hc' & Hg);
          [done|congruence|done|unfold SCHEDI_MAXIMUM_JOBS; lia|].
        exists c'. split; [done|]. by eapply gathered_move.
    + bind_by (rewrite (pop_specific_run _ _ _ Hok Hlt), Hs; done).
      destruct (IH r c) as (c' & Hc' & Hg); [done|done|by apply scanned_skip|lia|].
      exists c'. split; [done|]. by apply gathered_skip.
Qed.

Lemma reorganize_run peak c :
  cache_ok c peak → readyjob_mutex c = false →
  ∃ c', schedi_ready_jobs_cache_reorganize c = Done () c' ∧ gathered peak peak c c'.
Proof.
  intros Hok Hm. unfold schedi_ready_jobs_cache_reorganize. bind_by done.
  destruct (ok_counts _ _ Hok) as [_ ->]. pose proof (ok_peak _ _ Hok) as Hp.
  assert (Z.to_nat (s32 (u32 (Z.of_nat peak - 1)) + 1) = peak) as ->.
  { unfold SCHEDI_MAXIMUM_JOBS in Hp. destruct peak as [|p]; [done|].
    rewrite u32_small, s32_small by lia. lia. }
  apply (reorganize_loop_run peak 0); [done|done| |lia].
  split; [|left; lia]. intros j job Hj Hin.
  pose proof (ok_below _ _ Hok _ _ Hin). lia.
Qed.
End reorganize.

(** ** Running the operations, in the form the interface states them *)

Lemma full_count c peak :
  cache_ok c peak → SCHEDI_MAXIMUM_JOBS ≤ vacancy c → length (cached c) = SCHEDI_MAXIMUM_JOBS.
Proof.
  intros Hok Hge. pose proof (first_vacant_count (ready_jobs_cache c)).
  pose proof (length_somes_le (ready_jobs_cache c)). rewrite (ok_length _ _ Hok) in *. lia.
Qed.

Lemma raise_full_ok c peak : cache_ok c peak → cache_ok (raise_full c) peak.
Proof. intros [? ? ? ?]. by split. Qed.

Lemma clear_full_ok c peak : cache_ok c peak → cache_ok (clear_full c) peak.
Proof. intros [? ? ? ?]. by split. Qed.

Lemma put_run job c peak :
  cache_ok c peak →
  ∃ r c', schedi_cache_job_ready job c = Done r c' ∧
    (∃ peak', cache_ok c' peak') ∧ same_rest c c' ∧
    ((r = 0%Z ∧ vacancy c < SCHEDI_MAXIMUM_JOBS ∧
      ready_jobs_cache c' = <[vacancy c := Some job]> (ready_jobs_cache c) ∧
      cached c' ≡ₚ job :: cached c ∧ cache_flags c' = cache_flags c) ∨
     (r = (-1)%Z ∧ length (cached c) = SCHEDI_MAXIMUM_JOBS ∧ c' = raise_full c)).
Proof.
  intros Hok. rewrite (cache_job_ready_run _ _ _ Hok).
  case_decide as Hlt; eexists _, _; (split; [done|]).
  - pose proof (ok_vacant _ _ Hok Hlt) as Hv. split.
    + eexists. eapply put_at_ok; [done|apply first_vacant_count|done].
    + split; [done|]. left. split_and!; [done..| |done]. by apply somes_insert_Some.
  - split; [eexists; by apply raise_full_ok|]. split; [done|]. right.
    split_and!; [done| |done]. apply (full_count _ _ Hok). lia.
Qed.

Lemma take_run c peak :
  cache_ok c peak →
  ∃ r c', schedi_cache_job_ready_pop c = Done r c' ∧ cache_ok c' peak ∧ same_rest c c' ∧
    match r with
    | Some job =>
        candidate c < SCHEDI_JOBS_CACHE_CHECK ∧
        ready_jobs_cache c !! candidate c = Some (Some job) ∧
        ready_jobs_cache c' = <[candidate c := None]> (ready_jobs_cache c) ∧
        job :: cached c' ≡ₚ cached c ∧
        cache_flags c' = Z.land (cache_flags c) (Z.lnot SCHEDI_JOB_ARRAY_FULL)
    | None => SCHEDI_JOBS_CACHE_CHECK ≤ candidate c ∧ c' = c
    end.
Proof.
  intros Hok. destruct (pop_run _ _ Hok) as [(Hlt & job & Hjob & ->)|[Hge ->]].
  - eexists _, _. split; [done|]. split; [by eapply clear_full_ok, taken_at_ok|].
    split; [done|]. split_and!; [done..| |done]. by apply somes_insert_None.
  - by eexists _, _.
Qed.

Lemma tick_run `{BuildConfig} c peak :
  cache_ok c peak → readyjob_mutex c = false →
  ∃ c', schedi_ready_jobs_cache_reorganize_tick c = Done () c' ∧
    if (reorganize_counter c <? Z.of_nat SCHEDI_JOBS_CACHE_CHECK)%Z then c' = c
    else gathered peak peak (set_counter 0%Z c) c'.
Proof.
  intros Hok Hm. unfold schedi_ready_jobs_cache_reorganize_tick. bind_by done.
  unfold rmw, tick_body. destruct (_ <? _)%Z eqn:E.
  - bind_by done. eexists. split; [done|]. by destruct c.
  - bind_by done. apply reorganize_run; [|done]. by destruct Hok.
Qed.

(** ** What each operation promises *)

(** Caching a ready job returns 0 and puts it in the first vacant slot whenever
    some slot is vacant; with all 256 slots taken it returns -1 and changes nothing
    but raise SCHEDI_JOB_ARRAY_FULL.  Count, peak and slots stay consistent. *)
Theorem schedi_cache_job_ready_spec job c peak :
  cache_ok c peak →
  wp (schedi_cache_job_ready job) (λ r c',
    (∃ peak', cache_ok c' peak') ∧ same_rest c c' ∧
    ((r = 0%Z ∧ vacancy c < SCHEDI_MAXIMUM_JOBS ∧
      ready_jobs_cache c' = <[vacancy c := Some job]> (ready_jobs_cache c) ∧
      cached c' ≡ₚ job :: cached c ∧ cache_flags c' = cache_flags c) ∨
     (r = (-1)%Z ∧ length (cached c) = SCHEDI_MAXIMUM_JOBS ∧ c' = raise_full c))) c.
Proof.
  intros Hok. destruct (put_run job _ _ Hok) as (r & c' & Hrun & H).
  by eapply wp_run.
Qed.

(** Picking takes the first job that lies among the first 16 slots, clears
    SCHEDI_JOB_ARRAY_FULL and lowers the count but not the peak; it returns NULL
    and changes nothing exactly when those 16 slots are empty, even if jobs are
    cached beyond them. *)
Theorem schedi_cache_job_ready_pop_spec c peak :
  cache_ok c peak →
  wp schedi_cache_job_ready_pop (λ r c', cache_ok c' peak ∧ same_rest c c' ∧
    match r with
    | Some job =>
        candidate c < SCHEDI_JOBS_CACHE_CHECK ∧
        ready_jobs_cache c !! candidate c = Some (Some job) ∧
        ready_jobs_cache c' = <[candidate c := None]> (ready_jobs_cache c) ∧
        job :: cached c' ≡ₚ cached c ∧
        cache_flags c' = Z.land (cache_flags c) (Z.lnot SCHEDI_JOB_ARRAY_FULL)
    | None => SCHEDI_JOBS_CACHE_CHECK ≤ candidate c ∧ c' = c
    end) c.
Proof.
  intros Hok. destruct (take_run _ _ Hok) as (r & c' & Hrun & H). by eapply wp_run.
Qed.

(** A reorganisation returns and leaves exactly the same jobs in the cache, all
    of them together in the first slots; unless the build is lockless, workers were
    woken if any job is cached. *)
Theorem schedi_ready_jobs_cache_reorganize_spec `{BuildConfig} c peak :
  cache_ok c peak → readyjob_mutex c = false →
  wp schedi_ready_jobs_cache_reorganize (λ _ c', cache_ok c' peak ∧
    cached c' ≡ₚ cached c ∧ first_vacant (ready_jobs_cache c') = length (cached c) ∧
    readyjob_mutex c' = false ∧
    (lockless_readyjob = false → cached c ≠ [] → readyjob_wakeups c < readyjob_wakeups c')) c.
Proof.
  intros Hok Hm.
  destruct (reorganize_run _ _ Hok Hm) as (c' & Hrun & Hok' & Hd & Hp & _ & Hm' & _ & moves & Hw & Hz).
  eapply wp_run; [done|]. split_and!; [done|done| |congruence|].
  - rewrite dense_count by done. by rewrite Hp.
  - intros Hl Hne. rewrite Hw, Hl. destruct moves; [|lia]. destruct Hne.
    apply somes_nil_iff. intros i Hi.
    destruct (lookup_lt_is_Some_2 _ _ Hi) as [[job|] Hs]; [|done].
    pose proof (Hz eq_refl _ _ Hs). pose proof (ok_below _ _ Hok _ _ Hs). lia.
Qed.

(** *** Every cached job is reached *)

(** The jobs fill the slots from [k] on without a gap. *)
Definition ranged (k : nat) (c : ready_cache) : Prop := ∀ i,
  (∃ job, ready_jobs_cache c !! i = Some (Some job)) ↔ k ≤ i < k + length (cached c).

Lemma dense_ranged c : dense (ready_jobs_cache c) → ranged 0 c.
Proof.
  intros Hd i. rewrite <-dense_count by done. split.
  - intros (job & Hi). split; [lia|]. by eapply Hd.
  - intros [_ Hi]. by apply first_vacant_before.
Qed.

Lemma ranged_candidate k c peak :
  cache_ok c peak → ranged k c → cached c ≠ [] → candidate c = k.
Proof.
  intros Hok Hr Hne. assert (0 < length (cached c)) by (destruct (cached c); [done|cbn; lia]).
  destruct (proj2 (Hr k)) as (job & Hk); [lia|]. apply leading_unique.
  - intros i Hi. destruct (lookup_lt_is_Some_2 (ready_jobs_cache c) i) as [[j|] Hs].
    { apply lookup_lt_Some in Hk. lia. }
    + destruct (proj1 (Hr i)); [by exists j|lia].
    + by exists None.
  - intros s Hs. rewrite Hk in Hs. by injection Hs as <-.
Qed.

(** Taking the first job of the range. *)
Lemma take_ranged k c peak :
  cache_ok c peak → ranged k c → cached c ≠ [] → k < SCHEDI_JOBS_CACHE_CHECK →
  (0 <= reorganize_counter c < 2 ^ 31 - 1)%Z →
  ∃ job c', schedi_cache_job_ready_pop c = Done (Some job) c' ∧ cache_ok c' peak ∧
    readyjob_mutex c' = readyjob_mutex c ∧ cached c ≡ₚ job :: cached c' ∧ ranged (S k) c' ∧
    reorganize_counter c' = (reorganize_counter c + 1)%Z.
Proof.
  intros Hok Hr Hne Hk Hc. pose proof (ranged_candidate _ _ _ Hok Hr Hne) as E.
  destruct (pop_run _ _ Hok) as [(Hlt & job & Hjob & Hrun)|[Hge _]]; [|lia].
  rewrite E in Hjob, Hrun. eexists _, _. split; [done|].
  split; [by eapply clear_full_ok, taken_at_ok|]. split; [done|].
  pose proof (length_somes_take _ _ _ Hjob) as Hn.
  split; [symmetry; by apply somes_insert_None|]. split.
  - intros i. cbn [clear_full set_cache_flags taken_at ready_jobs_cache].
    destruct (decide (i = k)) as [->|Hne'].
    { rewrite list_lookup_insert_eq by by eapply lookup_lt_Some.
      split; [by intros (? & ?)|lia]. }
    rewrite list_lookup_insert_ne by done. rewrite (Hr i). lia.
  - cbn [clear_full set_cache_flags taken_at reorganize_counter]. unfold bumped.
    by rewrite s32_small by lia.
Qed.

(** Either the next tick reorganises, or the pops since the last one took the jobs in order
    and are all counted. *)
Definition drainable (c : ready_cache) : Prop :=
  (0 <= reorganize_counter c < 2 ^ 31)%Z ∧
  ((Z.of_nat SCHEDI_JOBS_CACHE_CHECK <= reorganize_counter c)%Z ∨
   ∃ k, ranged k c ∧ (Z.of_nat k <= reorganize_counter c)%Z).

Lemma tick_ranged `{BuildConfig} c peak :
  cache_ok c peak → readyjob_mutex c = false → drainable c →
  ∃ c' k, schedi_ready_jobs_cache_reorganize_tick c = Done () c' ∧ cache_ok c' peak ∧
    readyjob_mutex c' = false ∧ cached c' ≡ₚ cached c ∧ ranged k c' ∧
    k < SCHEDI_JOBS_CACHE_CHECK ∧ (Z.of_nat k <= reorganize_counter c' <= 2 ^ 30)%Z.
Proof.
  intros Hok Hm (Hc & Hd). destruct (tick_run _ _ Hok Hm) as (c' & Hrun & Hg). exists c'.
  destruct (Z.ltb_spec (reorganize_counter c) (Z.of_nat SCHEDI_JOBS_CACHE_CHECK)).
  - subst c'. destruct Hd as [|(k & Hr & Hk)]; [lia|]. exists k.
    split_and!; try done; [lia|]. unfold SCHEDI_JOBS_CACHE_CHECK in *. lia.
  - exists 0. destruct Hg as (Hok' & Hdn & Hp & _ & Hm' & Hcn & _).
    pose proof (ok_peak _ _ Hok). unfold counted, SCHEDI_MAXIMUM_JOBS in *.
    cbn [set_counter reorganize_counter] in Hcn. specialize (Hcn ltac:(lia) ltac:(lia)).
    split_and!; [done|done|by rewrite Hm'|done|by apply dense_ranged| |lia|lia].
    unfold SCHEDI_JOBS_CACHE_CHECK. lia.
Qed.

(** A tick and a pick, [n] times, until a pick finds nothing. *)
Fixpoint tick_and_pick `{BuildConfig} (n : nat) : M ready_cache (list nat) :=
  match n with
  | O => mret []
  | S n =>
      schedi_ready_jobs_cache_reorganize_tick ≫= λ _,
      r ← schedi_cache_job_ready_pop;
      match r with
      | Some job => jobs ← tick_and_pick n; mret (job :: jobs)
      | None => mret []
      end
  end.

(** C36: no job stays hidden beyond the window of 16 slots: once 16 operations have been
    counted, ticking before every pick, as a worker does between two jobs, hands out every
    cached job, one per pick and however many there are, until the cache is empty. *)
Theorem tick_reaches_every_job `{BuildConfig} c peak :
  cache_ok c peak → readyjob_mutex c = false →
  (Z.of_nat SCHEDI_JOBS_CACHE_CHECK <= reorganize_counter c < 2 ^ 31)%Z →
  ∃ jobs c', tick_and_pick (length (cached c)) c = Done jobs c' ∧ jobs ≡ₚ cached c ∧
    cached c' = [].
Proof.
  intros Hok Hm Hc. assert (drainable c) as Hd by (split; [lia|left; lia]). clear Hc.
  remember (length (cached c)) as n eqn:Hn. revert c Hok Hm Hd Hn.
  induction n as [|n IH]; intros c Hok Hm Hd Hn; cbn [tick_and_pick].
  { symmetry in Hn. apply nil_length_inv in Hn. exists [], c. by rewrite Hn. }
  destruct (tick_ranged _ _ Hok Hm Hd) as (c1 & k & Hrun1 & Hok1 & Hm1 & Hp1 & Hr1 & Hk & Hc1).
  bind_by exact Hrun1. assert (cached c1 ≠ []) as Hne.
  { intros E. rewrite E in Hp1. apply Permutation_nil_l in Hp1. by rewrite <-Hp1 in Hn. }
  destruct (take_ranged _ _ _ Hok1 Hr1 Hne Hk ltac:(lia))
    as (job & c2 & Hrun2 & Hok2 & Hm2 & Hp2 & Hr2 & Hc2).
  bind_by exact Hrun2. rewrite <-Hp1, Hp2 in Hn. injection Hn as Hn.
  destruct (IH c2 Hok2) as (jobs & c' & Hrun & Hp & Hend); [congruence| |done|].
  { split; [lia|]. right. exists (S k). split; [done|lia]. }
  exists (job :: jobs), c'. split; [by bind_by exact Hrun|]. split; [|done].
  by rewrite <-Hp1, Hp2, Hp.
Qed.

(** ** The interface: a bag of jobs

    What the scheduler needs of the cache: jobs that were accepted are handed out
    once each, whatever the order of the operations. *)

Class JobBag (S : Type) : Type := {
  jb_put : nat → M S Z;
  jb_take : M S (option nat);
  jb_tick : M S unit;
  jb_ok : S → Prop;
  jb_jobs : S → list nat;
  jb_put_law job s : jb_ok s → ∃ r s', jb_put job s = Done r s' ∧ jb_ok s' ∧
    jb_jobs s' ≡ₚ if decide (r = 0%Z) then job :: jb_jobs s else jb_jobs s;
  jb_take_law s : jb_ok s → ∃ r s', jb_take s = Done r s' ∧ jb_ok s' ∧
    jb_jobs s ≡ₚ from_option (λ job, job :: jb_jobs s') (jb_jobs s') r;
  jb_tick_law s : jb_ok s → ∃ s', jb_tick s = Done () s' ∧ jb_ok s' ∧
    jb_jobs s' ≡ₚ jb_jobs s;
}.

#[export] Program Instance ready_cache_bag `{BuildConfig} : JobBag ready_cache := {
  jb_put := schedi_cache_job_ready;
  jb_take := schedi_cache_job_ready_pop;
  jb_tick := schedi_ready_jobs_cache_reorganize_tick;
  jb_ok c := (∃ peak, cache_ok c peak) ∧ readyjob_mutex c = false;
  jb_jobs c := cached c;
}.
Next Obligation.
  intros ? job c [[peak Hok] Hm].
  destruct (put_run job _ _ Hok) as (r & c' & Hrun & Hok' & [Hm' _] & Hr).
  exists r, c'. split_and!; [done|done|congruence|].
  destruct Hr as [(-> & _ & _ & Hp & _)|(-> & _ & ->)]; [|done].
  by rewrite decide_True by done.
Qed.
Next Obligation.
  intros ? c [[peak Hok] Hm].
  destruct (take_run _ _ Hok) as (r & c' & Hrun & Hok' & [Hm' _] & Hr).
  exists r, c'. split_and!; [done|by exists peak|congruence|].
  destruct r as [job|]; [|by destruct Hr as [_ ->]].
  destruct Hr as (_ & _ & _ & Hp & _). by rewrite <-Hp.
Qed.
Next Obligation.
  intros ? c [[peak Hok] Hm].
  destruct (tick_run _ _ Hok Hm) as (c' & Hrun & Hg). exists c'.
  destruct (_ <? _)%Z; [subst; split_and!; [done|by exists peak|done|done]|].
  destruct Hg as (Hok' & _ & Hp & _ & Hm' & _).
  split_and!; [done|by exists peak|by rewrite Hm'|by rewrite Hp].
Qed.

Inductive bag_request : Type := Put (job : nat) | Take | Tick.

Section bag_client.
Context {S : Type} `{JobBag S}.

(** One request; [log] is the jobs accepted and the jobs handed out so far. *)
Definition bag_serve (q : bag_request) (log : list nat * list nat) : M S (list nat * list nat) :=
  match q with
  | Put job => r ← jb_put job; mret (if decide (r = 0%Z) then (job :: log.1, log.2) else log)
  | Take => r ← jb_take; mret (from_option (λ job, (log.1, job :: log.2)) log r)
  | Tick => jb_tick ≫= λ _, mret log
  end.

Fixpoint bag_serve_all (qs : list bag_request) (log : list nat * list nat)
    : M S (list nat * list nat) :=
  match qs with
  | [] => mret log
  | q :: qs => log' ← bag_serve q log; bag_serve_all qs log'
  end.

(** The books balance: what was there and was accepted is handed out or still
    there. *)
Definition balanced (base : list nat) (log : list nat * list nat) (s : S) : Prop :=
  log.1 ++ base ≡ₚ log.2 ++ jb_jobs s.

Lemma bag_serve_run base q log s :
  jb_ok s → balanced base log s →
  ∃ log' s', bag_serve q log s = Done log' s' ∧ jb_ok s' ∧ balanced base log' s'.
Proof.
  intros Hs. unfold balanced. destruct log as [ins outs]. intros Hb.
  destruct q as [job| |]; cbn [bag_serve fst snd] in *.
  - destruct (jb_put_law job s Hs) as (r & s' & Hrun & Hs' & Hp).
    eexists _, s'. split; [by bind_by done|]. split; [done|].
    case_decide; cbn [fst snd]; rewrite Hp; [|done].
    cbn [app]. rewrite Hb. apply Permutation_middle.
  - destruct (jb_take_law s Hs) as (r & s' & Hrun & Hs' & Hp).
    eexists _, s'. split; [by bind_by done|]. split; [done|].
    destruct r as [job|]; cbn [from_option fst snd app] in *; rewrite Hb, Hp; [|done].
    symmetry. apply Permutation_middle.
  - destruct (jb_tick_law s Hs) as (s' & Hrun & Hs' & Hp).
    eexists _, s'. split; [by bind_by done|]. split; [done|]. by rewrite Hb, Hp.
Qed.

Lemma bag_serve_all_run base qs log s :
  jb_ok s → balanced base log s →
  ∃ log' s', bag_serve_all qs log s = Done log' s' ∧ jb_ok s' ∧ balanced base log' s'.
Proof.
  revert log s. induction qs as [|q qs IH]; intros log s Hs Hb; cbn [bag_serve_all].
  - by eexists log, s.
  - destruct (bag_serve_run base q log s Hs Hb) as (log1 & s1 & Hrun1 & Hs1 & Hb1).
    destruct (IH log1 s1 Hs1 Hb1) as (log2 & s2 & Hrun2 & Hs2 & Hb2).
    exists log2, s2. split; [by bind_by done|done].
Qed.
End bag_client.

(** The cache at start-up. *)
Definition cache_zero : ready_cache :=
  Cache (replicate SCHEDI_MAXIMUM_JOBS None) 0 0 0 false 0.

Lemma cache_zero_ok : cache_ok cache_zero 0.
Proof.
  split; [done|done|cbn; lia|].
  intros i job Hi. by apply lookup_replicate in Hi as [[=] _].
Qed.

(** C14: from start-up on, whatever sequence of operations runs, each returns, and no
    job is lost or handed out twice: the jobs accepted (the calls that returned 0)
    are, with multiplicity, the jobs picked so far and the jobs still cached. *)
Theorem cache_conserves_jobs `{BuildConfig} qs :
  ∃ ins outs c, bag_serve_all qs ([], []) cache_zero = Done (ins, outs) c ∧
    ins ≡ₚ outs ++ cached c ∧ readyjob_mutex c = false ∧ ∃ peak, cache_ok c peak.
Proof.
  destruct (bag_serve_all_run [] qs ([], []) cache_zero) as ([ins outs] & c & Hrun & [Hok Hm] & Hb).
  - split; [exists 0; apply cache_zero_ok|done].
  - change (@nil nat ≡ₚ []). done.
  - exists ins, outs, c. split_and!; [done| |done|done].
    unfold balanced in Hb. cbn [fst snd jb_jobs ready_cache_bag] in Hb.
    by rewrite app_nil_r in Hb.
Qed.

(** ** Witnesses *)

(** One job in the first slot. *)
Definition cache_one : ready_cache := put_at 0 7 0 cache_zero.
(** One job beyond the window, with 16 operations counted. *)
Definition cache_far : ready_cache :=
  Cache (<[20 := Some 7]> (replicate SCHEDI_MAXIMUM_JOBS None)) (pack_count 1 21) 16 0 false 0.

Lemma cache_one_ok : cache_ok cache_one 1.
Proof. apply (put_at_ok cache_zero 0 0 7); [apply cache_zero_ok|cbn; lia|done]. Qed.

Lemma cache_far_ok : cache_ok cache_far 21.
Proof.
  split; [done|done|vm_compute; lia|].
  intros i job. cbn [cache_far ready_jobs_cache]. rewrite list_lookup_insert_Some.
  intros [(<- & _)|[_ Hi]]; [lia|]. by apply lookup_replicate in Hi as [[=] _].
Qed.

(** The default build: a mutex around picking, socket timeouts compiled in. *)
Definition default_build : BuildConfig :=
  {| lockless_readyjob := false; ext_timeout := true |}.
#[local] Existing Instance default_build.

Lemma schedi_cache_job_ready_spec_witness :
  cache_ok cache_one 1 ∧
  wp (schedi_cache_job_ready 9) (λ r c',
    (∃ peak', cache_ok c' peak') ∧ same_rest cache_one c' ∧
    ((r = 0%Z ∧ vacancy cache_one < SCHEDI_MAXIMUM_JOBS ∧
      ready_jobs_cache c' = <[vacancy cache_one := Some 9]> (ready_jobs_cache cache_one) ∧
      cached c' ≡ₚ 9 :: cached cache_one ∧ cache_flags c' = cache_flags cache_one) ∨
     (r = (-1)%Z ∧ length (cached cache_one) = SCHEDI_MAXIMUM_JOBS ∧
      c' = raise_full cache_one))) cache_one.
Proof.
  split; [apply cache_one_ok|].
  apply (schedi_cache_job_ready_spec 9 cache_one 1), cache_one_ok.
Defined.

Lemma schedi_cache_job_ready_pop_spec_witness :
  cache_ok cache_one 1 ∧
  wp schedi_cache_job_ready_pop (λ r c', cache_ok c' 1 ∧ same_rest cache_one c' ∧
    match r with
    | Some job =>
        candidate cache_one < SCHEDI_JOBS_CACHE_CHECK ∧
        ready_jobs_cache cache_one !! candidate cache_one = Some (Some job) ∧
        ready_jobs_cache c' = <[candidate cache_one := None]> (ready_jobs_cache cache_one) ∧
        job :: cached c' ≡ₚ cached cache_one ∧
        cache_flags c' = Z.land (cache_flags cache_one) (Z.lnot SCHEDI_JOB_ARRAY_FULL)
    | None => SCHEDI_JOBS_CACHE_CHECK ≤ candidate cache_one ∧ c' = cache_one
    end) cache_one.
Proof.
  split; [apply cache_one_ok|].
  apply (schedi_cache_job_ready_pop_spec cache_one 1), cache_one_ok.
Defined.

Lemma schedi_ready_jobs_cache_reorganize_spec_witness :
  wp schedi_ready_jobs_cache_reorganize (λ _ c', cache_ok c' 21 ∧
    cached c' ≡ₚ cached cache_far ∧
    first_vacant (ready_jobs_cache c') = length (cached cache_far) ∧
    readyjob_mutex c' = false ∧
    (lockless_readyjob = false → cached cache_far ≠ [] →
     readyjob_wakeups cache_far < readyjob_wakeups c')) cache_far.
Proof.
  apply (schedi_ready_jobs_cache_reorganize_spec cache_far 21); [apply cache_far_ok|done].
Defined.

(** Twenty jobs, all beyond the window: nothing is picked before a tick, and then everything
    is, with a second reorganisation after 16 picks. *)
Definition cache_many : ready_cache :=
  Cache (replicate 30 None ++ (Some <$> seq 0 20) ++ replicate 206 None) (pack_count 20 50) 16 0
    false 0.

Lemma cache_many_ok : cache_ok cache_many 50.
Proof.
  split; [vm_compute; reflexivity|vm_compute; reflexivity|vm_compute; lia|].
  intros i job Hi. destruct (decide (i < 50)) as [|Hge]; [done|exfalso].
  unfold cache_many in Hi. cbn [ready_jobs_cache] in Hi.
  rewrite app_assoc, lookup_app_r in Hi by (cbn; lia).
  by apply lookup_replicate in Hi as [[=] _].
Qed.

Lemma tick_reaches_every_job_witness :
  schedi_cache_job_ready_pop cache_many = Done None cache_many ∧
  ∃ jobs c', tick_and_pick 20 cache_many = Done jobs c' ∧ jobs ≡ₚ cached cache_many ∧
    cached c' = [].
Proof.
  split; [vm_compute; reflexivity|].
  apply (tick_reaches_every_job cache_many 50); [apply cache_many_ok|done|].
  split; vm_compute; done.
Defined.
