(* ===== verification/DestroyQueue.v ===== *)
(** * The destroy queue (src/src/jobs.c, lines 20-196)

    A circular buffer of 1024 job pointers.  One 64-bit word packs the head, the
    tail, a count and a label that makes the word change on every operation; the
    buffer's [ready] flags tell a popper that a reserved entry has been written.
    The super variants leave the count alone, so that the entry's place in the
    count stays reserved while a job is out for a check. *)

From S2P Require Export Atomics.

Local Open Scope Z_scope.

Definition SCHEDI_DQ_SIZE : Z := 1024.

(** Where a job's structure lies in memory: user-space addresses are positive. *)
Class JobAddress : Type := {
  job_addr : nat → Z;
  job_addr_nonneg job : 0 <= job_addr job;
}.

(** [(long long)pointer]. *)
Definition pointer_bits `{JobAddress} (p : option nat) : Z :=
  match p with Some job => job_addr job | None => 0 end.

Record destroy_queue : Type := DQ {
  dq_buf : list (option nat);
  dq_ready : list bool;
  dq_htc : Z;
}.

Definition set_dq_buf x q := DQ x (dq_ready q) (dq_htc q).
Definition set_dq_ready x q := DQ (dq_buf q) x (dq_htc q).
Definition set_dq_htc x q := DQ (dq_buf q) (dq_ready q) x.

(** ** The packed word *)

Definition HTC_HEAD (x : Z) : Z := Z.land (Z.shiftr x 48) (Z.ones 16).
Definition HTC_TAIL (x : Z) : Z := Z.land (Z.shiftr x 32) (Z.ones 16).
Definition HTC_COUNT (x : Z) : Z := Z.land (Z.shiftr x 16) (Z.ones 16).
Definition HTC_LABEL (x : Z) : Z := Z.land x (Z.ones 16).

Record HTC : Type := Htc { head : Z; tail : Z; count : Z; label : Z }.

Definition PACK_HTC (h : HTC) : Z :=
  Z.lor (Z.lor (Z.lor (Z.shiftl (head h) 48) (Z.shiftl (tail h) 32))
    (Z.shiftl (count h) 16)) (Z.shiftl (label h) 0).

Definition UNPACK_HTC (x : Z) : HTC :=
  Htc (Z.land (u32 (Z.shiftr x 48)) (Z.ones 16)) (Z.land (u32 (Z.shiftr x 32)) (Z.ones 16))
    (Z.land (u32 (Z.shiftr x 16)) (Z.ones 16)) (Z.land (u32 (Z.shiftr x 0)) (Z.ones 16)).

(** [dq_dec_count]: [count << 16] is an [int] shift, undefined from 0x8000 up. *)
Definition dec_count_desired (htc : Z) : option Z :=
  let count := u16 (HTC_COUNT htc - 1) in
  if 2 ^ 15 <=? count then None
  else Some (Z.lor (Z.land htc (Z.lnot (Z.shiftl 65535 16))) (Z.shiftl count 16)).

Definition dq_dec_count : M destroy_queue unit :=
  updates (λ q, (λ w, set_dq_htc w q) <$> dec_count_desired (dq_htc q)).

(** ** Pushing and popping

    [bump] is the last argument of the macros: what the variant does to the count. *)

(** The index and the label arithmetic of the loops. *)
Definition next_index (i : Z) : Z := (i + 1) mod SCHEDI_DQ_SIZE.
Definition next_label (label step pointer head : Z) : Z :=
  u32 (Z.rem (label + step + Z.rem pointer 65200 + head mod 5) 65536).

Section operations.
Context `{JobAddress}.

(** The loop of [DEFINE_DQ_PUSH_ATOMIC]: [None] is the early [return -1], [Some] the
    index reserved. *)
Definition push_body (bump : Z → Z) (job : nat) (htc : Z) : attempt Z (option Z) :=
  let n := HTC_COUNT htc in
  if SCHEDI_DQ_SIZE <=? n then Leave None
  else
    let h := HTC_HEAD htc in
    let head' := next_index h in
    let label' := next_label (HTC_LABEL htc) 5 (job_addr job) head' in
    Swap (PACK_HTC (Htc head' (HTC_TAIL htc) (bump n) label')) (Some h).

Definition dq_push_with (bump : Z → Z) (job : nat) : M destroy_queue Z :=
  htc ← gets dq_htc;
  let '(slot, htc') := rmw (push_body bump job) htc in
  modify (set_dq_htc htc') ≫= λ _,
  match slot with
  | None => mret (-1)
  | Some i =>
      updates (λ q, match dq_buf q !! Z.to_nat i with
        | Some _ => Some (set_dq_buf (<[Z.to_nat i := Some job]> (dq_buf q)) q)
        | None => None end) ≫= λ _,
      modify (λ q, set_dq_ready (<[Z.to_nat i := true]> (dq_ready q)) q) ≫= λ _,
      mret 0
  end.

(** The loop of [DEFINE_DQ_POP_ATOMIC]; it reads the buffer's entry at the tail. *)
Definition pop_body (bump : Z → Z) (buf : list (option nat)) (ready : list bool)
    (htc : Z) : option (attempt Z (option Z)) :=
  let n := HTC_COUNT htc in
  let t := HTC_TAIL htc in
  match ready !! Z.to_nat t, buf !! Z.to_nat t with
  | Some r, Some p =>
      Some (if (n =? 0) || negb r then Leave None
            else
              let h := HTC_HEAD htc in
              if t =? h then Leave None
              else
                let label' := next_label (HTC_LABEL htc) 3 (pointer_bits p) h in
                Swap (PACK_HTC (Htc h (next_index t) (bump n) label')) (Some t))
  | _, _ => None
  end.

Definition dq_pop_with (bump : Z → Z) : M destroy_queue (option nat) :=
  q ← gets id;
  match pop_body bump (dq_buf q) (dq_ready q) (dq_htc q) with
  | None => undef
  | Some a =>
      let '(slot, htc') := rmw (λ _, a) (dq_htc q) in
      modify (set_dq_htc htc') ≫= λ _,
      match slot with
      | None => mret None
      | Some t =>
          job ← reads (λ q, dq_buf q !! Z.to_nat t);
          modify (λ q, set_dq_ready (<[Z.to_nat t := false]> (dq_ready q)) q) ≫= λ _,
          mret job
      end
  end.

Definition dq_push : nat → M destroy_queue Z := dq_push_with (λ n, n + 1).
Definition dq_super_push : nat → M destroy_queue Z := dq_push_with (λ n, n).
Definition dq_pop : M destroy_queue (option nat) := dq_pop_with (λ n, n - 1).
Definition dq_super_pop : M destroy_queue (option nat) := dq_pop_with (λ n, n).
End operations.

(** ** The word's fields *)

Definition htc_ok (h : HTC) : Prop :=
  0 <= head h < 2 ^ 16 ∧ 0 <= tail h < 2 ^ 16 ∧ 0 <= count h < 2 ^ 16 ∧ 0 <= label h < 2 ^ 16.

Lemma htc_fields h : htc_ok h →
  HTC_HEAD (PACK_HTC h) = head h ∧ HTC_TAIL (PACK_HTC h) = tail h ∧
  HTC_COUNT (PACK_HTC h) = count h ∧ HTC_LABEL (PACK_HTC h) = label h.
Proof.
  destruct h as [hd tl n lb]. intros (Hh & Ht & Hn & Hl). cbn [head tail count label] in *.
  change (HTC_HEAD ?x) with (field_get x 48 16). change (HTC_TAIL ?x) with (field_get x 32 16).
  change (HTC_COUNT ?x) with (field_get x 16 16).
  assert (∀ x, HTC_LABEL x = field_get x 0 16) as Hlab
    by (intros x; unfold HTC_LABEL, field_get; by rewrite Z.shiftr_0_r).
  rewrite !Hlab.
  unfold PACK_HTC. cbn [head tail count label]. rewrite Z.shiftl_0_r.
  split_and!; unpack_field 16.
Qed.

Lemma next_label_range lb step p hd :
  0 <= lb → 0 <= step → 0 <= p → 0 <= hd → 0 <= next_label lb step p hd < 2 ^ 16.
Proof.
  intros. unfold next_label. pose proof (Z.rem_nonneg p 65200). pose proof (Z.mod_pos_bound hd 5).
  pose proof (Z.rem_bound_pos (lb + step + Z.rem p 65200 + hd mod 5) 65536).
  rewrite u32_small; lia.
Qed.

(** The decrement changes the count's field only. *)
Lemma dec_count_pack h :
  htc_ok h → 0 < count h <= 1024 →
  dec_count_desired (PACK_HTC h) = Some (PACK_HTC (Htc (head h) (tail h) (count h - 1) (label h))).
Proof.
  intros Hok Hn. destruct (htc_fields h Hok) as (_ & _ & Hc & _).
  unfold dec_count_desired. rewrite Hc, u16_small by lia.
  destruct (Z.leb_spec (2 ^ 15) (count h - 1)); [lia|]. f_equal.
  destruct h as [hd tl n lb]. destruct Hok as (Hh & Ht & Hn' & Hl).
  cbn [head tail count label] in *. unfold PACK_HTC. cbn [head tail count label].
  change (Z.shiftl 65535 16) with (Z.shiftl (Z.ones 16) 16).
  apply Z.bits_inj'. intros i Hi.
  rewrite !Z.lor_spec, Z.land_spec, Z.lnot_spec, !Z.lor_spec by done.
  rewrite !(Z.shiftl_spec _ _ i) by done.
  destruct (Z.ltb_spec i 16).
  - rewrite !(Z.testbit_neg_r _ (i - 48)), !(Z.testbit_neg_r _ (i - 32)),
      !(Z.testbit_neg_r _ (i - 16)) by lia. btauto.
  - rewrite testbit_ones by lia. destruct (Z.ltb_spec (i - 16) 16).
    + rewrite !(Z.testbit_neg_r _ (i - 48)), !(Z.testbit_neg_r _ (i - 32)) by lia.
      rewrite (testbit_small lb 16) by lia. cbn. btauto.
    + rewrite (testbit_small n 16), (testbit_small (n - 1) 16) by lia. cbn. btauto.
Qed.

(** ** The queue a state represents *)

(** The k-th entry from the tail [t]. *)
Definition slot (t k : nat) : nat := ((t + k) mod 1024)%nat.

Lemma slot_lt t k : (slot t k < 1024)%nat.
Proof. by apply Nat.mod_upper_bound. Qed.

Lemma slot_inj t k k' : (k < 1024)%nat → (k' < 1024)%nat → slot t k = slot t k' → k = k'.
Proof.
  unfold slot. intros Hk Hk' E.
  pose proof (Nat.div_mod_eq (t + k) 1024). pose proof (Nat.div_mod_eq (t + k') 1024). lia.
Qed.

Lemma slot_succ t k : slot (slot t 1) k = slot t (S k).
Proof.
  unfold slot. rewrite Nat.Div0.add_mod_idemp_l. f_equal. lia.
Qed.

Lemma slot_0 t : (t < 1024)%nat → slot t 0 = t.
Proof. intros Ht. unfold slot. rewrite Nat.add_0_r. by apply Nat.mod_small. Qed.

Lemma slot_next t k : next_index (Z.of_nat (slot t k)) = Z.of_nat (slot t (S k)).
Proof.
  unfold next_index, slot, SCHEDI_DQ_SIZE.
  rewrite !Nat2Z.inj_mod. change (Z.of_nat 1024) with 1024.
  rewrite Z.add_mod_idemp_l by done. f_equal. lia.
Qed.

(** The abstract queue: the pending jobs, oldest first, and the count. *)
Record fifo : Type := Fifo { pending : list nat; counted : Z }.

(** At most the counted entries are pending; the others are out for a check. *)
Definition fifo_ok (f : fifo) : Prop := Z.of_nat (length (pending f)) <= counted f <= 1024.

Record dq_rep_at (q : destroy_queue) (f : fifo) (t : nat) (lb : Z) : Prop := {
  rep_tail : (t < 1024)%nat;
  rep_label : 0 <= lb < 2 ^ 16;
  rep_htc : dq_htc q = PACK_HTC (Htc (Z.of_nat (slot t (length (pending f)))) (Z.of_nat t)
              (counted f) lb);
  rep_len : length (dq_buf q) = 1024%nat ∧ length (dq_ready q) = 1024%nat;
  rep_pending k job : pending f !! k = Some job →
    dq_buf q !! slot t k = Some (Some job) ∧ dq_ready q !! slot t k = Some true;
  rep_clear k : (length (pending f) <= k < 1024)%nat → dq_ready q !! slot t k = Some false;
}.

Definition dq_rep (q : destroy_queue) (f : fifo) : Prop :=
  fifo_ok f ∧ ∃ t lb, dq_rep_at q f t lb.

Lemma rep_fields q f t lb : fifo_ok f → dq_rep_at q f t lb →
  HTC_HEAD (dq_htc q) = Z.of_nat (slot t (length (pending f))) ∧
  HTC_TAIL (dq_htc q) = Z.of_nat t ∧ HTC_COUNT (dq_htc q) = counted f ∧
  HTC_LABEL (dq_htc q) = lb.
Proof.
  intros [Hf1 Hf2] Hrep. rewrite (rep_htc _ _ _ _ Hrep). apply htc_fields.
  pose proof (slot_lt t (length (pending f))). pose proof (rep_tail _ _ _ _ Hrep).
  pose proof (rep_label _ _ _ _ Hrep).
  unfold htc_ok. cbn [head tail count label]. lia.
Qed.

(** ** Running the operations *)

Section runs.
Context `{JobAddress}.

Lemma push_full_run bump job q f :
  dq_rep q f → counted f = 1024 → dq_push_with bump job q = Done (-1) q.
Proof.
  intros (Hf & t & lb & Hrep) Hn. destruct (rep_fields _ _ _ _ Hf Hrep) as (_ & _ & Hc & _).
  unfold dq_push_with. bind_by done. unfold rmw, push_body. rewrite Hc, Hn, Z.leb_refl.
  bind_by done. by destruct q.
Qed.

(** The state after a push at the head. *)
Definition pushed (i job : nat) (w : Z) (q : destroy_queue) : destroy_queue :=
  DQ (<[i := Some job]> (dq_buf q)) (<[i := true]> (dq_ready q)) w.

Lemma push_rep bump job q f :
  dq_rep q f → counted f < 1024 →
  Z.of_nat (S (length (pending f))) <= bump (counted f) <= 1024 →
  ∃ q', dq_push_with bump job q = Done 0 q' ∧
    dq_rep q' (Fifo (pending f ++ [job]) (bump (counted f))).
Proof.
  intros (Hf & t & lb & Hrep) Hn Hb.
  destruct (rep_fields _ _ _ _ Hf Hrep) as (Hh & Ht & Hc & Hl).
  destruct (rep_len _ _ _ _ Hrep) as [Hlb Hlr].
  set (len := length (pending f)) in *.
  pose proof (slot_lt t len) as Hslot. pose proof (rep_label _ _ _ _ Hrep) as Hlab.
  unfold dq_push_with. bind_by done. unfold rmw, push_body.
  rewrite Hc, Hh, Ht, Hl. unfold SCHEDI_DQ_SIZE at 1.
  destruct (Z.leb_spec 1024 (counted f)); [lia|]. rewrite slot_next.
  bind_by done. destruct (lookup_lt_is_Some_2 (dq_buf q) (slot t len)) as [old Hold]; [lia|].
  bind_by (unfold updates; cbn [dq_buf set_dq_htc]; rewrite Nat2Z.id, Hold; done).
  bind_by done. eexists. split; [done|]. rewrite Nat2Z.id.
  split; [unfold fifo_ok; cbn [pending counted]; rewrite length_app; cbn [length]; lia|].
  exists t, (next_label lb 5 (job_addr job) (Z.of_nat (slot t (S len)))). split; cbn [dq_htc dq_buf dq_ready set_dq_htc set_dq_buf set_dq_ready pending counted].
  - by eapply rep_tail.
  - apply next_label_range; [lia..|apply job_addr_nonneg|lia].
  - rewrite length_app. fold len. cbn [length]. by rewrite Nat.add_1_r.
  - by rewrite !length_insert.
  - intros k j. rewrite lookup_app_Some. fold len.
    intros [Hk|[Hle Hk]].
    + pose proof (lookup_lt_Some _ _ _ Hk) as Hlt. fold len in Hlt.
      unfold fifo_ok in Hf. fold len in Hf.
      rewrite !list_lookup_insert_ne by (intros E%slot_inj; lia).
      by eapply rep_pending.
    + apply list_lookup_singleton_Some in Hk as [Hk ->].
      replace k with len by lia. by rewrite !list_lookup_insert_eq by lia.
  - intros k. rewrite length_app. fold len. cbn [length]. intros Hk.
    rewrite list_lookup_insert_ne by (intros E%slot_inj; lia).
    eapply rep_clear; [done|]. fold len. lia.
Qed.

(** A pop that does nothing. *)
Lemma pop_idle_run bump q f :
  dq_rep q f → pending f = [] ∨ length (pending f) = 1024%nat →
  dq_pop_with bump q = Done None q.
Proof.
  intros (Hf & t & lb & Hrep) Hor.
  destruct (rep_fields _ _ _ _ Hf Hrep) as (Hh & Ht & Hc & Hl).
  destruct (rep_len _ _ _ _ Hrep) as [Hlb Hlr].
  pose proof (rep_tail _ _ _ _ Hrep) as Htail.
  destruct (lookup_lt_is_Some_2 (dq_buf q) t) as [p Hp]; [lia|].
  destruct (lookup_lt_is_Some_2 (dq_ready q) t) as [r Hr]; [lia|].
  unfold dq_pop_with. bind_by done. unfold pop_body, id.
  rewrite Ht, Nat2Z.id. rewrite Hp, Hr, Hc, Hh, Hl.
  assert (slot t (length (pending f)) = t ∨ r = false) as Hor'.
  { destruct Hor as [E|E]; rewrite ?E.
    - right. assert (dq_ready q !! slot t 0 = Some false) as Hcl.
      { eapply rep_clear; [done|]. rewrite E. cbn. lia. }
      rewrite slot_0 in Hcl by done. congruence.
    - left. unfold slot. change (t + 1024)%nat with (t + 1 * 1024)%nat.
      rewrite Nat.Div0.mod_add. by apply Nat.mod_small. }
  unfold rmw. destruct ((counted f =? 0) || negb r) eqn:E.
  - bind_by done. by destruct q.
  - destruct Hor' as [->| ->]; [|by rewrite orb_true_r in E].
    rewrite Z.eqb_refl. bind_by done. by destruct q.
Qed.

Lemma pop_rep bump q f job jobs :
  dq_rep q f → pending f = job :: jobs → (length (pending f) < 1024)%nat →
  Z.of_nat (length jobs) <= bump (counted f) <= 1024 →
  ∃ q', dq_pop_with bump q = Done (Some job) q' ∧ dq_rep q' (Fifo jobs (bump (counted f))).
Proof.
  intros (Hf & t & lb & Hrep) Hpend Hlen Hb.
  destruct (rep_fields _ _ _ _ Hf Hrep) as (Hh & Ht & Hc & Hl).
  destruct (rep_len _ _ _ _ Hrep) as [Hlb Hlr].
  pose proof (rep_tail _ _ _ _ Hrep) as Htail. pose proof (rep_label _ _ _ _ Hrep) as Hlab.
  destruct (rep_pending _ _ _ _ Hrep 0 job) as [Hjob Hready]; [by rewrite Hpend|].
  rewrite slot_0 in Hjob, Hready by done.
  unfold dq_pop_with. bind_by done. unfold pop_body, id.
  rewrite Ht, Nat2Z.id. rewrite Hjob, Hready, Hc, Hh, Hl.
  destruct Hf as [Hf1 Hf2]. rewrite Hpend in Hf1, Hlen. cbn [length] in Hf1, Hlen.
  unfold rmw. destruct (Z.eqb_spec (counted f) 0); [lia|]. cbn [orb negb].
  destruct (Z.eqb_spec (Z.of_nat t) (Z.of_nat (slot t (length (pending f))))) as [E|_].
  { apply Nat2Z.inj in E. rewrite <-(slot_0 t) in E at 1 by done.
    apply slot_inj in E; rewrite ?Hpend in *; cbn [length] in *; lia. }
  bind_by done. bind_by (unfold reads; cbn [dq_buf set_dq_htc]; rewrite Nat2Z.id, Hjob; done).
  bind_by done. eexists. split; [done|]. rewrite Nat2Z.id.
  split; [done|]. exists (slot t 1), (next_label lb 3 (job_addr job) (Z.of_nat (slot t (length (pending f))))).
  split; cbn [dq_htc dq_buf dq_ready set_dq_htc set_dq_buf set_dq_ready pending counted].
  - apply slot_lt.
  - apply next_label_range; [lia..|apply job_addr_nonneg|lia].
  - rewrite <-(slot_0 t) at 2 by done. rewrite slot_next, slot_succ, Hpend. done.
  - by rewrite length_insert.
  - intros k j Hk. rewrite slot_succ. pose proof (lookup_lt_Some _ _ _ Hk).
    destruct (rep_pending _ _ _ _ Hrep (S k) j) as [Hbk Hrk]; [by rewrite Hpend|].
    split; [done|]. rewrite <-Hrk. apply list_lookup_insert_ne.
    rewrite <-(slot_0 t) at 1 by done. intros E%slot_inj; lia.
  - intros k Hk. rewrite slot_succ. destruct (decide (S k = 1024)%nat) as [->|Hne].
    + assert (slot t 1024 = t) as ->.
      { unfold slot. change (t + 1024)%nat with (t + 1 * 1024)%nat.
        rewrite Nat.Div0.mod_add. by apply Nat.mod_small. }
      apply list_lookup_insert_eq. lia.
    + rewrite list_lookup_insert_ne.
      * eapply rep_clear; [done|]. rewrite Hpend. cbn [length]. lia.
      * rewrite <-(slot_0 t) at 1 by done. intros E%slot_inj; lia.
Qed.

Lemma dec_count_rep q f :
  dq_rep q f → Z.of_nat (length (pending f)) < counted f →
  ∃ q', dq_dec_count q = Done () q' ∧ dq_rep q' (Fifo (pending f) (counted f - 1)).
Proof.
  intros (Hf & t & lb & Hrep) Hlt. unfold dq_dec_count, updates, fifo_ok in *.
  pose proof (slot_lt t (length (pending f))). pose proof (rep_tail _ _ _ _ Hrep).
  pose proof (rep_label _ _ _ _ Hrep).
  rewrite (rep_htc _ _ _ _ Hrep), dec_count_pack.
  - eexists. split; [done|]. split; [unfold fifo_ok; cbn [pending counted]; lia|].
    exists t, lb. by destruct Hrep.
  - unfold htc_ok. cbn [head tail count label]. lia.
  - cbn [count]. lia.
Qed.
End runs.

(** ** Refinement of the abstract queue *)

Inductive dq_op : Type := Push (job : nat) | SuperPush (job : nat) | Pop | SuperPop | DecCount.
Inductive dq_answer : Type := Pushed (r : Z) | Popped (job : option nat) | Counted.

Section refinement.
Context `{JobAddress}.

Definition run_dq_op (op : dq_op) : M destroy_queue dq_answer :=
  match op with
  | Push job => Pushed <$> dq_push job
  | SuperPush job => Pushed <$> dq_super_push job
  | Pop => Popped <$> dq_pop
  | SuperPop => Popped <$> dq_super_pop
  | DecCount => (λ _, Counted) <$> dq_dec_count
  end.

(** The abstract operations, of a FIFO with 1024 places: a place is taken with [Push] and
    given up with [Pop] or [DecCount]; a job taken out with [SuperPop] keeps its place, and
    [SuperPush] puts it back whatever others pushed meanwhile. *)
Definition fifo_put (n : Z) (job : nat) (f : fifo) : dq_answer * fifo :=
  (Pushed 0, Fifo (pending f ++ [job]) n).
Definition fifo_take (n : Z) (f : fifo) : dq_answer * fifo :=
  match pending f with
  | job :: jobs => (Popped (Some job), Fifo jobs n)
  | [] => (Popped None, f)
  end.

Definition fifo_op (op : dq_op) (f : fifo) : dq_answer * fifo :=
  match op with
  | Push job =>
      if decide (counted f = SCHEDI_DQ_SIZE) then (Pushed (-1), f)
      else fifo_put (counted f + 1) job f
  | SuperPush job => fifo_put (counted f) job f
  | Pop => fifo_take (counted f - 1) f
  | SuperPop => fifo_take (counted f) f
  | DecCount => (Counted, Fifo (pending f) (counted f - 1))
  end.

(** A caller pushes back, or gives up the place of, only what it took out. *)
Definition dq_allowed (op : dq_op) (f : fifo) : Prop :=
  match op with
  | SuperPush _ | DecCount => Z.of_nat (length (pending f)) < counted f
  | _ => True
  end.

(** All places are taken, and the code stops being the queue: a pop takes the full ring for
    an empty one, and pushing back is refused ([dq_full_is_stuck],
    [dq_super_push_can_fail]). *)
Definition dq_exhausted (op : dq_op) (f : fifo) : Prop :=
  match op with
  | Push _ | DecCount => False
  | SuperPush _ => counted f = SCHEDI_DQ_SIZE
  | Pop | SuperPop => length (pending f) = Z.to_nat SCHEDI_DQ_SIZE
  end.

(** Operations one after the other, with their answers. *)
Fixpoint run_dq_ops (ops : list dq_op) : M destroy_queue (list dq_answer) :=
  match ops with
  | [] => mret []
  | op :: ops => a ← run_dq_op op; answers ← run_dq_ops ops; mret (a :: answers)
  end.
Fixpoint fifo_ops (ops : list dq_op) (f : fifo) : list dq_answer * fifo :=
  match ops with
  | [] => ([], f)
  | op :: ops => let '(a, f) := fifo_op op f in
      let '(answers, f) := fifo_ops ops f in (a :: answers, f)
  end.
Fixpoint dq_disciplined (ops : list dq_op) (f : fifo) : Prop :=
  match ops with
  | [] => True
  | op :: ops => dq_allowed op f ∧ ¬ dq_exhausted op f ∧ dq_disciplined ops (fifo_op op f).2
  end.

Lemma fmap_done {S A B} (g : A → B) (m : M S A) s a s' :
  m s = Done a s' → (g <$> m) s = Done (g a) s'.
Proof. intros E. unfold fmap, M_fmap. by rewrite E. Qed.

Lemma put_refines bump job q f :
  dq_rep q f → counted f < 1024 →
  Z.of_nat (S (length (pending f))) <= bump (counted f) <= 1024 →
  ∃ q', (Pushed <$> dq_push_with bump job) q = Done (fifo_put (bump (counted f)) job f).1 q' ∧
    dq_rep q' (fifo_put (bump (counted f)) job f).2.
Proof.
  intros Hq Hlt Hb. destruct (push_rep bump job q f Hq Hlt Hb) as (q' & Hrun & Hq').
  exists q'. split; [exact (fmap_done Pushed _ _ _ _ Hrun)|done].
Qed.

Lemma take_refines bump q f :
  dq_rep q f → (length (pending f) < 1024)%nat →
  (∀ job jobs, pending f = job :: jobs →
     Z.of_nat (length jobs) <= bump (counted f) <= 1024) →
  ∃ q', (Popped <$> dq_pop_with bump) q = Done (fifo_take (bump (counted f)) f).1 q' ∧
    dq_rep q' (fifo_take (bump (counted f)) f).2.
Proof.
  intros Hq Hlt Hb. unfold fifo_take. destruct (pending f) as [|job jobs] eqn:E.
  - exists q. split; [cbn [fst snd]|done]. apply fmap_done. eapply pop_idle_run; [done|by left].
  - rewrite <-E in Hlt. destruct (pop_rep bump q f job jobs Hq E Hlt (Hb _ _ eq_refl))
      as (q' & Hrun & Hq').
    exists q'. split; [cbn [fst snd]|done]. by apply fmap_done.
Qed.

Lemma dq_op_run op q f :
  dq_rep q f → dq_allowed op f → ¬ dq_exhausted op f →
  ∃ q', run_dq_op op q = Done (fifo_op op f).1 q' ∧ dq_rep q' (fifo_op op f).2.
Proof.
  intros Hq Hall Hex. pose proof (proj1 Hq) as [Hf1 Hf2].
  destruct op as [job|job| | |]; cbn [run_dq_op fifo_op dq_allowed dq_exhausted] in *;
    unfold SCHEDI_DQ_SIZE in *.
  - case_decide as Hn.
    + exists q. split; [cbn [fst]|done]. apply fmap_done. by apply (push_full_run _ _ _ f).
    + apply (put_refines (λ n, n + 1)); [done|lia|lia].
  - apply (put_refines (λ n, n)); [done|lia|lia].
  - apply (take_refines (λ n, n - 1)); [done|lia|]. intros job jobs E. rewrite E in Hf1.
    cbn in Hf1. lia.
  - apply (take_refines (λ n, n)); [done|lia|]. intros job jobs E. rewrite E in Hf1.
    cbn in Hf1. lia.
  - destruct (dec_count_rep q f Hq Hall) as (q' & Hrun & Hq').
    exists q'. split; [cbn [fst snd]|done]. by apply (fmap_done (λ _, Counted) _ _ ()).
Qed.

(** C15: the packed-word ring buffer implements a first-in first-out queue with 1024 places,
    until all are taken: any sequence of operations (push, pop, their super variants, the
    decrement), in which the caller gives back only what it took out, returns what the
    abstract queue returns, as long as it does not pop with 1024 jobs pending or push back
    with 1024 places taken - there the code deviates ([dq_full_is_stuck],
    [dq_super_push_can_fail]).  The library has 256 jobs and queues each at most once. *)
Theorem dq_refines_fifo ops q f :
  dq_rep q f → dq_disciplined ops f →
  ∃ q', run_dq_ops ops q = Done (fifo_ops ops f).1 q' ∧ dq_rep q' (fifo_ops ops f).2.
Proof.
  revert q f. induction ops as [|op ops IH]; intros q f Hq Hd; cbn [run_dq_ops fifo_ops].
  { by exists q. }
  destruct Hd as (Hall & Hex & Hd).
  destruct (dq_op_run op q f Hq Hall Hex) as (q1 & Hrun1 & Hq1). bind_by exact Hrun1.
  destruct (fifo_op op f) as [a f1]. cbn [fst snd] in *.
  destruct (IH q1 f1 Hq1 Hd) as (q2 & Hrun2 & Hq2). bind_by exact Hrun2.
  destruct (fifo_ops ops f1) as [answers f2]. by exists q2.
Qed.

(** A queue of 1024 pending jobs is stuck for good: every push returns -1 and
    every pop NULL, and none changes it (the guard against overselling takes the
    full ring for an empty one), so those jobs are never destroyed. *)
Theorem dq_full_is_stuck op q f :
  dq_rep q f → length (pending f) = 1024%nat → op ≠ DecCount →
  ∃ a, run_dq_op op q = Done a q ∧ a ∈ [Pushed (-1); Popped None].
Proof.
  intros Hq Hlen Hop. pose proof (proj1 Hq) as [Hf1 Hf2].
  assert (counted f = 1024) as Hn by lia.
  destruct op as [job|job| | |]; [| | | |done]; eexists;
    (split; [apply fmap_done; (by eapply push_full_run) || (eapply pop_idle_run; [done|by right])|]).
  all: set_solver.
Qed.

(** A job that was taken out for a check cannot always be put back: if pushes
    have brought the count to 1024 meanwhile, [dq_super_push] returns -1 although
    the job's own place is still counted and the ring has room. *)
Theorem dq_super_push_can_fail job q f :
  dq_rep q f → counted f = 1024 → (length (pending f) < 1024)%nat →
  dq_super_push job q = Done (-1) q.
Proof. intros Hq Hn _. by eapply push_full_run. Qed.

(** Decrementing a zero count is undefined behaviour (the 16-bit count wraps
    and its shift overflows an [int]). *)
Theorem dq_dec_count_zero q : HTC_COUNT (dq_htc q) = 0 → dq_dec_count q = Undef.
Proof.
  intros Hz. unfold dq_dec_count, updates, dec_count_desired. by rewrite Hz.
Qed.
End refinement.

(** The queue at start-up (static storage). *)
Definition dq_zero : destroy_queue := DQ (replicate 1024 None) (replicate 1024 false) 0.

Lemma dq_zero_rep : dq_rep dq_zero (Fifo [] 0).
Proof.
  split; [split; cbn; lia|]. exists 0%nat, 0. split; [lia|lia|done|done|done|].
  intros k Hk. cbn [dq_zero dq_ready]. apply lookup_replicate_2. apply slot_lt.
Qed.

(** ** Witnesses *)

(** A contiguous array of 512-byte structures. *)
Program Definition contiguous_jobs : JobAddress := {|
  job_addr job := 94000000000000 + 512 * Z.of_nat job;
|}.
Next Obligation. intros job. cbv beta. lia. Qed.
#[local] Existing Instance contiguous_jobs.

(** The ring with all entries pending, and with one of them out for a check. *)
Definition dq_full : destroy_queue :=
  DQ (replicate 1024 (Some 5%nat)) (replicate 1024 true) (PACK_HTC (Htc 0 0 1024 0)).
Definition dq_one_out : destroy_queue :=
  DQ (replicate 1024 (Some 5%nat)) (<[0%nat := false]> (replicate 1024 true))
    (PACK_HTC (Htc 0 1 1024 0)).

Lemma dq_full_rep : dq_rep dq_full (Fifo (replicate 1024 5%nat) 1024).
Proof.
  split; [split; done|]. exists 0%nat, 0. split; cbn [pending counted].
  - lia.
  - lia.
  - reflexivity.
  - done.
  - intros k job [-> Hk]%lookup_replicate. cbn [dq_full dq_buf dq_ready].
    split; apply lookup_replicate_2; apply slot_lt.
  - rewrite length_replicate. lia.
Qed.

Lemma dq_one_out_rep : dq_rep dq_one_out (Fifo (replicate 1023 5%nat) 1024).
Proof.
  split; [unfold fifo_ok; cbn [pending counted]; rewrite length_replicate; lia|].
  exists 1%nat, 0. split; cbn [pending counted].
  - lia.
  - lia.
  - reflexivity.
  - done.
  - intros k job [-> Hk]%lookup_replicate. cbn [dq_one_out dq_buf dq_ready].
    split; [apply lookup_replicate_2; apply slot_lt|].
    rewrite list_lookup_insert_ne.
    + apply lookup_replicate_2; apply slot_lt.
    + change 0%nat with (slot 1 1023). intros E%slot_inj; lia.
  - rewrite length_replicate. intros k Hk. replace k with 1023%nat by lia. reflexivity.
Qed.

(** Two jobs queued; one is taken out and pushed back behind the other, which is popped. *)
Definition dq_visit : list dq_op := [Push 3; Push 4; SuperPop; SuperPush 3; Pop; Pop; Pop].

Lemma dq_refines_fifo_witness :
  ∃ q', run_dq_ops dq_visit dq_zero =
      Done [Pushed 0; Pushed 0; Popped (Some 3%nat); Pushed 0; Popped (Some 4%nat);
            Popped (Some 3%nat); Popped None] q' ∧ dq_rep q' (Fifo [] 0).
Proof.
  apply (dq_refines_fifo dq_visit dq_zero (Fifo [] 0)); [apply dq_zero_rep|].
  cbn. split_and!; done || lia || by intros [].
Defined.

Lemma dq_full_is_stuck_witness :
  ∃ a, run_dq_op Pop dq_full = Done a dq_full ∧ a ∈ [Pushed (-1); Popped None].
Proof.
  apply (dq_full_is_stuck Pop dq_full (Fifo (replicate 1024 5%nat) 1024));
    [apply dq_full_rep|done|done].
Defined.

Lemma dq_super_push_can_fail_witness : dq_super_push 5 dq_one_out = Done (-1) dq_one_out.
Proof.
  apply (dq_super_push_can_fail 5 dq_one_out (Fifo (replicate 1023 5%nat) 1024));
    [apply dq_one_out_rep|done|cbn [pending]; rewrite length_replicate; lia].
Defined.

Lemma dq_dec_count_zero_witness : dq_dec_count dq_zero = Undef.
Proof. apply (dq_dec_count_zero dq_zero). reflexivity. Defined.
