(* ===== verification/Jobs.v ===== *)
(** * Jobs (src/src/jobs.c): creation, readiness, picking, destruction

    The whole state of the scheduler and the operations on one job of the array.
    The pool of free slots, the ready cache and the destroy queue are the
    components of the other files, run on their parts of this state; the flags word
    of the array is shared by the first two.  A job is named by its index in the
    array; the functions, contexts and destructors that users supply are opaque
    names, and a destructor's call is recorded as an event. *)

From S2P Require Export MetaFlag ReadyCache DestroyQueue.

Local Open Scope Z_scope.

(** ** State *)

Inductive job_state : Type :=
  | schedi_job_state_nulljob
  | schedi_job_state_suspended
  | schedi_job_state_readywaiting
  | schedi_job_state_working
  | schedi_job_state_destroying.

(** [struct schedi_job_epoll_requests_list]. *)
Record epoll_requests_list : Type := RequestsList {
  total_req : Z; ret_count : Z; err_count : Z;
}.

(** [struct schedi_job]. *)
Record schedi_job : Type := Job {
  phase : Z;
  gen : Z;
  state : job_state;
  meta_flag : Z;
  epoll_list : epoll_requests_list;
  required_available_sockets : Z;
  requested_job : option nat;
  requested_job_gen : Z;
  required_available_jobs : Z;
  completion_indicator : option nat;
  run : nat;
  context : Z;
  dtor : option nat;
}.

Definition set_gen x j := Job (phase j) x (state j) (meta_flag j) (epoll_list j)
  (required_available_sockets j) (requested_job j) (requested_job_gen j)
  (required_available_jobs j) (completion_indicator j) (run j) (context j) (dtor j).
Definition set_state x j := Job (phase j) (gen j) x (meta_flag j) (epoll_list j)
  (required_available_sockets j) (requested_job j) (requested_job_gen j)
  (required_available_jobs j) (completion_indicator j) (run j) (context j) (dtor j).
Definition set_meta x j := Job (phase j) (gen j) (state j) x (epoll_list j)
  (required_available_sockets j) (requested_job j) (requested_job_gen j)
  (required_available_jobs j) (completion_indicator j) (run j) (context j) (dtor j).
Definition set_epoll_list x j := Job (phase j) (gen j) (state j) (meta_flag j) x
  (required_available_sockets j) (requested_job j) (requested_job_gen j)
  (required_available_jobs j) (completion_indicator j) (run j) (context j) (dtor j).
Definition set_required_sockets x j := Job (phase j) (gen j) (state j) (meta_flag j)
  (epoll_list j) x (requested_job j) (requested_job_gen j)
  (required_available_jobs j) (completion_indicator j) (run j) (context j) (dtor j).
Definition set_required_jobs x j := Job (phase j) (gen j) (state j) (meta_flag j)
  (epoll_list j) (required_available_sockets j) (requested_job j) (requested_job_gen j)
  x (completion_indicator j) (run j) (context j) (dtor j).
Definition set_requested u g j := Job (phase j) (gen j) (state j) (meta_flag j)
  (epoll_list j) (required_available_sockets j) u g
  (required_available_jobs j) (completion_indicator j) (run j) (context j) (dtor j).

Definition set_phase x j := Job x (gen j) (state j) (meta_flag j) (epoll_list j)
  (required_available_sockets j) (requested_job j) (requested_job_gen j)
  (required_available_jobs j) (completion_indicator j) (run j) (context j) (dtor j).
Definition set_indicator k j := Job (phase j) (gen j) (state j) (meta_flag j) (epoll_list j)
  (required_available_sockets j) (requested_job j) (requested_job_gen j)
  (required_available_jobs j) k (run j) (context j) (dtor j).

(** [struct schedi_job_completion_indicator]; the wake-ups of its condition variable
    are counted. *)
Record completion_record : Type := Indicator {
  signal_mutex : bool; completion : bool; broadcasts : nat;
}.

(** What user code sees: a destructor is called with a context. *)
Inductive event : Type := DtorCalled (dtor : nat) (context : Z).

(** The static data of jobs.c ([job_array], [dq], the mutex and the condition
    variable), and the completion indicators users allocated. *)
Record sys : Type := Sys {
  s_jobs : list schedi_job;
  s_sections : list schedi_section;
  s_section_lock : bool;
  s_flags : Z;
  s_cache : list (option nat);
  s_job_count : Z;
  s_reorganize_counter : Z;
  s_readyjob_mutex : bool;
  s_wakeups : nat;
  s_dq : destroy_queue;
  s_indicators : gmap nat completion_record;
  s_trace : list event;
}.

(** The parts the other components work on. *)
Definition pool_of (s : sys) : slot_pool := Pool (s_sections s) (s_section_lock s) (s_flags s).
Definition put_pool (p : slot_pool) (s : sys) : sys :=
  Sys (s_jobs s) (empty_sections p) (section_lock p) (pool_flags p) (s_cache s)
    (s_job_count s) (s_reorganize_counter s) (s_readyjob_mutex s) (s_wakeups s) (s_dq s)
    (s_indicators s) (s_trace s).
Definition cache_of (s : sys) : ready_cache :=
  Cache (s_cache s) (s_job_count s) (s_reorganize_counter s) (s_flags s)
    (s_readyjob_mutex s) (s_wakeups s).
Definition put_cache (c : ready_cache) (s : sys) : sys :=
  Sys (s_jobs s) (s_sections s) (s_section_lock s) (cache_flags c) (ready_jobs_cache c)
    (job_count c) (reorganize_counter c) (readyjob_mutex c) (readyjob_wakeups c) (s_dq s)
    (s_indicators s) (s_trace s).
Definition put_dq (q : destroy_queue) (s : sys) : sys :=
  Sys (s_jobs s) (s_sections s) (s_section_lock s) (s_flags s) (s_cache s)
    (s_job_count s) (s_reorganize_counter s) (s_readyjob_mutex s) (s_wakeups s) q
    (s_indicators s) (s_trace s).
Definition set_jobs (js : list schedi_job) (s : sys) : sys :=
  Sys js (s_sections s) (s_section_lock s) (s_flags s) (s_cache s)
    (s_job_count s) (s_reorganize_counter s) (s_readyjob_mutex s) (s_wakeups s) (s_dq s)
    (s_indicators s) (s_trace s).
Definition set_indicators (m : gmap nat completion_record) (s : sys) : sys :=
  Sys (s_jobs s) (s_sections s) (s_section_lock s) (s_flags s) (s_cache s)
    (s_job_count s) (s_reorganize_counter s) (s_readyjob_mutex s) (s_wakeups s) (s_dq s)
    m (s_trace s).
Definition add_event (e : event) (s : sys) : sys :=
  Sys (s_jobs s) (s_sections s) (s_section_lock s) (s_flags s) (s_cache s)
    (s_job_count s) (s_reorganize_counter s) (s_readyjob_mutex s) (s_wakeups s) (s_dq s)
    (s_indicators s) (s_trace s ++ [e]).

Definition on_pool {A} : M slot_pool A → M sys A := zoom pool_of put_pool.
Definition on_cache {A} : M ready_cache A → M sys A := zoom cache_of put_cache.
Definition on_dq {A} : M destroy_queue A → M sys A := zoom s_dq put_dq.

(** ** Access to one job *)

Definition job_get {A} (f : schedi_job → A) (i : nat) : M sys A :=
  reads (λ s, f <$> s_jobs s !! i).
Definition job_put (f : schedi_job → schedi_job) (i : nat) : M sys unit :=
  updates (λ s, (λ j, set_jobs (<[i := f j]> (s_jobs s)) s) <$> s_jobs s !! i).

(** One compare-and-swap loop on a job's [meta_flag]. *)
Definition on_meta {R} (body : Z → attempt Z R) (i : nat) : M sys R :=
  w ← job_get meta_flag i;
  let '(r, w') := rmw body w in
  job_put (set_meta w') i ≫= λ _, mret r.

Definition schedi_job_mark_or (i : nat) (flag banned : Z) (ban_access : bool) : M sys Z :=
  on_meta (mark_or_body flag banned ban_access) i.
Definition schedi_job_unmark_or (i : nat) (flag banned : Z) (ban_access : bool) : M sys Z :=
  on_meta (unmark_or_body flag banned ban_access) i.
Definition schedi_job_mark_alive : nat → M sys Z := on_meta mark_alive_body.
Definition schedi_job_mark_or_default (i : nat) (flag : Z) : M sys Z :=
  on_meta (mark_default_body flag) i.
Definition schedi_job_mark_executing : nat → M sys Z := on_meta mark_executing_body.
Definition schedi_job_unmark_executing : nat → M sys Z := on_meta unmark_executing_body.
Definition schedi_job_mark_unstable : nat → M sys Z := on_meta mark_unstable_body.
Definition schedi_job_mark_wlldestroy : nat → M sys Z := on_meta mark_wlldestroy_body.
Definition schedi_job_unmark_wlldestroy : nat → M sys Z := on_meta unmark_wlldestroy_body.
Definition schedi_job_mark_access : nat → M sys Z := on_meta mark_access_body.
Definition schedi_job_unmark_access : nat → M sys Z := on_meta unmark_access_body.
Definition schedi_job_mark_ready : nat → M sys Z := on_meta mark_ready_body.
Definition schedi_job_unmark_ready : nat → M sys Z := on_meta unmark_ready_body.
Definition schedi_job_unmark_readybasic : nat → M sys Z := on_meta unmark_readybasic_body.

(** ** Becoming ready *)

Section operations.
Context `{BuildConfig, JobAddress}.

Definition schedi_job_setready (i : nat) : M sys Z :=
  when (negb lockless_readyjob) (on_cache schedi_pickingreadyjob) ≫= λ _,
  bans ← schedi_job_mark_ready i;
  let ret := if bans =? 0 then 0 else -1 in
  job_put (set_state schedi_job_state_readywaiting) i ≫= λ _,
  ret ← (if ret =? 0 then
           failed ← on_cache (schedi_cache_job_ready i);
           if failed =? 0 then mret 0
           else schedi_job_unmark_ready i ≫= λ _, mret (-2)
         else mret ret);
  when (negb lockless_readyjob && (ret =? 0))
    (on_cache pthread_cond_signal ≫= λ _, mret ()) ≫= λ _,
  when (negb lockless_readyjob) (on_cache schedi_pickedreadyjob) ≫= λ _,
  mret ret.

Definition schedi_job_meta_flag_cas_update (i : nat) (sock_delta wait_delta
    jobcount_delta flag banned : Z) (ban_access : bool) : M sys Z :=
  required_socks ← job_get required_available_sockets i;
  required_jobs ← job_get required_available_jobs i;
  '(r, trigger) ← on_meta (cas_update_body required_socks required_jobs sock_delta
    wait_delta jobcount_delta flag banned ban_access) i;
  when trigger (schedi_job_setready i ≫= λ _, mret ()) ≫= λ _,
  mret r.

Definition schedi_job_mark_or_readiness (i : nat) (flag banned : Z) (ban_access : bool)
    : M sys Z :=
  ret ← schedi_job_meta_flag_cas_update i 0 0 0 flag banned ban_access;
  mret (if 0 <? ret then ret else 0).

Definition schedi_job_mark_readybasic (i : nat) : M sys Z :=
  schedi_job_mark_or_readiness i SCHEDI_JOB_METAFLAG_READYBASIC
    (Z.lor SCHEDI_JOB_METAFLAG_UNSTABLE SCHEDI_JOB_METAFLAG_WLLDESTROY) false.

Definition schedi_job_required_available_socket (i : nat) (n : Z) : M sys unit :=
  job_put (set_required_sockets n) i ≫= λ _,
  schedi_job_meta_flag_cas_update i 0 0 0 0 0 false ≫= λ _, mret ().

Definition schedi_job_required_available_jobs (i : nat) (n : Z) : M sys unit :=
  job_put (set_required_jobs n) i ≫= λ _,
  schedi_job_meta_flag_cas_update i 0 0 0 0 0 false ≫= λ _, mret ().

Definition schedi_job_add_available_job (i : nat) : M sys Z :=
  schedi_job_meta_flag_cas_update i 0 0 1 0 0 false.

Definition schedi_job_tool_job (user target : nat) : M sys unit :=
  g ← job_get gen user;
  job_put (set_requested (Some user) g) target.

(** ** Creating *)

(** [section_claim] with its store to the claimed job (the store happens before the
    section lock is released). *)
Definition job_section_claim : M sys (option nat) :=
  idx ← on_pool section_claim;
  match idx with
  | Some i =>
      job_put (set_meta SCHEDI_JOB_METAFLAG_UNSTABLE) i ≫= λ _, mret (Some i)
  | None => mret None
  end.

(** The fields [schedi_job_create] sets; the generation and the completion
    indicator keep what the slot's last job left. *)
Definition fresh_job (ctx : Z) (fn : nat) (d : option nat) (j : schedi_job) : schedi_job :=
  Job 0 (gen j) schedi_job_state_suspended (meta_flag j) (RequestsList 0 0 0) 0 None 0 0
    (completion_indicator j) fn ctx d.

Definition schedi_job_create (ctx : Z) (fn : nat) (d : option nat) : M sys (option nat) :=
  idx ← job_section_claim;
  match idx with
  | None => mret None
  | Some i =>
      job_put (fresh_job ctx fn d) i ≫= λ _,
      job_put (set_meta created_word) i ≫= λ _,
      mret (Some i)
  end.

(** ** Picking *)

(** [schedi_job_pickready]; each turn of the [goto] takes a job out of the cache. *)
Fixpoint pickready_loop (fuel : nat) : M sys (option nat) :=
  match fuel with
  | O => stuck
  | S fuel =>
      job ← on_cache schedi_cache_job_ready_pop;
      match job with
      | None => mret None
      | Some i =>
          bans ← schedi_job_mark_access i;
          if has bans SCHEDI_JOB_METAFLAG_UNSTABLE then pickready_loop fuel
          else if has bans SCHEDI_JOB_METAFLAG_ACCESS then
            on_cache (schedi_cache_job_ready i) ≫= λ _, mret None
          else if negb (bans =? 0) then mret None
          else
            schedi_job_unmark_ready i ≫= λ _,
            schedi_job_unmark_readybasic i ≫= λ _,
            mret (Some i)
      end
  end.

Definition schedi_job_pickready : M sys (option nat) :=
  pickready_loop (S SCHEDI_MAXIMUM_JOBS).

(** ** Destroying *)

Definition schedi_job_destroy_now (i : nat) : M sys Z :=
  r ← schedi_job_mark_unstable i;
  if r =? 0 then mret 0
  else
    job_put (λ j, set_gen (fetch_add u64 1 (gen j)).2 j) i ≫= λ _,
    job_put (set_state schedi_job_state_destroying) i ≫= λ _,
    d ← job_get dtor i;
    ctx ← job_get context i;
    match d with
    | Some f => modify (add_event (DtorCalled f ctx))
    | None => mret ()
    end ≫= λ _,
    job_put (set_state schedi_job_state_nulljob) i ≫= λ _,
    job_put (set_meta 0) i ≫= λ _,
    on_pool (section_release i) ≫= λ _,
    mret 1.

Fixpoint destroy_queue_loop (n : nat) : M sys unit :=
  match n with
  | O => mret ()
  | S n =>
      job ← on_dq dq_super_pop;
      match job with
      | None => mret ()
      | Some i =>
          r ← schedi_job_destroy_now i;
          (if r =? 0 then on_dq (dq_super_push i) ≫= λ _, mret ()
           else on_dq dq_dec_count) ≫= λ _,
          destroy_queue_loop n
      end
  end.

Definition schedi_job_destroy_queue_check : M sys unit :=
  htc ← gets (λ s, dq_htc (s_dq s));
  destroy_queue_loop (Z.to_nat (HTC_COUNT htc)).

Definition schedi_job_destroy (i : nat) : M sys Z :=
  schedi_job_mark_wlldestroy i ≫= λ _,
  r ← schedi_job_destroy_now i;
  if negb (r =? 0) then mret 0
  else
    pushed ← on_dq (dq_push i);
    if pushed <? 0 then
      schedi_job_mark_or_default i SCHEDI_JOB_METAFLAG_DESTROYNOTENT ≫= λ _, mret (-2)
    else mret (-1).

(** ** Completion *)

Definition on_indicator {A} (k : nat) (m : M completion_record A) : M sys A := λ s,
  match s_indicators s !! k with
  | None => Undef
  | Some ind =>
      match m ind with
      | Done a ind' => Done a (set_indicators (<[k := ind']> (s_indicators s)) s)
      | Undef => Undef
      | Stuck => Stuck
      end
  end.

Definition set_signal_mutex b ind := Indicator b (completion ind) (broadcasts ind).

Definition indicate : M completion_record unit :=
  pthread_mutex_lock signal_mutex set_signal_mutex ≫= λ _,
  modify (λ ind, Indicator (signal_mutex ind) true (broadcasts ind)) ≫= λ _,
  modify (λ ind, Indicator (signal_mutex ind) (completion ind) (S (broadcasts ind))) ≫= λ _,
  pthread_mutex_unlock signal_mutex set_signal_mutex.

Definition schedi_job_completion_indicate (i : nat) : M sys unit :=
  k ← job_get completion_indicator i;
  match k with
  | None => mret ()
  | Some k => on_indicator k indicate
  end.
End operations.

(** ** Running operations on one job *)

Definition job_at (s : sys) (i : nat) (j : schedi_job) : Prop := s_jobs s !! i = Some j.
Definition with_job (i : nat) (j : schedi_job) (s : sys) : sys :=
  set_jobs (<[i := j]> (s_jobs s)) s.

Lemma job_at_with i j s j0 : job_at s i j0 → job_at (with_job i j s) i j.
Proof.
  unfold job_at. intros Hj. apply list_lookup_insert_eq. by eapply lookup_lt_Some.
Qed.

Lemma job_at_with_ne i i' j s j' : i' ≠ i → job_at s i' j' → job_at (with_job i j s) i' j'.
Proof. unfold job_at. intros Hne Hj. cbn. by rewrite list_lookup_insert_ne. Qed.

Lemma with_job_twice i j1 j2 s : with_job i j2 (with_job i j1 s) = with_job i j2 s.
Proof. unfold with_job, set_jobs. cbn. by rewrite list_insert_insert_eq. Qed.

Lemma with_job_same i j s : job_at s i j → with_job i j s = s.
Proof.
  unfold job_at, with_job. intros Hj. rewrite list_insert_id by done. by destruct s.
Qed.

Lemma job_get_run {A} (f : schedi_job → A) i j s :
  job_at s i j → job_get f i s = Done (f j) s.
Proof. unfold job_at, job_get, reads. by intros ->. Qed.

Lemma job_put_run f i j s :
  job_at s i j → job_put f i s = Done () (with_job i (f j) s).
Proof. unfold job_at, job_put, updates. by intros ->. Qed.

Lemma on_meta_run {R} (body : Z → attempt Z R) i j s :
  job_at s i j →
  on_meta body i s = Done (rmw body (meta_flag j)).1
    (with_job i (set_meta (rmw body (meta_flag j)).2 j) s).
Proof.
  intros Hj. unfold on_meta. bind_by (by apply job_get_run).
  destruct (rmw body (meta_flag j)) as [r w']. bind_by (by apply job_put_run). done.
Qed.

Lemma cache_of_put c s : cache_of (put_cache c s) = c.
Proof. by destruct c. Qed.
Lemma cache_of_with_put i j c s : cache_of (with_job i j (put_cache c s)) = c.
Proof. by destruct c. Qed.
Lemma pool_of_put p s : pool_of (put_pool p s) = p.
Proof. by destruct p. Qed.
Lemma put_cache_id s : put_cache (cache_of s) s = s.
Proof. by destruct s. Qed.
Lemma put_dq_id s : put_dq (s_dq s) s = s.
Proof. by destruct s. Qed.

Lemma on_cache_run {A} (m : M ready_cache A) s a c :
  m (cache_of s) = Done a c → on_cache m s = Done a (put_cache c s).
Proof. apply (zoom_done cache_of put_cache). Qed.
Lemma on_pool_run {A} (m : M slot_pool A) s a p :
  m (pool_of s) = Done a p → on_pool m s = Done a (put_pool p s).
Proof. apply (zoom_done pool_of put_pool). Qed.
Lemma on_dq_run {A} (m : M destroy_queue A) s a q :
  m (s_dq s) = Done a q → on_dq m s = Done a (put_dq q s).
Proof. apply (zoom_done s_dq put_dq). Qed.

Lemma set_meta_meta w1 w2 j : set_meta w2 (set_meta w1 j) = set_meta w2 j.
Proof. done. Qed.
Lemma set_meta_id j : set_meta (meta_flag j) j = j.
Proof. by destruct j. Qed.

(** ** [schedi_job_setready] *)

Section setready.
Context `{BuildConfig, JobAddress}.

(** The state with the ready-job mutex held. *)
Definition locked (c : ready_cache) : ready_cache := set_mutex true c.

Lemma locked_ok c peak : cache_ok c peak → cache_ok (locked c) peak.
Proof. intros [? ? ? ?]. by split. Qed.

Definition hold (c : ready_cache) : ready_cache :=
  if lockless_readyjob then c else locked c.

Lemma hold_ok c peak : cache_ok c peak → cache_ok (hold c) peak.
Proof. unfold hold. destruct lockless_readyjob; [done|apply locked_ok]. Qed.

Lemma lock_run s :
  s_readyjob_mutex s = false →
  when (negb lockless_readyjob) (on_cache schedi_pickingreadyjob) s =
    Done () (put_cache (hold (cache_of s)) s).
Proof.
  intros Hm. unfold hold. destruct lockless_readyjob; cbn [negb when].
  - by rewrite put_cache_id.
  - apply on_cache_run. unfold schedi_pickingreadyjob, pthread_mutex_lock.
    cbn [readyjob_mutex cache_of]. by rewrite Hm.
Qed.

Lemma unlock_run c s :
  readyjob_mutex c = false →
  when (negb lockless_readyjob) (on_cache schedi_pickedreadyjob) (put_cache (hold c) s) =
    Done () (put_cache c s).
Proof.
  intros Hm. unfold hold. destruct lockless_readyjob; cbn [negb when]; [done|].
  erewrite on_cache_run; [done|]. rewrite cache_of_put.
  unfold schedi_pickedreadyjob, pthread_mutex_unlock, locked, set_mutex. cbn.
  destruct c. cbn in *. by subst.
Qed.

Lemma signal_run c s :
  when (negb lockless_readyjob && true)
    (on_cache pthread_cond_signal ≫= λ _, mret ()) (put_cache (hold c) s) =
    Done () (put_cache (hold (after_move c)) s).
Proof.
  unfold hold, after_move. destruct lockless_readyjob; cbn [negb andb when]; [done|].
  erewrite bind_done by (eapply on_cache_run; rewrite cache_of_put; done). done.
Qed.

Lemma hold_vacancy c : vacancy (hold c) = vacancy c.
Proof. unfold hold. by destruct lockless_readyjob. Qed.
Lemma hold_put i job peak c : put_at i job peak (hold c) = hold (put_at i job peak c).
Proof. unfold hold. by destruct lockless_readyjob. Qed.
Lemma hold_full c : raise_full (hold c) = hold (raise_full c).
Proof. unfold hold. by destruct lockless_readyjob. Qed.

(** The job after [schedi_job_setready] marked it ready. *)
Definition marked_ready (j : schedi_job) : schedi_job :=
  set_state schedi_job_state_readywaiting (set_meta (rmw mark_ready_body (meta_flag j)).2 j).
(** ... and after it found the cache full. *)
Definition unmarked_ready (j : schedi_job) : schedi_job :=
  set_meta (rmw unmark_ready_body (meta_flag (marked_ready j))).2 (marked_ready j).

Lemma setready_run i j s peak :
  job_at s i j → cache_ok (cache_of s) peak → s_readyjob_mutex s = false →
  schedi_job_setready i s =
    if (rmw mark_ready_body (meta_flag j)).1 =? 0 then
      if decide (vacancy (cache_of s) < SCHEDI_MAXIMUM_JOBS)%nat
      then Done 0 (with_job i (marked_ready j)
             (put_cache (after_move (put_at (vacancy (cache_of s)) i peak (cache_of s))) s))
      else Done (-2) (with_job i (unmarked_ready j) (put_cache (raise_full (cache_of s)) s))
    else Done (-1) (with_job i (marked_ready j) s).
Proof.
  intros Hj Hok Hm. unfold schedi_job_setready. bind_by (by apply lock_run).
  set (s1 := put_cache _ s). assert (job_at s1 i j) as Hj1 by done.
  bind_by (by apply on_meta_run). cbv zeta.
  bind_by (by eapply job_put_run, job_at_with). rewrite with_job_twice.
  change (set_state _ _) with (marked_ready j).
  destruct ((rmw mark_ready_body (meta_flag j)).1 =? 0).
  - rewrite (Z.eqb_refl 0).
    assert (cache_of (with_job i (marked_ready j) s1) = hold (cache_of s)) as Ec
      by apply cache_of_put.
    assert (schedi_cache_job_ready i (cache_of (with_job i (marked_ready j) s1)) = _) as Hrun
      by (rewrite Ec; apply cache_job_ready_run; by apply hold_ok).
    rewrite hold_vacancy, hold_put, hold_full in Hrun. case_decide.
    + erewrite (bind_done _ _ _ 0); [|by erewrite bind_done by apply on_cache_run, Hrun].
      rewrite (Z.eqb_refl 0). bind_by (apply (signal_run _ (with_job i (marked_ready j) s))).
      erewrite bind_done; [done|]. apply unlock_run. unfold after_move.
      by destruct lockless_readyjob.
    + erewrite (bind_done _ _ _ (-2)); cycle 1.
      { erewrite bind_done by apply on_cache_run, Hrun. change (-1 =? 0) with false. cbn iota.
        erewrite bind_done; [done|]. eapply on_meta_run. by eapply job_at_with. }
      change (-2 =? 0) with false. rewrite andb_false_r. cbn [when].
      bind_by done.
      change (with_job i ?x (put_cache ?c ?t)) with (put_cache c (with_job i x t)) at 1.
      rewrite with_job_twice.
      erewrite bind_done; [done|].
      apply (unlock_run (raise_full (cache_of s)) (with_job i (unmarked_ready j) s)). done.
  - change (-1 =? 0) with false. bind_by done. change (-1 =? 0) with false.
    rewrite andb_false_r. cbn [when]. bind_by done.
    erewrite bind_done by (by apply (unlock_run (cache_of s) (with_job i (marked_ready j) s))).
    change (cache_of s) with (cache_of (with_job i (marked_ready j) s)).
    by rewrite put_cache_id.
Qed.

(** What [schedi_job_setready] does to a job and to the cache: [r] is what it
    returns; nothing but the job, the cache and the shared flags word changes. *)
Definition becomes_ready (i : nat) (j : schedi_job) (s : sys) (r : Z) (s' : sys) : Prop :=
  ∃ w', s' = with_job i (set_state schedi_job_state_readywaiting (set_meta w' j))
               (put_cache (cache_of s') s) ∧
    word32 w' ∧ s_readyjob_mutex s' = false ∧ (∃ peak, cache_ok (cache_of s') peak) ∧
    let v := view_of (meta_flag j) in
    if op_guard OpMarkReady v then
      (r = 0 ∧ view_of w' = set_ready true v ∧
       somes (s_cache s') ≡ₚ i :: somes (s_cache s) ∧ s_flags s' = s_flags s ∧
       s_wakeups s' = (s_wakeups s + if lockless_readyjob then 0 else 1)%nat) ∨
      (r = -2 ∧ view_of w' = v ∧ length (somes (s_cache s)) = SCHEDI_MAXIMUM_JOBS ∧
       cache_of s' = raise_full (cache_of s))
    else r = -1 ∧ w' = meta_flag j ∧ cache_of s' = cache_of s.

Lemma mark_ready_refines w : word32 w → refines OpMarkReady w (rmw mark_ready_body w).
Proof. apply (meta_op_refines_core OpMarkReady). Qed.
Lemma unmark_ready_refines w : word32 w → refines OpUnmarkReady w (rmw unmark_ready_body w).
Proof. apply (meta_op_refines_core OpUnmarkReady). Qed.

Lemma set_ready_back v : v_ready v = false → set_ready false (set_ready true v) = v.
Proof. destruct v. cbn. by intros ->. Qed.

Lemma setready_done i j s :
  job_at s i j → word32 (meta_flag j) → (∃ peak, cache_ok (cache_of s) peak) →
  s_readyjob_mutex s = false →
  ∃ r s', schedi_job_setready i s = Done r s' ∧ becomes_ready i j s r s'.
Proof.
  intros Hj Hw [peak Hok] Hm. rewrite (setready_run _ _ _ _ Hj Hok Hm).
  destruct (mark_ready_refines _ Hw) as [Hw1 Hr].
  destruct (op_guard OpMarkReady (view_of (meta_flag j))) eqn:Eg; destruct Hr as [Hr1 Hr2].
  - rewrite Hr1, Z.eqb_refl. case_decide as Hv; eexists _, _; (split; [done|]).
    + pose proof (ok_vacant _ _ Hok Hv) as Hvac.
      destruct (after_move_fields (put_at (vacancy (cache_of s)) i peak (cache_of s)))
        as (Es & Ef & Em & Ew).
      exists (rmw mark_ready_body (meta_flag j)).2.
      split; [unfold marked_ready; by rewrite cache_of_with_put|]. split; [done|].
      split; [cbn [s_readyjob_mutex with_job set_jobs put_cache]; by rewrite Em|].
      split; [rewrite cache_of_with_put; eexists; apply after_move_ok, put_at_ok;
              [done|apply first_vacant_count|done]|].
      cbv zeta. rewrite Eg. left. split; [done|]. split; [done|].
      cbn [s_cache s_flags s_wakeups with_job set_jobs put_cache].
      rewrite Es, Ef, Ew. split; [by apply somes_insert_Some|]. done.
    + assert (op_guard OpUnmarkReady (view_of (meta_flag (marked_ready j))) = true ∧
              v_ready (view_of (meta_flag j)) = false) as [Eu Er].
      { cbn [marked_ready meta_flag set_state set_meta]. rewrite Hr2.
        cbn [op_guard op_effect set_ready v_unstable v_wlldestroy] in Eg |- *.
        apply negb_true_iff, orb_false_iff in Eg as [Eg Er]. by rewrite Eg. }
      destruct (unmark_ready_refines _ Hw1) as [Hw2 Hu].
      cbn [marked_ready meta_flag set_state set_meta] in Eu. rewrite Eu in Hu.
      destruct Hu as [_ Hu].
      exists (rmw unmark_ready_body (meta_flag (marked_ready j))).2.
      split; [unfold unmarked_ready, marked_ready; by rewrite cache_of_with_put|].
      split; [done|]. split; [done|].
      split; [rewrite cache_of_with_put; eexists; by apply raise_full_ok|].
      cbv zeta. rewrite Eg. right. split; [done|]. split.
      * cbn [marked_ready meta_flag set_state set_meta]. rewrite Hu, Hr2.
        by apply set_ready_back.
      * rewrite cache_of_with_put. split; [|done].
        apply (full_count _ _ Hok). lia.
  - apply Z.eqb_neq in Hr1. rewrite Hr1. eexists _, _. split; [done|].
    exists (meta_flag j). unfold marked_ready. rewrite Hr2.
    change (cache_of (with_job i ?x s)) with (cache_of s). rewrite put_cache_id.
    split_and!; [done|done|done|by exists peak|]. cbv zeta. by rewrite Eg.
Qed.

(** ** [schedi_job_meta_flag_cas_update] *)

(** The body leaves without a trigger, or swaps with one that compares readiness. *)
Lemma cas_update_body_shape rs rj sd wd jd flag banned ba w :
  match cas_update_body rs rj sd wd jd flag banned ba w with
  | Leave r => r.2 = false
  | Swap d r => r.1 = 0 ∧ r.2 = negb (all_ready (view_of w)) && all_ready (view_of d)
  end.
Proof.
  unfold cas_update_body. destruct (_ =? 0); [|done]. destruct (_ || _); [done|].
  by rewrite !check_allready_view.
Qed.

(** [schedi_job_mark_or_readiness] may not tell a refusal: with the access count banned and 8
    accesses or more, the bans have bit 31, are negative as [int], and become 0. *)
Lemma readiness_access_ban_lost i j flag banned s :
  job_at s i j → word32 (meta_flag j) → 8 <= v_access (view_of (meta_flag j)) →
  schedi_job_mark_or_readiness i flag (flags_word banned) true s = Done 0 s.
Proof.
  intros Hj Hw Ha. set (ban := ban_of (flags_word banned) true (meta_flag j)).
  assert (0 <= ban < 2 ^ 32) as Hr by (apply ban_of_range; [apply word32_flags|done]).
  assert (Z.testbit ban 31 = true) as Hbit.
  { unfold ban. rewrite ban_of_flags, Z.lor_spec. cbn [flag_if].
    apply orb_true_iff. right. rewrite Z.shiftl_spec by lia.
    pose proof (view_of_access_bound (meta_flag j)) as Hb.
    revert Ha Hb. generalize (v_access (view_of (meta_flag j))). intros a Ha Hb.
    assert (∃ b, 0 <= b < 8 ∧ a = b + 1 * 2 ^ 3) as (b & Hb8 & ->) by (exists (a - 8); lia).
    change (31 - 28) with 3. apply Z.testbit_true; [done|].
    rewrite Z.div_add, Z.div_small by lia. done. }
  assert (2 ^ 31 <= ban) as Hbig.
  { destruct (Z.le_gt_cases (2 ^ 31) ban); [done|].
    by rewrite (testbit_small ban 31 31) in Hbit by lia. }
  assert (rmw (cas_update_body (required_available_sockets j) (required_available_jobs j) 0 0 0 flag
    (flags_word banned) true) (meta_flag j) = ((s32 ban, false), meta_flag j)) as Hrmw.
  { unfold rmw, cas_update_body. fold ban. by replace (ban =? 0) with false by lia. }
  unfold schedi_job_mark_or_readiness, schedi_job_meta_flag_cas_update.
  assert (s32 ban < 0) as Hneg.
  { unfold s32. rewrite u32_small by done. replace (ban <? 2 ^ 31) with false by lia. lia. }
  erewrite (bind_done _ _ _ (s32 ban) s); [by replace (0 <? s32 ban) with false by lia|].
  bind_by (by apply job_get_run). bind_by (by apply job_get_run).
  bind_by (by apply on_meta_run). rewrite Hrmw. cbn [fst snd when]. bind_by done.
  by rewrite set_meta_id, with_job_same.
Qed.

Lemma cas_update_body_trigger rs rj sd wd jd basic w :
  let out := rmw (cas_update_body rs rj sd wd jd (update_flag basic)
               (update_banned basic) false) w in
  word32 w →
  refines (OpUpdate rs rj sd wd jd basic) w (out.1.1, out.2) ∧
  out.1.2 = op_guard (OpUpdate rs rj sd wd jd basic) (view_of w) &&
            (negb (all_ready (view_of w)) &&
             all_ready (refresh rs rj sd wd jd basic (view_of w))).
Proof.
  intros out Hw.
  pose proof (cas_update_body_shape rs rj sd wd jd (update_flag basic)
    (update_banned basic) false w) as Hshape.
  pose proof (meta_op_refines_core (OpUpdate rs rj sd wd jd basic) w Hw) as Hr.
  unfold out, rmw in *. cbn [op_body] in Hr.
  destruct (cas_update_body _ _ _ _ _ _ _ _ w) as [r|d r]; cbn [drop_trigger fst snd] in *.
  - split; [done|]. rewrite Hshape. destruct Hr as [_ Hr].
    destruct (op_guard _ _); [|done]. destruct Hr as [_ Hr]. cbn [snd op_effect] in Hr.
    rewrite <-Hr. cbn [andb]. by destruct (all_ready _).
  - split; [done|]. destruct Hshape as [Hs1 Hs2]. destruct Hr as [_ Hr].
    destruct (op_guard _ _); destruct Hr as [Hr1 Hr2]; cbn [fst snd] in *;
      [|by destruct Hr1].
    by rewrite Hs2, Hr2.
Qed.

(** What an update does: the job alone changes, and the cache if the update
    completed the readiness set. *)
Definition updated (i : nat) (j : schedi_job) (s : sys) (op : meta_op) (r : Z) (s' : sys)
    : Prop :=
  let v := view_of (meta_flag j) in
  if op_guard op v then
    r = 0 ∧ ∃ w1, word32 w1 ∧ view_of w1 = op_effect op v ∧
      let j1 := set_meta w1 j in
      if negb (all_ready v) && all_ready (view_of w1)
      then ∃ r', becomes_ready i j1 (with_job i j1 s) r' s'
      else s' = with_job i j1 s
  else r ≠ 0 ∧ s' = s.

Lemma cas_update_done i j s sd wd jd basic :
  job_at s i j → word32 (meta_flag j) → (∃ peak, cache_ok (cache_of s) peak) →
  s_readyjob_mutex s = false →
  ∃ r s', schedi_job_meta_flag_cas_update i sd wd jd (update_flag basic)
            (update_banned basic) false s = Done r s' ∧
    updated i j s (OpUpdate (required_available_sockets j) (required_available_jobs j)
      sd wd jd basic) r s'.
Proof.
  intros Hj Hw Hok Hm. unfold schedi_job_meta_flag_cas_update.
  bind_by (by apply job_get_run). bind_by (by apply job_get_run).
  bind_by (by apply on_meta_run).
  destruct (cas_update_body_trigger (required_available_sockets j)
    (required_available_jobs j) sd wd jd basic (meta_flag j) Hw) as [[Hw1 Hr] Ht].
  set (out := rmw _ _) in *. destruct out as [[r t] w1]. cbn [fst snd] in *.
  unfold updated. cbv zeta. destruct (op_guard _ _);
    destruct Hr as [Hr0 Hr]; cbn [fst snd] in Hr0, Hr.
  - subst r. cbn [andb] in Ht. rewrite Ht. destruct (negb _ && _) eqn:Et; cbn [when].
    + destruct (setready_done i (set_meta w1 j) (with_job i (set_meta w1 j) s))
        as (r' & s' & Hrun & Hpost); [by eapply job_at_with|done|done|done|].
      bind_by (by bind_by done). eexists _, _. split; [done|]. split; [done|].
      exists w1. split; [done|]. split; [done|]. cbv zeta. rewrite Hr. cbn [op_effect].
      rewrite Et. by exists r'.
    + bind_by done. eexists _, _. split; [done|]. split; [done|].
      exists w1. split; [done|]. split; [done|]. cbv zeta. rewrite Hr. cbn [op_effect].
      by rewrite Et.
  - rewrite Ht. cbn [andb when]. bind_by done. eexists _, _. split; [done|].
    split; [done|]. subst w1. rewrite set_meta_id. by apply with_job_same.
Qed.
End setready.
