(* ===== verification/Lifecycle.v ===== *)
(** * The life of a job (src/src/jobs.c): invariant and behaviour

    The invariant of the whole scheduler state, that every operation of Jobs.v keeps
    it and returns (no undefined behaviour, no lock held for ever), and what
    creation, readiness, picking and destruction do on each branch. *)

From S2P Require Export Jobs.

Local Open Scope Z_scope.

(** ** The invariant *)

Definition job_index (i : nat) : Prop := (i < SCHEDI_MAXIMUM_JOBS)%nat.

(** Everything but the destroy queue. *)
Record base_ok (s : sys) : Prop := {
  ok_jobs : length (s_jobs s) = SCHEDI_MAXIMUM_JOBS;
  ok_words i j : job_at s i j → word32 (meta_flag j);
  ok_pool : pool_ready (pool_of s);
  ok_cache : ∃ peak, cache_ok (cache_of s) peak;
  ok_cached : Forall job_index (somes (s_cache s));
  ok_mutex : s_readyjob_mutex s = false;
}.

Definition free_of (s : sys) : gset nat := pool_free (pool_of s).

(** The jobs the destroy queue holds are distinct and in use. *)
Definition fenced (pend : list nat) (s : sys) : Prop :=
  NoDup pend ∧ ∀ i, i ∈ pend → job_index i ∧ i ∉ free_of s.

(** The invariant; [pend] is the content of the destroy queue. *)
Record sys_ok (pend : list nat) (s : sys) : Prop := {
  ok_base : base_ok s;
  ok_dq : dq_rep (s_dq s) (Fifo pend (Z.of_nat (length pend)));
  ok_fenced : fenced pend s;
}.

Lemma base_job s i : base_ok s → job_index i → ∃ j, job_at s i j ∧ word32 (meta_flag j).
Proof.
  intros Hs Hi. unfold job_index in Hi. rewrite <-(ok_jobs s Hs) in Hi.
  apply lookup_lt_is_Some_2 in Hi as [j Hj]. exists j. split; [done|].
  by apply (ok_words s Hs i).
Qed.

Lemma job_index_at pend s i j : sys_ok pend s → job_at s i j → job_index i.
Proof.
  intros Hs Hj. unfold job_index. rewrite <-(ok_jobs _ (ok_base _ _ Hs)).
  by eapply lookup_lt_Some.
Qed.

Lemma base_with_job i j j' s :
  base_ok s → job_at s i j → word32 (meta_flag j') → base_ok (with_job i j' s).
Proof.
  intros [Hl Hw Hp Hc Hi Hm] Hj Hj'. split; try done.
  - cbn. by rewrite length_insert.
  - intros k l. unfold job_at. cbn. rewrite list_lookup_insert_Some.
    intros [(-> & <- & _)|[_ Hk]]; [done|by eapply Hw].
Qed.

Lemma base_put_cache c s :
  base_ok s → (∃ peak, cache_ok c peak) → readyjob_mutex c = false →
  Forall job_index (cached c) → base_ok (put_cache c s).
Proof.
  intros [Hl Hw Hp Hc Hi Hm] Hc' Hm' Hi'. split; try done.
  by rewrite cache_of_put.
Qed.

Lemma free_put_cache c s : free_of (put_cache c s) = free_of s.
Proof. done. Qed.
Lemma free_with_job i j s : free_of (with_job i j s) = free_of s.
Proof. done. Qed.

Lemma base_put_pool p s : base_ok s → pool_ready p → base_ok (put_pool p s).
Proof.
  intros [Hl Hw Hp Hc Hi Hm] Hp'. split; try done.
  destruct Hc as [peak [? ? ? ?]]. by exists peak.
Qed.

Lemma base_put_dq q s : base_ok s → base_ok (put_dq q s).
Proof. by intros [Hl Hw Hp Hc Hi Hm]. Qed.
Lemma base_add_event e s : base_ok s → base_ok (add_event e s).
Proof. by intros [Hl Hw Hp Hc Hi Hm]. Qed.

Create HintDb sys.
#[export] Hint Resolve base_with_job base_put_cache base_put_pool base_put_dq
  base_add_event : sys.

(** Steps that leave the pool and the destroy queue alone keep the invariant. *)
Lemma sys_ok_step pend s s' :
  sys_ok pend s → base_ok s' → s_dq s' = s_dq s → free_of s' = free_of s → sys_ok pend s'.
Proof.
  intros [_ Hq [Hn Hf]] Hb Eq Ef. split; [done|by rewrite Eq|].
  split; [done|]. by rewrite Ef.
Qed.

(** ** Marks *)

Lemma on_meta_ok {R} (body : Z → attempt Z R) i j s :
  base_ok s → job_at s i j → (∀ w, word32 w → word32 (rmw body w).2) →
  base_ok (with_job i (set_meta (rmw body (meta_flag j)).2 j) s).
Proof.
  intros Hs Hj Hb. eapply base_with_job; [done..|]. apply Hb. by eapply ok_words.
Qed.

(** The marks other threads can run on a job, by name. *)
Definition mark_of (op : meta_op) : option (nat → M sys Z) :=
  match op with
  | OpMarkOr f banned ba => Some (λ i, schedi_job_mark_or i (flag_bit f) (flags_word banned) ba)
  | OpUnmarkOr f banned ba =>
      Some (λ i, schedi_job_unmark_or i (flag_bit f) (flags_word banned) ba)
  | OpMarkDefault f => Some (λ i, schedi_job_mark_or_default i (flag_bit f))
  | OpMarkAlive => Some schedi_job_mark_alive
  | OpUnmarkWlldestroy => Some schedi_job_unmark_wlldestroy
  | OpMarkExecuting => Some schedi_job_mark_executing
  | OpUnmarkExecuting => Some schedi_job_unmark_executing
  | OpMarkUnstable => Some schedi_job_mark_unstable
  | OpMarkWlldestroy => Some schedi_job_mark_wlldestroy
  | OpMarkAccess => Some schedi_job_mark_access
  | OpUnmarkAccess => Some schedi_job_unmark_access
  | OpMarkReady => Some schedi_job_mark_ready
  | OpUnmarkReady => Some schedi_job_unmark_ready
  | OpUnmarkReadybasic => Some schedi_job_unmark_readybasic
  | OpUpdateOr _ _ _ _ _ _ _ _ | OpUpdate _ _ _ _ _ _ => None
  end.

Lemma mark_run op m i j s :
  mark_of op = Some m → job_at s i j →
  m i s = Done (rmw (op_body op) (meta_flag j)).1
            (with_job i (set_meta (rmw (op_body op) (meta_flag j)).2 j) s).
Proof. intros Hm Hj. destruct op; simplify_eq/=; by apply on_meta_run. Qed.

(** A mark as its abstract operation. *)
Lemma mark_done op m i j s :
  mark_of op = Some m → job_at s i j → word32 (meta_flag j) →
  ∃ r w', m i s = Done r (with_job i (set_meta w' j) s) ∧ word32 w' ∧
    let v := view_of (meta_flag j) in
    if op_guard op v then r = 0 ∧ view_of w' = op_effect op v
    else r ≠ 0 ∧ w' = meta_flag j.
Proof.
  intros Hm Hj Hw. rewrite (mark_run _ _ _ _ _ Hm Hj).
  destruct (meta_op_refines_core op _ Hw) as [Hw' Hr].
  eexists _, _. split; [done|]. split; [done|]. cbv zeta.
  by destruct (op_guard _ _).
Qed.

(** ** Becoming ready *)

Section lifecycle.
Context `{BuildConfig, JobAddress}.

Lemma becomes_ready_ok pend i j s r s' :
  sys_ok pend s → job_index i → job_at s i j → becomes_ready i j s r s' → sys_ok pend s'.
Proof.
  intros Hs Hi Hj (w' & Es & Hw' & Hm' & Hc' & Hr). pose proof (ok_base _ _ Hs) as Hb.
  apply (sys_ok_step pend s); [done| |by rewrite Es..].
  rewrite Es. eapply base_with_job; [|done|done].
  apply base_put_cache; [done|done|done|]. change (cached (cache_of s')) with (somes (s_cache s')).
  cbv zeta in Hr. destruct (op_guard _ _).
  - destruct Hr as [(_ & _ & Hp & _)|(_ & _ & _ & Hc)].
    + rewrite Hp. constructor; [done|]. by apply ok_cached.
    + apply (f_equal ready_jobs_cache) in Hc. cbn in Hc. rewrite Hc. by apply ok_cached.
  - destruct Hr as (_ & _ & Hc). apply (f_equal ready_jobs_cache) in Hc. cbn in Hc.
    rewrite Hc. by apply ok_cached.
Qed.

Lemma setready_ok pend i s :
  sys_ok pend s → job_index i →
  ∃ r s', schedi_job_setready i s = Done r s' ∧ sys_ok pend s'.
Proof.
  intros Hs Hi. pose proof (ok_base _ _ Hs) as Hb.
  destruct (base_job _ _ Hb Hi) as (j & Hj & Hw).
  destruct (setready_done i j s Hj Hw (ok_cache _ Hb) (ok_mutex _ Hb)) as (r & s' & Hrun & Hr).
  exists r, s'. split; [done|]. by eapply becomes_ready_ok.
Qed.

Lemma with_job_ok pend i j j' s :
  sys_ok pend s → job_at s i j → word32 (meta_flag j') → sys_ok pend (with_job i j' s).
Proof.
  intros Hs Hj Hw. apply (sys_ok_step pend s); [done| |done|done].
  eapply base_with_job; [by eapply ok_base|done|done].
Qed.

Lemma updated_ok pend i j s op r s' :
  sys_ok pend s → job_index i → job_at s i j → updated i j s op r s' → sys_ok pend s'.
Proof.
  intros Hs Hi Hj. unfold updated. cbv zeta. destruct (op_guard _ _); [|by intros [_ ->]].
  intros (_ & w1 & Hw1 & _ & Hrest).
  assert (sys_ok pend (with_job i (set_meta w1 j) s)) as Hs1 by by eapply with_job_ok.
  destruct (_ && _); [|by subst]. destruct Hrest as [r' Hr'].
  eapply becomes_ready_ok; [done|done| |done]. by eapply job_at_with.
Qed.

(** Neither touches the pool, the destroy queue, the trace or another job. *)
Definition same_elsewhere (i : nat) (s s' : sys) : Prop :=
  free_of s' = free_of s ∧ s_dq s' = s_dq s ∧ s_trace s' = s_trace s ∧
  s_indicators s' = s_indicators s ∧ (∀ k, k ≠ i → s_jobs s' !! k = s_jobs s !! k).

Lemma becomes_ready_elsewhere i j s r s' :
  becomes_ready i j s r s' → same_elsewhere i s s'.
Proof.
  intros (w' & -> & _). split_and!; try done. intros k Hk. cbn.
  by apply list_lookup_insert_ne.
Qed.

Lemma with_job_elsewhere i j s : same_elsewhere i s (with_job i j s).
Proof. split_and!; try done. intros k Hk. cbn. by apply list_lookup_insert_ne. Qed.

Lemma same_elsewhere_trans i s1 s2 s3 :
  same_elsewhere i s1 s2 → same_elsewhere i s2 s3 → same_elsewhere i s1 s3.
Proof.
  intros (A1 & A2 & A3 & A4 & A5) (B1 & B2 & B3 & B4 & B5).
  split_and!; try congruence. intros k Hk. by rewrite B5, A5.
Qed.

Lemma updated_elsewhere i j s op r s' : updated i j s op r s' → same_elsewhere i s s'.
Proof.
  unfold updated. cbv zeta. destruct (op_guard _ _); [|by intros [_ ->]].
  intros (_ & w1 & _ & _ & Hrest). destruct (_ && _).
  - destruct Hrest as [r' Hr']. apply becomes_ready_elsewhere in Hr'.
    eapply same_elsewhere_trans; [apply with_job_elsewhere|done].
  - subst. apply with_job_elsewhere.
Qed.

Lemma cas_update_ok pend i s sd wd jd basic :
  sys_ok pend s → job_index i →
  ∃ r s', schedi_job_meta_flag_cas_update i sd wd jd (update_flag basic)
            (update_banned basic) false s = Done r s' ∧ sys_ok pend s' ∧ same_elsewhere i s s'.
Proof.
  intros Hs Hi. pose proof (ok_base _ _ Hs) as Hb.
  destruct (base_job _ _ Hb Hi) as (j & Hj & Hw).
  destruct (cas_update_done i j s sd wd jd basic Hj Hw (ok_cache _ Hb) (ok_mutex _ Hb))
    as (r & s' & Hrun & Hr).
  exists r, s'. split; [done|]. split; [by eapply updated_ok|by eapply updated_elsewhere].
Qed.

(** ** Creating *)

Definition created_job (ctx : Z) (fn : nat) (d : option nat) (j : schedi_job) : schedi_job :=
  set_meta created_word (fresh_job ctx fn d j).

Lemma create_done ctx fn d pend s :
  sys_ok pend s →
  ∃ r s', schedi_job_create ctx fn d s = Done r s' ∧ sys_ok pend s' ∧
    match r with
    | Some i => ∃ j p, job_at s i j ∧ i ∈ free_of s ∧ free_of s' = free_of s ∖ {[i]} ∧
        s' = with_job i (created_job ctx fn d j) (put_pool p s) ∧ pool_flags p = s_flags s
    | None => free_of s = ∅ ∧ s' = s
    end.
Proof.
  intros Hs. pose proof (ok_base _ _ Hs) as Hb. unfold schedi_job_create, job_section_claim.
  destruct (section_claim_run _ (ok_pool _ Hb)) as (r & p & Hrun & Hp & Hfl & Hr).
  destruct r as [i|].
  - destruct Hr as [Hi Hfree].
    assert (job_index i) as Hidx.
    { eapply sections_ok_bound; [|exact Hi]. apply (ok_pool _ Hb). }
    destruct (base_job _ _ Hb Hidx) as (j & Hj & Hw).
    assert (job_at (put_pool p s) i j) as Hj1 by done.
    bind_by (bind_by (by apply on_pool_run); bind_by (by apply job_put_run); done).
    bind_by (by eapply job_put_run, job_at_with). rewrite with_job_twice.
    bind_by (by eapply job_put_run, job_at_with). rewrite with_job_twice.
    eexists _, _. split; [done|]. split.
    + split; [|exact (ok_dq _ _ Hs)|].
      * eapply base_with_job; [by apply base_put_pool|done|done].
      * destruct (ok_fenced _ _ Hs) as [Hn Hf]. split; [done|]. intros k Hk.
        destruct (Hf k Hk) as [? Hnk]. split; [done|].
        change (k ∉ pool_free p). rewrite Hfree. set_solver.
    + exists j, p. split_and!; try done.
  - destruct Hr as [Hfree ->].
    bind_by (bind_by (by apply on_pool_run); done).
    assert (put_pool (pool_of s) s = s) as -> by by destruct s.
    eexists _, _. split; [done|]. done.
Qed.

(** ** Picking *)

(** The job after a successful pick: one more access, neither READY nor READYBASIC. *)
Definition picked_view (v : view) : view :=
  set_readybasic false (set_ready false (set_access (v_access v + 1) v)).

(** What a pick does.  Cached jobs that are UNSTABLE are dropped on the way. *)
Definition pick_result (s : sys) (r : option nat) (s' : sys) : Prop :=
  ∃ dropped, Forall (λ i, ∀ j, job_at s i j → v_unstable (view_of (meta_flag j)) = true) dropped ∧
  match r with
  | Some i => somes (s_cache s) ≡ₚ dropped ++ i :: somes (s_cache s') ∧
      ∃ j w', job_at s i j ∧ op_guard OpMarkAccess (view_of (meta_flag j)) = true ∧
        s_jobs s' = <[i := set_meta w' j]> (s_jobs s) ∧
        view_of w' = picked_view (view_of (meta_flag j))
  | None => s_jobs s' = s_jobs s ∧ ∃ lost,
      somes (s_cache s) ≡ₚ dropped ++ lost ++ somes (s_cache s') ∧
      Forall (λ i, ∀ j, job_at s i j → v_wlldestroy (view_of (meta_flag j)) = true) lost
  end.

(** The jobs among the first 16 slots, in the order in which they are looked at. *)
Definition window (s : sys) : list nat := somes (take SCHEDI_JOBS_CACHE_CHECK (s_cache s)).

(** What a pick that finds [l] in the window returns, and the jobs it takes out of the cache:
    UNSTABLE jobs are passed over, and the first other job decides. *)
Fixpoint pick_from (jobs : list schedi_job) (l : list nat) : option nat * list nat :=
  match l with
  | [] => (None, [])
  | i :: l =>
      match view_of ∘ meta_flag <$> jobs !! i with
      | None => (None, [])
      | Some v =>
          if v_unstable v then let '(r, gone) := pick_from jobs l in (r, i :: gone)
          else if v_wlldestroy v then (None, [i])
          else if v_access v =? 15 then (None, [])
          else (Some i, [i])
      end
  end.
Definition pick_spec (s : sys) (r : option nat) (s' : sys) : Prop :=
  let '(i, gone) := pick_from (s_jobs s) (window s) in
  r = i ∧ somes (s_cache s) ≡ₚ gone ++ somes (s_cache s').

(** The three marks of a pick that is not refused. *)
Lemma pick_marks i j s :
  job_at s i j → word32 (meta_flag j) → op_guard OpMarkAccess (view_of (meta_flag j)) = true →
  ∃ w1 w', schedi_job_mark_access i s = Done 0 (with_job i (set_meta w1 j) s) ∧
    (schedi_job_unmark_ready i ≫= λ _, schedi_job_unmark_readybasic i ≫= λ _,
      mret (Some i)) (with_job i (set_meta w1 j) s) =
      Done (Some i) (with_job i (set_meta w' j) s) ∧
    word32 w' ∧ view_of w' = picked_view (view_of (meta_flag j)).
Proof.
  intros Hj Hw Hg.
  destruct (mark_done OpMarkAccess _ i j s eq_refl Hj Hw) as (r1 & w1 & Hrun1 & Hw1 & H1).
  cbv zeta in H1. rewrite Hg in H1. destruct H1 as [-> Hv1].
  assert (v_unstable (view_of w1) || v_wlldestroy (view_of w1) = false) as Hst.
  { rewrite Hv1. cbn [op_effect set_access v_unstable v_wlldestroy].
    cbn [op_guard] in Hg. apply andb_true_iff in Hg as [Hg _]. by apply negb_true_iff in Hg. }
  set (s1 := with_job i (set_meta w1 j) s).
  assert (job_at s1 i (set_meta w1 j)) as Hj1 by by eapply job_at_with.
  destruct (mark_done OpUnmarkReady _ i _ s1 eq_refl Hj1 Hw1) as (r2 & w2 & Hrun2 & Hw2 & H2).
  cbn [op_guard meta_flag set_meta] in H2. rewrite Hst in H2. destruct H2 as [-> Hv2].
  unfold s1 in Hrun2 at 2. rewrite with_job_twice, set_meta_meta in Hrun2.
  set (s2 := with_job i (set_meta w2 j) s) in *.
  assert (job_at s2 i (set_meta w2 j)) as Hj2 by by eapply job_at_with.
  destruct (mark_done OpUnmarkReadybasic _ i _ s2 eq_refl Hj2 Hw2) as (r3 & w3 & Hrun3 & Hw3 & H3).
  cbn [op_guard meta_flag set_meta] in H3.
  rewrite Hv2 in H3. cbn [op_effect set_ready v_unstable v_wlldestroy] in H3.
  rewrite Hst in H3. destruct H3 as [-> Hv3].
  unfold s2 in Hrun3 at 2. rewrite with_job_twice, set_meta_meta in Hrun3.
  exists w1, w3. split; [done|]. split.
  { bind_by exact Hrun2. bind_by exact Hrun3. done. }
  split; [done|]. rewrite Hv3. cbn [op_effect meta_flag set_meta].
  by rewrite Hv1.
Qed.

Lemma put_cache_ok pend c s :
  sys_ok pend s → (∃ peak, cache_ok c peak) → readyjob_mutex c = s_readyjob_mutex s →
  Forall job_index (cached c) → sys_ok pend (put_cache c s).
Proof.
  intros Hs Hc Hm Hf. apply (sys_ok_step pend s); [done| |done|done].
  apply base_put_cache; [by eapply ok_base|done| |done].
  rewrite Hm. apply ok_mutex. by eapply ok_base.
Qed.

(** One pop from the cache. *)
Lemma pop_done pend s :
  sys_ok pend s →
  ∃ r c, on_cache schedi_cache_job_ready_pop s = Done r (put_cache c s) ∧
    sys_ok pend (put_cache c s) ∧
    match r with
    | Some i => job_index i ∧ i :: cached c ≡ₚ somes (s_cache s) ∧
        window s = i :: window (put_cache c s)
    | None => c = cache_of s ∧ window s = []
    end.
Proof.
  intros Hs. pose proof (ok_base _ _ Hs) as Hb. destruct (ok_cache _ Hb) as [peak Hok].
  destruct (take_run _ _ Hok) as (r & c & Hrun & Hok' & [Hm _] & Hr).
  exists r, c. split; [by apply on_cache_run|].
  pose proof (ok_cached _ Hb) as Hf. destruct r as [i|].
  - destruct Hr as (Hlt & Hat & Hins & Hp & _).
    assert (Forall job_index (i :: cached c)) as Hf' by by rewrite Hp.
    apply Forall_cons in Hf' as [Hi Hf'].
    split; [apply put_cache_ok; [done|by exists peak|done|done]|].
    split; [done|]. split; [done|]. unfold window.
    change (s_cache (put_cache c s)) with (ready_jobs_cache c). rewrite Hins.
    by apply (somes_take_first SCHEDI_JOBS_CACHE_CHECK (s_cache s)).
  - destruct Hr as [Hge ->]. split; [by rewrite put_cache_id|]. split; [done|].
    by apply (somes_take_none SCHEDI_JOBS_CACHE_CHECK (s_cache s)).
Qed.

(** Putting a job back right after taking it out always finds a place. *)
Lemma put_back_done pend i c s :
  sys_ok pend (put_cache c s) → job_index i → (length (cached c) < SCHEDI_MAXIMUM_JOBS)%nat →
  ∃ r c', on_cache (schedi_cache_job_ready i) (put_cache c s) = Done r (put_cache c' s) ∧
    sys_ok pend (put_cache c' s) ∧ cached c' ≡ₚ i :: cached c.
Proof.
  intros Hs Hi Hlt. pose proof (ok_base _ _ Hs) as Hb. destruct (ok_cache _ Hb) as [peak Hok].
  rewrite cache_of_put in Hok.
  destruct (put_run i _ _ Hok) as (r & c' & Hrun & Hok' & [Hm _] & Hr).
  destruct Hr as [(_ & _ & _ & Hp & _)|(_ & Hfull & _)]; [|lia].
  exists r, c'. split; [|split; [|done]].
  - apply (on_cache_run _ (put_cache c s)). by rewrite cache_of_put.
  - apply (put_cache_ok pend c' (put_cache c s)); [done|done|by rewrite Hm|].
    rewrite Hp. constructor; [done|]. exact (ok_cached _ Hb).
Qed.

(** A pick that goes on after an UNSTABLE job. *)
Lemma unstable_passed i j c s r s' :
  job_at s i j → v_unstable (view_of (meta_flag j)) = true →
  somes (s_cache s) ≡ₚ i :: cached c → window s = i :: window (put_cache c s) →
  pick_result (put_cache c s) r s' → pick_spec (put_cache c s) r s' →
  pick_result s r s' ∧ pick_spec s r s'.
Proof.
  intros Hj Hu Hp Hwin (dropped & Hd & Hres) Hspec.
  assert (view_of ∘ meta_flag <$> s_jobs s !! i = Some (view_of (meta_flag j))) as Hat
    by (unfold job_at in Hj; by rewrite Hj).
  split; cycle 1.
  { unfold pick_spec in *. rewrite Hwin. cbn [pick_from]. rewrite Hat, Hu.
    change (s_jobs (put_cache c s)) with (s_jobs s) in Hspec.
    destruct (pick_from (s_jobs s) (window (put_cache c s))) as [r1 gone].
    destruct Hspec as [-> Hperm]. split; [done|]. rewrite Hp. cbn [app]. by rewrite <-Hperm. }
  exists (i :: dropped). split.
  { constructor; [|done]. intros j' Hj'. unfold job_at in *. congruence. }
  change (somes (s_cache (put_cache c s))) with (cached c) in Hres.
  destruct r as [i'|].
  - destruct Hres as [Hp' Hrest]. split; [|done]. by rewrite Hp, Hp'.
  - destruct Hres as [Ej (lost & Hp' & Hl)]. split; [done|]. exists lost.
    split; [|done]. by rewrite Hp, Hp'.
Qed.

(** A refused access leaves everything and tells the reason. *)
Lemma access_refused i j s :
  job_at s i j → word32 (meta_flag j) → op_guard OpMarkAccess (view_of (meta_flag j)) = false →
  ∃ bans, schedi_job_mark_access i s = Done bans s ∧ bans ≠ 0 ∧
    has bans SCHEDI_JOB_METAFLAG_UNSTABLE = has (rmw mark_access_body (meta_flag j)).1
      SCHEDI_JOB_METAFLAG_UNSTABLE ∧
    has bans SCHEDI_JOB_METAFLAG_ACCESS = has (rmw mark_access_body (meta_flag j)).1
      SCHEDI_JOB_METAFLAG_ACCESS.
Proof.
  intros Hj Hw Hg. destruct (mark_done OpMarkAccess _ i j s eq_refl Hj Hw) as (r & w & Hrun & _ & H1).
  pose proof (mark_run OpMarkAccess _ i j s eq_refl Hj) as Hrun2.
  rewrite Hrun in Hrun2. cbv zeta in H1. rewrite Hg in H1. destruct H1 as [Hne ->].
  rewrite set_meta_id, with_job_same in Hrun by done.
  apply (f_equal (λ o, match o with Done r _ => r | _ => 0 end)) in Hrun2. cbn iota in Hrun2.
  change (op_body OpMarkAccess) with mark_access_body in Hrun2. exists r. by rewrite <-Hrun2.
Qed.

Lemma pickready_loop_done fuel pend s :
  sys_ok pend s → (length (somes (s_cache s)) < fuel)%nat →
  ∃ r s', pickready_loop fuel s = Done r s' ∧ sys_ok pend s' ∧ pick_result s r s' ∧
    pick_spec s r s'.
Proof.
  revert s. induction fuel as [|fuel IH]; intros s Hs Hfuel; [lia|]. cbn [pickready_loop].
  destruct (pop_done _ _ Hs) as (r & c & Hrun & Hs1 & Hr). bind_by exact Hrun.
  destruct r as [i|]; cycle 1.
  { destruct Hr as [-> Hwin]. rewrite put_cache_id. eexists _, _. split; [done|]. split; [done|].
    split; [exists []; split; [done|]; split; [done|]; by exists []|].
    unfold pick_spec. by rewrite Hwin. }
  destruct Hr as (Hi & Hp & Hwin). pose proof (Permutation_length Hp) as Hlen. cbn [length] in Hlen.
  destruct (base_job _ _ (ok_base _ _ Hs) Hi) as (j & Hj & Hw).
  set (s1 := put_cache c s) in *. assert (job_at s1 i j) as Hj1 by done.
  assert (view_of ∘ meta_flag <$> s_jobs s !! i = Some (view_of (meta_flag j))) as Hat
    by (unfold job_at in Hj; by rewrite Hj).
  destruct (mark_access_bans (meta_flag j)) as [Hun Hac].
  destruct (op_guard OpMarkAccess (view_of (meta_flag j))) eqn:Hg.
  - destruct (pick_marks i j s1 Hj1 Hw Hg) as (w1 & w' & Hacc & Hmarks & Hw' & Hv).
    bind_by exact Hacc. rewrite !has_0_l. cbn [negb Z.eqb]. rewrite Hmarks.
    eexists _, _. split; [done|]. split; [by eapply with_job_ok|]. split.
    { exists []. split; [done|]. split; [by rewrite <-Hp|]. by exists j, w'. }
    cbn [op_guard] in Hg. apply andb_true_iff in Hg as [Hban Hacn].
    apply negb_true_iff, orb_false_iff in Hban as [Hb1 Hb2]. apply negb_true_iff in Hacn.
    unfold pick_spec. rewrite Hwin. cbn [pick_from]. rewrite Hat, Hb1, Hb2, Hacn. by rewrite <-Hp.
  - destruct (access_refused i j s1 Hj1 Hw Hg) as (bans & Hrun1 & Hne & Eu1 & Ea1).
    bind_by exact Hrun1. rewrite Eu1, Ea1, Hun, Hac. cbn [op_guard] in Hg.
    destruct (v_unstable (view_of (meta_flag j))) eqn:Eu; cbn [orb negb andb].
    { destruct (IH s1 Hs1) as (r' & s' & Hrun' & Hs' & Hres & Hspec);
        [change (s_cache s1) with (ready_jobs_cache c); lia|].
      exists r', s'. split; [done|]. split; [done|]. by apply (unstable_passed i j c). }
    unfold pick_spec. rewrite Hwin. cbn [pick_from]. rewrite Hat, Eu.
    destruct (v_wlldestroy (view_of (meta_flag j))) eqn:Ew; cbn [negb andb].
    + apply Z.eqb_neq in Hne. rewrite Hne. cbn [negb]. eexists _, _. split; [done|].
      split; [done|]. split; [|by rewrite <-Hp].
      exists []. split; [done|]. split; [done|]. exists [i].
      split; [by rewrite <-Hp|]. constructor; [|done].
      intros j' Hj'. unfold job_at in *. congruence.
    + cbn [orb negb andb] in Hg. apply negb_false_iff in Hg. rewrite Hg.
      pose proof (length_somes_le (s_cache s)) as Hle.
      destruct (ok_cache _ (ok_base _ _ Hs)) as [peak Hok].
      rewrite (ok_length _ _ Hok : length (s_cache s) = _) in Hle.
      destruct (put_back_done pend i c s Hs1 Hi) as (r2 & c2 & Hrun2' & Hs2 & Hp2); [lia|].
      bind_by exact Hrun2'. eexists _, _. split; [done|]. split; [done|].
      assert (somes (s_cache s) ≡ₚ cached c2) as Hback by by rewrite Hp2.
      split; [|done]. exists []. split; [done|]. split; [done|]. by exists [].
Qed.

(** ** Tearing a job down *)

Definition dtor_events (j : schedi_job) : list event :=
  from_option (λ f, [DtorCalled f (context j)]) [] (dtor j).

(** The slot of a job that was torn down. *)
Definition dead_job (j : schedi_job) : schedi_job :=
  set_meta 0 (set_state schedi_job_state_nulljob (set_gen (u64 (gen j + 1)) j)).

Definition add_events (es : list event) (s : sys) : sys := foldl (λ s e, add_event e s) s es.

(** The state after a tear-down; [p] is the pool the slot went back to. *)
Definition torn_down (i : nat) (j : schedi_job) (p : slot_pool) (s : sys) : sys :=
  with_job i (dead_job j) (put_pool p (add_events (dtor_events j) s)).

(** The slot is free again, unless the table of sections was full. *)
Definition released (i : nat) (s : sys) (p : slot_pool) : Prop :=
  pool_ready p ∧
  ((pool_free p = {[i]} ∪ free_of s ∧ pool_flags p = s_flags s) ∨
   (pool_free p = free_of s ∧ has (pool_flags p) SCHEDI_JOB_ARRAY_SECTION_WARN = true)).

Definition idle (j : schedi_job) : bool := op_guard OpMarkUnstable (view_of (meta_flag j)).

Lemma release_done i s :
  base_ok s → job_index i → i ∉ free_of s →
  ∃ p, section_release i (pool_of s) = Done () p ∧ released i s p.
Proof.
  intros Hb Hi Hf.
  destruct (section_release_run _ i (ok_pool _ Hb) Hi Hf) as (p & Hrun & Hp & Hr).
  exists p. split; [done|]. split; [done|]. destruct Hr as [?|[-> _]]; [by left|right].
  split; [done|]. cbn [pool_flags set_pool_flags].
  by rewrite (has_bit _ 0), Z.lor_spec, orb_true_r.
Qed.

Lemma destroy_now_idle i j s :
  job_at s i j → word32 (meta_flag j) → idle j = true →
  ∃ w', schedi_job_destroy_now i s = Done 0 (with_job i (set_meta w' j) s) ∧
    word32 w' ∧ view_of w' = set_unstable true (view_of (meta_flag j)).
Proof.
  intros Hj Hw Hg.
  destruct (mark_done OpMarkUnstable _ i j s eq_refl Hj Hw) as (r & w' & Hrun & Hw' & H1).
  cbv zeta in H1. unfold idle in Hg. rewrite Hg in H1. destruct H1 as [-> Hv].
  exists w'. split; [|done]. unfold schedi_job_destroy_now. by bind_by exact Hrun.
Qed.

Lemma add_events_job es s i j : job_at s i j → job_at (add_events es s) i j.
Proof. revert s. induction es as [|e es IH]; [done|]. intros s Hj. by apply IH. Qed.

Lemma destroy_now_busy i j s :
  base_ok s → job_index i → i ∉ free_of s → job_at s i j → idle j = false →
  ∃ p, schedi_job_destroy_now i s = Done 1 (torn_down i j p s) ∧ released i s p.
Proof.
  intros Hb Hi Hf Hj Hg. pose proof (ok_words _ Hb _ _ Hj) as Hw.
  destruct (mark_done OpMarkUnstable _ i j s eq_refl Hj Hw) as (r & w' & Hrun & Hw' & H1).
  cbv zeta in H1. unfold idle in Hg. rewrite Hg in H1. destruct H1 as [Hr ->].
  rewrite set_meta_id, with_job_same in Hrun by done. apply Z.eqb_neq in Hr.
  unfold schedi_job_destroy_now. bind_by exact Hrun. rewrite Hr.
  bind_by (by apply job_put_run).
  bind_by (by eapply job_put_run, job_at_with). rewrite with_job_twice.
  set (j1 := set_state _ (set_gen _ j)).
  assert (job_at (with_job i j1 s) i j1) as Hj1 by by eapply job_at_with.
  bind_by (by apply (job_get_run dtor i j1)). bind_by (by apply (job_get_run context i j1)).
  assert ((match dtor j1 with
           | Some f => modify (add_event (DtorCalled f (context j1)))
           | None => mret ()
           end : M sys unit) (with_job i j1 s) =
          Done () (with_job i j1 (add_events (dtor_events j) s))) as Hev.
  { unfold dtor_events. change (dtor j1) with (dtor j). by destruct (dtor j). }
  bind_by exact Hev. set (s1 := add_events (dtor_events j) s).
  assert (job_at s1 i j) as Hjs1 by by apply add_events_job.
  bind_by (by eapply job_put_run, job_at_with). rewrite with_job_twice.
  bind_by (by eapply job_put_run, job_at_with). rewrite with_job_twice.
  destruct (release_done i s Hb Hi Hf) as (p & Hp & Hrel).
  assert (pool_of s1 = pool_of s) as Epool.
  { unfold s1, dtor_events. by destruct (dtor j). }
  exists p. split; [|done].
  change (set_meta 0 _) with (dead_job j).
  bind_by (apply on_pool_run; change (pool_of (with_job i ?x s1)) with (pool_of s1);
           rewrite Epool; exact Hp).
  done.
Qed.

Lemma base_torn_down i j p s :
  base_ok s → job_at s i j → pool_ready p → base_ok (torn_down i j p s).
Proof.
  intros Hb Hj Hp. unfold torn_down, dtor_events.
  destruct (dtor j); cbn [from_option add_events foldl];
    eapply base_with_job; auto with sys; done.
Qed.

Lemma torn_down_parts i j p s :
  s_jobs (torn_down i j p s) = <[i := dead_job j]> (s_jobs s) ∧
  s_dq (torn_down i j p s) = s_dq s ∧ free_of (torn_down i j p s) = pool_free p ∧
  s_trace (torn_down i j p s) = s_trace s ++ dtor_events j ∧
  somes (s_cache (torn_down i j p s)) = somes (s_cache s).
Proof.
  unfold torn_down, dtor_events. destruct (dtor j); cbn; [done|]. by rewrite app_nil_r.
Qed.

Lemma released_free i s p k : released i s p → k ≠ i → k ∉ free_of s → k ∉ pool_free p.
Proof. intros [_ [[-> _]|[-> _]]]; set_solver. Qed.

(** ** The destroy queue *)

Lemma fenced_length pend s : fenced pend s → (length pend <= SCHEDI_MAXIMUM_JOBS)%nat.
Proof.
  intros [Hn Hf]. rewrite <-(length_seq SCHEDI_MAXIMUM_JOBS 0).
  apply submseteq_length, NoDup_submseteq; [done|].
  intros i Hi. apply elem_of_seq. destruct (Hf i Hi) as [Hidx _].
  unfold job_index in Hidx. lia.
Qed.

Definition queued (pend : list nat) (n : Z) (s : sys) : Prop := dq_rep (s_dq s) (Fifo pend n).

Lemma super_pop_done i pend s :
  queued (i :: pend) (Z.of_nat (S (length pend))) s →
  (S (length pend) <= SCHEDI_MAXIMUM_JOBS)%nat →
  ∃ q, on_dq dq_super_pop s = Done (Some i) (put_dq q s) ∧
    dq_rep q (Fifo pend (Z.of_nat (S (length pend)))).
Proof.
  intros Hq Hlen. unfold SCHEDI_MAXIMUM_JOBS in Hlen.
  destruct (pop_rep (λ n, n) _ _ i pend Hq) as (q & Hrun & Hq');
    [done|cbn [pending length]; lia|cbn [counted]; lia|].
  exists q. split; [by apply on_dq_run|done].
Qed.

Lemma super_push_done i pend s :
  queued pend (Z.of_nat (S (length pend))) s →
  (S (length pend) <= SCHEDI_MAXIMUM_JOBS)%nat →
  ∃ q, on_dq (dq_super_push i) s = Done 0 (put_dq q s) ∧
    dq_rep q (Fifo (pend ++ [i]) (Z.of_nat (length (pend ++ [i])))).
Proof.
  intros Hq Hlen. unfold SCHEDI_MAXIMUM_JOBS in Hlen.
  destruct (push_rep (λ n, n) i _ _ Hq) as (q & Hrun & Hq');
    [cbn [counted]; lia|cbn [counted pending]; lia|].
  exists q. split; [by apply on_dq_run|]. rewrite length_app. cbn [length].
  by rewrite Nat.add_1_r.
Qed.

Lemma dec_count_done pend s :
  queued pend (Z.of_nat (S (length pend))) s →
  ∃ q, on_dq dq_dec_count s = Done () (put_dq q s) ∧
    dq_rep q (Fifo pend (Z.of_nat (length pend))).
Proof.
  intros Hq. destruct (dec_count_rep _ _ Hq) as (q & Hrun & Hq'); [cbn; lia|].
  exists q. split; [by apply on_dq_run|]. cbn [pending counted] in Hq'.
  replace (Z.of_nat (length pend)) with (Z.of_nat (S (length pend)) - 1) by lia. done.
Qed.

(** What a check does to one job: a busy job is torn down, an idle one becomes
    UNSTABLE and stays queued. *)
Definition checked (j j' : schedi_job) : Prop :=
  if idle j then ∃ w', j' = set_meta w' j ∧ view_of w' = set_unstable true (view_of (meta_flag j))
  else j' = dead_job j.

Definition idle_at (s : sys) (i : nat) : bool := from_option idle true (s_jobs s !! i).
Definition events_at (s : sys) (i : nat) : list event :=
  from_option (λ j, if idle j then [] else dtor_events j) [] (s_jobs s !! i).

(** What a check of the entries [todo] does to the whole state. *)
Definition checks (todo : list nat) (s s' : sys) : Prop :=
  s_trace s' = s_trace s ++ (todo ≫= events_at s) ∧
  somes (s_cache s') = somes (s_cache s) ∧
  free_of s' ⊆ list_to_set todo ∪ free_of s ∧
  ∀ k j, job_at s k j → ∃ j', job_at s' k j' ∧
    if decide (k ∈ todo) then checked j j' else j' = j.

Lemma checks_nil s : checks [] s s.
Proof.
  split; [by rewrite app_nil_r|]. split; [done|]. split; [set_solver|].
  intros k j Hj. by exists j.
Qed.

Lemma checks_cons i j j' todo s s1 s' :
  job_at s i j → checked j j' → i ∉ todo →
  s_jobs s1 = <[i := j']> (s_jobs s) →
  s_trace s1 = s_trace s ++ events_at s i → somes (s_cache s1) = somes (s_cache s) →
  free_of s1 ⊆ {[i]} ∪ free_of s →
  checks todo s1 s' → checks (i :: todo) s s'.
Proof.
  intros Hj Hc Hni Ej Et Ec Hfree (Ht & Hcache & Hfr & Hjobs). split; [|split; [|split]].
  - rewrite Ht, Et, <-app_assoc. cbn [mbind list_bind]. f_equal. f_equal.
    clear -Hni Ej. induction todo as [|k todo IH]; [done|].
    apply not_elem_of_cons in Hni as [Hne Hni]. cbn [mbind list_bind].
    f_equal; [|by apply IH]. unfold events_at.
    rewrite Ej, list_lookup_insert_ne by done. done.
  - by rewrite Hcache.
  - cbn [list_to_set]. clear -Hfree Hfr. set_solver.
  - intros k l Hk. destruct (decide (k = i)) as [->|Hne].
    + assert (l = j) as -> by (unfold job_at in *; congruence).
      destruct (Hjobs i j') as (l' & Hl' & Hrest).
      { unfold job_at. rewrite Ej. apply list_lookup_insert_eq. by eapply lookup_lt_Some. }
      rewrite decide_False in Hrest by done. subst l'. exists j'. split; [done|].
      rewrite decide_True by left. done.
    + destruct (Hjobs k l) as (l' & Hl' & Hrest).
      { unfold job_at. by rewrite Ej, list_lookup_insert_ne. }
      exists l'. split; [done|]. destruct (decide (k ∈ todo)).
      * by rewrite decide_True by by right.
      * rewrite decide_False; [done|]. by apply not_elem_of_cons.
Qed.

(** One turn of the loop. *)
Lemma check_step i j rest s n :
  base_ok s → queued (i :: rest) (Z.of_nat (length (i :: rest))) s →
  fenced (i :: rest) s → job_at s i j →
  ∃ j' s1 rest', destroy_queue_loop (S n) s = destroy_queue_loop n s1 ∧
    checked j j' ∧ s_jobs s1 = <[i := j']> (s_jobs s) ∧
    s_trace s1 = s_trace s ++ events_at s i ∧ somes (s_cache s1) = somes (s_cache s) ∧
    free_of s1 ⊆ {[i]} ∪ free_of s ∧
    rest' = (if idle j then rest ++ [i] else rest) ∧
    base_ok s1 ∧ queued rest' (Z.of_nat (length rest')) s1 ∧ fenced rest' s1.
Proof.
  intros Hb Hq Hf Hj. pose proof (fenced_length _ _ Hf) as Hlen. cbn [length] in Hlen.
  destruct Hf as [Hn Hin]. apply NoDup_cons in Hn as [Hni Hn].
  destruct (Hin i) as [Hi Hfree]; [left|].
  destruct (super_pop_done _ _ _ Hq Hlen) as (q & Hpop & Hq1).
  set (s0 := put_dq q s) in *. assert (job_at s0 i j) as Hj0 by done.
  assert (base_ok s0) as Hb0 by by apply base_put_dq.
  cbn [destroy_queue_loop]. unfold checked, events_at. rewrite Hj. cbn [from_option].
  destruct (idle j) eqn:Hidle.
  - destruct (destroy_now_idle i j s0 Hj0 (ok_words _ Hb0 _ _ Hj0) Hidle) as (w' & Hd & Hw' & Hv).
    set (s1 := with_job i (set_meta w' j) s0) in *.
    destruct (super_push_done i rest s1) as (q' & Hpush & Hq'); [done|done|].
    eexists _, (put_dq q' s1), _. split.
    { bind_by exact Hpop. bind_by exact Hd. rewrite Z.eqb_refl.
      bind_by (by bind_by exact Hpush). done. }
    split; [by exists w'|]. split; [done|]. split; [by rewrite app_nil_r|].
    split; [done|]. split; [apply union_subseteq_r|]. split; [done|]. split.
    { apply base_put_dq. by eapply base_with_job. }
    split; [done|]. split.
    + apply NoDup_app. split; [done|]. split; [|apply NoDup_singleton].
      intros k Hk ->%list_elem_of_singleton. done.
    + intros k Hk. apply elem_of_app in Hk as [Hk|Hk].
      * apply (Hin k). by right.
      * apply list_elem_of_singleton in Hk as ->. done.
  - destruct (destroy_now_busy i j s0 Hb0 Hi Hfree Hj0 Hidle) as (p & Hd & Hrel).
    set (s1 := torn_down i j p s0) in *.
    destruct (torn_down_parts i j p s0) as (Ej & Edq & Efree & Et & Ec).
    destruct (dec_count_done rest s1) as (q' & Hdec & Hq').
    { unfold queued. unfold s1. by rewrite Edq. }
    eexists _, (put_dq q' s1), _. split.
    { bind_by exact Hpop. bind_by exact Hd. change (1 =? 0) with false. cbn iota.
      by bind_by exact Hdec. }
    do 4 (split; [done|]). split.
    { change (free_of s1 ⊆ {[i]} ∪ free_of s). unfold s1. rewrite Efree.
      destruct Hrel as [_ [[-> _]|[-> _]]]; [done|apply union_subseteq_r]. }
    split; [done|]. split.
    { apply base_put_dq, base_torn_down; [done|done|]. by destruct Hrel. }
    split; [done|]. split; [done|]. intros k Hk. destruct (Hin k) as [Hki Hkf]; [by right|].
    split; [done|]. change (k ∉ free_of s1). unfold s1. rewrite Efree.
    apply (released_free i s0); [done| |done]. by intros ->.
Qed.

(** The entries a check leaves in the queue. *)
Definition still_idle (s : sys) (todo : list nat) : list nat :=
  filter (λ i, idle_at s i = true) todo.

Lemma still_idle_insert s s1 i j' todo :
  s_jobs s1 = <[i := j']> (s_jobs s) → i ∉ todo → still_idle s1 todo = still_idle s todo.
Proof.
  intros Ej. unfold still_idle. induction todo as [|k todo IH]; [done|].
  intros [Hne Hni]%not_elem_of_cons.
  assert (idle_at s1 k = idle_at s k) as E.
  { unfold idle_at. by rewrite Ej, list_lookup_insert_ne. }
  rewrite !filter_cons, E, IH by done. done.
Qed.

Lemma check_loop_done todo kept s :
  base_ok s → queued (todo ++ kept) (Z.of_nat (length (todo ++ kept))) s →
  fenced (todo ++ kept) s →
  ∃ s', destroy_queue_loop (length todo) s = Done () s' ∧
    sys_ok (kept ++ still_idle s todo) s' ∧ checks todo s s'.
Proof.
  revert kept s. induction todo as [|i todo IH]; intros kept s Hb Hq Hf.
  - exists s. split; [done|]. cbn [still_idle filter list_filter]. rewrite app_nil_r.
    split; [by split|apply checks_nil].
  - cbn [app] in Hq, Hf.
    destruct (base_job s i Hb) as (j & Hj & Hw); [apply Hf; left|].
    assert (i ∉ todo) as Hni.
    { destruct Hf as [Hn _]. apply NoDup_cons in Hn as [Hn _]. set_solver. }
    destruct (check_step i j (todo ++ kept) s (length todo) Hb Hq Hf Hj)
      as (j' & s1 & rest' & Hrun & Hc & Ej & Et & Ec & Ef & -> & Hb1 & Hq1 & Hf1).
    cbn [length]. rewrite Hrun.
    assert (idle_at s i = idle j) as Ei by (unfold idle_at; by rewrite Hj).
    assert (still_idle s (i :: todo) =
      if idle j then i :: still_idle s todo else still_idle s todo) as ->.
    { unfold still_idle. rewrite filter_cons, Ei. by destruct (idle j). }
    rewrite <-(still_idle_insert s s1 i j' todo) by done.
    destruct (idle j).
    + rewrite <-app_assoc in Hq1, Hf1.
      destruct (IH (kept ++ [i]) s1 Hb1 Hq1 Hf1) as (s' & Hrun' & Hs' & Hch).
      exists s'. split; [done|]. split; [by rewrite <-app_assoc in Hs'|].
      by eapply checks_cons.
    + destruct (IH kept s1 Hb1 Hq1 Hf1) as (s' & Hrun' & Hs' & Hch).
      exists s'. split; [done|]. split; [done|]. by eapply checks_cons.
Qed.

Lemma queue_check_done pend s :
  sys_ok pend s →
  ∃ s', schedi_job_destroy_queue_check s = Done () s' ∧
    sys_ok (still_idle s pend) s' ∧ checks pend s s'.
Proof.
  intros [Hb Hq Hf]. unfold schedi_job_destroy_queue_check. bind_by done.
  assert (HTC_COUNT (dq_htc (s_dq s)) = Z.of_nat (length pend)) as ->.
  { destruct Hq as (Hf' & t & lb & Hrep). by destruct (rep_fields _ _ _ _ Hf' Hrep) as (_ & _ & ? & _). }
  rewrite Nat2Z.id.
  destruct (check_loop_done pend [] s) as (s' & Hrun & Hs' & Hch); rewrite ?app_nil_r; try done.
  by exists s'.
Qed.

(** ** [schedi_job_destroy] *)

(** A job that is in use goes to the end of the destroy queue. *)
Lemma push_done pend i s :
  sys_ok pend s → job_index i → i ∉ free_of s → i ∉ pend →
  ∃ q, on_dq (dq_push i) s = Done 0 (put_dq q s) ∧ sys_ok (pend ++ [i]) (put_dq q s).
Proof.
  intros [Hb Hq [Hn Hin]] Hi Hfree Hni.
  pose proof (fenced_length pend s (conj Hn Hin)) as Hl. unfold SCHEDI_MAXIMUM_JOBS in Hl.
  destruct (push_rep (λ n, n + 1) i (s_dq s) (Fifo pend (Z.of_nat (length pend))))
    as (q & Hpush & Hq'); [done|cbn [counted]; lia|cbn [counted pending]; lia|].
  exists q. split; [by apply on_dq_run|]. split; [by apply base_put_dq| |split].
  - cbn [pending counted] in Hq'. rewrite length_app. cbn [length].
    by replace (Z.of_nat (length pend + 1)) with (Z.of_nat (length pend) + 1) by lia.
  - apply NoDup_app. split; [done|]. split; [|apply NoDup_singleton].
    by intros k Hk ->%list_elem_of_singleton.
  - intros k [Hk| ->%list_elem_of_singleton]%elem_of_app; [by apply Hin|done].
Qed.

(** The job after [schedi_job_mark_wlldestroy]. *)
Lemma destroy_done pend i j s :
  sys_ok pend s → job_index i → i ∉ free_of s → i ∉ pend → job_at s i j →
  ∃ r s', schedi_job_destroy i s = Done r s' ∧
    if idle j then
      r = -1 ∧ sys_ok (pend ++ [i]) s' ∧ s_trace s' = s_trace s ∧ free_of s' = free_of s ∧
      ∃ w', s_jobs s' = <[i := set_meta w' j]> (s_jobs s) ∧
        view_of w' = set_unstable true (set_wlldestroy true (view_of (meta_flag j)))
    else
      r = 0 ∧ sys_ok pend s' ∧ s_trace s' = s_trace s ++ dtor_events j ∧
      s_jobs s' = <[i := dead_job j]> (s_jobs s) ∧
      ∃ p, free_of s' = pool_free p ∧ released i s p.
Proof.
  intros Hs Hi Hfree Hni Hj. pose proof (ok_base _ _ Hs) as Hb.
  pose proof (ok_words _ Hb _ _ Hj) as Hw.
  destruct (mark_done OpMarkWlldestroy _ i j s eq_refl Hj Hw) as (r0 & w0 & Hrun0 & Hw0 & Hmk).
  unfold schedi_job_destroy. bind_by exact Hrun0.
  set (s0 := with_job i (set_meta w0 j) s) in *.
  assert (base_ok s0) as Hb0 by by eapply base_with_job.
  assert (job_at s0 i (set_meta w0 j)) as Hj0 by by eapply job_at_with.
  assert (idle (set_meta w0 j) = idle j ∧
    (idle j = true → view_of w0 = set_wlldestroy true (view_of (meta_flag j)))) as [Ei Ev].
  { unfold idle. cbn [meta_flag set_meta]. cbv zeta in Hmk.
    destruct (op_guard OpMarkWlldestroy _) eqn:Eg; destruct Hmk as [_ E0].
    - by rewrite E0.
    - rewrite E0. split; [done|]. cbn [op_guard] in Eg |- *.
      apply negb_false_iff in Eg. by rewrite Eg. }
  destruct (idle j) eqn:Hidle.
  - destruct (destroy_now_idle i _ s0 Hj0 Hw0 Ei) as (w' & Hd & Hw' & Hv).
    bind_by exact Hd. rewrite Z.eqb_refl. cbn [negb].
    unfold s0 in Hd at 2 |- *. rewrite with_job_twice, set_meta_meta.
    set (s1 := with_job i (set_meta w' j) s).
    assert (sys_ok pend s1) as Hs1 by (split; [by eapply base_with_job|apply Hs..]).
    destruct (push_done pend i s1 Hs1 Hi Hfree Hni) as (q & Hpush & Hs2).
    bind_by exact Hpush. change (0 <? 0) with false. cbn iota.
    eexists _, _. split; [done|]. split; [done|]. split; [done|].
    split; [done|]. split; [done|]. exists w'. split; [done|].
    rewrite Hv. cbn [meta_flag set_meta]. by rewrite Ev.
  - destruct (destroy_now_busy i _ s0 Hb0 Hi Hfree Hj0 Ei) as (p & Hd & Hrel).
    bind_by exact Hd. change (1 =? 0) with false. cbn [negb].
    destruct (torn_down_parts i (set_meta w0 j) p s0) as (Ej & Edq & Efree & Et & Ec).
    eexists _, _. split; [done|]. split; [done|]. split; [|split; [done|split]].
    + split.
      * apply base_torn_down; [done|done|by destruct Hrel].
      * rewrite Edq. exact (ok_dq _ _ Hs).
      * destruct (ok_fenced _ _ Hs) as [Hn Hin]. split; [done|]. intros k Hk.
        destruct (Hin k Hk) as [Hki Hkf]. split; [done|]. rewrite Efree.
        apply (released_free i s0); [done| |done]. by intros ->.
    + rewrite Ej. unfold s0. cbn. by rewrite list_insert_insert_eq.
    + exists p. split; [done|]. exact Hrel.
Qed.

(** ** All operations together *)

Inductive job_request : Type :=
  | RCreate (ctx : Z) (fn : nat) (d : option nat)
  | RMark (op : meta_op) (i : nat)
  | RSetready (i : nat)
  | RReadybasic (i : nat)
  | RRequireSockets (i : nat) (n : Z)
  | RRequireJobs (i : nat) (n : Z)
  | RAddJob (i : nat)
  | RToolJob (user target : nat)
  | RPick
  | RDestroy (i : nat)
  | RCheck
  | RTick.

Definition run_request (q : job_request) : M sys unit :=
  match q with
  | RCreate ctx fn d => schedi_job_create ctx fn d ≫= λ _, mret ()
  | RMark op i =>
      match mark_of op with Some m => (m i ≫= λ _, mret ()) | None => mret () end
  | RSetready i => schedi_job_setready i ≫= λ _, mret ()
  | RReadybasic i => schedi_job_mark_readybasic i ≫= λ _, mret ()
  | RRequireSockets i n => schedi_job_required_available_socket i n
  | RRequireJobs i n => schedi_job_required_available_jobs i n
  | RAddJob i => schedi_job_add_available_job i ≫= λ _, mret ()
  | RToolJob user target => schedi_job_tool_job user target
  | RPick => schedi_job_pickready ≫= λ _, mret ()
  | RDestroy i => schedi_job_destroy i ≫= λ _, mret ()
  | RCheck => schedi_job_destroy_queue_check
  | RTick => on_cache schedi_ready_jobs_cache_reorganize_tick
  end.

(** A caller names slots of the array, and destroys a job only while it is in use
    and not already queued for destruction. *)
Definition request_allowed (pend : list nat) (s : sys) (q : job_request) : Prop :=
  match q with
  | RMark _ i | RSetready i | RReadybasic i | RRequireSockets i _ | RRequireJobs i _
  | RAddJob i => job_index i
  | RToolJob user target => job_index user ∧ job_index target
  | RDestroy i => job_index i ∧ (i ∉ free_of s) ∧ (i ∉ pend)
  | _ => True
  end.

Lemma job_put_ok f pend i s :
  sys_ok pend s → job_index i → (∀ j, meta_flag (f j) = meta_flag j) →
  ∃ s', job_put f i s = Done () s' ∧ sys_ok pend s'.
Proof.
  intros Hs Hi Hf. destruct (base_job _ _ (ok_base _ _ Hs) Hi) as (j & Hj & Hw).
  eexists. split; [by apply job_put_run|]. eapply with_job_ok; [done|done|].
  by rewrite Hf.
Qed.

Lemma tick_done pend s :
  sys_ok pend s →
  ∃ s', on_cache schedi_ready_jobs_cache_reorganize_tick s = Done () s' ∧ sys_ok pend s'.
Proof.
  intros Hs. pose proof (ok_base _ _ Hs) as Hb. destruct (ok_cache _ Hb) as [peak Hok].
  destruct (tick_run _ _ Hok (ok_mutex _ Hb)) as (c & Hrun & Hg).
  exists (put_cache c s). split; [by apply on_cache_run|].
  destruct (_ <? _); [subst c; by rewrite put_cache_id|].
  destruct Hg as (Hok' & _ & Hp & _ & Hm & _).
  apply put_cache_ok; [done|by exists peak|done|]. rewrite Hp. exact (ok_cached _ Hb).
Qed.

Lemma request_done q pend s :
  sys_ok pend s → request_allowed pend s q →
  ∃ s' pend', run_request q s = Done () s' ∧ sys_ok pend' s'.
Proof.
  intros Hs Ha. destruct q; cbn [run_request request_allowed] in *.
  - destruct (create_done ctx fn d _ _ Hs) as (r & s' & Hrun & Hs' & _).
    exists s', pend. by split; [bind_by exact Hrun|].
  - destruct (mark_of op) as [m|] eqn:Em; [|by exists s, pend].
    destruct (base_job _ _ (ok_base _ _ Hs) Ha) as (j & Hj & Hw).
    destruct (mark_done op m i j s Em Hj Hw) as (r & w' & Hrun & Hw' & _).
    eexists _, pend. split; [by bind_by exact Hrun|]. by eapply with_job_ok.
  - destruct (setready_ok _ _ _ Hs Ha) as (r & s' & Hrun & Hs').
    exists s', pend. by split; [bind_by exact Hrun|].
  - destruct (cas_update_ok _ i s 0 0 0 true Hs Ha) as (r & s' & Hrun & Hs' & _).
    exists s', pend. split; [|done].
    unfold schedi_job_mark_readybasic, schedi_job_mark_or_readiness.
    by bind_by (by bind_by exact Hrun).
  - destruct (job_put_ok (set_required_sockets n) _ _ _ Hs Ha) as (s1 & Hrun1 & Hs1); [done|].
    destruct (cas_update_ok _ i s1 0 0 0 false Hs1 Ha) as (r & s' & Hrun & Hs' & _).
    exists s', pend. split; [|done]. unfold schedi_job_required_available_socket.
    bind_by exact Hrun1. by bind_by exact Hrun.
  - destruct (job_put_ok (set_required_jobs n) _ _ _ Hs Ha) as (s1 & Hrun1 & Hs1); [done|].
    destruct (cas_update_ok _ i s1 0 0 0 false Hs1 Ha) as (r & s' & Hrun & Hs' & _).
    exists s', pend. split; [|done]. unfold schedi_job_required_available_jobs.
    bind_by exact Hrun1. by bind_by exact Hrun.
  - destruct (cas_update_ok _ i s 0 0 1 false Hs Ha) as (r & s' & Hrun & Hs' & _).
    exists s', pend. by split; [bind_by exact Hrun|].
  - destruct Ha as [Hu Ht]. destruct (base_job _ _ (ok_base _ _ Hs) Hu) as (j & Hj & _).
    destruct (job_put_ok (set_requested (Some user) (gen j)) _ _ _ Hs Ht) as (s1 & Hrun1 & Hs1);
      [done|].
    exists s1, pend. split; [|done]. unfold schedi_job_tool_job.
    by bind_by (by apply job_get_run).
  - destruct (pickready_loop_done (S SCHEDI_MAXIMUM_JOBS) _ _ Hs) as (r & s' & Hrun & Hs' & _).
    { destruct (ok_cache _ (ok_base _ _ Hs)) as [peak Hok].
      pose proof (length_somes_le (s_cache s)) as Hle.
      rewrite (ok_length _ _ Hok : length (s_cache s) = _) in Hle. lia. }
    exists s', pend. by split; [bind_by exact Hrun|].
  - destruct Ha as (Hi & Hf & Hp). destruct (base_job _ _ (ok_base _ _ Hs) Hi) as (j & Hj & _).
    destruct (destroy_done _ _ _ _ Hs Hi Hf Hp Hj) as (r & s' & Hrun & Hr).
    destruct (idle j); destruct Hr as (_ & Hs' & _); exists s'; eexists;
      by split; [bind_by exact Hrun|].
  - destruct (queue_check_done _ _ Hs) as (s' & Hrun & Hs' & _). by eexists s', _.
  - destruct (tick_done _ _ Hs) as (s' & Hrun & Hs'). by exists s', pend.
Qed.

(** ** The properties *)

(** C3: from any consistent scheduler state, every allowed operation (create, the
    marks, making ready, the requirements, picking, destroying, the check of the
    destroy queue, the tick of the ready cache) returns - no index out of range, no
    mutex left held, no endless loop - and leaves a consistent state. *)
Theorem scheduler_invariant q pend s :
  sys_ok pend s → request_allowed pend s q →
  wp (run_request q) (λ _ s', ∃ pend', sys_ok pend' s') s.
Proof.
  intros Hs Ha. destruct (request_done q pend s Hs Ha) as (s' & pend' & Hrun & Hs').
  eapply wp_run; [done|by exists pend'].
Qed.


(** C9: an update of a job's counters and readiness succeeds exactly when no ban is
    set and the counts stay in 0..15; it then recomputes the derived bits, and if
    that completes the readiness set - and only then - the job is marked READY and
    put in the ready cache once, with a worker woken; if the job is READY already
    or the cache is full the call says so and nothing is cached. *)
Theorem schedi_job_meta_flag_cas_update_spec pend i j s sd wd jd basic :
  sys_ok pend s → job_at s i j →
  wp (schedi_job_meta_flag_cas_update i sd wd jd (update_flag basic)
        (update_banned basic) false) (λ r s', sys_ok pend s' ∧
    updated i j s (OpUpdate (required_available_sockets j) (required_available_jobs j)
      sd wd jd basic) r s') s.
Proof.
  intros Hs Hj. pose proof (ok_base _ _ Hs) as Hb. pose proof (ok_words _ Hb _ _ Hj) as Hw.
  assert (job_index i) as Hi.
  { unfold job_index. rewrite <-(ok_jobs _ Hb). by eapply lookup_lt_Some. }
  destruct (cas_update_done i j s sd wd jd basic Hj Hw (ok_cache _ Hb) (ok_mutex _ Hb))
    as (r & s' & Hrun & Hu).
  eapply wp_run; [done|]. split; [by eapply updated_ok|done].
Qed.

(** C12: [schedi_job_pickready] always returns, and what it returns is determined by the
    jobs in the first 16 slots of the cache ([pick_spec]): UNSTABLE jobs are dropped, and
    the first other job is returned, unless it is marked WLLDESTROY - then it is dropped
    and the result is NULL - or has 15 accesses - then it goes back and the result is
    NULL; otherwise the result is NULL only when no job is left in these slots.  A
    returned job has one more access and is neither READY nor READYBASIC; NULL leaves
    every job as it was; no other job leaves the cache ([pick_result]). *)
Theorem schedi_job_pickready_spec pend s :
  sys_ok pend s →
  wp schedi_job_pickready (λ r s', sys_ok pend s' ∧ pick_result s r s' ∧ pick_spec s r s') s.
Proof.
  intros Hs. destruct (pickready_loop_done (S SCHEDI_MAXIMUM_JOBS) _ _ Hs)
    as (r & s' & Hrun & Hs' & Hr & Hspec).
  { destruct (ok_cache _ (ok_base _ _ Hs)) as [peak Hok].
    pose proof (length_somes_le (s_cache s)) as Hle.
    rewrite (ok_length _ _ Hok : length (s_cache s) = _) in Hle. lia. }
  by eapply wp_run.
Qed.

(** [schedi_job_destroy_now] does the opposite of what its return values mean: a
    job nobody uses (stable, not executing, not READY, no access) is not destroyed
    but left UNSTABLE and 0 is returned; a job that is executing, READY, accessed or
    UNSTABLE already is torn down at once - generation up, destructor called, word
    zeroed, slot released - and 1 is returned. *)
Theorem schedi_job_destroy_now_spec i j s :
  base_ok s → job_index i → i ∉ free_of s → job_at s i j →
  wp (schedi_job_destroy_now i) (λ r s',
    if idle j then r = 0 ∧ ∃ w', s' = with_job i (set_meta w' j) s ∧
      view_of w' = set_unstable true (view_of (meta_flag j))
    else r = 1 ∧ ∃ p, s' = torn_down i j p s ∧ released i s p) s.
Proof.
  intros Hb Hi Hf Hj. destruct (idle j) eqn:Hidle.
  - destruct (destroy_now_idle i j s Hj (ok_words _ Hb _ _ Hj) Hidle) as (w' & Hrun & _ & Hv).
    eapply wp_run; [done|]. split; [done|]. by exists w'.
  - destruct (destroy_now_busy i j s Hb Hi Hf Hj Hidle) as (p & Hrun & Hp).
    eapply wp_run; [done|]. split; [done|]. by exists p.
Qed.

(** [schedi_job_destroy] of a job in use returns 0 after tearing down a busy job,
    and -1 after queueing an idle one, marked WLLDESTROY and UNSTABLE; it never
    returns -2, because distinct jobs cannot fill the queue. *)
Theorem schedi_job_destroy_spec pend i j s :
  sys_ok pend s → job_index i → i ∉ free_of s → i ∉ pend → job_at s i j →
  wp (schedi_job_destroy i) (λ r s',
    if idle j then
      r = -1 ∧ sys_ok (pend ++ [i]) s' ∧ s_trace s' = s_trace s ∧ free_of s' = free_of s ∧
      ∃ w', s_jobs s' = <[i := set_meta w' j]> (s_jobs s) ∧
        view_of w' = set_unstable true (set_wlldestroy true (view_of (meta_flag j)))
    else
      r = 0 ∧ sys_ok pend s' ∧ s_trace s' = s_trace s ++ dtor_events j ∧
      s_jobs s' = <[i := dead_job j]> (s_jobs s) ∧
      ∃ p, free_of s' = pool_free p ∧ released i s p) s.
Proof.
  intros Hs Hi Hf Hp Hj.
  destruct (destroy_done pend i j s Hs Hi Hf Hp Hj) as (r & s' & Hrun & Hr). by eapply wp_run.
Qed.

(** A check of the destroy queue returns; it tears down exactly the queued jobs
    that are busy or UNSTABLE, calling each one's destructor once, in queue order,
    keeps the others queued (now UNSTABLE) and changes no other job. *)
Theorem schedi_job_destroy_queue_check_spec pend s :
  sys_ok pend s →
  wp schedi_job_destroy_queue_check (λ _ s',
    sys_ok (still_idle s pend) s' ∧ checks pend s s') s.
Proof.
  intros Hs. destruct (queue_check_done pend s Hs) as (s' & Hrun & H'). by eapply wp_run.
Qed.

(** C13: an idle job that is destroyed is gone after the next check of the destroy
    queue: its destructor has been called once with its context, its generation is
    one up, its word is 0 and the queue is empty again. *)
Theorem destroy_then_check i j s :
  sys_ok [] s → job_index i → i ∉ free_of s → job_at s i j → idle j = true →
  wp (schedi_job_destroy i ≫= λ _, schedi_job_destroy_queue_check) (λ _ s',
    sys_ok [] s' ∧ s_trace s' = s_trace s ++ dtor_events j ∧
    ∃ j', job_at s' i j' ∧ gen j' = u64 (gen j + 1) ∧ meta_flag j' = 0 ∧
      state j' = schedi_job_state_nulljob) s.
Proof.
  intros Hs Hi Hf Hj Hidle.
  destruct (destroy_done [] i j s Hs Hi Hf) as (r & s1 & Hrun & Hr);
    [apply not_elem_of_nil|done|].
  rewrite Hidle in Hr. destruct Hr as (_ & Hs1 & Et1 & Ef1 & w' & Ej1 & Hv).
  destruct (queue_check_done _ _ Hs1) as (s2 & Hrun2 & Hs2 & Ht2 & _ & _ & Hjobs).
  assert (job_at s1 i (set_meta w' j)) as Hj1.
  { unfold job_at. rewrite Ej1. apply list_lookup_insert_eq. by eapply lookup_lt_Some. }
  assert (idle (set_meta w' j) = false) as Hni.
  { unfold idle. cbn [op_guard meta_flag set_meta]. by rewrite Hv. }
  destruct (Hjobs i _ Hj1) as (j2 & Hj2 & Hc). rewrite decide_True in Hc by left.
  unfold checked in Hc. rewrite Hni in Hc.
  eapply wp_run; [by bind_by exact Hrun|]. split; [|split].
  - replace (still_idle s1 ([] ++ [i])) with (@nil nat) in Hs2; [done|].
    unfold still_idle. cbn [app]. rewrite filter_cons, decide_False; [done|].
    unfold idle_at. rewrite Hj1. cbn [from_option]. by rewrite Hni.
  - rewrite Ht2, Et1. cbn [app mbind list_bind]. unfold events_at. rewrite Hj1.
    cbn [from_option]. rewrite Hni. by rewrite app_nil_r.
  - exists j2. subst j2. done.
Qed.
End lifecycle.

(** ** The state at start-up *)

Definition null_job : schedi_job :=
  Job 0 0 schedi_job_state_nulljob 0 (RequestsList 0 0 0) 0 None 0 0 None 0%nat 0 None.

(** Static storage after [schedi_job_init]. *)
Definition sys_init : sys :=
  Sys (replicate SCHEDI_MAXIMUM_JOBS null_job) (empty_sections pool_init) false 0
    (replicate SCHEDI_MAXIMUM_JOBS None) 0 0 false 0 dq_zero ∅ [].

Lemma sys_init_ok : sys_ok [] sys_init.
Proof.
  split.
  - split.
    + done.
    + intros i j Hj. unfold job_at, sys_init in Hj. cbn [s_jobs] in Hj.
      apply lookup_replicate in Hj as [-> _]. done.
    + exact (proj1 pool_init_ready).
    + exists 0%nat. exact cache_zero_ok.
    + constructor.
    + done.
  - exact dq_zero_rep.
  - split; [constructor|]. intros i Hi. by apply not_elem_of_nil in Hi.
Qed.

(** ** Witnesses and concrete runs *)

#[local] Existing Instance default_build.
#[local] Existing Instance contiguous_jobs.

(** A state with one idle job in slot 0 (destructor 7, context 42). *)
Definition one_job_run : M sys (option nat) := schedi_job_create 42 3 (Some 7%nat).
Definition state_after {A} (m : M sys A) (s : sys) : sys :=
  match m s with Done _ s' => s' | _ => s end.
Definition sys_one : sys := state_after one_job_run sys_init.

Lemma sys_one_ok : sys_ok [] sys_one.
Proof.
  destruct (create_done 42 3 (Some 7%nat) _ _ sys_init_ok) as (r & s' & Hrun & Hs' & _).
  unfold sys_one, state_after, one_job_run. by rewrite Hrun.
Qed.

Definition job_one : schedi_job :=
  created_job 42 3 (Some 7%nat) null_job.

Lemma sys_one_job : job_at sys_one 0 job_one.
Proof. vm_compute. reflexivity. Qed.

Lemma sys_one_free : (0%nat ∉ free_of sys_one) ∧ job_index 0.
Proof. split; [apply (bool_decide_unpack _); vm_compute; exact I|unfold job_index, SCHEDI_MAXIMUM_JOBS; lia]. Qed.

Lemma scheduler_invariant_witness :
  wp (run_request (RDestroy 0)) (λ _ s', ∃ pend', sys_ok pend' s') sys_one.
Proof.
  apply (scheduler_invariant (RDestroy 0) [] sys_one sys_one_ok).
  split; [apply sys_one_free|split; [apply sys_one_free|apply not_elem_of_nil]].
Defined.


Lemma schedi_job_meta_flag_cas_update_spec_witness :
  wp (schedi_job_meta_flag_cas_update 0 0 1 0 (update_flag false)
        (update_banned false) false) (λ r s', sys_ok [] s' ∧
    updated 0 job_one sys_one (OpUpdate (required_available_sockets job_one)
      (required_available_jobs job_one) 0 1 0 false) r s') sys_one.
Proof.
  apply (schedi_job_meta_flag_cas_update_spec [] 0 job_one sys_one 0 1 0 false).
  - apply sys_one_ok.
  - apply sys_one_job.
Defined.

Lemma schedi_job_destroy_now_spec_witness :
  idle job_one = true ∧
  wp (schedi_job_destroy_now 0) (λ r s',
    if idle job_one then r = 0 ∧ ∃ w', s' = with_job 0 (set_meta w' job_one) sys_one ∧
      view_of w' = set_unstable true (view_of (meta_flag job_one))
    else r = 1 ∧ ∃ p, s' = torn_down 0 job_one p sys_one ∧ released 0 sys_one p) sys_one.
Proof.
  split; [vm_compute; reflexivity|].
  apply (schedi_job_destroy_now_spec 0 job_one sys_one).
  - apply (ok_base [] sys_one sys_one_ok).
  - apply sys_one_free.
  - apply sys_one_free.
  - apply sys_one_job.
Defined.

Lemma schedi_job_destroy_spec_witness :
  wp (schedi_job_destroy 0) (λ r s',
    if idle job_one then
      r = -1 ∧ sys_ok ([] ++ [0%nat]) s' ∧ s_trace s' = s_trace sys_one ∧
      free_of s' = free_of sys_one ∧
      ∃ w', s_jobs s' = <[0%nat := set_meta w' job_one]> (s_jobs sys_one) ∧
        view_of w' = set_unstable true (set_wlldestroy true (view_of (meta_flag job_one)))
    else
      r = 0 ∧ sys_ok [] s' ∧ s_trace s' = s_trace sys_one ++ dtor_events job_one ∧
      s_jobs s' = <[0%nat := dead_job job_one]> (s_jobs sys_one) ∧
      ∃ p, free_of s' = pool_free p ∧ released 0 sys_one p) sys_one.
Proof.
  apply (schedi_job_destroy_spec [] 0 job_one sys_one).
  - apply sys_one_ok.
  - apply sys_one_free.
  - apply sys_one_free.
  - apply not_elem_of_nil.
  - apply sys_one_job.
Defined.

Lemma schedi_job_destroy_queue_check_spec_witness :
  wp schedi_job_destroy_queue_check (λ _ s',
    sys_ok (still_idle sys_one []) s' ∧ checks [] sys_one s') sys_one.
Proof. apply (schedi_job_destroy_queue_check_spec [] sys_one). apply sys_one_ok. Defined.

Lemma destroy_then_check_witness :
  idle job_one = true ∧
  wp (schedi_job_destroy 0 ≫= λ _, schedi_job_destroy_queue_check) (λ _ s',
    sys_ok [] s' ∧ s_trace s' = s_trace sys_one ++ dtor_events job_one ∧
    ∃ j', job_at s' 0 j' ∧ gen j' = u64 (gen job_one + 1) ∧ meta_flag j' = 0 ∧
      state j' = schedi_job_state_nulljob) sys_one.
Proof.
  split; [vm_compute; reflexivity|].
  apply (destroy_then_check 0 job_one sys_one).
  - apply sys_one_ok.
  - apply sys_one_free.
  - apply sys_one_free.
  - apply sys_one_job.
  - vm_compute. reflexivity.
Defined.

(** A job created and made ready. *)
Definition make_ready : M sys unit :=
  one_job_run ≫= λ _, schedi_job_mark_readybasic 0 ≫= λ _, mret ().

Definition sys_ready : sys := state_after (schedi_job_mark_readybasic 0) sys_one.

Lemma sys_ready_ok : sys_ok [] sys_ready.
Proof.
  destruct (cas_update_ok [] 0 sys_one 0 0 0 true sys_one_ok (proj2 sys_one_free))
    as (r & s' & Hrun & Hs' & _).
  unfold sys_ready, state_after, schedi_job_mark_readybasic, schedi_job_mark_or_readiness.
  by rewrite (bind_done _ _ _ _ _ Hrun).
Qed.

Lemma schedi_job_pickready_spec_witness :
  pick_from (s_jobs sys_ready) (window sys_ready) = (Some 0%nat, [0%nat]) ∧
  wp schedi_job_pickready (λ r s', sys_ok [] s' ∧ pick_result sys_ready r s' ∧
    pick_spec sys_ready r s') sys_ready.
Proof.
  split; [vm_compute; reflexivity|].
  apply (schedi_job_pickready_spec [] sys_ready). apply sys_ready_ok.
Defined.

(** Destroying a job that waits in the ready cache frees its slot but leaves its
    entry: the next pick hands out the freed slot, a null job without ALIVE that is
    free in the pool, for a worker to execute. *)
Theorem destroyed_ready_job_is_picked :
  ∃ s1 s2 j, (make_ready ≫= λ _, schedi_job_destroy 0) sys_init = Done 0 s1 ∧
    s_trace s1 = [DtorCalled 7 42] ∧
    schedi_job_pickready s1 = Done (Some 0%nat) s2 ∧ job_at s2 0 j ∧
    state j = schedi_job_state_nulljob ∧ has (meta_flag j) SCHEDI_JOB_METAFLAG_ALIVE = false ∧
    0%nat ∈ free_of s2.
Proof.
  eexists _, _, _. split; [vm_compute; reflexivity|]. split; [vm_compute; reflexivity|].
  split; [vm_compute; reflexivity|]. split; [vm_compute; reflexivity|].
  split; [reflexivity|]. split; [reflexivity|].
  apply (bool_decide_unpack _). vm_compute. exact I.
Qed.

(** Destroying a job while another thread holds an access to it (here the picker)
    tears it down at once; when that thread gives its access back, the access field of
    the freed slot wraps from 0 to 15, and every further access is refused. *)
Theorem destroy_underflows_access :
  ∃ s j, (make_ready ≫= λ _, schedi_job_pickready ≫= λ _, schedi_job_destroy 0 ≫= λ _,
          schedi_job_unmark_access 0 ≫= λ _, schedi_job_mark_access 0) sys_init =
         Done SCHEDI_JOB_METAFLAG_ACCESS s ∧
    job_at s 0 j ∧ SCHEDI_JOB_METAFLAG_GETACCESS (meta_flag j) = 15 ∧ 0%nat ∈ free_of s.
Proof.
  eexists _, _. split; [vm_compute; reflexivity|]. split; [vm_compute; reflexivity|].
  split; [reflexivity|]. apply (bool_decide_unpack _). vm_compute. exact I.
Qed.
