(* ===== verification/Frames.v ===== *)
(** * Parts of the state that operations leave alone

    A frame rule for the scheduler's operations: a projection of the state that ignores
    what the primitive steps of an operation write is kept by the operation.  And the
    other way round: an operation that never looks at a part of the state does the same
    whatever that part is. *)

From S2P Require Export Lifecycle.

Local Open Scope Z_scope.

Definition keeps {B A} (f : sys → B) (m : M sys A) : Prop :=
  ∀ s a s', m s = Done a s' → f s' = f s.

(** What a projection may ignore. *)
Definition ignores_jobs {B} (f : sys → B) : Prop := ∀ x s, f (set_jobs x s) = f s.
Definition ignores_pool {B} (f : sys → B) : Prop := ∀ p s, f (put_pool p s) = f s.
Definition ignores_cache {B} (f : sys → B) : Prop := ∀ c s, f (put_cache c s) = f s.
Definition ignores_dq {B} (f : sys → B) : Prop := ∀ q s, f (put_dq q s) = f s.
Definition ignores_event {B} (f : sys → B) : Prop := ∀ e s, f (add_event e s) = f s.

Create HintDb keeps.

Section keeps.
Context {B : Type} (f : sys → B).

Lemma keeps_bind {A C} (m : M sys A) (k : A → M sys C) :
  keeps f m → (∀ a, keeps f (k a)) → keeps f (m ≫= k).
Proof.
  intros Hm Hk s b s' Hrun. unfold mbind, M_bind in Hrun.
  destruct (m s) as [a s1| |] eqn:E; [|done..]. rewrite (Hk a _ _ _ Hrun). by eapply Hm.
Qed.

Lemma keeps_ret {A} (a : A) : keeps f (mret a).
Proof. by intros s a' s' [= <- <-]. Qed.

Lemma keeps_get {A} (g : schedi_job → A) i : keeps f (job_get g i).
Proof. intros s a s'. unfold job_get, reads. destruct (g <$> _); [by intros [= _ <-]|done]. Qed.

Lemma keeps_gets {A} (g : sys → A) : keeps f (gets g).
Proof. by intros s a s' [= _ <-]. Qed.

Lemma keeps_stuck {A} : keeps f (stuck : M sys A).
Proof. by intros s a s' Hrun. Qed.

Lemma keeps_put g i : ignores_jobs f → keeps f (job_put g i).
Proof.
  intros Hf s a s'. unfold job_put, updates. destruct (s_jobs s !! i); [|done].
  intros [= _ <-]. apply Hf.
Qed.

Lemma keeps_meta {R} (body : Z → attempt Z R) i : ignores_jobs f → keeps f (on_meta body i).
Proof.
  intros Hf. apply keeps_bind; [apply keeps_get|]. intros w. destruct (rmw body w) as [r w'].
  apply keeps_bind; [by apply keeps_put|]. intros _. apply keeps_ret.
Qed.

(** [zoom] on a part that [f] ignores. *)
Lemma keeps_zoom {T A} (get : sys → T) (put : T → sys → sys) (m : M T A) :
  (∀ t s, f (put t s) = f s) → keeps f (zoom get put m).
Proof. intros Hf s a s'. unfold zoom. destruct (m _); [|done..]. intros [= _ <-]. apply Hf. Qed.

Lemma keeps_pool {A} (m : M slot_pool A) : ignores_pool f → keeps f (on_pool m).
Proof. apply keeps_zoom. Qed.
Lemma keeps_cache {A} (m : M ready_cache A) : ignores_cache f → keeps f (on_cache m).
Proof. apply keeps_zoom. Qed.
Lemma keeps_dq {A} (m : M destroy_queue A) : ignores_dq f → keeps f (on_dq m).
Proof. apply keeps_zoom. Qed.
Lemma keeps_event e : ignores_event f → keeps f (modify (add_event e)).
Proof. intros Hf s a s' [= _ <-]. apply Hf. Qed.
End keeps.

#[export] Hint Resolve keeps_ret keeps_get keeps_gets keeps_stuck keeps_put keeps_meta
  keeps_pool keeps_cache keeps_dq keeps_event : keeps.
#[export] Hint Extern 1 (ignores_jobs _) => (intros ??; reflexivity) : keeps.
#[export] Hint Extern 1 (ignores_pool _) => (intros ??; reflexivity) : keeps.
#[export] Hint Extern 1 (ignores_cache _) => (intros ??; reflexivity) : keeps.
#[export] Hint Extern 1 (ignores_dq _) => (intros ??; reflexivity) : keeps.
#[export] Hint Extern 1 (ignores_event _) => (intros ??; reflexivity) : keeps.
Ltac keeps := repeat first
  [ progress intros | apply keeps_bind | solve [auto with keeps] | case_match ].

Section operations.
Context `{BuildConfig, JobAddress} {B : Type} (f : sys → B).
Hypothesis (Hjobs : ignores_jobs f).

Lemma keeps_destroy i :
  ignores_pool f → ignores_dq f → ignores_event f → keeps f (schedi_job_destroy i).
Proof. intros. unfold schedi_job_destroy, schedi_job_destroy_now. keeps. Qed.

Lemma keeps_queue_check :
  ignores_pool f → ignores_dq f → ignores_event f → keeps f schedi_job_destroy_queue_check.
Proof.
  intros Hp Hq He. unfold schedi_job_destroy_queue_check. apply keeps_bind; [keeps|].
  intros htc. generalize (Z.to_nat (HTC_COUNT htc)) as n. clear htc.
  induction n as [|n IH]; cbn [destroy_queue_loop]; [keeps|].
  unfold schedi_job_destroy_now. keeps.
Qed.

Lemma keeps_pickready : ignores_cache f → keeps f schedi_job_pickready.
Proof.
  intros Hc. unfold schedi_job_pickready. generalize (S SCHEDI_MAXIMUM_JOBS) as n.
  induction n as [|n IH]; cbn [pickready_loop]; keeps.
Qed.
End operations.

(** ** Operations that do not look *)

(** [m] does the same from [g s] as from [s]. *)
Definition blind {S A} (g : S → S) (m : M S A) : Prop :=
  ∀ s, m (g s) = match m s with Done a s' => Done a (g s') | Undef => Undef | Stuck => Stuck end.

Create HintDb blind.

Section blind.
Context {S : Type} (g : S → S).

Lemma blind_bind {A C} (m : M S A) (k : A → M S C) :
  blind g m → (∀ a, blind g (k a)) → blind g (m ≫= k).
Proof.
  intros Hm Hk s. unfold mbind, M_bind. rewrite Hm. destruct (m s); [apply Hk|done|done].
Qed.
Lemma blind_ret {A} (a : A) : blind g (mret a).
Proof. done. Qed.
Lemma blind_stuck {A} : blind g (stuck : M S A).
Proof. done. Qed.
Lemma blind_gets {A} (f : S → A) : (∀ s, f (g s) = f s) → blind g (gets f).
Proof. intros Hf s. unfold gets. by rewrite Hf. Qed.
Lemma blind_reads {A} (f : S → option A) : (∀ s, f (g s) = f s) → blind g (reads f).
Proof. intros Hf s. unfold reads. rewrite Hf. by destruct (f s). Qed.
Lemma blind_modify (f : S → S) : (∀ s, f (g s) = g (f s)) → blind g (modify f).
Proof. intros Hf s. unfold modify. by rewrite Hf. Qed.
End blind.

#[export] Hint Resolve blind_ret blind_stuck : blind.
#[export] Hint Extern 2 (blind _ (gets _)) => (apply blind_gets; intros ?; reflexivity) : blind.
#[export] Hint Extern 2 (blind _ (reads _)) => (apply blind_reads; intros ?; reflexivity) : blind.
#[export] Hint Extern 2 (blind _ (modify _)) => (apply blind_modify; intros ?; reflexivity) : blind.
Ltac blind := repeat first
  [ progress intros | apply blind_bind | solve [auto with blind] | case_match ].

(** The mutex of the ready jobs, taken or not. *)
Definition relock (b : bool) (s : sys) : sys := put_cache (set_mutex b (cache_of s)) s.

Section relock.
Variable b : bool.

Lemma blind_on_cache {A} (m : M ready_cache A) :
  blind (set_mutex b) m → blind (relock b) (on_cache m).
Proof.
  intros Hm s. unfold on_cache, zoom.
  change (cache_of (relock b s)) with (set_mutex b (cache_of s)). rewrite Hm.
  by destruct (m (cache_of s)).
Qed.

Lemma blind_get {A} (f : schedi_job → A) i : blind (relock b) (job_get f i).
Proof. apply blind_reads. done. Qed.
Lemma blind_put f i : blind (relock b) (job_put f i).
Proof. intros s. unfold job_put, updates. cbn [relock s_jobs put_cache]. by destruct (_ !! i). Qed.
Lemma blind_meta {R} (body : Z → attempt Z R) i : blind (relock b) (on_meta body i).
Proof.
  apply blind_bind; [apply blind_get|]. intros w. destruct (rmw body w) as [r w'].
  apply blind_bind; [apply blind_put|]. intros _. apply blind_ret.
Qed.

Lemma blind_slot {R} (body : option nat → attempt (option nat) R) i :
  blind (set_mutex b) (slot_rmw body i).
Proof. unfold slot_rmw. blind. Qed.

Lemma blind_pop : blind (set_mutex b) schedi_cache_job_ready_pop.
Proof.
  assert (∀ n i, blind (set_mutex b) (pop_loop n i)) as Hloop.
  { induction n as [|n IH]; intros i; cbn [pop_loop]; [blind|].
    apply blind_bind; [apply blind_slot|]. intros [job|]; [|apply IH].
    unfold schedi_ready_jobs_cache_sub_job_count, bump_counter. blind. }
  unfold schedi_cache_job_ready_pop. apply blind_bind; [blind|]. intros w.
  destruct (_ =? _); [apply blind_ret|apply Hloop].
Qed.

Lemma blind_cache_job i : blind (set_mutex b) (schedi_cache_job_ready i).
Proof.
  unfold schedi_cache_job_ready. generalize 0%nat as k, SCHEDI_MAXIMUM_JOBS as n.
  intros k n. revert k. induction n as [|n IH]; intros k; cbn [cache_loop]; [blind|].
  apply blind_bind; [apply blind_slot|]. intros [|]; [|apply IH].
  unfold schedi_ready_jobs_cache_add_job_count, bump_counter. blind.
Qed.
End relock.

#[export] Hint Resolve blind_get blind_put blind_meta blind_on_cache blind_pop blind_cache_job
  : blind.

(** Picking takes no lock: a worker may do it with the mutex or without. *)
Lemma pickready_blind b : blind (relock b) schedi_job_pickready.
Proof.
  unfold schedi_job_pickready. generalize (S SCHEDI_MAXIMUM_JOBS) as n.
  induction n as [|n IH]; cbn [pickready_loop]; blind.
Qed.
