(* ===== verification/Access.v ===== *)
(** * Updating a job from outside (src/src/jobs.c)

    A returning epoll request and a socket whose readiness changed update a job in the
    same way: take access, compare generations, run [meta_flag_cas_update], give the
    access back.  The lemma here says what the three steps do together. *)

From S2P Require Export Lifecycle.

Local Open Scope Z_scope.

(** What the outside may not change of a job. *)
Definition job_core (j : schedi_job) :=
  (phase j, gen j, epoll_list j, required_available_sockets j, required_available_jobs j,
   (requested_job j, requested_job_gen j, completion_indicator j, run j, context j, dtor j)).

Lemma in_count_avjobs w : in_count (v_avjobs (view_of w) + 0) = true.
Proof.
  apply in_count_spec. rewrite Z.add_0_r. cbn [view_of v_avjobs].
  unfold SCHEDI_JOB_METAFLAG_GETAVJOBS.
  pose proof (field_get_range w SCHEDI_JOB_METAFLAG_AVJOBS_SHIFT 4 ltac:(lia)). lia.
Qed.

Section access.
Context `{BuildConfig, JobAddress}.

Definition completes (rs rj sd wd jd : Z) (v : view) : bool :=
  negb (all_ready v) && all_ready (refresh rs rj sd wd jd false v).

(** The job's state afterwards: the counts moved, the derived flags follow, and if that
    completed the readiness set of a job that was not READY, it is READY and cached. *)
Definition moved_by (i : nat) (j j' : schedi_job) (sd wd jd : Z) (s s' : sys) : Prop :=
  let rs := required_available_sockets j in
  let rj := required_available_jobs j in
  let v := view_of (meta_flag j) in
  job_at s' i j' ∧ job_core j' = job_core j ∧
  ∃ b, view_of (meta_flag j') =
         set_ready (v_ready v || b) (refresh rs rj sd wd jd false v) ∧
    (b = true → completes rs rj sd wd jd v = true ∧ i ∈ somes (s_cache s')) ∧
    (completes rs rj sd wd jd v = true → v_ready v = false →
     (length (somes (s_cache s)) < SCHEDI_MAXIMUM_JOBS)%nat → b = true).

(** The counts of sockets and requests alone. *)
Definition moved_counts (i : nat) (j j' : schedi_job) (sd wd : Z) : sys → sys → Prop :=
  moved_by i j j' sd wd 0.

Lemma set_ready_same v : set_ready (v_ready v) v = v.
Proof. by destruct v. Qed.

(** The update alone, on a job that accepts READY. *)
Lemma updated_moved i j s s' sd wd jd r :
  job_at s i j → updated i j s (OpUpdate (required_available_sockets j)
    (required_available_jobs j) sd wd jd false) r s' →
  let v := view_of (meta_flag j) in
  v_unstable v || v_wlldestroy v = false →
  in_count (v_avsock v + sd) = true → in_count (v_wait v + wd) = true →
  in_count (v_avjobs v + jd) = true →
  r = 0 ∧ ∃ j', moved_by i j j' sd wd jd s s'.
Proof.
  intros Hj Hu v Hban Ha Hw Hjd. unfold updated in Hu. cbv zeta in Hu. fold v in Hu.
  unfold moved_by. cbv zeta. fold v.
  set (rs := required_available_sockets j) in *. set (rj := required_available_jobs j) in *.
  assert (op_guard (OpUpdate rs rj sd wd jd false) v = true) as Hgu.
  { cbn [op_guard andb negb]. by rewrite Ha, Hw, Hjd. }
  rewrite Hgu in Hu. destruct Hu as (-> & w2 & Hw2 & Hv2 & Hrest). cbn [op_effect] in Hv2.
  rewrite Hv2 in Hrest. fold (completes rs rj sd wd jd v) in Hrest.
  set (v2 := refresh rs rj sd wd jd false v) in *.
  assert (v_ready v2 = v_ready v ∧ v_unstable v2 || v_wlldestroy v2 = false) as [Er2 Hban2]
    by done.
  split; [done|]. destruct (completes rs rj sd wd jd v); cycle 1.
  { subst s'. exists (set_meta w2 j). split; [by eapply job_at_with|]. split; [done|].
    exists false. cbn [meta_flag set_meta]. rewrite Hv2, orb_false_r, <-Er2.
    by rewrite set_ready_same. }
  destruct Hrest as (r' & w' & Es & _ & _ & _ & Hcase). cbv zeta in Hcase.
  cbn [meta_flag set_meta] in Hcase. rewrite Hv2 in Hcase.
  exists (set_state schedi_job_state_readywaiting (set_meta w' (set_meta w2 j))).
  split; [rewrite Es; eapply job_at_with; by eapply job_at_with|]. split; [done|].
  cbn [meta_flag set_meta set_state]. cbn [op_guard] in Hcase. rewrite Hban2 in Hcase.
  cbn [orb] in Hcase. rewrite Er2 in Hcase. destruct (v_ready v) eqn:Er; cbn [negb] in Hcase.
  - destruct Hcase as (_ & Hw' & _). exists false. rewrite Hw', Hv2. cbn [orb].
    split; [|done]. by rewrite <-Er2, set_ready_same.
  - destruct Hcase as [(_ & Hv' & Hp & _)|(_ & Hv' & Hfull & _)].
    + exists true. split; [done|]. split; [|done]. intros _. split; [done|]. rewrite Hp. left.
    + exists false. rewrite Hv'. cbn [orb]. split; [by rewrite <-Er2, set_ready_same|].
      split; [done|]. intros _ _ Hlt.
      change (s_cache (with_job i _ s)) with (s_cache s) in Hfull. lia.
Qed.

Lemma updated_counts i j s s' sd wd r :
  job_at s i j → updated i j s (OpUpdate (required_available_sockets j)
    (required_available_jobs j) sd wd 0 false) r s' →
  let v := view_of (meta_flag j) in
  v_unstable v || v_wlldestroy v = false →
  in_count (v_avsock v + sd) = true → in_count (v_wait v + wd) = true →
  r = 0 ∧ ∃ j', moved_counts i j j' sd wd s s'.
Proof. intros Hj Hu v Hban Ha Hw. apply updated_moved; [done..|]. apply in_count_avjobs. Qed.

Lemma accessed_update_by pend i j s sd wd jd :
  sys_ok pend s → job_index i → job_at s i j →
  op_guard OpMarkAccess (view_of (meta_flag j)) = true →
  in_count (v_avsock (view_of (meta_flag j)) + sd) = true →
  in_count (v_wait (view_of (meta_flag j)) + wd) = true →
  in_count (v_avjobs (view_of (meta_flag j)) + jd) = true →
  ∃ w1 s2 s3 j', schedi_job_mark_access i s = Done 0 (with_job i (set_meta w1 j) s) ∧
    schedi_job_meta_flag_cas_update i sd wd jd 0 0 false (with_job i (set_meta w1 j) s) =
      Done 0 s2 ∧
    schedi_job_unmark_access i s2 = Done 0 s3 ∧
    sys_ok pend s3 ∧ same_elsewhere i s s3 ∧ moved_by i j j' sd wd jd s s3.
Proof.
  intros Hs Hi Hj Hg Ha Hw Hjd. set (v := view_of (meta_flag j)) in *.
  pose proof (ok_words _ (ok_base _ _ Hs) _ _ Hj) as Hword.
  destruct (mark_done OpMarkAccess _ i j s eq_refl Hj Hword) as (r1 & w1 & Hrun1 & Hw1 & H1).
  cbv zeta in H1. fold v in H1. rewrite Hg in H1. destruct H1 as [-> Hv1].
  apply andb_true_iff in Hg as [Hban%negb_true_iff Hacc%negb_true_iff%Z.eqb_neq].
  set (j1 := set_meta w1 j) in *. set (s1 := with_job i j1 s) in *.
  assert (job_at s1 i j1) as Hj1 by by eapply job_at_with.
  assert (sys_ok pend s1) as Hs1 by by eapply with_job_ok.
  pose proof (ok_base _ _ Hs1) as Hb1.
  destruct (cas_update_done i j1 s1 sd wd jd false Hj1 Hw1 (ok_cache _ Hb1) (ok_mutex _ Hb1))
    as (r2 & s2 & Hrun2 & Hu).
  pose proof (updated_ok _ _ _ _ _ _ _ Hs1 Hi Hj1 Hu) as Hs2.
  pose proof (updated_elsewhere _ _ _ _ _ _ Hu) as He2.
  destruct (updated_moved i j1 s1 s2 sd wd jd r2 Hj1 Hu)
    as [-> (j2 & Hj2 & Hcore & b & Hv2 & Hb & Hb')];
    try (cbn [j1 meta_flag set_meta]; rewrite Hv1; done).
  cbn [j1 meta_flag set_meta required_available_sockets required_available_jobs] in Hv2, Hb, Hb'.
  rewrite Hv1 in Hv2, Hb, Hb'. cbn [op_effect] in Hv1, Hv2, Hb, Hb'.
  assert (word32 (meta_flag j2)) as Hw2 by (by eapply ok_words; [eapply ok_base|]).
  destruct (mark_done OpUnmarkAccess _ i j2 s2 eq_refl Hj2 Hw2) as (r3 & w3 & Hrun3 & Hw3 & H3).
  cbv zeta in H3. rewrite Hv2 in H3. cbn [op_guard set_ready set_access v_unstable refresh] in H3.
  apply orb_false_iff in Hban as [Eu _]. rewrite Eu in H3. destruct H3 as [-> Hv3].
  exists w1, s2, (with_job i (set_meta w3 j2) s2), (set_meta w3 j2).
  split; [done|]. split; [exact Hrun2|]. split; [done|].
  split; [by eapply with_job_ok|]. split.
  { eapply same_elsewhere_trans; [apply with_job_elsewhere|].
    eapply same_elsewhere_trans; [exact He2|apply with_job_elsewhere]. }
  split; [by eapply job_at_with|]. split; [done|]. exists b. split; [|done].
  cbn [meta_flag set_meta]. rewrite Hv3. cbn [op_effect]. fold v.
  pose proof (getaccess_range (meta_flag j)).
  change (v_access v) with (SCHEDI_JOB_METAFLAG_GETACCESS (meta_flag j)) in Hacc |- *.
  unfold refresh. cbn [set_ready set_access v_access v_ready]. rewrite Z.add_simpl_r, Z.mod_small by lia.
  done.
Qed.

Lemma accessed_update_done pend i j s sd wd :
  sys_ok pend s → job_index i → job_at s i j →
  op_guard OpMarkAccess (view_of (meta_flag j)) = true →
  in_count (v_avsock (view_of (meta_flag j)) + sd) = true →
  in_count (v_wait (view_of (meta_flag j)) + wd) = true →
  ∃ w1 s2 s3 j', schedi_job_mark_access i s = Done 0 (with_job i (set_meta w1 j) s) ∧
    schedi_job_meta_flag_cas_update i sd wd 0 0 0 false (with_job i (set_meta w1 j) s) =
      Done 0 s2 ∧
    schedi_job_unmark_access i s2 = Done 0 s3 ∧
    sys_ok pend s3 ∧ same_elsewhere i s s3 ∧ moved_counts i j j' sd wd s s3.
Proof. intros. apply accessed_update_by; [done..|]. apply in_count_avjobs. Qed.
End access.
