(* ===== verification/Completion.v ===== *)
(** * Completion indicators (src/src/jobs.c, [schedi_completion_indicator_*] and
    [schedi_job_completion_wait])

    The sequential behaviour of one indicator; Wakeup.v has the interleavings of
    waiters and the indicating worker. *)

From S2P Require Export Jobs.

Local Open Scope Z_scope.

Definition schedi_completion_indicator_init : M completion_record unit :=
  modify (λ ind, Indicator false (completion ind) (broadcasts ind)) ≫= λ _,
  modify (λ ind, Indicator (signal_mutex ind) (completion ind) 0) ≫= λ _,
  modify (λ ind, Indicator (signal_mutex ind) false (broadcasts ind)).

(** Destroying a mutex that is held is undefined. *)
Definition schedi_completion_indicator_destroy : M completion_record unit :=
  held ← gets signal_mutex;
  if (held : bool) then undef else mret ().

(** [others]: what other threads do while the caller sleeps. *)
Definition schedi_job_completion_wait (others : M completion_record unit)
    : M completion_record unit :=
  pthread_mutex_lock signal_mutex set_signal_mutex ≫= λ _,
  done ← gets completion;
  (if (done : bool) then mret ()
   else
     pthread_mutex_unlock signal_mutex set_signal_mutex ≫= λ _,
     others ≫= λ _,
     pthread_mutex_lock signal_mutex set_signal_mutex) ≫= λ _,
  pthread_mutex_unlock signal_mutex set_signal_mutex.

Lemma indicate_run ind :
  signal_mutex ind = false →
  indicate ind = Done () (Indicator false true (S (broadcasts ind))).
Proof. destruct ind. cbn. by intros ->. Qed.

(** Waiting for a completion returns at once, whatever other threads do, if the
    completion was indicated before; otherwise it returns when the sleep ends, in the
    state the other threads left - completed if and only if they completed it. *)
Theorem schedi_job_completion_wait_spec others ind :
  signal_mutex ind = false →
  if completion ind then schedi_job_completion_wait others ind = Done () ind
  else ∀ ind', others ind = Done () ind' → signal_mutex ind' = false →
    schedi_job_completion_wait others ind = Done () ind'.
Proof.
  intros Hm. destruct ind as [m c b]. cbn in Hm. subst m. destruct c; cbn [completion].
  - done.
  - intros [m' c' b'] Hothers Hm'. cbn in Hm'. subst m'.
    unfold schedi_job_completion_wait, mbind, M_bind. cbn.
    change (set_signal_mutex false _) with (Indicator false false b). by rewrite Hothers.
Qed.

(** A completion that is indicated while a thread waits ends the wait with the
    completion visible, and one indicated before the wait is not missed. *)
Theorem completion_is_seen ind :
  signal_mutex ind = false →
  wp (schedi_job_completion_wait indicate) (λ _ ind', completion ind' = true) ind ∧
  wp (indicate ≫= λ _, schedi_job_completion_wait stuck)
     (λ _ ind', completion ind' = true) ind.
Proof.
  intros Hm. split.
  - destruct ind as [m c b]. cbn in Hm. subst m. by destruct c.
  - eapply wp_run; [by bind_by (by apply indicate_run)|done].
Qed.

Lemma schedi_job_completion_wait_spec_witness :
  if completion (Indicator false true 1)
  then schedi_job_completion_wait stuck (Indicator false true 1) = Done () (Indicator false true 1)
  else ∀ ind', stuck (Indicator false true 1) = Done () ind' → signal_mutex ind' = false →
    schedi_job_completion_wait stuck (Indicator false true 1) = Done () ind'.
Proof. apply (schedi_job_completion_wait_spec stuck (Indicator false true 1)). reflexivity. Defined.

Lemma completion_is_seen_witness :
  wp (schedi_job_completion_wait indicate) (λ _ ind', completion ind' = true)
    (Indicator false false 0) ∧
  wp (indicate ≫= λ _, schedi_job_completion_wait stuck)
    (λ _ ind', completion ind' = true) (Indicator false false 0).
Proof. apply (completion_is_seen (Indicator false false 0)). reflexivity. Defined.
