(* ===== verification/Wakeup.v ===== *)
(** * Sleeping and waking (worker.c shut-down, jobs.c completion)

    Both protocols have one shape.  A waiter takes a mutex, looks at its flag, and
    sleeps on a condition variable if the flag is clear; a notifier takes the mutex,
    sets all flags, broadcasts and releases.  For the shut-down the waiters are the
    workers, each with its own flag [ctx->shutdown] that it also reads without the
    mutex at the head of its loop; a worker goes back there after a wake-up, and when it
    finds a job at its first look (without the mutex) or at its second (under it).  For a
    completion there is one flag, [indicator->completion], there is no loop, and a woken
    waiter returns.  The step relation is the interleaving of any number of waiters and
    the notifier, with spurious wake-ups. *)

From S2P Require Export Prelude.

Inductive waiter_pc : Type :=
  | WHead       (** at the head of the worker's loop, about to read its flag *)
  | WOutside    (** past it, not in the critical section *)
  | WLocked     (** holds the mutex, about to read its flag *)
  | WChecked    (** read a clear flag, holds the mutex, about to sleep *)
  | WSleeping   (** in pthread_cond_wait, mutex released *)
  | WWoken      (** woken, about to take the mutex again *)
  | WRelocked   (** pthread_cond_wait returned *)
  | WDone.      (** left for good *)

Inductive notifier_pc : Type :=
  | NStart
  | NSetting (k : nat)  (** holds the mutex, [k] flags set *)
  | NBroadcast          (** holds the mutex, broadcast sent *)
  | NDone.

#[export] Instance waiter_pc_eq_dec : EqDecision waiter_pc.
Proof. solve_decision. Defined.

Inductive owner : Type := Nobody | Waiter (i : nat) | Notifier.

Record wakeup_state : Type := WS {
  mutex_owner : owner;
  flags : list bool;
  waiters : list waiter_pc;
  notifier : notifier_pc;
}.

Definition wake (p : waiter_pc) : waiter_pc :=
  match p with WSleeping => WWoken | _ => p end.

Section protocol.
(** Which flag a waiter reads; whether the waiters are workers, which loop. *)
Variables (flag_of : nat → nat) (loops : bool).

(** Where a waiter begins, and where it goes after a wake-up. *)
Definition first_place : waiter_pc := if loops then WHead else WOutside.
Definition after_wake : waiter_pc := if loops then WHead else WDone.

(** [W_peek_set] and [W_peek_clear] are the loop's test [while (!ctx->shutdown)];
    [W_picked] is a worker that gets a job at its first look, runs it and comes back to
    the test, [W_found] one that gets it at its second look and releases the mutex. *)
Inductive wstep : wakeup_state → wakeup_state → Prop :=
  | W_peek_set fs ws n o i :
      ws !! i = Some WHead → fs !! flag_of i = Some true →
      wstep (WS o fs ws n) (WS o fs (<[i := WDone]> ws) n)
  | W_peek_clear fs ws n o i :
      ws !! i = Some WHead → fs !! flag_of i = Some false →
      wstep (WS o fs ws n) (WS o fs (<[i := WOutside]> ws) n)
  | W_picked fs ws n o i :
      loops = true → ws !! i = Some WOutside →
      wstep (WS o fs ws n) (WS o fs (<[i := WHead]> ws) n)
  | W_lock fs ws n i :
      ws !! i = Some WOutside →
      wstep (WS Nobody fs ws n) (WS (Waiter i) fs (<[i := WLocked]> ws) n)
  | W_found fs ws n i :
      loops = true → ws !! i = Some WLocked →
      wstep (WS (Waiter i) fs ws n) (WS Nobody fs (<[i := WHead]> ws) n)
  | W_leave fs ws n i :
      ws !! i = Some WLocked → fs !! flag_of i = Some true →
      wstep (WS (Waiter i) fs ws n) (WS Nobody fs (<[i := WDone]> ws) n)
  | W_check fs ws n i :
      ws !! i = Some WLocked → fs !! flag_of i = Some false →
      wstep (WS (Waiter i) fs ws n) (WS (Waiter i) fs (<[i := WChecked]> ws) n)
  | W_sleep fs ws n i :
      ws !! i = Some WChecked →
      wstep (WS (Waiter i) fs ws n) (WS Nobody fs (<[i := WSleeping]> ws) n)
  | W_spurious fs ws n o i :
      ws !! i = Some WSleeping →
      wstep (WS o fs ws n) (WS o fs (<[i := WWoken]> ws) n)
  | W_relock fs ws n i :
      ws !! i = Some WWoken →
      wstep (WS Nobody fs ws n) (WS (Waiter i) fs (<[i := WRelocked]> ws) n)
  | W_unlock fs ws n i :
      ws !! i = Some WRelocked →
      wstep (WS (Waiter i) fs ws n) (WS Nobody fs (<[i := after_wake]> ws) n)
  | N_lock fs ws :
      wstep (WS Nobody fs ws NStart) (WS Notifier fs ws (NSetting 0))
  | N_set fs ws k :
      k < length fs →
      wstep (WS Notifier fs ws (NSetting k)) (WS Notifier (<[k := true]> fs) ws (NSetting (S k)))
  | N_broadcast fs ws :
      wstep (WS Notifier fs ws (NSetting (length fs)))
            (WS Notifier fs (wake <$> ws) NBroadcast)
  | N_unlock fs ws :
      wstep (WS Notifier fs ws NBroadcast) (WS Nobody fs ws NDone).

(** [n] waiters and [m] flags, all clear. *)
Definition wakeup_init (n m : nat) : wakeup_state :=
  WS Nobody (replicate m false) (replicate n first_place) NStart.

Definition in_section (p : waiter_pc) : bool :=
  match p with WLocked | WChecked | WRelocked => true | _ => false end.

Definition flags_set (n : notifier_pc) (k : nat) (len : nat) : Prop :=
  match n with
  | NStart => False
  | NSetting k' => k < k'
  | NBroadcast | NDone => k < len
  end.

Definition broadcast_sent (n : notifier_pc) : bool :=
  match n with NBroadcast | NDone => true | _ => false end.

Record wakeup_inv (s : wakeup_state) : Prop := {
  inv_waiters i p : waiters s !! i = Some p →
    in_section p = true ↔ mutex_owner s = Waiter i;
  inv_notifier : mutex_owner s = Notifier ↔
    match notifier s with NSetting _ | NBroadcast => True | _ => False end;
  inv_flags k : flags_set (notifier s) k (length (flags s)) → k < length (flags s) →
    flags s !! k = Some true;
  inv_asleep i p : broadcast_sent (notifier s) = true → waiters s !! i = Some p →
    p ≠ WSleeping ∧ p ≠ WChecked;
  inv_count k : notifier s = NSetting k → k ≤ length (flags s);
  inv_index i p : waiters s !! i = Some p → flag_of i < length (flags s);
  inv_owner i : mutex_owner s = Waiter i → is_Some (waiters s !! i);
}.

(** A waiter changes its place without touching the mutex. *)
Lemma inv_move o fs ws n i p q :
  wakeup_inv (WS o fs ws n) → ws !! i = Some p → in_section q = in_section p →
  (broadcast_sent n = true → q ≠ WSleeping ∧ q ≠ WChecked) →
  wakeup_inv (WS o fs (<[i := q]> ws) n).
Proof.
  intros [Hw Hn Hf Ha Hc Hi Ho] Hp Hsec Hq. cbn in *. split; cbn; try done.
  - intros k r. rewrite list_lookup_insert_Some.
    intros [(<- & <- & _)|[_ Hk]]; [rewrite Hsec|]; by apply Hw.
  - intros k r Hs. rewrite list_lookup_insert_Some.
    intros [(<- & <- & _)|[_ Hk]]; [by apply Hq|by eapply Ha].
  - intros k r. rewrite list_lookup_insert_Some. intros [(<- & _)|[_ Hk]]; by eapply Hi.
  - intros k Hk. apply lookup_lt_is_Some. rewrite length_insert.
    apply lookup_lt_is_Some. by apply Ho.
Qed.

(** A waiter enters. *)
Lemma inv_enter fs ws n i p q :
  wakeup_inv (WS Nobody fs ws n) → ws !! i = Some p → in_section q = true →
  (broadcast_sent n = true → q ≠ WSleeping ∧ q ≠ WChecked) →
  wakeup_inv (WS (Waiter i) fs (<[i := q]> ws) n).
Proof.
  intros [Hw Hn Hf Ha Hc Hi Ho] Hp Hsec Hq. cbn in *. split; cbn; try done.
  - intros k r. rewrite list_lookup_insert_Some. intros [(<- & <- & _)|[Hne Hk]]; [done|].
    rewrite (Hw _ _ Hk). split; [done|congruence].
  - rewrite <-Hn. done.
  - intros k r Hs. rewrite list_lookup_insert_Some.
    intros [(<- & <- & _)|[_ Hk]]; [by apply Hq|by eapply Ha].
  - intros k r. rewrite list_lookup_insert_Some. intros [(<- & _)|[_ Hk]]; by eapply Hi.
  - intros k [= <-]. apply lookup_lt_is_Some. rewrite length_insert.
    by eapply lookup_lt_Some.
Qed.

(** A waiter leaves. *)
Lemma inv_leave fs ws n i p q :
  wakeup_inv (WS (Waiter i) fs ws n) → ws !! i = Some p → in_section q = false →
  (broadcast_sent n = true → q ≠ WSleeping ∧ q ≠ WChecked) →
  wakeup_inv (WS Nobody fs (<[i := q]> ws) n).
Proof.
  intros [Hw Hn Hf Ha Hc Hi Ho] Hp Hsec Hq. cbn in *. split; cbn; try done.
  - intros k r. rewrite list_lookup_insert_Some. intros [(<- & <- & _)|[Hne Hk]].
    + by rewrite Hsec.
    + rewrite (Hw _ _ Hk). split; [congruence|done].
  - rewrite <-Hn. done.
  - intros k r Hs. rewrite list_lookup_insert_Some.
    intros [(<- & <- & _)|[_ Hk]]; [by apply Hq|by eapply Ha].
  - intros k r. rewrite list_lookup_insert_Some. intros [(<- & _)|[_ Hk]]; by eapply Hi.
Qed.

(** The waiters' own part does not depend on the notifier's place. *)
Lemma no_waiter_inside fs ws n i p :
  wakeup_inv (WS Notifier fs ws n) → ws !! i = Some p → in_section p = false.
Proof.
  intros [Hw _ _ _ _ _ _] Hp. destruct (in_section p) eqn:E; [|done].
  apply Hw in Hp. cbn in Hp. apply Hp in E. done.
Qed.

Lemma after_wake_out : after_wake = WHead ∨ after_wake = WDone.
Proof. unfold after_wake. destruct loops; auto. Qed.

Lemma wakeup_step s s' : wakeup_inv s → wstep s s' → wakeup_inv s'.
Proof.
  intros Hs Hstep. destruct Hstep as
    [fs ws n o i Hi Hfl|fs ws n o i Hi Hfl|fs ws n o i _ Hi|fs ws n i Hi|fs ws n i _ Hi
    |fs ws n i Hi Hfl|fs ws n i Hi Hfl|fs ws n i Hi
    |fs ws n o i Hi|fs ws n i Hi|fs ws n i Hi|fs ws|fs ws k Hk|fs ws|fs ws].
  - by eapply inv_move.
  - by eapply inv_move.
  - by eapply inv_move.
  - by eapply inv_enter.
  - by eapply inv_leave.
  - by eapply inv_leave.
  - eapply inv_move; [done|done|done|]. intros Hb. exfalso.
    destruct Hs as [_ _ Hf _ _ Hidx _]. cbn in Hf, Hidx.
    rewrite Hf in Hfl; [done| |by eapply Hidx].
    destruct n; cbn in Hb |- *; try done; by eapply Hidx.
  - eapply inv_leave; [done|done|done|]. intros Hb.
    by destruct (inv_asleep _ Hs i _ Hb Hi) as [_ []].
  - by eapply inv_move.
  - by eapply inv_enter.
  - destruct after_wake_out as [-> | ->]; by eapply inv_leave.
  - destruct Hs as [Hw Hn Hf Ha Hc Hi Ho]. cbn in *. split; cbn; try done.
    + intros i p Hp. rewrite (Hw _ _ Hp). done.
    + intros k Hk. lia.
    + intros k [= <-]. lia.
  - destruct Hs as [Hw Hn Hf Ha Hc Hi Ho]. cbn in *. split; cbn; try done.
    + rewrite length_insert. intros k' Hk' Hlen.
      destruct (decide (k' = k)) as [->|Hne]; [by apply list_lookup_insert_eq|].
      rewrite list_lookup_insert_ne by done. apply Hf; lia.
    + rewrite length_insert. intros k' [= <-]. lia.
    + rewrite length_insert. done.
  - pose proof (λ i p, no_waiter_inside _ _ _ i p Hs) as Hout.
    destruct Hs as [Hw Hn Hf Ha Hc Hi Ho]. cbn in *. split; cbn; try done.
    + intros i p. rewrite list_lookup_fmap_Some. intros (p' & -> & Hp).
      specialize (Hout i p' Hp). split; [|done]. by destruct p'.
    + intros i p _. rewrite list_lookup_fmap_Some. intros (p' & -> & Hp).
      specialize (Hout i p' Hp). by destruct p'.
    + intros i p. rewrite list_lookup_fmap_Some. intros (p' & _ & Hp). by eapply Hi.
  - pose proof (λ i p, no_waiter_inside _ _ _ i p Hs) as Hout.
    destruct Hs as [Hw Hn Hf Ha Hc Hi Ho]. cbn in *. split; cbn; try done.
    intros i p Hp. specialize (Hout i p Hp). rewrite Hout. done.
Qed.

Lemma wakeup_init_inv n m : (∀ i, i < n → flag_of i < m) → wakeup_inv (wakeup_init n m).
Proof.
  intros Hm. split; cbn; try done.
  - intros i p [-> _]%lookup_replicate. unfold first_place. by destruct loops.
  - intros i p [_ Hi]%lookup_replicate. rewrite length_replicate. by apply Hm.
Qed.

Lemma wakeup_reachable n m s :
  (∀ i, i < n → flag_of i < m) → rtc wstep (wakeup_init n m) s → wakeup_inv s.
Proof.
  intros Hm Hrtc. pose proof (wakeup_init_inv n m Hm) as Hinit. revert Hinit.
  induction Hrtc; eauto using wakeup_step.
Qed.

(** ** Nobody is left asleep *)

(** C17: whatever the interleaving, once the notifier has sent its broadcast no waiter
    sleeps on the condition variable or is about to: each either had not looked yet,
    and will see its flag, or was woken. *)
Theorem no_lost_wakeup n m s i p :
  (∀ i, i < n → flag_of i < m) → rtc wstep (wakeup_init n m) s →
  broadcast_sent (notifier s) = true → waiters s !! i = Some p →
  p ≠ WSleeping ∧ p ≠ WChecked.
Proof.
  intros Hm Hrtc. apply inv_asleep. by eapply wakeup_reachable.
Qed.

(** How far a waiter is from leaving. *)
Definition rank (p : waiter_pc) : nat :=
  match p with
  | WSleeping => 6 | WWoken => 5 | WRelocked => 4 | WOutside => 3 | WLocked => 2
  | WChecked => 2 | WHead => 1 | WDone => 0
  end.

Definition remaining (s : wakeup_state) : nat := sum_list (rank <$> waiters s).

Lemma remaining_insert ws i p q :
  ws !! i = Some p → rank q < rank p →
  sum_list (rank <$> <[i := q]> ws) < sum_list (rank <$> ws).
Proof.
  intros Hp Hlt. rewrite (insert_split _ _ _ q Hp). rewrite (list_split_at _ _ _ Hp) at 3.
  assert (∀ l k : list nat, sum_list (l ++ k) = sum_list l + sum_list k) as Happ.
  { induction l as [|x l IH]; intros k; cbn; [done|]. rewrite IH. lia. }
  rewrite !fmap_app, !fmap_cons, !Happ. cbn. lia.
Qed.

Lemma done_step s s' :
  wakeup_inv s → notifier s = NDone → wstep s s' →
  notifier s' = NDone ∧ remaining s' < remaining s.
Proof.
  intros Hs Hn Hstep. unfold remaining.
  destruct Hstep as
    [fs ws n o i Hi Hfl|fs ws n o i Hi Hfl|fs ws n o i _ Hi|fs ws n i Hi|fs ws n i _ Hi
    |fs ws n i Hi Hfl|fs ws n i Hi Hfl|fs ws n i Hi
    |fs ws n o i Hi|fs ws n i Hi|fs ws n i Hi|fs ws|fs ws k Hk|fs ws|fs ws];
    cbn [notifier waiters] in *; try done.
  all: split; [done|].
  2, 7: exfalso; subst n; destruct Hs as [_ _ Hf _ _ Hidx _]; cbn in Hf, Hidx;
    rewrite Hf in Hfl; [done|by eapply Hidx|by eapply Hidx].
  1-5: eapply remaining_insert; [done|cbn; lia].
  - exfalso. subst n. by destruct (inv_asleep _ Hs i _ eq_refl Hi) as [_ []].
  - eapply remaining_insert; [done|cbn; lia].
  - eapply remaining_insert; [done|cbn; lia].
  - eapply remaining_insert; [done|]. destruct after_wake_out as [-> | ->]; cbn; lia.
Qed.

Lemma done_progress s :
  wakeup_inv s → notifier s = NDone →
  Forall (λ p, p = WDone) (waiters s) ∨ ∃ s', wstep s s'.
Proof.
  intros Hs Hn. destruct s as [o fs ws n]. cbn in *. subst n.
  destruct (decide (Forall (λ p, p = WDone) ws)) as [|Hnot]; [by left|right].
  destruct o as [|i|].
  - apply not_Forall_Exists in Hnot; [|intros p; exact (decide (p = WDone))].
    apply Exists_exists in Hnot as (p & Hin & Hp).
    apply list_elem_of_lookup in Hin as [i Hi].
    destruct (inv_asleep _ Hs i p eq_refl Hi) as [Hns Hnc].
    destruct (in_section p) eqn:Es.
    { apply (inv_waiters _ Hs i p Hi) in Es. done. }
    destruct p; try done.
    + eexists. apply W_peek_set; [done|]. pose proof (inv_index _ Hs i _ Hi) as Hidx.
      by apply (inv_flags _ Hs).
    + eexists. by apply W_lock.
    + eexists. by apply W_relock.
    + by destruct Hp.
  - destruct (inv_owner _ Hs i eq_refl) as [p Hi]. cbn in Hi.
    destruct (inv_asleep _ Hs i p eq_refl Hi) as [Hns Hnc].
    pose proof (proj2 (inv_waiters _ Hs i p Hi) eq_refl) as Es.
    destruct p; try done.
    + eexists. apply W_leave; [done|]. pose proof (inv_index _ Hs i _ Hi) as Hidx.
      by apply (inv_flags _ Hs).
    + eexists. by apply W_unlock.
  - exfalso. by apply (inv_notifier _ Hs).
Qed.

(** After the notifier is done the waiters drain: every step that any of them can
    take, the finding of one more job included, brings the whole set strictly closer to the
    end, and as long as one of them
    has not left, some step can be taken; so all of them leave. *)
Theorem waiters_drain n m s :
  (∀ i, i < n → flag_of i < m) → rtc wstep (wakeup_init n m) s → notifier s = NDone →
  (∀ s', wstep s s' → notifier s' = NDone ∧ remaining s' < remaining s) ∧
  (Forall (λ p, p = WDone) (waiters s) ∨ ∃ s', wstep s s').
Proof.
  intros Hm Hrtc Hn. pose proof (wakeup_reachable n m s Hm Hrtc) as Hs. split.
  - intros s' Hstep. by apply done_step.
  - by apply done_progress.
Qed.
End protocol.

(** ** The two uses *)

(** Workers: own flag, also read at the loop's head, back to the loop after a wake-up. *)
Definition worker_step : wakeup_state → wakeup_state → Prop := wstep id true.

(** A completion: one flag, read under the mutex only, no loop around the wait. *)
Definition completion_step : wakeup_state → wakeup_state → Prop :=
  wstep (λ _, 0) false.

Definition leavers_flagged (s : wakeup_state) : Prop :=
  ∀ i, waiters s !! i = Some WDone → flags s !! i = Some true.

Lemma leavers_insert o fs ws n i q :
  leavers_flagged (WS o fs ws n) → (q = WDone → fs !! i = Some true) →
  ∀ o', leavers_flagged (WS o' fs (<[i := q]> ws) n).
Proof.
  intros Hs Hq o' k. cbn. rewrite list_lookup_insert_Some.
  intros [(<- & -> & _)|[_ Hk]]; [by apply Hq|by apply Hs].
Qed.

Lemma worker_step_flagged s s' : leavers_flagged s → worker_step s s' → leavers_flagged s'.
Proof.
  intros Hs Hstep. destruct Hstep; try (eapply leavers_insert; [exact Hs|done]); try done.
  - intros j Hj. cbn in *. destruct (decide (j = k)) as [->|].
    + by apply list_lookup_insert_eq.
    + rewrite list_lookup_insert_ne by done. by apply Hs.
  - intros j. cbn. rewrite list_lookup_fmap_Some. intros (p & Ep & Hp). apply Hs.
    cbn. rewrite Hp. by destruct p.
Qed.

(** A worker leaves its loop only after its own shutdown flag was set. *)
Theorem worker_leaves_on_shutdown n s i :
  rtc worker_step (wakeup_init true n n) s → waiters s !! i = Some WDone →
  flags s !! i = Some true.
Proof.
  intros Hrtc. assert (leavers_flagged (wakeup_init true n n)) as Hinit.
  { intros k [[=] _]%lookup_replicate. }
  revert i. change (leavers_flagged s). revert Hinit.
  induction Hrtc; eauto using worker_step_flagged.
Qed.

(** [schedi_job_completion_wait] can return before the completion: after a spurious
    wake-up the waiter leaves although nobody has set the flag, because the wait is
    under an [if] and not in a loop. *)
Theorem completion_wait_spurious :
  ∃ s, rtc completion_step (wakeup_init false 1 1) s ∧
    waiters s !! 0 = Some WDone ∧ flags s !! 0 = Some false ∧ notifier s = NStart.
Proof.
  exists (WS Nobody [false] [WDone] NStart). split; [|done].
  eapply rtc_l; [by apply (W_lock _ _ [false] [WOutside] _ 0)|].
  eapply rtc_l; [by apply (W_check _ _ [false] [WLocked] _ 0)|].
  eapply rtc_l; [by apply (W_sleep _ _ [false] [WChecked] _ 0)|].
  eapply rtc_l; [by apply (W_spurious _ _ [false] [WSleeping] _ _ 0)|].
  eapply rtc_l; [by apply (W_relock _ _ [false] [WWoken] _ 0)|].
  eapply rtc_l; [by apply (W_unlock _ _ [false] [WRelocked] _ 0)|].
  apply rtc_refl.
Qed.

(** ** Witnesses *)

(** One worker that found a job, asleep when the shut-down starts, woken, and gone. *)
Lemma worker_run :
  rtc worker_step (wakeup_init true 1 1) (WS Nobody [true] [WWoken] NDone) ∧
  rtc worker_step (WS Nobody [true] [WWoken] NDone) (WS Nobody [true] [WDone] NDone).
Proof.
  split.
  - eapply rtc_l; [by apply (W_peek_clear _ _ [false] [WHead] _ _ 0)|].
    eapply rtc_l; [by apply (W_lock _ _ [false] [WOutside] _ 0)|].
    eapply rtc_l; [by apply (W_found _ _ [false] [WLocked] _ 0)|].
    eapply rtc_l; [by apply (W_peek_clear _ _ [false] [WHead] _ _ 0)|].
    eapply rtc_l; [by apply (W_lock _ _ [false] [WOutside] _ 0)|].
    eapply rtc_l; [by apply (W_check _ _ [false] [WLocked] _ 0)|].
    eapply rtc_l; [by apply (W_sleep _ _ [false] [WChecked] _ 0)|].
    eapply rtc_l; [apply N_lock|].
    eapply rtc_l; [apply (N_set _ _ [false] _ 0); cbn; lia|].
    eapply rtc_l; [apply (N_broadcast _ _ [true])|].
    eapply rtc_l; [apply N_unlock|]. apply rtc_refl.
  - eapply rtc_l; [by apply (W_relock _ _ [true] [WWoken] _ 0)|].
    eapply rtc_l; [by apply (W_unlock _ _ [true] [WRelocked] _ 0)|].
    eapply rtc_l; [by apply (W_peek_set _ _ [true] [WHead] _ _ 0)|]. apply rtc_refl.
Qed.

Lemma no_lost_wakeup_witness : WWoken ≠ WSleeping ∧ WWoken ≠ WChecked.
Proof.
  apply (no_lost_wakeup id true 1 1
    (WS Nobody [true] [WWoken] NDone) 0).
  - intros i Hi. exact Hi.
  - apply worker_run.
  - reflexivity.
  - reflexivity.
Defined.

Lemma waiters_drain_witness :
  let s := WS Nobody [true] [WWoken] NDone in
  (∀ s', worker_step s s' → notifier s' = NDone ∧ remaining s' < remaining s) ∧
  (Forall (λ p, p = WDone) (waiters s) ∨ ∃ s', worker_step s s').
Proof.
  apply (waiters_drain id true 1 1).
  - intros i Hi. exact Hi.
  - apply worker_run.
  - reflexivity.
Defined.

Lemma worker_leaves_on_shutdown_witness : [true] !! 0 = Some true.
Proof.
  apply (worker_leaves_on_shutdown 1 (WS Nobody [true] [WDone] NDone) 0).
  - etrans; apply worker_run.
  - reflexivity.
Defined.
