(* ===== verification/Worker.v ===== *)
(** * Workers (src/src/worker.c)

    A worker picks a ready job, runs its function, and reschedules it, leaves it
    suspended or completes it, according to what the function returns; between two
    jobs it retries pending destructions and lets the ready cache reorganise.  The
    user's job functions, the thread library and what other threads do while a worker
    sleeps are parameters.  The last part is the shut-down protocol as a step relation
    over any number of workers. *)

From S2P Require Export Lifecycle.

Local Open Scope Z_scope.

Definition SCHEDI_MAX_WORKERS : nat := 512.
Definition SCHEDI_DEFAULT_WORKER_COUNT : Z := 4.

(** [struct schedi_worker_ctx], without the thread handle. *)
Record schedi_worker_ctx : Type := Worker { id : Z; shutdown : Z; alive : Z }.

(** The scheduler's state and the static data of worker.c. *)
Record wsys : Type := WSys {
  w_sys : sys;
  workers : list schedi_worker_ctx;
  worker_count : Z;
}.

Definition set_wsys s w := WSys s (workers w) (worker_count w).
Definition set_workers x w := WSys (w_sys w) x (worker_count w).
Definition set_worker_count x w := WSys (w_sys w) (workers w) x.

Definition on_sys {A} : M sys A → M wsys A := zoom w_sys set_wsys.

Definition worker_get {A} (f : schedi_worker_ctx → A) (i : nat) : M wsys A :=
  reads (λ w, f <$> workers w !! i).
Definition worker_put (f : schedi_worker_ctx → schedi_worker_ctx) (i : nat) : M wsys unit :=
  updates (λ w, (λ c, set_workers (<[i := f c]> (workers w)) w) <$> workers w !! i).

Definition set_id x c := Worker x (shutdown c) (alive c).
Definition set_shutdown x c := Worker (id c) x (alive c).
Definition set_alive x c := Worker (id c) (shutdown c) x.

Section worker.
Context `{BuildConfig, JobAddress}.

(** [code f i]: the function [f] run on job [i].  [others]: what other threads do
    while a worker sleeps on the condition variable.  [pthread_create] and
    [pthread_join] return error codes. *)
Variables (code : nat → nat → M sys Z) (others : M wsys unit)
  (pthread_create pthread_join : nat → M wsys Z).

(** [pthread_cond_wait]: the mutex is released while the thread sleeps and taken
    again before it returns. *)
Definition pthread_cond_wait : M wsys unit :=
  on_sys (on_cache (pthread_mutex_unlock readyjob_mutex set_mutex)) ≫= λ _,
  others ≫= λ _,
  on_sys (on_cache (pthread_mutex_lock readyjob_mutex set_mutex)).

Definition schedi_waitforjob : M wsys unit :=
  pthread_cond_wait ≫= λ _,
  on_sys (on_cache (pthread_mutex_unlock readyjob_mutex set_mutex)).

(** A completed job tells the job that depends on it. *)
Definition notify_requested (i : nat) : M sys unit :=
  rjob ← job_get requested_job i;
  match rjob with
  | None => mret ()
  | Some rj =>
      bans ← schedi_job_mark_access rj;
      if bans =? 0 then
        g ← job_get gen rj;
        rg ← job_get requested_job_gen i;
        when (g =? rg) (schedi_job_add_available_job rj ≫= λ _, mret ()) ≫= λ _,
        schedi_job_unmark_access rj ≫= λ _, mret ()
      else mret ()
  end.

(** What follows the function's return. *)
Definition after_run (i : nat) (ret : Z) : M sys unit :=
  if ret <? 0 then
    schedi_job_completion_indicate i ≫= λ _,
    notify_requested i ≫= λ _,
    schedi_job_destroy i ≫= λ _, mret ()
  else if ret =? 1 then schedi_job_mark_readybasic i ≫= λ _, mret ()
  else mret ().

(** The code from the label [_got_a_job] to the label [_continue], in the pieces other
    workers' calls come between: taking the job ([false] is the [goto _continue]), its
    function, giving it back, and [after_run]. *)
Definition start_job (i : nat) : M sys bool :=
  job_put (set_state schedi_job_state_working) i ≫= λ _,
  bans ← schedi_job_mark_executing i;
  if negb (bans =? 0) then mret false
  else schedi_job_unmark_access i ≫= λ _, mret true.

Definition run_job (i : nat) : M sys Z := f ← job_get run i; code f i.

Definition end_job (i : nat) : M sys unit :=
  job_put (set_state schedi_job_state_suspended) i ≫= λ _,
  schedi_job_unmark_executing i ≫= λ _, mret ().

Definition got_a_job (i : nat) : M sys unit :=
  start_job i ≫= λ started : bool,
  if started then
    ret ← run_job i;
    end_job i ≫= λ _, after_run i ret
  else mret ().

(** The code from [_continue] to the end of the loop's body. *)
Definition between_jobs : M sys unit :=
  schedi_job_destroy_queue_check ≫= λ _,
  on_cache schedi_ready_jobs_cache_reorganize_tick.

(** One turn of the loop of [worker_routine]; [false] is its [break]. *)
Definition worker_turn (me : nat) : M wsys bool :=
  job ← on_sys schedi_job_pickready;
  match job with
  | Some i => on_sys (got_a_job i) ≫= λ _, on_sys between_jobs ≫= λ _, mret true
  | None =>
      if lockless_readyjob then on_sys between_jobs ≫= λ _, mret true
      else
        on_sys (on_cache schedi_pickingreadyjob) ≫= λ _,
        job ← on_sys schedi_job_pickready;
        match job with
        | Some i =>
            on_sys (on_cache schedi_pickedreadyjob) ≫= λ _,
            on_sys (got_a_job i) ≫= λ _, on_sys between_jobs ≫= λ _, mret true
        | None =>
            stop ← worker_get shutdown me;
            if negb (stop =? 0) then
              on_sys (on_cache schedi_pickedreadyjob) ≫= λ _, mret false
            else
              schedi_waitforjob ≫= λ _, on_sys between_jobs ≫= λ _, mret true
        end
  end.

(** [worker_routine]: [fuel] bounds the turns. *)
Fixpoint worker_routine (fuel : nat) (me : nat) : M wsys unit :=
  match fuel with
  | O => stuck
  | S fuel =>
      stop ← worker_get shutdown me;
      if negb (stop =? 0) then worker_put (set_alive 0) me
      else
        again ← worker_turn me;
        if (again : bool) then worker_routine fuel me else worker_put (set_alive 0) me
  end.

(** ** Starting and stopping the workers *)

Fixpoint worker_init_loop (n i : nat) : M wsys Z :=
  match n with
  | O => mret 0
  | S n =>
      worker_put (set_id (Z.of_nat i)) i ≫= λ _,
      worker_put (set_shutdown 0) i ≫= λ _,
      worker_put (set_alive 1) i ≫= λ _,
      err ← pthread_create i;
      if negb (err =? 0) then worker_put (set_alive 0) i ≫= λ _, mret err
      else
        n' ← gets worker_count;
        n' ← int_math (n' + 1);
        modify (set_worker_count n') ≫= λ _,
        worker_init_loop n (S i)
  end.

Definition schedi_worker_init (count : Z) : M wsys Z :=
  worker_init_loop (Z.to_nat (Z.min count (Z.of_nat SCHEDI_MAX_WORKERS))) 0.

Definition schedi_worker_initd : M wsys Z := schedi_worker_init SCHEDI_DEFAULT_WORKER_COUNT.

Fixpoint shutdown_loop (n i : nat) : M wsys unit :=
  match n with
  | O => mret ()
  | S n => worker_put (set_shutdown 1) i ≫= λ _, shutdown_loop n (S i)
  end.

Fixpoint join_loop (n i : nat) (ret : Z) : M wsys Z :=
  match n with
  | O => mret ret
  | S n =>
      err ← pthread_join i;
      join_loop n (S i) (if err =? 0 then ret else err)
  end.

Definition schedi_worker_deinit : M wsys Z :=
  when (negb lockless_readyjob)
    (on_sys (on_cache schedi_lock_readyjob_mutex) ≫= λ _, mret ()) ≫= λ _,
  n ← gets (λ w, Z.to_nat (worker_count w));
  shutdown_loop n 0 ≫= λ _,
  ret ← (if lockless_readyjob then mret 0
         else
           on_sys (on_cache schedi_wake_all_job_waiters_lockless) ≫= λ _,
           on_sys (on_cache schedi_unlock_readyjob_mutex));
  n ← gets (λ w, Z.to_nat (worker_count w));
  ret ← join_loop n 0 ret;
  modify (set_worker_count 0) ≫= λ _,
  mret ret.
End worker.

(** ** One job, run by a worker *)

Section runs.
Context `{BuildConfig, JobAddress}.
Variable code : nat → nat → M sys Z.

Lemma mark_access_run i j s :
  job_at s i j → word32 (meta_flag j) →
  if op_guard OpMarkAccess (view_of (meta_flag j))
  then schedi_job_mark_access i s =
         Done 0 (with_job i (set_meta (rmw mark_access_body (meta_flag j)).2 j) s)
  else ∃ r, r ≠ 0 ∧ schedi_job_mark_access i s = Done r s.
Proof.
  intros Hj Hw. pose proof (mark_run OpMarkAccess _ i j s eq_refl Hj) as Hrun.
  destruct (meta_op_refines_core OpMarkAccess _ Hw) as [_ Hr]. cbn [op_body] in *.
  destruct (op_guard _ _); destruct Hr as [Hr1 Hr2].
  - by rewrite Hrun, Hr1.
  - eexists. split; [exact Hr1|]. rewrite Hrun, Hr2, set_meta_id. by rewrite with_job_same.
Qed.

(** Taking an access and giving it back leaves the state as it was. *)
Lemma access_return_run i j s :
  job_at s i j → word32 (meta_flag j) → op_guard OpMarkAccess (view_of (meta_flag j)) = true →
  schedi_job_unmark_access i
    (with_job i (set_meta (rmw mark_access_body (meta_flag j)).2 j) s) = Done 0 s.
Proof.
  intros Hj Hw Hg.
  rewrite (mark_run OpUnmarkAccess _ i _ _ eq_refl (job_at_with _ _ _ _ Hj)).
  cbn [op_body meta_flag set_meta]. rewrite access_round_trip by done. cbn [fst snd].
  rewrite with_job_twice, set_meta_meta, set_meta_id. by rewrite with_job_same.
Qed.

Lemma in_use_step i i' s s' :
  same_elsewhere i' s s' → (i ∉ free_of s) → (i ∉ free_of s').
Proof. by intros [-> _]. Qed.

(** A mark keeps the invariant and touches one job only. *)
Lemma mark_ok op m pend i s :
  mark_of op = Some m → sys_ok pend s → job_index i →
  ∃ r s', m i s = Done r s' ∧ sys_ok pend s' ∧ same_elsewhere i s s'.
Proof.
  intros Hm Hs Hi. destruct (base_job _ _ (ok_base _ _ Hs) Hi) as (j & Hj & Hw).
  destruct (mark_done op m i j s Hm Hj Hw) as (r & w' & Hrun & Hw' & _).
  exists r, (with_job i (set_meta w' j) s). split; [done|]. split; [|apply with_job_elsewhere].
  by eapply with_job_ok.
Qed.

(** The pointers of a job that completion follows. *)
Definition pointers_ok (i : nat) (s : sys) : Prop :=
  ∀ j, job_at s i j →
    (∀ rj, requested_job j = Some rj → job_index rj) ∧
    (∀ k, completion_indicator j = Some k →
       ∃ ind, s_indicators s !! k = Some ind ∧ signal_mutex ind = false).

Lemma indicate_ok pend i s :
  sys_ok pend s → job_index i → pointers_ok i s →
  ∃ s', schedi_job_completion_indicate i s = Done () s' ∧ sys_ok pend s' ∧
    s_jobs s' = s_jobs s ∧ free_of s' = free_of s ∧ s_trace s' = s_trace s ∧
    ∀ j k, job_at s i j → completion_indicator j = Some k →
      ∃ ind, s_indicators s' !! k = Some ind ∧ completion ind = true ∧ signal_mutex ind = false.
Proof.
  intros Hs Hi Hp. destruct (base_job _ _ (ok_base _ _ Hs) Hi) as (j & Hj & _).
  destruct (Hp j Hj) as [_ Hk]. unfold schedi_job_completion_indicate.
  bind_by (by apply job_get_run). destruct (completion_indicator j) as [k|] eqn:Ek.
  - destruct (Hk k eq_refl) as ([m c b] & Hind & Hm). cbn in Hm. subst m.
    eexists. split; [unfold on_indicator; rewrite Hind; reflexivity|].
    split; [by destruct Hs as [[] ? ?]|]. split_and!; try done.
    intros j' k' Hj' Hk'. assert (j' = j) as -> by (unfold job_at in *; congruence).
    rewrite Ek in Hk'. simplify_eq. cbn [s_indicators set_indicators].
    rewrite lookup_insert_eq. by eexists.
  - exists s. split_and!; try done. intros j' k Hj'.
    assert (j' = j) as -> by (unfold job_at in *; congruence). by rewrite Ek.
Qed.

Lemma notify_ok pend i s :
  sys_ok pend s → job_index i → pointers_ok i s →
  ∃ s', notify_requested i s = Done () s' ∧ sys_ok pend s' ∧
    free_of s' = free_of s ∧ s_trace s' = s_trace s ∧ s_indicators s' = s_indicators s ∧
    ∀ j k, job_at s i j → requested_job j ≠ Some k → s_jobs s' !! k = s_jobs s !! k.
Proof.
  intros Hs Hi Hp. destruct (base_job _ _ (ok_base _ _ Hs) Hi) as (j & Hj & _).
  destruct (Hp j Hj) as [Hrj _].
  assert (∀ s' rj, requested_job j = Some rj → same_elsewhere rj s s' →
    free_of s' = free_of s ∧ s_trace s' = s_trace s ∧ s_indicators s' = s_indicators s ∧
    ∀ j' k, job_at s i j' → requested_job j' ≠ Some k → s_jobs s' !! k = s_jobs s !! k) as Hfin.
  { intros s' rj Erj (? & _ & ? & ? & Hel). split_and!; try done. intros j' k Hj' Hk.
    assert (j' = j) as -> by (unfold job_at in *; congruence). apply Hel. congruence. } unfold notify_requested. bind_by (by apply job_get_run).
  destruct (requested_job j) as [rj|]; [|by exists s].
  specialize (Hrj rj eq_refl). specialize (λ s', Hfin s' rj eq_refl).
  destruct (mark_ok OpMarkAccess _ pend rj s eq_refl Hs Hrj) as (r & s1 & Hrun1 & Hs1 & E1).
  bind_by exact Hrun1. destruct (r =? 0); cycle 1.
  { exists s1. split; [done|]. split; [done|]. by apply Hfin. }
  destruct (base_job _ _ (ok_base _ _ Hs1) Hrj) as (l & Hl & _).
  destruct (base_job _ _ (ok_base _ _ Hs1) Hi) as (j1 & Hj1 & _).
  bind_by (by apply job_get_run). bind_by (by apply job_get_run).
  assert (∃ s2, when (gen l =? requested_job_gen j1)
      (schedi_job_add_available_job rj ≫= λ _, mret ()) s1 = Done () s2 ∧
    sys_ok pend s2 ∧ same_elsewhere rj s1 s2) as (s2 & Hrun2 & Hs2 & E2).
  { destruct (_ =? _); cbn [when].
    - destruct (cas_update_ok pend rj s1 0 0 1 false Hs1 Hrj) as (r2 & s2 & Hrun2 & Hs2 & E2).
      exists s2. by split; [bind_by exact Hrun2|].
    - exists s1. split_and!; try done. }
  bind_by exact Hrun2.
  destruct (mark_ok OpUnmarkAccess _ pend rj s2 eq_refl Hs2 Hrj) as (r3 & s3 & Hrun3 & Hs3 & E3).
  bind_by exact Hrun3. exists s3. split; [done|]. split; [done|]. apply Hfin.
  eauto using same_elsewhere_trans.
Qed.

(** What a job function must respect: it returns, keeps the scheduler consistent,
    does not destroy the job it runs on (it returns a negative value for that), and
    leaves valid pointers in it. *)
Definition code_ok : Prop := ∀ f i pend s,
  sys_ok pend s → job_index i → (i ∉ free_of s) → (i ∉ pend) →
  ∃ ret s' pend', code f i s = Done ret s' ∧ sys_ok pend' s' ∧
    (i ∉ free_of s') ∧ (i ∉ pend') ∧ pointers_ok i s'.

Lemma pointers_step i s s' :
  pointers_ok i s → same_elsewhere i s s' →
  (∀ j', job_at s' i j' → ∃ j, job_at s i j ∧ requested_job j' = requested_job j ∧
     completion_indicator j' = completion_indicator j) → pointers_ok i s'.
Proof.
  intros Hp (_ & _ & _ & Ei & _) Hj j' Hj'.
  destruct (Hj j' Hj') as (j & Hji & -> & ->). rewrite Ei. by apply Hp.
Qed.

Lemma after_run_ok pend i ret s :
  sys_ok pend s → job_index i → (i ∉ free_of s) → (i ∉ pend) → pointers_ok i s →
  ∃ s' pend', after_run i ret s = Done () s' ∧ sys_ok pend' s'.
Proof.
  intros Hs Hi Hf Hni Hp. unfold after_run. destruct (ret <? 0).
  - destruct (indicate_ok _ _ _ Hs Hi Hp) as (s1 & Hrun1 & Hs1 & Ej1 & Ef1 & _ & Hind).
    bind_by exact Hrun1.
    assert (pointers_ok i s1) as Hp1.
    { intros j Hj. assert (job_at s i j) as Hj0 by by unfold job_at in *; rewrite <-Ej1.
      destruct (Hp j Hj0) as [? _]. split; [done|]. intros k Hk.
      destruct (Hind j k Hj0 Hk) as (ind & ? & _ & ?). by exists ind. }
    destruct (notify_ok _ _ _ Hs1 Hi Hp1) as (s2 & Hrun2 & Hs2 & Ef2 & _).
    bind_by exact Hrun2.
    destruct (base_job _ _ (ok_base _ _ Hs2) Hi) as (j & Hj & _).
    destruct (destroy_done pend i j s2 Hs2 Hi ltac:(by rewrite Ef2, Ef1) Hni Hj)
      as (r & s3 & Hrun3 & Hr).
    destruct (idle j); destruct Hr as (_ & Hs3 & _); eexists s3, _;
      (split; [by bind_by exact Hrun3|exact Hs3]).
  - destruct (ret =? 1); [|by exists s, pend].
    destruct (cas_update_ok pend i s 0 0 0 true Hs Hi) as (r & s1 & Hrun & Hs1 & _).
    exists s1, pend. split; [|done].
    unfold schedi_job_mark_readybasic, schedi_job_mark_or_readiness.
    by bind_by (by bind_by exact Hrun).
Qed.

Lemma put_state_ok pend st i s :
  sys_ok pend s → job_index i →
  ∃ s', job_put (set_state st) i s = Done () s' ∧ sys_ok pend s' ∧ same_elsewhere i s s'.
Proof.
  intros Hs Hi. destruct (base_job _ _ (ok_base _ _ Hs) Hi) as (j & Hj & Hw).
  eexists. split; [by apply job_put_run|]. split; [|apply with_job_elsewhere].
  by eapply with_job_ok.
Qed.

Lemma pointers_put f i j s :
  pointers_ok i s → job_at s i j → requested_job (f j) = requested_job j →
  completion_indicator (f j) = completion_indicator j →
  pointers_ok i (with_job i (f j) s).
Proof.
  intros Hp Hj Er Ec. eapply pointers_step; [done|apply with_job_elsewhere|].
  intros j' Hj'. exists j. split; [done|].
  pose proof (job_at_with i (f j) s j Hj) as Hj''. unfold job_at in *.
  assert (j' = f j) as -> by congruence. done.
Qed.

Lemma start_job_ok pend i s :
  sys_ok pend s → job_index i →
  ∃ r s', start_job i s = Done r s' ∧ sys_ok pend s' ∧ same_elsewhere i s s'.
Proof.
  intros Hs Hi. unfold start_job.
  destruct (put_state_ok pend schedi_job_state_working i s Hs Hi) as (s1 & Hrun1 & Hs1 & E1).
  bind_by exact Hrun1.
  destruct (mark_ok OpMarkExecuting _ pend i s1 eq_refl Hs1 Hi) as (r & s2 & Hrun2 & Hs2 & E2).
  bind_by exact Hrun2. destruct (negb (r =? 0)); [exists false, s2; eauto using same_elsewhere_trans|].
  destruct (mark_ok OpUnmarkAccess _ pend i s2 eq_refl Hs2 Hi) as (r3 & s3 & Hrun3 & Hs3 & E3).
  bind_by exact Hrun3. exists true, s3. eauto 6 using same_elsewhere_trans.
Qed.

Lemma end_job_ok pend i s :
  sys_ok pend s → job_index i →
  ∃ s', end_job i s = Done () s' ∧ sys_ok pend s' ∧ same_elsewhere i s s' ∧
    (pointers_ok i s → pointers_ok i s').
Proof.
  intros Hs Hi. unfold end_job. destruct (base_job _ _ (ok_base _ _ Hs) Hi) as (j & Hj & Hw).
  bind_by (by apply job_put_run). set (j1 := set_state schedi_job_state_suspended j).
  set (s1 := with_job i j1 s).
  assert (sys_ok pend s1) as Hs1 by by eapply with_job_ok.
  assert (job_at s1 i j1) as Hj1 by by eapply job_at_with.
  destruct (mark_done OpUnmarkExecuting _ i j1 s1 eq_refl Hj1 Hw) as (r & w & Hrun & Hw' & _).
  bind_by exact Hrun. eexists. split; [done|]. split; [by eapply with_job_ok|]. split.
  - eapply same_elsewhere_trans; apply with_job_elsewhere.
  - intros Hp. apply (pointers_put (set_meta w)); [|done..].
    by apply (pointers_put (set_state schedi_job_state_suspended)).
Qed.

Lemma got_a_job_ok pend i s :
  code_ok → sys_ok pend s → job_index i → (i ∉ free_of s) → (i ∉ pend) →
  ∃ s' pend', got_a_job code i s = Done () s' ∧ sys_ok pend' s'.
Proof.
  intros Hcode Hs Hi Hf Hni. unfold got_a_job.
  destruct (start_job_ok pend i s Hs Hi) as (ok & s3 & Hrun3 & Hs3 & E3). bind_by exact Hrun3.
  destruct ok; [|by exists s3, pend].
  destruct (base_job _ _ (ok_base _ _ Hs3) Hi) as (j3 & Hj3 & _).
  destruct (Hcode (run j3) i pend s3 Hs3 Hi (in_use_step _ _ _ _ E3 Hf) Hni)
    as (ret & s4 & pend4 & Hrun4 & Hs4 & Hf4 & Hni4 & Hp4).
  bind_by (unfold run_job; bind_by (by apply job_get_run); exact Hrun4).
  destruct (end_job_ok pend4 i s4 Hs4 Hi) as (s6 & Hrun6 & Hs6 & E6 & Hp6).
  bind_by exact Hrun6.
  apply (after_run_ok pend4); [done|done|by eapply in_use_step|done|by apply Hp6].
Qed.

Lemma between_jobs_ok pend s :
  sys_ok pend s →
  ∃ s', between_jobs s = Done () s' ∧ sys_ok (still_idle s pend) s' ∧
    s_trace s' = s_trace s ++ (pend ≫= events_at s) ∧
    ∀ k j, job_at s k j → ∃ j', job_at s' k j' ∧
      if decide (k ∈ pend) then checked j j' else j' = j.
Proof.
  intros Hs. destruct (queue_check_done _ _ Hs) as (s1 & Hrun1 & Hs1 & Ht & _ & _ & Hjobs).
  pose proof (ok_base _ _ Hs1) as Hb1. destruct (ok_cache _ Hb1) as [peak Hok].
  destruct (tick_done _ _ Hs1) as (s2 & Hrun2 & Hs2).
  unfold between_jobs. bind_by exact Hrun1. exists s2. split; [done|]. split; [done|].
  assert (s_jobs s2 = s_jobs s1 ∧ s_trace s2 = s_trace s1) as [Ej Et].
  { unfold on_cache, zoom in Hrun2.
    destruct (schedi_ready_jobs_cache_reorganize_tick (cache_of s1)); by simplify_eq. }
  rewrite Et. split; [done|]. intros k j Hj. destruct (Hjobs k j Hj) as (j' & Hj' & Hc).
  exists j'. split; [|done]. unfold job_at. by rewrite Ej.
Qed.

(** ** The properties of one turn *)

(** A worker that got a job in use runs it to the end and goes through the
    clean-up: whatever the user's functions do within the rules ([code_ok]), nothing
    blocks, no index is out of range, and the scheduler is consistent again. *)
Theorem worker_runs_job pend i s :
  code_ok → sys_ok pend s → job_index i → (i ∉ free_of s) → (i ∉ pend) →
  wp (got_a_job code i ≫= λ _, between_jobs) (λ _ s', ∃ pend', sys_ok pend' s') s.
Proof.
  intros Hcode Hs Hi Hf Hni.
  destruct (got_a_job_ok pend i s Hcode Hs Hi Hf Hni) as (s1 & pend1 & Hrun1 & Hs1).
  destruct (between_jobs_ok pend1 s1 Hs1) as (s2 & Hrun2 & Hs2 & _).
  eapply wp_run; [by bind_by exact Hrun1|]. by eexists.
Qed.

(** A job whose function returns a negative value is completed: its indicator is
    set, and after the clean-up its destructor has been called once with its context,
    its slot is a null job one generation further on, and nothing is left queued. *)
Theorem completed_job_is_destroyed i j ret s :
  sys_ok [] s → job_index i → (i ∉ free_of s) → pointers_ok i s → job_at s i j →
  requested_job j ≠ Some i → idle j = true → ret < 0 →
  wp (after_run i ret ≫= λ _, between_jobs) (λ _ s',
    sys_ok [] s' ∧ s_trace s' = s_trace s ++ dtor_events j ∧
    ∃ j', job_at s' i j' ∧ gen j' = u64 (gen j + 1) ∧ meta_flag j' = 0 ∧
      state j' = schedi_job_state_nulljob) s.
Proof.
  intros Hs Hi Hf Hp Hj Hself Hidle Hret. unfold after_run.
  destruct (Z.ltb_spec ret 0); [|lia].
  destruct (indicate_ok _ _ _ Hs Hi Hp) as (s1 & Hrun1 & Hs1 & Ej1 & Ef1 & Et1 & Hind).
  assert (job_at s1 i j) as Hj1 by by unfold job_at; rewrite Ej1.
  assert (pointers_ok i s1) as Hp1.
  { intros j' Hj'. assert (j' = j) as -> by (unfold job_at in *; congruence).
    destruct (Hp j Hj) as [? _]. split; [done|]. intros k Hk.
    destruct (Hind j k Hj Hk) as (ind & ? & _ & ?). by exists ind. }
  destruct (notify_ok _ _ _ Hs1 Hi Hp1) as (s2 & Hrun2 & Hs2 & Ef2 & Et2 & _ & Hj2).
  assert (job_at s2 i j) as Hji2 by by unfold job_at; rewrite (Hj2 j i).
  destruct (destroy_done [] i j s2 Hs2 Hi ltac:(by rewrite Ef2, Ef1)
    ltac:(apply not_elem_of_nil) Hji2) as (r & s3 & Hrun3 & Hr).
  rewrite Hidle in Hr. destruct Hr as (_ & Hs3 & Et3 & _ & w' & Ej3 & Hv).
  assert (job_at s3 i (set_meta w' j)) as Hj3.
  { unfold job_at. rewrite Ej3. apply list_lookup_insert_eq. by eapply lookup_lt_Some. }
  assert (idle (set_meta w' j) = false) as Hni.
  { unfold idle. cbn [op_guard meta_flag set_meta]. by rewrite Hv. }
  destruct (between_jobs_ok _ _ Hs3) as (s4 & Hrun4 & Hs4 & Et4 & Hjobs).
  destruct (Hjobs i _ Hj3) as (j4 & Hj4 & Hc). rewrite decide_True in Hc by left.
  unfold checked in Hc. rewrite Hni in Hc.
  eapply wp_run.
  { bind_by (bind_by exact Hrun1; bind_by exact Hrun2; by bind_by exact Hrun3). exact Hrun4. }
  split; [|split].
  - replace (still_idle s3 ([] ++ [i])) with (@nil nat) in Hs4; [done|].
    unfold still_idle. cbn [app]. rewrite filter_cons, decide_False; [done|].
    unfold idle_at. rewrite Hj3. cbn [from_option]. by rewrite Hni.
  - rewrite Et4, Et3, Et2, Et1. cbn [app mbind list_bind]. unfold events_at. rewrite Hj3.
    cbn [from_option]. rewrite Hni. by rewrite app_nil_r.
  - exists j4. by subst j4.
Qed.

(** A completion that arrives for a slot whose generation has moved on (the
    waiting job is gone, its slot perhaps reused) changes nothing at all. *)
Theorem stale_completion_ignored i rj j l s :
  base_ok s → job_at s i j → requested_job j = Some rj → rj ≠ i → job_at s rj l →
  gen l ≠ requested_job_gen j →
  notify_requested i s = Done () s.
Proof.
  intros Hb Hj Hr Hne Hl Hg. unfold notify_requested.
  bind_by (by apply job_get_run). rewrite Hr.
  pose proof (mark_access_run rj l s Hl (ok_words _ Hb _ _ Hl)) as Hacc.
  destruct (op_guard OpMarkAccess _) eqn:Eg.
  - bind_by exact Hacc. rewrite Z.eqb_refl. set (s1 := with_job rj _ s).
    assert (job_at s1 rj (set_meta (rmw mark_access_body (meta_flag l)).2 l)) as Hl1
      by by eapply job_at_with.
    assert (job_at s1 i j) as Hj1 by by apply job_at_with_ne.
    bind_by (by apply job_get_run). bind_by (by apply job_get_run). cbn [gen set_meta].
    destruct (Z.eqb_spec (gen l) (requested_job_gen j)); [done|]. cbn [when].
    bind_by done.
    bind_by (apply access_return_run; [done|by apply (ok_words _ Hb rj)|done]). done.
  - destruct Hacc as (r & Hr0 & Hrun). bind_by exact Hrun. apply Z.eqb_neq in Hr0.
    by rewrite Hr0.
Qed.
End runs.

(** ** Starting and stopping *)

Section start_stop.
Context `{BuildConfig, JobAddress}.

(** The thread library's answers, as error codes. *)
Variables create_code join_code : nat → Z.
Definition create_answer (i : nat) : M wsys Z := mret (create_code i).
Definition join_answer (i : nat) : M wsys Z := mret (join_code i).

Definition worker_at (w : wsys) (i : nat) (c : schedi_worker_ctx) : Prop :=
  workers w !! i = Some c.
Definition with_worker (i : nat) (c : schedi_worker_ctx) (w : wsys) : wsys :=
  set_workers (<[i := c]> (workers w)) w.

Lemma worker_put_run f i c w :
  worker_at w i c → worker_put f i w = Done () (with_worker i (f c) w).
Proof. unfold worker_at, worker_put, updates. by intros ->. Qed.

Lemma worker_at_with i c c' w : worker_at w i c' → worker_at (with_worker i c w) i c.
Proof.
  unfold worker_at. intros Hc. apply list_lookup_insert_eq. by eapply lookup_lt_Some.
Qed.

Lemma with_worker_twice i c1 c2 w : with_worker i c2 (with_worker i c1 w) = with_worker i c2 w.
Proof. unfold with_worker, set_workers. cbn. by rewrite list_insert_insert_eq. Qed.

(** The workers [i..i+k) are set up. *)
Definition started (i k : nat) (w w' : wsys) : Prop :=
  (∀ j, (i <= j < i + k)%nat → worker_at w' j (Worker (Z.of_nat j) 0 1)) ∧
  (∀ j, ¬ (i <= j < i + k)%nat → workers w' !! j = workers w !! j) ∧
  length (workers w') = length (workers w) ∧ w_sys w' = w_sys w.

Lemma init_loop_done n i w :
  (i + n <= length (workers w))%nat →
  0 <= worker_count w → worker_count w + Z.of_nat n < 2 ^ 31 →
  ∃ r w' k, worker_init_loop create_answer n i w = Done r w' ∧ (k <= n)%nat ∧
    worker_count w' = worker_count w + Z.of_nat k ∧
    (∀ j, (i <= j < i + k)%nat → create_code j = 0) ∧
    if decide (k = n) then r = 0 ∧ started i k w w'
    else r = create_code (i + k) ∧ r ≠ 0 ∧
      ∃ w1, started i k w w1 ∧
        w' = with_worker (i + k) (Worker (Z.of_nat (i + k)) 0 0) w1.
Proof.
  revert i w. induction n as [|n IH]; intros i w Hlen Hc0 Hc; cbn [worker_init_loop].
  - exists 0, w, 0%nat. split; [done|]. split; [lia|]. split; [lia|]. split; [lia|].
    rewrite decide_True by done. split; [done|]. split_and!; try done. lia.
  - destruct (lookup_lt_is_Some_2 (workers w) i) as [c Hc1]; [lia|].
    bind_by (by apply (worker_put_run _ i c)).
    bind_by (by eapply worker_put_run, worker_at_with). rewrite with_worker_twice.
    bind_by (by eapply worker_put_run, worker_at_with). rewrite with_worker_twice.
    bind_by done. cbn [set_id set_shutdown set_alive id shutdown alive].
    set (w1 := with_worker i (Worker (Z.of_nat i) 0 1) w).
    destruct (Z.eqb_spec (create_code i) 0) as [E|E]; cbn [negb].
    + bind_by done. change (worker_count (with_worker i ?x w)) with (worker_count w).
      bind_by (apply int_math_run; lia). bind_by done.
      set (w2 := set_worker_count (worker_count w + 1) w1).
      destruct (IH (S i) w2) as (r & w' & k & Hrun & Hk & Hcnt & Hzero & Hres).
      { cbn. rewrite length_insert. lia. }
      { cbn. lia. }
      { cbn. lia. }
      assert (∀ w'', started (S i) k w2 w'' → started i (S k) w w'') as Hst.
      { intros w'' (Hin & Hout & Hl & Hsy). split_and!.
        - intros j Hj. destruct (decide (j = i)) as [->|]; [|apply Hin; lia].
          unfold worker_at. rewrite Hout by lia. cbn. apply list_lookup_insert_eq. lia.
        - intros j Hj. rewrite Hout by lia. cbn. apply list_lookup_insert_ne. lia.
        - rewrite Hl. cbn. apply length_insert.
        - done. }
      exists r, w', (S k). split; [done|]. split; [lia|]. split; [cbn in Hcnt; lia|].
      split.
      { intros j Hj. destruct (decide (j = i)) as [->|]; [done|apply Hzero; lia]. }
      replace (i + S k)%nat with (S i + k)%nat by lia.
      destruct (decide (k = n)) as [->|Hne].
      * rewrite decide_True by done. destruct Hres as [-> Hs]. split; [done|]. by apply Hst.
      * rewrite decide_False by lia. destruct Hres as (-> & ? & w3 & Hs & ->).
        split; [done|]. split; [done|]. exists w3. split; [by apply Hst|done].
    + bind_by (by eapply (worker_put_run _ i), (worker_at_with i _ c)).
      unfold w1. rewrite with_worker_twice.
      eexists _, _, 0%nat. split; [done|]. split; [lia|]. split; [cbn; lia|].
      split; [lia|]. rewrite decide_False by lia. rewrite Nat.add_0_r.
      split; [done|]. split; [done|]. exists w. split; [|done].
      split_and!; try done. lia.
Qed.

(** Starting [count] workers sets up workers 0, 1, ... in order (capped at 512)
    and counts them; it stops at the first one the thread library refuses, which is
    marked not alive and not counted, and returns that error; else it returns 0. *)
Theorem schedi_worker_init_spec count w :
  length (workers w) = SCHEDI_MAX_WORKERS →
  0 <= worker_count w → worker_count w + Z.of_nat SCHEDI_MAX_WORKERS < 2 ^ 31 →
  let n := Z.to_nat (Z.min count (Z.of_nat SCHEDI_MAX_WORKERS)) in
  wp (schedi_worker_init create_answer count) (λ r w',
    ∃ k, (k <= n)%nat ∧ worker_count w' = worker_count w + Z.of_nat k ∧
      (∀ j, (j < k)%nat → create_code j = 0) ∧
      if decide (k = n) then r = 0 ∧ started 0 k w w'
      else r = create_code k ∧ r ≠ 0 ∧
        ∃ w1, started 0 k w w1 ∧ w' = with_worker k (Worker (Z.of_nat k) 0 0) w1) w.
Proof.
  intros Hlen Hc0 Hc n. unfold SCHEDI_MAX_WORKERS in *.
  destruct (init_loop_done n 0 w) as (r & w' & k & Hrun & Hk & Hcnt & Hz & Hres);
    [unfold n; lia|done|unfold n; lia|].
  eapply wp_run; [exact Hrun|]. exists k. split_and!; [done|done| |done].
  intros j Hj. apply Hz. lia.
Qed.

Lemma shutdown_loop_done n i w :
  (i + n <= length (workers w))%nat →
  ∃ w', shutdown_loop n i w = Done () w' ∧ w_sys w' = w_sys w ∧
    worker_count w' = worker_count w ∧ length (workers w') = length (workers w) ∧
    ∀ j c, worker_at w j c →
      worker_at w' j (if decide (i <= j < i + n)%nat then set_shutdown 1 c else c).
Proof.
  revert i w. induction n as [|n IH]; intros i w Hlen; cbn [shutdown_loop].
  - exists w. split_and!; try done. intros j c Hj. rewrite decide_False by lia. done.
  - destruct (lookup_lt_is_Some_2 (workers w) i) as [c Hc]; [lia|].
    bind_by (by apply (worker_put_run _ i c)). set (w1 := with_worker _ _ w).
    destruct (IH (S i) w1) as (w' & Hrun & Hsys & Hcnt & Hl & Hw);
      [cbn; rewrite length_insert; lia|].
    exists w'. split_and!; [done|done|done| |].
    { rewrite Hl. cbn. apply length_insert. }
    intros j d Hj. destruct (decide (j = i)) as [->|Hne].
    + unfold worker_at in Hj. simplify_eq. specialize (Hw i _ (worker_at_with i _ _ _ Hc)).
      rewrite decide_False in Hw by lia. by rewrite decide_True by lia.
    + assert (worker_at w1 j d) as Hj1 by (unfold worker_at; cbn; by rewrite list_lookup_insert_ne).
      specialize (Hw j d Hj1). do 2 case_decide; try done; lia.
Qed.

Lemma join_loop_done n i ret w :
  (∀ j, (i <= j < i + n)%nat → join_code j = 0) →
  join_loop join_answer n i ret w = Done ret w.
Proof.
  revert i ret. induction n as [|n IH]; intros i ret Hj; cbn [join_loop]; [done|].
  bind_by done. rewrite (Hj i) by lia. rewrite Z.eqb_refl. apply IH. intros j Hj'.
  apply Hj. lia.
Qed.

Lemma on_sys_run {A} (m : M sys A) w a s :
  m (w_sys w) = Done a s → on_sys m w = Done a (set_wsys s w).
Proof. apply (zoom_done w_sys set_wsys). Qed.

(** The number of wake-ups a broadcast adds, in this build. *)
Definition broadcast_wakeups : nat := if lockless_readyjob then 0%nat else 1%nat.

Lemma deinit_done w n :
  worker_count w = Z.of_nat n → (n <= length (workers w))%nat →
  s_readyjob_mutex (w_sys w) = false → (∀ j, (j < n)%nat → join_code j = 0) →
  ∃ w', schedi_worker_deinit join_answer w = Done 0 w' ∧ worker_count w' = 0 ∧
    (∀ j c, worker_at w j c →
       worker_at w' j (if decide (j < n)%nat then set_shutdown 1 c else c)) ∧
    w_sys w' = put_cache (set_wakeups (s_wakeups (w_sys w) + broadcast_wakeups)
                 (cache_of (w_sys w))) (w_sys w).
Proof.
  intros Hcnt Hlen Hm Hj. unfold schedi_worker_deinit, broadcast_wakeups.
  destruct w as [[jobs secs lk fl ca jc rc mx wk q ind tr] ws cnt]. cbn in Hcnt, Hlen, Hm.
  subst mx cnt. destruct lockless_readyjob; cbn [negb when].
  - bind_by done. bind_by done. cbn [worker_count]. rewrite Nat2Z.id.
    destruct (shutdown_loop_done n 0 (WSys (Sys jobs secs lk fl ca jc rc false wk q ind tr)
      ws (Z.of_nat n))) as (w1 & Hrun & Hsys & Hc & Hl & Hw); [cbn; lia|].
    bind_by exact Hrun. bind_by done. bind_by done. rewrite Hc. cbn [worker_count].
    rewrite Nat2Z.id. bind_by (apply join_loop_done; intros; apply Hj; lia). bind_by done.
    eexists. split; [done|]. split; [done|]. split.
    + intros j c Hjc. specialize (Hw j c Hjc). do 2 case_decide; try done; lia.
    + cbn. rewrite Hsys. cbn. by rewrite Nat.add_0_r.
  - bind_by (by bind_by done). bind_by done. cbn [worker_count set_wsys]. rewrite Nat2Z.id.
    destruct (shutdown_loop_done n 0 (WSys (Sys jobs secs lk fl ca jc rc true wk q ind tr)
      ws (Z.of_nat n))) as (w1 & Hrun & Hsys & Hc & Hl & Hw); [cbn; lia|].
    bind_by exact Hrun.
    assert (∃ w2, (on_sys (on_cache schedi_wake_all_job_waiters_lockless) ≫= λ _,
        on_sys (on_cache schedi_unlock_readyjob_mutex)) w1 = Done 0 w2 ∧
      workers w2 = workers w1 ∧ worker_count w2 = worker_count w1 ∧
      w_sys w2 = Sys jobs secs lk fl ca jc rc false (S wk) q ind tr) as (w2 & Hrun2 & E1 & E2 & E3).
    { destruct w1 as [s1 ws1 c1]. cbn in Hsys. subst s1. eexists. by split. }
    bind_by exact Hrun2. bind_by done. rewrite E2, Hc. cbn [worker_count]. rewrite Nat2Z.id.
    bind_by (apply join_loop_done; intros; apply Hj; lia). bind_by done.
    eexists. split; [done|]. split; [done|]. split.
    + intros j c Hjc. specialize (Hw j c Hjc). unfold worker_at in *. cbn. rewrite E1.
      do 2 case_decide; try done; lia.
    + cbn. rewrite E3. by rewrite Nat.add_1_r.
Qed.

(** Shutting down marks every started worker, with one broadcast (none in a
    lockless build), forgets the workers and leaves the mutex free and the scheduler
    otherwise untouched. *)
Theorem schedi_worker_deinit_spec w n :
  worker_count w = Z.of_nat n → (n <= length (workers w))%nat →
  s_readyjob_mutex (w_sys w) = false → (∀ j, (j < n)%nat → join_code j = 0) →
  wp (schedi_worker_deinit join_answer) (λ r w', r = 0 ∧ worker_count w' = 0 ∧
    (∀ j c, worker_at w j c →
       worker_at w' j (if decide (j < n)%nat then set_shutdown 1 c else c)) ∧
    w_sys w' = put_cache (set_wakeups (s_wakeups (w_sys w) + broadcast_wakeups)
                 (cache_of (w_sys w))) (w_sys w)) w.
Proof.
  intros Hcnt Hlen Hm Hj. destruct (deinit_done w n Hcnt Hlen Hm Hj) as (w' & Hrun & H').
  by eapply wp_run.
Qed.

Lemma shutdown_loop_out n i w :
  (i <= length (workers w) < i + n)%nat → shutdown_loop n i w = Undef.
Proof.
  revert i w. induction n as [|n IH]; intros i w Hlen; [lia|]. cbn [shutdown_loop].
  destruct (decide (i = length (workers w))) as [->|Hne].
  - unfold mbind, M_bind, worker_put, updates.
    by rewrite (proj2 (lookup_ge_None (workers w) _)) by lia.
  - destruct (lookup_lt_is_Some_2 (workers w) i) as [c Hc]; [lia|].
    bind_by (by apply (worker_put_run _ i c)). apply IH. cbn. rewrite length_insert. lia.
Qed.

(** ** A worker that finds nothing to do *)

Lemma pick_nothing fuel s peak :
  cache_ok (cache_of s) peak → (SCHEDI_JOBS_CACHE_CHECK <= candidate (cache_of s))%nat →
  pickready_loop (S fuel) s = Done None s.
Proof.
  intros Hok Hge. cbn [pickready_loop].
  destruct (pop_run _ _ Hok) as [(Hlt & _)|[_ Hrun]]; [lia|].
  bind_by (by apply on_cache_run). by rewrite put_cache_id.
Qed.

(** A worker that finds no job and sees its shutdown flag, which it reads with the
    mutex held, leaves its loop with the mutex released and nothing changed. *)
Theorem worker_stops code others me c w peak :
  lockless_readyjob = false → cache_ok (cache_of (w_sys w)) peak →
  s_readyjob_mutex (w_sys w) = false →
  (SCHEDI_JOBS_CACHE_CHECK <= candidate (cache_of (w_sys w)))%nat →
  worker_at w me c → shutdown c ≠ 0 →
  worker_turn code others me w = Done false w.
Proof.
  intros Hl Hok Hm Hge Hme Hsd. unfold worker_turn, schedi_job_pickready.
  bind_by (by eapply on_sys_run, pick_nothing). rewrite Hl.
  destruct w as [[jobs secs lk fl ca jc rc mx wk q ind tr] ws cnt]. cbn in Hm. subst mx.
  bind_by done.
  bind_by (eapply on_sys_run; apply (pick_nothing _ _ peak);
           [by apply (locked_ok (Cache ca jc rc fl false wk))|done]).
  unfold worker_get, worker_at in *. cbn in Hme.
  bind_by (unfold reads; cbn; by rewrite Hme). apply Z.eqb_neq in Hsd. rewrite Hsd.
  cbn [negb]. done.
Qed.
End start_stop.

(** ** Witnesses and concrete runs *)

#[local] Existing Instance default_build.
#[local] Existing Instance contiguous_jobs.

Definition wsys_init : wsys :=
  WSys sys_init (replicate SCHEDI_MAX_WORKERS (Worker 0 0 0)) 0.

(** The workers of two starts are counted together although both use the table from
    its beginning: after starting 512 workers and then one more, shutting down indexes
    beyond the table of 512. *)
Theorem second_init_overflows :
  (schedi_worker_init (create_answer (λ _, 0)) 512 ≫= λ _,
   schedi_worker_init (create_answer (λ _, 0)) 1 ≫= λ _,
   schedi_worker_deinit (join_answer (λ _, 0))) wsys_init = Undef.
Proof. vm_compute. reflexivity. Qed.

Lemma schedi_worker_init_spec_witness :
  let n := Z.to_nat (Z.min 4 (Z.of_nat SCHEDI_MAX_WORKERS)) in
  wp (schedi_worker_init (create_answer (λ j, if decide (j = 2)%nat then 11 else 0)) 4) (λ r w',
    ∃ k, (k <= n)%nat ∧ worker_count w' = worker_count wsys_init + Z.of_nat k ∧
      (∀ j, (j < k)%nat → (if decide (j = 2)%nat then 11 else 0) = 0) ∧
      if decide (k = n) then r = 0 ∧ started 0 k wsys_init w'
      else r = (if decide (k = 2)%nat then 11 else 0) ∧ r ≠ 0 ∧
        ∃ w1, started 0 k wsys_init w1 ∧ w' = with_worker k (Worker (Z.of_nat k) 0 0) w1)
    wsys_init.
Proof.
  apply (schedi_worker_init_spec (λ j, if decide (j = 2)%nat then 11 else 0) 4 wsys_init).
  - reflexivity.
  - cbn. lia.
  - cbn. unfold SCHEDI_MAX_WORKERS. lia.
Defined.

Definition wsys_two : wsys := set_worker_count 2 wsys_init.

Lemma schedi_worker_deinit_spec_witness :
  wp (schedi_worker_deinit (join_answer (λ _, 0))) (λ r w', r = 0 ∧ worker_count w' = 0 ∧
    (∀ j c, worker_at wsys_two j c →
       worker_at w' j (if decide (j < 2)%nat then set_shutdown 1 c else c)) ∧
    w_sys w' = put_cache (set_wakeups (s_wakeups (w_sys wsys_two) + broadcast_wakeups)
                 (cache_of (w_sys wsys_two))) (w_sys wsys_two)) wsys_two.
Proof.
  apply (schedi_worker_deinit_spec (λ _, 0) wsys_two 2).
  - reflexivity.
  - cbn. lia.
  - reflexivity.
  - done.
Defined.

Definition idle_code (f i : nat) : M sys Z := mret 0.
Definition wsys_stop : wsys := with_worker 0 (Worker 0 1 1) wsys_init.

Lemma worker_stops_witness : worker_turn idle_code stuck 0 wsys_stop = Done false wsys_stop.
Proof.
  apply (worker_stops idle_code stuck 0 (Worker 0 1 1) wsys_stop 0).
  - reflexivity.
  - apply cache_zero_ok.
  - reflexivity.
  - apply (bool_decide_unpack _). vm_compute. exact I.
  - reflexivity.
  - done.
Defined.

(** User code that returns a fixed value and leaves the job without pointers. *)
Definition finishing_code (ret : Z) (f i : nat) : M sys Z :=
  job_put (λ j, Job (phase j) (gen j) (state j) (meta_flag j) (epoll_list j)
    (required_available_sockets j) None 0 (required_available_jobs j) None (run j)
    (context j) (dtor j)) i ≫= λ _, mret ret.

Lemma finishing_code_ok ret : code_ok (finishing_code ret).
Proof.
  intros f i pend s Hs Hi Hf Hni.
  destruct (base_job _ _ (ok_base _ _ Hs) Hi) as (j & Hj & Hw).
  eexists ret, _, pend. unfold finishing_code. split; [by bind_by (by apply job_put_run)|].
  split; [by eapply with_job_ok|]. split; [done|]. split; [done|].
  intros j' Hj'. pose proof (job_at_with i (Job (phase j) (gen j) (state j) (meta_flag j)
    (epoll_list j) (required_available_sockets j) None 0 (required_available_jobs j) None
    (run j) (context j) (dtor j)) s j Hj) as Hj''.
  unfold job_at in *. rewrite Hj' in Hj''. by simplify_eq.
Qed.

Lemma worker_runs_job_witness :
  wp (got_a_job (finishing_code (-1)) 0 ≫= λ _, between_jobs)
    (λ _ s', ∃ pend', sys_ok pend' s') sys_one.
Proof.
  apply (worker_runs_job (finishing_code (-1)) [] 0 sys_one).
  - apply finishing_code_ok.
  - apply sys_one_ok.
  - apply sys_one_free.
  - apply sys_one_free.
  - apply not_elem_of_nil.
Defined.

Lemma sys_one_pointers : pointers_ok 0 sys_one.
Proof.
  intros j Hj. pose proof sys_one_job as H1. unfold job_at in *. rewrite H1 in Hj.
  simplify_eq. by split.
Qed.

Lemma completed_job_is_destroyed_witness :
  wp (after_run 0 (-1) ≫= λ _, between_jobs) (λ _ s',
    sys_ok [] s' ∧ s_trace s' = s_trace sys_one ++ dtor_events job_one ∧
    ∃ j', job_at s' 0 j' ∧ gen j' = u64 (gen job_one + 1) ∧ meta_flag j' = 0 ∧
      state j' = schedi_job_state_nulljob) sys_one.
Proof.
  apply (completed_job_is_destroyed 0 job_one (-1) sys_one).
  - apply sys_one_ok.
  - apply sys_one_free.
  - apply sys_one_free.
  - apply sys_one_pointers.
  - apply sys_one_job.
  - done.
  - vm_compute. reflexivity.
  - lia.
Defined.

(** Job 0 was asked for by a job of slot 1 whose generation was 5; slot 1 is at 0. *)
Definition sys_stale : sys :=
  with_job 0 (set_requested (Some 1%nat) 5 job_one) sys_one.

Lemma stale_completion_ignored_witness : notify_requested 0 sys_stale = Done () sys_stale.
Proof.
  apply (stale_completion_ignored 0 1 (set_requested (Some 1%nat) 5 job_one) null_job sys_stale).
  - apply (base_with_job 0 job_one); [apply (ok_base [] sys_one sys_one_ok)|apply sys_one_job|].
    exact (ok_words sys_one (ok_base [] sys_one sys_one_ok) 0 job_one sys_one_job).
  - vm_compute. reflexivity.
  - reflexivity.
  - done.
  - vm_compute. reflexivity.
  - done.
Defined.
