(* ===== verification/Dependencies.v ===== *)
(** * Jobs that wait for jobs (src/src/jobs.c and worker.c)

    A job requires the completion of others ([schedi_job_tool_job],
    [schedi_job_required_available_jobs]); every completed job counts itself in the one
    that asked for it, and the last one that was missing makes it READY. *)

From S2P Require Export Worker Access Frames.

Local Open Scope Z_scope.

Ltac fields := cbn [set_ready refresh v_unstable v_wlldestroy v_access v_readybasic v_wait
  v_avsock v_readyepolltool v_readyepollsock v_readyjob v_avjobs v_ready meta_flag set_meta
  set_required_jobs required_available_sockets required_available_jobs].

Section dependencies.
Context `{BuildConfig, JobAddress}.

(** An indicator that nobody holds stays, free and set if it was. *)
Definition keeps_unlocked (s s' : sys) : Prop :=
  ∀ k ind, s_indicators s !! k = Some ind → signal_mutex ind = false →
    ∃ ind', s_indicators s' !! k = Some ind' ∧ signal_mutex ind' = false ∧
      (completion ind = true → completion ind' = true).

Lemma indicate_keeps i s s' :
  schedi_job_completion_indicate i s = Done () s' →
  s_cache s' = s_cache s ∧ keeps_unlocked s s'.
Proof.
  unfold schedi_job_completion_indicate, mbind, M_bind, job_get, reads.
  destruct (completion_indicator <$> s_jobs s !! i) as [[k0|]|]; [| |done]; cycle 1.
  { intros [= <-]. split; [done|]. by intros k ind; exists ind. }
  unfold on_indicator. destruct (s_indicators s !! k0) as [[m0 c0 b0]|] eqn:E; [|done].
  destruct m0; [done|]. intros [= <-]. split; [done|]. intros k ind Hk Hm.
  cbn [s_indicators set_indicators]. destruct (decide (k = k0)) as [->|Hne].
  - rewrite lookup_insert_eq. by eexists.
  - rewrite lookup_insert_ne by done. by exists ind.
Qed.

(** An update that completes nothing keeps the cache. *)
Lemma update_keeps_cache i j s s' sd wd jd basic r :
  updated i j s (OpUpdate (required_available_sockets j) (required_available_jobs j)
    sd wd jd basic) r s' →
  let v := view_of (meta_flag j) in
  negb (all_ready v) && all_ready (refresh (required_available_sockets j)
    (required_available_jobs j) sd wd jd basic v) = false →
  s_cache s' = s_cache s.
Proof.
  intros Hu v Hno. unfold updated in Hu. cbv zeta in Hu. fold v in Hu. destruct (op_guard _ v); [|by destruct Hu as [_ ->]].
  destruct Hu as (_ & w1 & _ & Hv & Hrest). cbn [op_effect] in Hv. cbv zeta in Hrest.
  rewrite Hv, Hno in Hrest. by subst s'.
Qed.

(** ** What the waiting job and the jobs it waits for look like *)

(** Job [p] has everything but completed jobs: it is READY, and cached, exactly when
    [required_available_jobs] of them are there. *)
Record awaits (p : nat) (j : schedi_job) (s : sys) : Prop := {
  aw_open : v_unstable (view_of (meta_flag j)) || v_wlldestroy (view_of (meta_flag j)) = false;
  aw_access : v_access (view_of (meta_flag j)) ≠ 15;
  aw_basic : v_readybasic (view_of (meta_flag j)) = true;
  aw_wait : v_wait (view_of (meta_flag j)) = 0;
  aw_sock : required_available_sockets j <= v_avsock (view_of (meta_flag j));
  aw_sets : v_readyepolltool (view_of (meta_flag j)) = true ∧
    v_readyepollsock (view_of (meta_flag j)) = true;
  aw_jobs : v_readyjob (view_of (meta_flag j)) =
    (required_available_jobs j <=? v_avjobs (view_of (meta_flag j)));
  aw_ready : v_ready (view_of (meta_flag j)) = v_readyjob (view_of (meta_flag j));
  aw_cached : if v_ready (view_of (meta_flag j)) then p ∈ somes (s_cache s)
    else (length (somes (s_cache s)) < SCHEDI_MAXIMUM_JOBS)%nat;
}.

(** Job [i] will tell the job in slot [p] of generation [g] when it completes. *)
Record depends (pend : list nat) (p : nat) (g : Z) (s : sys) (i : nat) (l : schedi_job) : Prop := {
  dp_job : job_at s i l;
  dp_other : i ≠ p;
  dp_used : i ∉ free_of s;
  dp_kept : i ∉ pend;
  dp_idle : idle l = true;
  dp_asked : requested_job l = Some p ∧ requested_job_gen l = g;
  dp_pointers : pointers_ok i s;
}.

(** [schedi_job_tool_job] for every job of a list. *)
Fixpoint tool_jobs (user : nat) (targets : list nat) : M sys unit :=
  match targets with
  | [] => mret ()
  | t :: ts => schedi_job_tool_job user t ≫= λ _, tool_jobs user ts
  end.

(** The jobs whose functions returned, in the order in which workers complete them. *)
Fixpoint complete_all (runs : list (nat * Z)) : M sys unit :=
  match runs with
  | [] => mret ()
  | (i, ret) :: runs => after_run i ret ≫= λ _, complete_all runs
  end.

Lemma avjobs_range w : 0 <= v_avjobs (view_of w) < 16.
Proof. apply in_count_spec. rewrite <-(Z.add_0_r (v_avjobs _)). apply in_count_avjobs. Qed.

Lemma in_count_same w :
  in_count (v_avsock (view_of w) + 0) = true ∧ in_count (v_wait (view_of w) + 0) = true.
Proof.
  rewrite !Z.add_0_r, !in_count_spec. split.
  - apply (field_get_range w SCHEDI_JOB_METAFLAG_AVSOCK_SHIFT 4). lia.
  - apply (field_get_range w SCHEDI_JOB_METAFLAG_WAIT_SHIFT 4). lia.
Qed.

(** ** One completion *)

(** The word after taking access. *)
Lemma accessed_word p j s w1 pend :
  sys_ok pend s → job_at s p j → op_guard OpMarkAccess (view_of (meta_flag j)) = true →
  schedi_job_mark_access p s = Done 0 (with_job p (set_meta w1 j) s) →
  word32 w1 ∧ view_of w1 = op_effect OpMarkAccess (view_of (meta_flag j)).
Proof.
  intros Hs Hj Hg Hrun.
  destruct (mark_done OpMarkAccess _ p j s eq_refl Hj (ok_words _ (ok_base _ _ Hs) _ _ Hj))
    as (r & w & Hrun' & Hw & Hv).
  cbv zeta in Hv. rewrite Hg in Hv. destruct Hv as [-> Hv]. rewrite Hrun in Hrun'.
  injection Hrun' as Heq. pose proof (job_at_with p (set_meta w j) s j Hj) as H1.
  pose proof (job_at_with p (set_meta w1 j) s j Hj) as H2. unfold job_at, with_job in *.
  cbn [s_jobs set_jobs] in H1, H2. rewrite Heq, H1 in H2. injection H2 as ->. done.
Qed.

Lemma notify_run pend p g s i l j :
  sys_ok pend s → depends pend p g s i l → job_at s p j → gen j = g →
  op_guard OpMarkAccess (view_of (meta_flag j)) = true → v_avjobs (view_of (meta_flag j)) < 15 →
  ∃ s' j', notify_requested i s = Done () s' ∧ sys_ok pend s' ∧ same_elsewhere p s s' ∧
    moved_by p j j' 0 0 1 s s' ∧
    (completes (required_available_sockets j) (required_available_jobs j) 0 0 1
       (view_of (meta_flag j)) = false → s_cache s' = s_cache s).
Proof.
  intros Hs [Hl Hne _ _ _ [Hr Hrg] _] Hj Hg Hacc Hroom.
  pose proof (job_index_at _ _ _ _ Hs Hj) as Hp.
  pose proof (avjobs_range (meta_flag j)) as Hrange.
  destruct (in_count_same (meta_flag j)) as [Hca Hcw].
  destruct (accessed_update_by pend p j s 0 0 1 Hs Hp Hj Hacc Hca Hcw
    ltac:(apply in_count_spec; lia)) as (w1 & s2 & s3 & j' & Hr1 & Hr2 & Hr3 & Hs3 & He & Hm).
  exists s3, j'. split; [|split; [done|split; [done|split; [done|]]]].
  - unfold notify_requested. bind_by (by apply job_get_run). rewrite Hr. bind_by exact Hr1.
    rewrite Z.eqb_refl. bind_by (by eapply job_get_run, job_at_with).
    bind_by (by eapply job_get_run, job_at_with_ne). cbn [gen set_meta].
    rewrite Hrg, Hg, Z.eqb_refl. cbn [when]. bind_by (by bind_by exact Hr2).
    by bind_by exact Hr3.
  - intros Hno. rewrite (keeps_meta s_cache _ _ ltac:(done) _ _ _ Hr3).
    destruct (accessed_word p j s w1 pend Hs Hj Hacc Hr1) as [Hw1 Hv1].
    set (s1 := with_job p (set_meta w1 j) s) in *.
    assert (job_at s1 p (set_meta w1 j)) as Hj1 by by eapply job_at_with.
    assert (sys_ok pend s1) as Hs1 by by eapply with_job_ok.
    destruct (cas_update_done p _ s1 0 0 1 false Hj1 Hw1 (ok_cache _ (ok_base _ _ Hs1))
      (ok_mutex _ (ok_base _ _ Hs1))) as (r2 & s2' & Hr2' & Hu).
    change (update_flag false) with 0 in Hr2'. change (update_banned false) with 0 in Hr2'.
    unfold schedi_job_add_available_job in Hr2. rewrite Hr2 in Hr2'. injection Hr2' as <- <-.
    rewrite (update_keeps_cache _ _ _ _ _ _ _ _ _ Hu); [done|].
    cbn [meta_flag set_meta]. by rewrite Hv1.
Qed.

Lemma awaits_moved p j j' s s' :
  awaits p j s → moved_by p j j' 0 0 1 s s' →
  (completes (required_available_sockets j) (required_available_jobs j) 0 0 1
     (view_of (meta_flag j)) = false → s_cache s' = s_cache s) →
  awaits p j' s' ∧ job_core j' = job_core j ∧
  v_avjobs (view_of (meta_flag j')) = v_avjobs (view_of (meta_flag j)) + 1.
Proof.
  intros [Hopen Hacc Hbasic Hwait Hsock [Ht Hsk] Hjobs Hready Hcached] Hm Hkeep.
  unfold moved_by in Hm. cbv zeta in Hm.
  destruct Hm as (Hj' & Hcore & b & Hv & Hb & Hb').
  set (v := view_of (meta_flag j)) in *.
  pose proof Hcore as Hcore'. unfold job_core in Hcore'.
  injection Hcore' as _ _ _ Ers Erj _ _ _ _ _ _.
  assert (completes (required_available_sockets j) (required_available_jobs j) 0 0 1 v =
    negb (v_readyjob v) && (required_available_jobs j <=? v_avjobs v + 1)) as Ec.
  { unfold completes, all_ready. cbn [refresh v_readybasic v_readyepolltool v_readyepollsock
      v_readyjob]. rewrite Hbasic, Ht, Hsk, Hwait, !Z.add_0_r. cbn [orb andb Z.eqb].
    by rewrite (proj2 (Z.leb_le _ _) Hsock). }
  rewrite Ec in Hkeep, Hb, Hb'.
  assert (v_ready v || b = (required_available_jobs j <=? v_avjobs v + 1) ∧
    if v_ready v || b then p ∈ somes (s_cache s')
    else (length (somes (s_cache s')) < SCHEDI_MAXIMUM_JOBS)%nat) as [Hr2 Hc2].
  { rewrite Hready in Hcached |- *. rewrite Hready in Hb'. rewrite Hjobs in Hkeep, Hb, Hb', Hcached |- *.
    destruct (Z.leb_spec (required_available_jobs j) (v_avjobs v)) as [Hle|Hgt].
    - rewrite (proj2 (Z.leb_le _ (v_avjobs v + 1))) by lia. cbn. by rewrite Hkeep.
    - cbn [negb andb orb] in *. destruct (Z.leb_spec (required_available_jobs j) (v_avjobs v + 1)).
      + rewrite Hb' by done. split; [done|]. by apply Hb, Hb'.
      + destruct b; [by destruct (Hb eq_refl)|]. by rewrite Hkeep. }
  split; [|by rewrite Hv]. apply Z.leb_le in Hsock.
  split; rewrite Hv, ?Ers, ?Erj; fields;
    rewrite ?Hbasic, ?Hwait, ?Z.add_0_r; try done.
  by apply Z.leb_le.
Qed.

(** What the completion of job [i] leaves behind: its indicator is set, and its slot
    waits in the destroy queue. *)
Definition completed (i : nat) (l : schedi_job) (s : sys) : Prop :=
  (∃ w, job_at s i (set_meta w l) ∧
     view_of w = set_unstable true (set_wlldestroy true (view_of (meta_flag l)))) ∧
  ∀ k, completion_indicator l = Some k →
    ∃ ind, s_indicators s !! k = Some ind ∧ completion ind = true ∧ signal_mutex ind = false.

Lemma depends_step pend pend' p g s s' k l :
  depends pend p g s k l → s_jobs s' !! k = s_jobs s !! k → free_of s' = free_of s →
  keeps_unlocked s s' → k ∉ pend' → depends pend' p g s' k l.
Proof.
  intros [Hl Hne Hf Hni Hidle Hasked Hp] Ej Ef Hun Hni'.
  split; [unfold job_at; by rewrite Ej|done|by rewrite Ef|done..|].
  intros l' Hl'. assert (job_at s k l') as Hl'' by (unfold job_at in *; congruence).
  destruct (Hp l' Hl'') as [? Hk]. split; [done|]. intros c Hc.
  destruct (Hk c Hc) as (ind & Hin & Hm). destruct (Hun c ind Hin Hm) as (ind' & ? & ? & _).
  by exists ind'.
Qed.

Lemma awaits_frame p j s s' : awaits p j s → s_cache s' = s_cache s → awaits p j s'.
Proof. intros [] Ec. split; try done. by rewrite Ec. Qed.

Lemma complete_one pend p s i l ret j :
  sys_ok pend s → depends pend p (gen j) s i l → ret < 0 → job_at s p j → awaits p j s →
  v_avjobs (view_of (meta_flag j)) < 15 →
  ∃ s' j', after_run i ret s = Done () s' ∧ sys_ok (pend ++ [i]) s' ∧ job_at s' p j' ∧
    awaits p j' s' ∧ job_core j' = job_core j ∧
    v_avjobs (view_of (meta_flag j')) = v_avjobs (view_of (meta_flag j)) + 1 ∧
    s_trace s' = s_trace s ∧ completed i l s' ∧
    (∀ k l', k ≠ i → k ≠ p → completed k l' s → completed k l' s') ∧
    ∀ k l', k ≠ i → depends pend p (gen j) s k l' → depends (pend ++ [i]) p (gen j) s' k l'.
Proof.
  intros Hs Hd Hret Hj Haw Hroom. pose proof Hd as [Hl Hne Hf Hni Hidle Hasked Hp].
  pose proof (job_index_at _ _ _ _ Hs Hl) as Hi.
  destruct (indicate_ok _ _ _ Hs Hi Hp) as (s1 & Hrun1 & Hs1 & Ej1 & Ef1 & Et1 & Hind).
  destruct (indicate_keeps _ _ _ Hrun1) as [Ec1 Hun].
  assert (depends pend p (gen j) s1 i l) as Hd1.
  { apply (depends_step pend pend p _ s); [done| |done..]. by rewrite Ej1. }
  assert (job_at s1 p j) as Hj1 by by unfold job_at; rewrite Ej1.
  pose proof (awaits_frame _ _ _ _ Haw Ec1) as Haw1.
  assert (op_guard OpMarkAccess (view_of (meta_flag j)) = true) as Hacc.
  { destruct Haw as [Hopen Hacc]. cbn [op_guard]. rewrite Hopen. cbn.
    by apply negb_true_iff, Z.eqb_neq. }
  destruct (notify_run pend p (gen j) s1 i l j Hs1 Hd1 Hj1 eq_refl Hacc Hroom)
    as (s2 & j' & Hrun2 & Hs2 & (Ef2 & _ & Et2 & Ei2 & Hel2) & Hm & Hkeep).
  destruct (awaits_moved _ _ _ _ _ Haw1 Hm Hkeep) as (Haw2 & Hcore & Hav).
  destruct Hm as [Hj2 _].
  assert (job_at s2 i l) as Hl2 by by unfold job_at; rewrite Hel2; [apply Hd1|].
  destruct (destroy_done pend i l s2 Hs2 Hi ltac:(by rewrite Ef2, Ef1) Hni Hl2)
    as (r & s3 & Hrun3 & Hr).
  rewrite Hidle in Hr. destruct Hr as (_ & Hs3 & Et3 & Ef3 & w & Ej3 & Hv).
  pose proof (keeps_destroy s_cache ltac:(done) i ltac:(done) ltac:(done) ltac:(done) _ _ _ Hrun3) as Ec3.
  pose proof (keeps_destroy s_indicators ltac:(done) i ltac:(done) ltac:(done) ltac:(done) _ _ _ Hrun3) as Ei3.
  exists s3, j'. split.
  { unfold after_run. rewrite (proj2 (Z.ltb_lt _ _) Hret).
    bind_by exact Hrun1. bind_by exact Hrun2. by bind_by exact Hrun3. }
  split; [done|]. split; [unfold job_at; by rewrite Ej3, list_lookup_insert_ne|].
  split; [by eapply awaits_frame|]. split_and!; try done.
  - congruence.
  - split.
    + exists w. split; [|done]. unfold job_at. rewrite Ej3. eapply list_lookup_insert_eq.
      by eapply lookup_lt_Some.
    + intros k Hk. destruct (Hind l k Hl Hk) as (ind & Hin & Hc & Hm0). exists ind.
      by rewrite Ei3, Ei2.
  - intros k l' Hki Hkp [(w0 & Hw0 & Hv0) Hset]. split.
    + exists w0. split; [|done]. unfold job_at.
      rewrite Ej3, list_lookup_insert_ne, Hel2, Ej1 by done. done.
    + intros c Hc. destruct (Hset c Hc) as (ind & Hin & Ht & Hm0).
      destruct (Hun c ind Hin Hm0) as (ind' & ? & ? & Hmon). exists ind'.
      rewrite Ei3, Ei2. auto.
  - intros k l' Hki Hdk. apply (depends_step pend _ p _ s); [done| |congruence| |].
    + rewrite Ej3, list_lookup_insert_ne by done. rewrite Hel2 by apply Hdk. by rewrite Ej1.
    + unfold keeps_unlocked. rewrite Ei3, Ei2. exact Hun.
    + intros [Hin|Hin]%elem_of_app; [by apply (dp_kept _ _ _ _ _ _ Hdk)|].
      by apply list_elem_of_singleton in Hin.
Qed.

Lemma completions_done p runs : ∀ pend s j,
  sys_ok pend s → NoDup runs.*1 →
  Forall (λ r, r.2 < 0 ∧ ∃ l, depends pend p (gen j) s r.1 l) runs →
  job_at s p j → awaits p j s → v_avjobs (view_of (meta_flag j)) + Z.of_nat (length runs) < 16 →
  ∃ s' j', complete_all runs s = Done () s' ∧ sys_ok (pend ++ runs.*1) s' ∧ job_at s' p j' ∧
    awaits p j' s' ∧ job_core j' = job_core j ∧
    v_avjobs (view_of (meta_flag j')) =
      v_avjobs (view_of (meta_flag j)) + Z.of_nat (length runs) ∧
    s_trace s' = s_trace s ∧
    (∀ i l, i ∈ runs.*1 → job_at s i l → completed i l s') ∧
    ∀ k l, k ∉ runs.*1 → k ≠ p → completed k l s → completed k l s'.
Proof.
  induction runs as [|[i ret] runs IH]; intros pend s j Hs Hnd Hall Hj Haw Hroom.
  { exists s, j. rewrite app_nil_r. split_and!; try done; cbn; [lia|].
    by intros i l Hi%not_elem_of_nil. }
  cbn [length fmap list_fmap fst] in *. apply NoDup_cons in Hnd as [Hni Hnd].
  apply Forall_cons in Hall as [[Hret (l & Hd)] Hall]. cbn [fst snd] in Hret, Hd.
  destruct (complete_one pend p s i l ret j Hs Hd Hret Hj Haw ltac:(lia))
    as (s1 & j1 & Hrun1 & Hs1 & Hj1 & Haw1 & Hcore1 & Hav1 & Ht1 & Hc1 & Hkeep1 & Hdep1).
  assert (gen j1 = gen j) as Eg by (unfold job_core in Hcore1; congruence).
  assert (∀ r, r ∈ runs → r.1 ≠ i ∧ r.2 < 0 ∧
    ∃ l, depends pend p (gen j) s r.1 l ∧ depends (pend ++ [i]) p (gen j) s1 r.1 l) as Hall1.
  { intros r Hr. rewrite Forall_forall in Hall. destruct (Hall r Hr) as (? & l' & Hl').
    assert (r.1 ≠ i) as Hne by (intros <-; apply Hni, list_elem_of_fmap; by exists r).
    split_and!; try done. exists l'. auto. }
  destruct (IH (pend ++ [i]) s1 j1) as (s' & j' & Hrun & Hs' & Hj' & Haw' & Hcore & Hav & Ht &
    Hc & Hkeep); try done.
  { apply Forall_forall. intros r Hr. destruct (Hall1 r Hr) as (_ & ? & l' & _ & ?).
    split; [done|]. exists l'. by rewrite Eg. }
  { lia. }
  exists s', j'. split; [by cbn; bind_by exact Hrun1|].
  rewrite <-app_assoc in Hs'. split_and!; try done; [congruence|lia|congruence| |].
  - intros i' l' [->|Hi']%elem_of_cons Hl'.
    + apply Hkeep; [done|apply Hd|]. assert (l' = l) as -> by (unfold job_at in *; destruct Hd; congruence).
      done.
    + apply Hc; [done|]. apply list_elem_of_fmap in Hi' as (r & -> & Hr).
      destruct (Hall1 r Hr) as (_ & _ & l2 & [Hl2 _ _ _ _ _ _] & [Hl3 _ _ _ _ _ _]).
      unfold job_at in *. congruence.
  - intros k l' [Hki Hkr]%not_elem_of_cons Hkp Hk. apply Hkeep; [done..|]. by apply Hkeep1.
Qed.

(** ** Asking for completions *)

(** A job that can be asked for: in use, not being destroyed, its indicator free. *)
Definition askable (pend : list nat) (s : sys) (t : nat) : Prop :=
  (t ∉ free_of s) ∧ (t ∉ pend) ∧ ∃ l, job_at s t l ∧ idle l = true ∧
    ∀ k, completion_indicator l = Some k →
      ∃ ind, s_indicators s !! k = Some ind ∧ signal_mutex ind = false.

Lemma tool_jobs_done pend p j ls : ∀ s,
  sys_ok pend s → job_at s p j → p ∉ ls → NoDup ls →
  (∀ t, t ∈ ls → ∃ l, job_at s t l) →
  ∃ js, tool_jobs p ls s = Done () (set_jobs js s) ∧ sys_ok pend (set_jobs js s) ∧
    (∀ k, k ∉ ls → js !! k = s_jobs s !! k) ∧
    ∀ t l, t ∈ ls → job_at s t l → js !! t = Some (set_requested (Some p) (gen j) l).
Proof.
  induction ls as [|t ls IH]; intros s Hs Hj Hp Hnd Hat; cbn [tool_jobs].
  { exists (s_jobs s). assert (set_jobs (s_jobs s) s = s) as -> by by destruct s.
    split_and!; try done. by intros t l Ht%not_elem_of_nil. }
  apply NoDup_cons in Hnd as [Hnt Hnd]. apply not_elem_of_cons in Hp as [Hpt Hp].
  destruct (Hat t) as [l Hl]; [left|].
  set (s1 := with_job t (set_requested (Some p) (gen j) l) s).
  assert (sys_ok pend s1) as Hs1.
  { eapply with_job_ok; [done..|]. exact (ok_words _ (ok_base _ _ Hs) _ _ Hl). }
  destruct (IH s1 Hs1) as (js & Hrun & Hs' & Helse & Hasked); try done.
  { by apply job_at_with_ne. }
  { intros k Hk. destruct (Hat k) as [l' Hl']; [by right|]. exists l'.
    apply job_at_with_ne; [|done]. by intros ->. }
  exists js. split.
  { bind_by (unfold schedi_job_tool_job; bind_by (by apply job_get_run);
      by apply job_put_run). exact Hrun. }
  split; [done|]. split.
  - intros k [Hkt Hk]%not_elem_of_cons. rewrite Helse by done. by apply list_lookup_insert_ne.
  - intros k l' [->|Hk]%elem_of_cons Hl'.
    + rewrite Helse by done. unfold s1, with_job. cbn [s_jobs set_jobs].
      rewrite list_lookup_insert_eq by (by eapply lookup_lt_Some).
      unfold job_at in *. congruence.
    + apply Hasked; [done|]. apply job_at_with_ne; [|done]. by intros ->.
Qed.

(** An update that completes nothing. *)
Lemma quiet_update pend i j s sd wd jd basic :
  sys_ok pend s → job_at s i j →
  let v := view_of (meta_flag j) in
  let op := OpUpdate (required_available_sockets j) (required_available_jobs j) sd wd jd basic in
  op_guard op v = true → all_ready (op_effect op v) = false →
  ∃ w, schedi_job_meta_flag_cas_update i sd wd jd (update_flag basic) (update_banned basic)
      false s = Done 0 (with_job i (set_meta w j) s) ∧
    word32 w ∧ view_of w = op_effect op v.
Proof.
  intros Hs Hj v op Hg Hno. pose proof (ok_base _ _ Hs) as Hb.
  destruct (cas_update_done i j s sd wd jd basic Hj (ok_words _ Hb _ _ Hj) (ok_cache _ Hb)
    (ok_mutex _ Hb)) as (r & s' & Hrun & Hu).
  unfold updated in Hu. cbv zeta in Hu. fold v op in Hu. rewrite Hg in Hu.
  destruct Hu as (-> & w & Hw & Hv & Hrest). rewrite Hv, Hno, andb_false_r in Hrest. subst s'.
  by exists w.
Qed.

(** What a job does to wait for others: it asks for each of them and for their number, and
    its function returns 1. *)
Definition depend_on (p : nat) (ls : list nat) (n : Z) : M sys unit :=
  tool_jobs p ls ≫= λ _, schedi_job_required_available_jobs p n ≫= λ _,
  schedi_job_mark_readybasic p ≫= λ _, mret ().

(** What the waiting job must look like when it asks: it runs (so it is neither READY nor
    READYBASIC), nobody destroys it, and it waits for nothing but jobs. *)
Record asks (p : nat) (j : schedi_job) (n : Z) (s : sys) : Prop := {
  as_open : v_unstable (view_of (meta_flag j)) || v_wlldestroy (view_of (meta_flag j)) = false;
  as_access : v_access (view_of (meta_flag j)) ≠ 15;
  as_basic : v_readybasic (view_of (meta_flag j)) = false;
  as_ready : v_ready (view_of (meta_flag j)) = false;
  as_wait : v_wait (view_of (meta_flag j)) = 0;
  as_sock : required_available_sockets j <= v_avsock (view_of (meta_flag j));
  as_jobs : v_avjobs (view_of (meta_flag j)) < n;
  as_room : (length (somes (s_cache s)) < SCHEDI_MAXIMUM_JOBS)%nat;
}.

(** The two updates of [depend_on], after the requests. *)
Lemma required_done pend p j n s :
  sys_ok pend s → job_at s p j → asks p j n s →
  ∃ w, (schedi_job_required_available_jobs p n ≫= λ _, schedi_job_mark_readybasic p ≫= λ _,
      mret ()) s = Done () (with_job p (set_meta w (set_required_jobs n j)) s) ∧
    sys_ok pend (with_job p (set_meta w (set_required_jobs n j)) s) ∧
    view_of w = refresh (required_available_sockets j) n 0 0 0 true (view_of (meta_flag j)).
Proof.
  intros Hs Hj [Hopen Hacc Hbasic Hready Hwait Hsock Hjobs Hroom].
  destruct (in_count_same (meta_flag j)) as [Hca Hcw].
  pose proof (in_count_avjobs (meta_flag j)) as Hcj.
  set (v := view_of (meta_flag j)) in *. set (j1 := set_required_jobs n j).
  set (s1 := with_job p j1 s).
  assert (job_at s1 p j1) as Hj1 by by eapply job_at_with.
  assert (sys_ok pend s1) as Hs1.
  { eapply with_job_ok; [done..|]. exact (ok_words _ (ok_base _ _ Hs) _ _ Hj). }
  destruct (quiet_update pend p j1 s1 0 0 0 false Hs1 Hj1) as (w1 & Hrun1 & Hw1 & Hv1).
  { cbn [op_guard andb negb j1 set_required_jobs meta_flag]. fold v. by rewrite Hca, Hcw, Hcj. }
  { cbn [op_effect]. unfold all_ready. cbn [refresh v_readybasic j1 set_required_jobs meta_flag].
    fold v. by rewrite Hbasic. }
  cbn [op_effect j1 set_required_jobs meta_flag required_available_sockets
    required_available_jobs] in Hv1. fold v in Hv1.
  set (j2 := set_meta w1 j1) in *. set (s2 := with_job p j2 s1) in *.
  assert (job_at s2 p j2) as Hj2 by by eapply job_at_with.
  assert (sys_ok pend s2) as Hs2 by by eapply with_job_ok.
  destruct (quiet_update pend p j2 s2 0 0 0 true Hs2 Hj2) as (w2 & Hrun2 & Hw2 & Hv2).
  { cbn [op_guard j2 set_meta meta_flag]. rewrite Hv1. cbn [refresh v_unstable v_wlldestroy
      v_avsock v_wait v_avjobs]. rewrite Hopen, !Z.add_0_r in *. by rewrite Hca, Hcw, Hcj. }
  { cbn [op_effect]. unfold all_ready. cbn [j2 j1 set_meta set_required_jobs meta_flag
      required_available_jobs refresh v_readyjob]. rewrite Hv1. cbn [refresh v_avjobs].
    rewrite (proj2 (Z.leb_gt _ _)) by lia. by rewrite !andb_false_r. }
  assert (with_job p (set_meta w2 j2) s2 = with_job p (set_meta w2 j1) s) as Es.
  { unfold s2, s1. by rewrite !with_job_twice. }
  exists w2. fold j1. rewrite <-Es. split; [|split].
  - bind_by (unfold schedi_job_required_available_jobs; bind_by (by apply job_put_run);
      by bind_by exact Hrun1).
    by bind_by (unfold schedi_job_mark_readybasic, schedi_job_mark_or_readiness;
      by bind_by exact Hrun2).
  - by eapply with_job_ok.
  - rewrite Hv2. cbn [op_effect j2 set_meta meta_flag]. rewrite Hv1. unfold refresh. cbn.
    by rewrite !Z.add_0_r, orb_false_r.
Qed.

Lemma depend_done pend p j ls n s :
  sys_ok pend s → job_at s p j → asks p j n s → p ∉ ls → NoDup ls → Forall (askable pend s) ls →
  ∃ s' j', depend_on p ls n s = Done () s' ∧ sys_ok pend s' ∧ job_at s' p j' ∧ awaits p j' s' ∧
    gen j' = gen j ∧ required_available_jobs j' = n ∧
    v_avjobs (view_of (meta_flag j')) = v_avjobs (view_of (meta_flag j)) ∧
    s_trace s' = s_trace s ∧
    Forall (λ t, ∃ l, depends pend p (gen j) s' t l) ls.
Proof.
  intros Hs Hj Hasks Hp Hnd Hall. rewrite Forall_forall in Hall.
  destruct (tool_jobs_done pend p j ls s Hs Hj Hp Hnd) as (js & Hrun1 & Hs1 & Helse & Hasked).
  { intros t Ht. destruct (Hall t Ht) as (_ & _ & l & Hl & _). by exists l. }
  set (s1 := set_jobs js s) in *.
  assert (job_at s1 p j) as Hj1 by by unfold job_at; cbn; rewrite Helse.
  destruct (required_done pend p j n s1 Hs1 Hj1) as (w & Hrun2 & Hs2 & Hv).
  { destruct Hasks. by split. }
  exists (with_job p (set_meta w (set_required_jobs n j)) s1),
    (set_meta w (set_required_jobs n j)).
  split; [by unfold depend_on; bind_by exact Hrun1|]. split; [done|].
  split; [by eapply job_at_with|].
  destruct Hasks as [Hopen Hacc Hbasic Hready Hwait Hsock Hjobs Hroom].
  split; [|split_and!; try done].
  - split; fields; rewrite Hv; fields; rewrite ?orb_true_r, ?Hwait, ?Z.add_0_r; try done.
    + split; [done|]. by apply Z.leb_le.
    + rewrite Hready. symmetry. by apply Z.leb_gt.
    + by rewrite Hready.
  - fields. rewrite Hv. fields. by rewrite Z.add_0_r.
  - apply Forall_forall. intros t Ht. destruct (Hall t Ht) as (Hf & Hni & l & Hl & Hidle & Hk).
    assert (t ≠ p) as Htp by by intros ->.
    assert (job_at (with_job p (set_meta w (set_required_jobs n j)) s1) t
      (set_requested (Some p) (gen j) l)) as Hl1.
    { apply job_at_with_ne; [done|]. unfold job_at. cbn. by apply Hasked. }
    exists (set_requested (Some p) (gen j) l). split; try done.
    intros l' Hl'. assert (l' = set_requested (Some p) (gen j) l) as ->.
    { unfold job_at in *. congruence. }
    split; [|exact Hk]. intros rj [= <-]. by apply (job_index_at pend s p j).
Qed.
End dependencies.

(** ** The properties *)

Section properties.
Context `{BuildConfig, JobAddress}.

(** A running job that asks for [n] completions among the jobs [ls] and returns 1 is
    READYBASIC and waits: it is not READY and not cached by this, [READYJOB] is clear, and
    every job of [ls] will report to it. *)
Theorem depend_on_spec pend p j ls n s :
  sys_ok pend s → job_at s p j → asks p j n s → p ∉ ls → NoDup ls → Forall (askable pend s) ls →
  ∃ s' j', depend_on p ls n s = Done () s' ∧ sys_ok pend s' ∧ job_at s' p j' ∧ awaits p j' s' ∧
    gen j' = gen j ∧ required_available_jobs j' = n ∧
    v_avjobs (view_of (meta_flag j')) = v_avjobs (view_of (meta_flag j)) ∧
    s_trace s' = s_trace s ∧
    Forall (λ t, ∃ l, depends pend p (gen j) s' t l) ls.
Proof. apply depend_done. Qed.

(** C10: whatever the order in which workers complete the jobs that report to a waiting job,
    each completion counts once, sets the completed job's indicator and queues it for
    destruction; the waiting job becomes READY, and is cached for a worker, with the
    completion that brings the count to [required_available_jobs] and not before. *)
Theorem dependencies_wake_job pend p j runs s :
  sys_ok pend s → NoDup runs.*1 →
  Forall (λ r, r.2 < 0 ∧ ∃ l, depends pend p (gen j) s r.1 l) runs →
  job_at s p j → awaits p j s →
  v_avjobs (view_of (meta_flag j)) + Z.of_nat (length runs) < 16 →
  let count := v_avjobs (view_of (meta_flag j)) + Z.of_nat (length runs) in
  ∃ s' j', complete_all runs s = Done () s' ∧ sys_ok (pend ++ runs.*1) s' ∧ job_at s' p j' ∧
    v_avjobs (view_of (meta_flag j')) = count ∧
    v_ready (view_of (meta_flag j')) = (required_available_jobs j <=? count) ∧
    (required_available_jobs j <= count → p ∈ somes (s_cache s')) ∧
    ∀ i l, i ∈ runs.*1 → job_at s i l → completed i l s'.
Proof.
  intros Hs Hnd Hall Hj Haw Hroom count.
  destruct (completions_done p runs pend s j Hs Hnd Hall Hj Haw Hroom)
    as (s' & j' & Hrun & Hs' & Hj' & [_ _ _ _ _ _ Hjobs Hready Hcached] & Hcore & Hav & _ & Hc & _).
  assert (required_available_jobs j' = required_available_jobs j) as Erj
    by (unfold job_core in Hcore; congruence).
  rewrite Hjobs, Erj, Hav in Hready. fold count in Hready, Hav.
  exists s', j'. split_and!; try done. intros Hle. rewrite Hready in Hcached.
  by rewrite (proj2 (Z.leb_le _ _) Hle) in Hcached.
Qed.
End properties.

(** ** Witnesses *)

Section witnesses.
#[local] Existing Instance default_build.
#[local] Existing Instance contiguous_jobs.

(** Three fresh jobs; the one in slot 0 will wait for the other two. *)
Definition three_jobs_run : M sys unit :=
  schedi_job_create 42 3 None ≫= λ _, schedi_job_create 43 4 None ≫= λ _,
  schedi_job_create 44 4 None ≫= λ _, mret ().
Definition sys_three : sys := final_of sys_init (three_jobs_run sys_init).
Definition fresh_parent : schedi_job := created_job 42 3 None null_job.

Lemma sys_three_ok : sys_ok [] sys_three.
Proof.
  destruct (create_done 42 3 None _ _ sys_init_ok) as (r1 & s1 & Hrun1 & Hs1 & _).
  destruct (create_done 43 4 None _ _ Hs1) as (r2 & s2 & Hrun2 & Hs2 & _).
  destruct (create_done 44 4 None _ _ Hs2) as (r3 & s3 & Hrun3 & Hs3 & _).
  assert (three_jobs_run sys_init = Done () s3) as Hrun.
  { unfold three_jobs_run. bind_by exact Hrun1. bind_by exact Hrun2. by bind_by exact Hrun3. }
  unfold sys_three. by rewrite Hrun.
Qed.

Lemma three_asks : job_at sys_three 0 fresh_parent ∧ asks 0 fresh_parent 2 sys_three.
Proof. split; [by vm_compute|]. split; apply (bool_decide_unpack _); vm_compute; exact I. Qed.

Lemma three_askable : Forall (askable [] sys_three) [1%nat; 2%nat].
Proof.
  repeat constructor; try (apply (bool_decide_unpack _); vm_compute; exact I);
    try apply not_elem_of_nil.
  - exists (created_job 43 4 None null_job). split_and!; [by vm_compute..|done].
  - exists (created_job 44 4 None null_job). split_and!; [by vm_compute..|done].
Qed.

Lemma leaves_apart : (0%nat ∉ [1%nat; 2%nat]) ∧ NoDup [1%nat; 2%nat] ∧ NoDup [2%nat; 1%nat].
Proof. split_and!; apply (bool_decide_unpack _); vm_compute; exact I. Qed.

Lemma depend_on_spec_witness :
  ∃ s' j', depend_on 0 [1%nat; 2%nat] 2 sys_three = Done () s' ∧ sys_ok [] s' ∧
    job_at s' 0 j' ∧ awaits 0 j' s' ∧ gen j' = gen fresh_parent ∧
    required_available_jobs j' = 2 ∧
    v_avjobs (view_of (meta_flag j')) = v_avjobs (view_of (meta_flag fresh_parent)) ∧
    s_trace s' = s_trace sys_three ∧
    Forall (λ t, ∃ l, depends [] 0 (gen fresh_parent) s' t l) [1%nat; 2%nat].
Proof.
  destruct three_asks as [Hj Ha].
  apply (depend_on_spec [] 0 fresh_parent [1%nat; 2%nat] 2 sys_three);
    [apply sys_three_ok|exact Hj|exact Ha|apply leaves_apart|apply leaves_apart|
     apply three_askable].
Defined.

(** The two jobs complete in the other order; [s] is the state after [depend_on]. *)
Lemma dependencies_wake_job_witness :
  ∃ s j, depend_on 0 [1%nat; 2%nat] 2 sys_three = Done () s ∧
  ∃ s' j', complete_all [(2%nat, -1); (1%nat, -5)] s = Done () s' ∧
    sys_ok ([] ++ [2%nat; 1%nat]) s' ∧ job_at s' 0 j' ∧
    v_avjobs (view_of (meta_flag j')) = v_avjobs (view_of (meta_flag j)) + 2 ∧
    v_ready (view_of (meta_flag j')) =
      (required_available_jobs j <=? v_avjobs (view_of (meta_flag j)) + 2) ∧
    (required_available_jobs j <= v_avjobs (view_of (meta_flag j)) + 2 →
       0%nat ∈ somes (s_cache s')) ∧
    ∀ i l, i ∈ [2%nat; 1%nat] → job_at s i l → completed i l s'.
Proof.
  destruct three_asks as [Hj Ha].
  destruct (depend_done [] 0 fresh_parent [1%nat; 2%nat] 2 sys_three) as
    (s & j & Hrun & Hs & Hj1 & Haw & Hg & Hn & Hav & _ & Hd);
    [apply sys_three_ok|exact Hj|exact Ha|apply leaves_apart|apply leaves_apart|
     apply three_askable|].
  exists s, j. split; [exact Hrun|]. clear Hrun. rewrite <-Hg in Hd.
  apply Forall_cons in Hd as [Hd1 [Hd2 _]%Forall_cons].
  apply (dependencies_wake_job [] 0 j [(2%nat, -1); (1%nat, -5)] s);
    [exact Hs|apply leaves_apart| |exact Hj1|exact Haw|by rewrite Hav].
  repeat apply Forall_cons_2; [split; [done|exact Hd2]|split; [done|exact Hd1]|].
  apply Forall_nil_2.
Defined.
End witnesses.
