(* ===== verification/Start.v ===== *)
(** * Starting and stopping the job system (src/src/jobs.c)

    [schedi_job_init] and [schedi_job_deinit]: the answers of the thread library are
    parameters; what they leave is the state every invariant starts from. *)

From S2P Require Export Lifecycle.

Local Open Scope Z_scope.

Section start.
Context `{BuildConfig}.

(** What the thread library answers for [readyjob_cond], [readyjob_mutex] and
    [section_lock]. *)
Variables cond_code mutex_code lock_code : Z.

(** [if(_error != 0) error |= _error;] *)
Definition or_error (error code : Z) : Z :=
  if negb (code =? 0) then Z.lor error code else error.

(** [sections_init] of jobs.c and [pthread_mutex_init], which leaves a new mutex free. *)
Definition schedi_job_init : M sys Z :=
  error ← (if lockless_readyjob then mret 0
           else
             when (mutex_code =? 0) (on_cache (modify (set_mutex false))) ≫= λ _,
             mret (or_error (or_error 0 cond_code) mutex_code));
  on_pool sections_init ≫= λ _,
  when (lock_code =? 0) (on_pool (modify (set_section_lock false))) ≫= λ _,
  mret (or_error error lock_code).

(** Destroying changes nothing that is used afterwards. *)
Definition schedi_job_deinit : M sys Z :=
  mret (or_error (if lockless_readyjob then 0 else or_error (or_error 0 cond_code) mutex_code)
    lock_code).

(** Static storage before [schedi_job_init]. *)
Definition sys_static : sys :=
  Sys (replicate SCHEDI_MAXIMUM_JOBS null_job) sections_zero false 0
    (replicate SCHEDI_MAXIMUM_JOBS None) 0 0 false 0 dq_zero ∅ [].

Lemma or_error_zero e c : or_error e c = 0 ↔ e = 0 ∧ c = 0.
Proof.
  unfold or_error. destruct (Z.eqb_spec c 0) as [->|Hc]; cbn [negb]; [tauto|].
  rewrite Z.lor_eq_0_iff. tauto.
Qed.

(** At start-up [schedi_job_init] leaves the consistent scheduler state in which every
    slot is free, nothing is cached and nothing is queued, and returns 0 exactly when every
    call of the thread library did (the build without the ready-job lock makes one). *)
Theorem schedi_job_init_spec :
  ∃ r, schedi_job_init sys_static = Done r sys_init ∧ sys_ok [] sys_init ∧
    free_of sys_init = set_seq 0 SCHEDI_MAXIMUM_JOBS ∧
    (r = 0 ↔ (lockless_readyjob = false → cond_code = 0 ∧ mutex_code = 0) ∧ lock_code = 0).
Proof.
  eexists (or_error (if lockless_readyjob then 0 else or_error (or_error 0 cond_code) mutex_code)
    lock_code).
  split; [|split; [exact sys_init_ok|split]].
  - unfold schedi_job_init.
    destruct lockless_readyjob, (mutex_code =? 0), (lock_code =? 0); reflexivity.
  - change (pool_free pool_init = set_seq 0 SCHEDI_MAXIMUM_JOBS).
    apply (bool_decide_unpack _). vm_compute. exact I.
  - destruct lockless_readyjob; rewrite !or_error_zero; naive_solver.
Qed.
End start.
