(* ===== verification/WorkerPool.v ===== *)
(** * Workers side by side (src/src/worker.c)

    Any number of workers run the turns of [worker_routine] at the same time.  A turn is
    cut at the points where the code calls into the shared state, and the workers'
    pieces are interleaved in any order.  The invariant says where every slot of the job
    array is - cached, held by one worker, queued for destruction, free or at rest - and
    that these places exclude each other. *)

From S2P Require Export Dependencies.

Local Open Scope Z_scope.

(** ** The invariant *)

(** What the word of slot [i] says, by its place: [O] are the jobs that workers hold, [P]
    the destroy queue, [C] the ready cache and [F] the free slots. *)
Record slot_ok (O P C : list nat) (F : gset nat) (i : nat) (v : view) : Prop := {
  sl_cached : i ∈ C → v_ready v = true ∧ v_unstable v || v_wlldestroy v = false ∧
    (i ∉ F) ∧ (i ∉ P) ∧ (i ∉ O);
  sl_owned : i ∈ O → v_readybasic v = false ∧ v_ready v = false ∧
    v_unstable v || v_wlldestroy v = false ∧ (i ∉ F) ∧ (i ∉ P);
  sl_queued : i ∈ P → v_unstable v = true;
  sl_basic : v_readybasic v = true → v_unstable v = false → i ∉ F;
}.

Record orderly (O P : list nat) (s : sys) : Prop := {
  or_ok : sys_ok P s;
  or_cached : NoDup (somes (s_cache s));
  or_owned : NoDup O ∧ Forall job_index O;
  or_slot i j : job_at s i j →
    slot_ok O P (somes (s_cache s)) (free_of s) i (view_of (meta_flag j));
  or_pointers i : pointers_ok i s;
}.

(** The places only matter as sets. *)
Lemma slot_places O P P' C C' F i v :
  slot_ok O P C F i v → (i ∈ P' ↔ i ∈ P) → (i ∈ C' ↔ i ∈ C) → slot_ok O P' C' F i v.
Proof.
  intros [Hc Ho Hq Hb] HP HC. split; [|rewrite HP; exact Ho|rewrite HP; exact Hq|exact Hb].
  rewrite HP, HC. exact Hc.
Qed.

Lemma orderly_index O P s i j : orderly O P s → job_at s i j → job_index i.
Proof. intros Hs. eapply job_index_at, or_ok, Hs. Qed.

(** ** Pointers *)

(** [pointers_ok] of every slot, step by step. *)
Definition keeps_pointers (j j' : schedi_job) : Prop :=
  requested_job j' = requested_job j ∧ completion_indicator j' = completion_indicator j.

Lemma pointers_jobs s s' :
  (∀ i, pointers_ok i s) → keeps_unlocked s s' →
  (∀ k j', job_at s' k j' → ∃ j, job_at s k j ∧ keeps_pointers j j') →
  ∀ i, pointers_ok i s'.
Proof.
  intros Hp Hun Hj i j' Hj'. destruct (Hj i j' Hj') as (j & Hji & -> & ->).
  destruct (Hp i j Hji) as [Hr Hk]. split; [exact Hr|]. intros k Ek.
  destruct (Hk k Ek) as (ind & Hi & Hm). destruct (Hun k ind Hi Hm) as (ind' & ? & ? & _).
  by exists ind'.
Qed.

Lemma keeps_unlocked_same s s' : s_indicators s' = s_indicators s → keeps_unlocked s s'.
Proof. intros E k ind Hk Hm. rewrite E. by exists ind. Qed.

(** A change of one slot that keeps its pointers. *)
Lemma pointers_one i j j' s s' :
  (∀ k, pointers_ok k s) → job_at s i j → s_indicators s' = s_indicators s →
  s_jobs s' = <[i := j']> (s_jobs s) → keeps_pointers j j' → ∀ k, pointers_ok k s'.
Proof.
  intros Hp Hj Ei Ej Hk. apply (pointers_jobs s); [done|by apply keeps_unlocked_same|].
  intros k l Hl. unfold job_at in *. rewrite Ej in Hl.
  apply list_lookup_insert_Some in Hl as [(<- & <- & _)|[_ Hl]]; [by exists j|].
  by exists l.
Qed.

(** ** Steps that change one slot *)

(** One slot changes; cache, queue and free slots stay. *)
Lemma orderly_slot O P s i j j' :
  orderly O P s → job_at s i j → word32 (meta_flag j') → keeps_pointers j j' →
  slot_ok O P (somes (s_cache s)) (free_of s) i (view_of (meta_flag j')) →
  orderly O P (with_job i j' s).
Proof.
  intros Hs Hj Hw Hk Hslot. pose proof Hs as [Hok Hc Ho Hsl Hp]. split.
  - by eapply with_job_ok.
  - done.
  - done.
  - intros k l Hl. cbn [s_cache with_job set_jobs]. rewrite free_with_job.
    unfold job_at, with_job in Hl. cbn [s_jobs set_jobs] in Hl.
    apply list_lookup_insert_Some in Hl as [(<- & <- & _)|[_ Hl]]; [done|]. by apply Hsl.
  - by eapply (pointers_one i j j' s).
Qed.

(** A word whose four relevant flags are as before. *)
Definition same_flags (v v' : view) : Prop :=
  v_ready v' = v_ready v ∧ v_readybasic v' = v_readybasic v ∧
  v_unstable v' = v_unstable v ∧ v_wlldestroy v' = v_wlldestroy v.

Lemma slot_same_flags O P C F i v v' :
  slot_ok O P C F i v → same_flags v v' → slot_ok O P C F i v'.
Proof.
  intros [Hc Ho Hq Hb] (Er & Eb & Eu & Ew). by split; rewrite ?Er, ?Eb, ?Eu, ?Ew.
Qed.

Lemma orderly_flags O P s i j w :
  orderly O P s → job_at s i j → word32 w → same_flags (view_of (meta_flag j)) (view_of w) →
  orderly O P (with_job i (set_meta w j) s).
Proof.
  intros Hs Hj Hw Hv. eapply orderly_slot; [done..|].
  eapply slot_same_flags; [by eapply or_slot|done].
Qed.

Lemma orderly_state O P s i j st :
  orderly O P s → job_at s i j → orderly O P (with_job i (set_state st j) s).
Proof.
  intros Hs Hj. eapply orderly_slot; [done|done| |done|exact (or_slot _ _ _ Hs i j Hj)].
  exact (ok_words _ (ok_base _ _ (or_ok _ _ _ Hs)) _ _ Hj).
Qed.

Section pool.
Context `{BuildConfig, JobAddress}.

(** ** Becoming ready *)

(** A slot that may be made READY: in use, not queued, held by no worker.  (UNSTABLE
    slots refuse the mark.) *)
Definition may_ready (O P : list nat) (s : sys) (i : nat) (v : view) : Prop :=
  v_unstable v = false → (i ∉ free_of s) ∧ (i ∉ P) ∧ (i ∉ O).

Lemma becomes_ready_orderly O P s i j r s' :
  orderly O P s → job_at s i j → becomes_ready i j s r s' →
  may_ready O P s i (view_of (meta_flag j)) → orderly O P s'.
Proof.
  intros Hs Hj Hr Hmay. pose proof Hs as [Hok Hc Ho Hsl Hp].
  pose proof (becomes_ready_ok _ _ _ _ _ _ Hok (orderly_index _ _ _ _ _ Hs Hj) Hj Hr) as Hok'.
  destruct Hr as (w' & Es & Hw' & _ & _ & Hcase). cbv zeta in Hcase.
  set (j' := set_state schedi_job_state_readywaiting (set_meta w' j)) in *.
  assert (s_jobs s' = <[i := j']> (s_jobs s) ∧ free_of s' = free_of s ∧
    s_indicators s' = s_indicators s) as (Ej & Ef & Ei) by (rewrite Es; done).
  assert (∀ i, pointers_ok i s') as Hp' by by eapply (pointers_one i j j' s).
  assert (s_cache s' = s_cache s → view_of w' = view_of (meta_flag j) → orderly O P s') as Hsame.
  { intros Ec Hv. split; [done|by rewrite Ec|done| |done]. rewrite Ec, Ef. intros k l Hl.
    unfold job_at in Hl. rewrite Ej in Hl.
    apply list_lookup_insert_Some in Hl as [(<- & <- & _)|[_ Hl]]; [|by apply Hsl].
    cbn [j' meta_flag set_state set_meta]. rewrite Hv. by apply Hsl. }
  destruct (op_guard OpMarkReady (view_of (meta_flag j))) eqn:Hg; cycle 1.
  { destruct Hcase as (_ & -> & Ec). apply Hsame; [|done]. exact (f_equal ready_jobs_cache Ec). }
  cbn [op_guard] in Hg. apply negb_true_iff in Hg.
  apply orb_false_iff in Hg as [Hban Hnr]. pose proof Hban as [Hun _]%orb_false_iff.
  destruct (Hmay Hun) as (Hf & HP & HO).
  assert (i ∉ somes (s_cache s)) as Hnc.
  { intros Hin. destruct (sl_cached _ _ _ _ _ _ (Hsl i j Hj) Hin) as [? _]. congruence. }
  destruct Hcase as [(_ & Hv & Hperm & _)|(_ & Hv & _ & Ec)].
  - split; [done| |done| |done].
    + rewrite Hperm. by constructor.
    + intros k l Hl. unfold job_at in Hl. rewrite Ej in Hl. rewrite Ef.
      apply list_lookup_insert_Some in Hl as [(<- & <- & _)|[Hne Hl]].
      * cbn [j' meta_flag set_state set_meta]. rewrite Hv. by split.
      * eapply slot_places; [by apply Hsl|done|]. rewrite Hperm, elem_of_cons. naive_solver.
  - apply Hsame; [|done]. exact (f_equal ready_jobs_cache Ec).
Qed.

(** ** Updates *)

Lemma basic_may_ready O P s i j :
  orderly O P s → job_at s i j → v_readybasic (view_of (meta_flag j)) = true →
  may_ready O P s i (view_of (meta_flag j)).
Proof.
  intros Hs Hj Hb Hun. destruct (or_slot _ _ _ Hs i j Hj) as [_ Ho Hq Hf].
  split_and!; [by apply Hf|intros Hi; specialize (Hq Hi); congruence|].
  intros Hi. destruct (Ho Hi) as [? _]. congruence.
Qed.

Lemma update_orderly O P s i j sd wd jd basic r s' :
  orderly O P s → job_at s i j →
  updated i j s (OpUpdate (required_available_sockets j) (required_available_jobs j)
    sd wd jd basic) r s' →
  (basic = true → may_ready O P s i (view_of (meta_flag j))) → orderly O P s'.
Proof.
  intros Hs Hj Hu Hmay. unfold updated in Hu. cbv zeta in Hu.
  destruct (op_guard _ _) eqn:Hg; [|by destruct Hu as [_ ->]].
  destruct Hu as (_ & w1 & Hw1 & Hv1 & Hrest). cbn [op_effect] in Hv1.
  set (v := view_of (meta_flag j)) in *. set (j1 := set_meta w1 j) in *.
  assert (basic = true → v_unstable v = false) as Hstable.
  { intros ->. cbn [op_guard andb] in Hg. repeat apply andb_true_iff in Hg as [Hg _].
    by apply negb_true_iff, orb_false_iff in Hg as [? _]. }
  assert (orderly O P (with_job i j1 s)) as Hs1.
  { eapply orderly_slot; [done..|]. cbn [j1 meta_flag set_meta]. rewrite Hv1.
    destruct (or_slot _ _ _ Hs i j Hj) as [Hc Ho Hq Hb]. fold v in Hc, Ho, Hq, Hb.
    split; cbn [refresh v_ready v_readybasic v_unstable v_wlldestroy]; try done.
    - intros Hi. destruct (Ho Hi) as (Eb & ?). split; [|done]. rewrite Eb.
      destruct basic; [|done]. destruct (Hmay eq_refl (Hstable eq_refl)) as (_ & _ & []). done.
    - destruct basic; [intros _ Hun; by destruct (Hmay eq_refl Hun)|].
      rewrite orb_false_r. exact Hb. }
  destruct (_ && _) eqn:Hall; [|by subst s'].
  destruct Hrest as (r' & Hr'). assert (job_at (with_job i j1 s) i j1) as Hj1
    by by eapply job_at_with.
  eapply becomes_ready_orderly; [exact Hs1|exact Hj1|exact Hr'|].
  apply andb_true_iff in Hall as [_ Hall]. rewrite Hv1 in Hall. unfold all_ready in Hall.
  repeat apply andb_true_iff in Hall as [Hall _].
  apply (basic_may_ready _ _ _ _ _ Hs1 Hj1). cbn [j1 meta_flag set_meta]. by rewrite Hv1.
Qed.

Lemma cas_update_orderly O P s i sd wd jd :
  orderly O P s → job_index i →
  ∃ r s', schedi_job_meta_flag_cas_update i sd wd jd 0 0 false s = Done r s' ∧
    orderly O P s' ∧ same_elsewhere i s s'.
Proof.
  intros Hs Hi. pose proof (ok_base _ _ (or_ok _ _ _ Hs)) as Hb.
  destruct (base_job _ _ Hb Hi) as (j & Hj & Hw).
  destruct (cas_update_done i j s sd wd jd false Hj Hw (ok_cache _ Hb) (ok_mutex _ Hb))
    as (r & s' & Hrun & Hu).
  exists r, s'. split; [exact Hrun|]. split; [by eapply update_orderly|].
  by eapply updated_elsewhere.
Qed.

Lemma readybasic_orderly O P s i j :
  orderly O P s → job_at s i j → may_ready O P s i (view_of (meta_flag j)) →
  ∃ r s', schedi_job_mark_readybasic i s = Done r s' ∧ orderly O P s' ∧ same_elsewhere i s s'.
Proof.
  intros Hs Hj Hmay. pose proof (ok_base _ _ (or_ok _ _ _ Hs)) as Hb.
  destruct (cas_update_done i j s 0 0 0 true Hj (ok_words _ Hb _ _ Hj) (ok_cache _ Hb)
    (ok_mutex _ Hb)) as (r & s' & Hrun & Hu).
  eexists _, s'. split.
  { unfold schedi_job_mark_readybasic, schedi_job_mark_or_readiness. by bind_by exact Hrun. }
  split; [by eapply update_orderly|]. by eapply updated_elsewhere.
Qed.

(** Accesses and EXECUTING do not matter to the places. *)
Lemma mark_orderly op m O P s i :
  mark_of op = Some m → orderly O P s → job_index i →
  (∀ v, op_guard op v = true → same_flags v (op_effect op v)) →
  ∃ r s', m i s = Done r s' ∧ orderly O P s' ∧ same_elsewhere i s s'.
Proof.
  intros Hm Hs Hi Hsame. pose proof (ok_base _ _ (or_ok _ _ _ Hs)) as Hb.
  destruct (base_job _ _ Hb Hi) as (j & Hj & Hw).
  destruct (mark_done op m i j s Hm Hj Hw) as (r & w & Hrun & Hw' & Hv).
  eexists r, _. split; [exact Hrun|]. split; [|apply with_job_elsewhere].
  apply orderly_flags; [done..|]. cbv zeta in Hv. destruct (op_guard op _) eqn:Hg.
  - destruct Hv as [_ ->]. by apply Hsame.
  - destruct Hv as [_ ->]. done.
Qed.

(** ** Giving a job up *)

Lemma orderly_drop i O P s : orderly (i :: O) P s → orderly O P s.
Proof.
  intros [Hok Hc [Hn Ho] Hsl Hp]. apply NoDup_cons in Hn as [_ Hn]. apply Forall_cons in Ho as [_ Ho].
  split; [done|done|done| |done]. intros k j Hj. destruct (Hsl k j Hj) as [H1 H2 H3 H4].
  split; [|intros Hk; apply H2; by right|done|done].
  intros Hk. destruct (H1 Hk) as (? & ? & ? & ? & Hni). split_and!; try done.
  intros Hin. apply Hni. by right.
Qed.

Lemma orderly_perm O O' P s : O ≡ₚ O' → orderly O P s → orderly O' P s.
Proof.
  intros HO [Hok Hc [Hn Hi] Hsl Hp]. split; [done|done|by rewrite <-HO| |done].
  intros k j Hj. destruct (Hsl k j Hj) as [H1 H2 H3 H4].
  split; rewrite <-?HO; done.
Qed.

(** A worker's own job. *)
Lemma owned_slot i O P s :
  orderly (i :: O) P s → ∃ j, job_at s i j ∧ job_index i ∧ (i ∉ free_of s) ∧ (i ∉ P) ∧ (i ∉ O) ∧
    (i ∉ somes (s_cache s)) ∧ v_readybasic (view_of (meta_flag j)) = false ∧
    v_ready (view_of (meta_flag j)) = false ∧
    v_unstable (view_of (meta_flag j)) || v_wlldestroy (view_of (meta_flag j)) = false.
Proof.
  intros [Hok Hc [Hn Ho] Hsl Hp]. apply NoDup_cons in Hn as [Hni _].
  apply Forall_cons in Ho as [Hi _].
  destruct (base_job _ _ (ok_base _ _ Hok) Hi) as (j & Hj & _).
  destruct (Hsl i j Hj) as [H1 H2 H3 H4]. destruct H2 as (? & ? & ? & ? & ?); [left|].
  exists j. split_and!; try done. intros Hin. destruct (H1 Hin) as (_ & _ & _ & _ & []). left.
Qed.

Lemma indicate_orderly O P s i :
  orderly O P s → job_index i →
  ∃ s', schedi_job_completion_indicate i s = Done () s' ∧ orderly O P s'.
Proof.
  intros [Hok Hc Ho Hsl Hp] Hi.
  destruct (indicate_ok _ _ _ Hok Hi (Hp i)) as (s' & Hrun & Hok' & Ej & Ef & _).
  destruct (indicate_keeps _ _ _ Hrun) as [Ec Hun]. exists s'. split; [done|].
  split; [done|by rewrite Ec|done| |].
  - intros k j Hj. rewrite Ec, Ef. apply Hsl. unfold job_at in *. by rewrite <-Ej.
  - apply (pointers_jobs s); [done..|]. intros k j Hj. exists j.
    unfold job_at in *. by rewrite <-Ej.
Qed.

Lemma notify_orderly O P s i :
  orderly O P s → job_index i → ∃ s', notify_requested i s = Done () s' ∧ orderly O P s'.
Proof.
  intros Hs Hi. destruct (base_job _ _ (ok_base _ _ (or_ok _ _ _ Hs)) Hi) as (j & Hj & _).
  destruct (or_pointers _ _ _ Hs i j Hj) as [Hr _].
  unfold notify_requested. bind_by (by apply job_get_run).
  destruct (requested_job j) as [rj|]; [|by exists s]. specialize (Hr rj eq_refl).
  destruct (mark_orderly OpMarkAccess _ O P s rj eq_refl Hs Hr) as (r & s1 & Hrun1 & Hs1 & E1);
    [done|].
  bind_by exact Hrun1. destruct (r =? 0); [|by exists s1].
  destruct (base_job _ _ (ok_base _ _ (or_ok _ _ _ Hs1)) Hr) as (l & Hl & _).
  destruct (base_job _ _ (ok_base _ _ (or_ok _ _ _ Hs1)) Hi) as (j1 & Hj1 & _).
  bind_by (by apply job_get_run). bind_by (by apply job_get_run).
  assert (∃ s2, when (gen l =? requested_job_gen j1)
      (schedi_job_add_available_job rj ≫= λ _, mret ()) s1 = Done () s2 ∧ orderly O P s2)
    as (s2 & Hrun2 & Hs2).
  { destruct (_ =? _); cbn [when]; [|by exists s1].
    destruct (cas_update_orderly O P s1 rj 0 0 1 Hs1 Hr) as (r2 & s2 & Hrun2 & Hs2 & _).
    exists s2. by split; [bind_by exact Hrun2|]. }
  bind_by exact Hrun2.
  destruct (mark_orderly OpUnmarkAccess _ O P s2 rj eq_refl Hs2 Hr) as (r3 & s3 & Hrun3 & Hs3 & _);
    [done|].
  bind_by exact Hrun3. by exists s3.
Qed.

(** The slot of a job that was given up, by the way it went. *)
Lemma slot_gone O P P' C F F' i k v v' :
  k ≠ i → slot_ok (i :: O) P C F k v → v' = v →
  (k ∈ P' ↔ k ∈ P) → (k ∉ F → k ∉ F') → slot_ok O P' C F' k v'.
Proof.
  intros Hne [H1 H2 H3 H4] -> HP HF. split; rewrite ?HP.
  - intros Hk. destruct (H1 Hk) as (? & ? & ? & ? & Hni%not_elem_of_cons). naive_solver.
  - intros Hk. destruct H2 as (? & ? & ? & ? & ?); [by right|]. naive_solver.
  - exact H3.
  - naive_solver.
Qed.

Lemma destroy_orderly i O P s :
  orderly (i :: O) P s →
  ∃ r s' P', schedi_job_destroy i s = Done r s' ∧ orderly O P' s'.
Proof.
  intros Hs. destruct (owned_slot _ _ _ _ Hs) as (j & Hj & Hi & Hf & HP & HO & HC & _).
  pose proof Hs as [Hok Hc [Hn Ho] Hsl Hp].
  apply NoDup_cons in Hn as [_ Hn]. apply Forall_cons in Ho as [_ Ho].
  destruct (destroy_done P i j s Hok Hi Hf HP Hj) as (r & s' & Hrun & Hcase).
  pose proof (keeps_destroy s_cache ltac:(done) i ltac:(done) ltac:(done) ltac:(done) _ _ _ Hrun)
    as Ec.
  pose proof (keeps_destroy s_indicators ltac:(done) i ltac:(done) ltac:(done) ltac:(done)
    _ _ _ Hrun) as Ei.
  destruct (idle j).
  - destruct Hcase as (_ & Hok' & _ & Ef & w & Ej & Hv). exists r, s', (P ++ [i]).
    split; [done|]. split; [done|by rewrite Ec|done| |].
    + intros k l Hl. rewrite Ec, Ef. unfold job_at in Hl. rewrite Ej in Hl.
      apply list_lookup_insert_Some in Hl as [(<- & <- & _)|[Hne Hl]].
      * cbn [meta_flag set_meta]. rewrite Hv. by split.
      * eapply slot_gone; [by apply not_eq_sym|by apply Hsl|done| |done].
        rewrite elem_of_app, list_elem_of_singleton. naive_solver.
    + by eapply (pointers_one i j _ s).
  - destruct Hcase as (_ & Hok' & _ & Ej & p & Ef & Hrel). exists r, s', P.
    split; [done|]. split; [done|by rewrite Ec|done| |].
    + intros k l Hl. rewrite Ec, Ef. unfold job_at in Hl. rewrite Ej in Hl.
      apply list_lookup_insert_Some in Hl as [(<- & <- & _)|[Hne Hl]]; [by split|].
      eapply slot_gone; [by apply not_eq_sym|by apply Hsl|done|done|].
      intros Hk. eapply released_free; [done|by apply not_eq_sym|done].
    + by eapply (pointers_one i j _ s).
Qed.

Lemma after_run_orderly i ret O P s :
  orderly (i :: O) P s → ∃ s' P', after_run i ret s = Done () s' ∧ orderly O P' s'.
Proof.
  intros Hs. destruct (owned_slot _ _ _ _ Hs) as (j & Hj & Hi & Hf & HP & HO & _).
  unfold after_run. destruct (ret <? 0).
  - destruct (indicate_orderly _ _ _ _ Hs Hi) as (s1 & Hrun1 & Hs1). bind_by exact Hrun1.
    destruct (notify_orderly _ _ _ _ Hs1 Hi) as (s2 & Hrun2 & Hs2). bind_by exact Hrun2.
    destruct (destroy_orderly _ _ _ _ Hs2) as (r & s3 & P' & Hrun3 & Hs3). bind_by exact Hrun3.
    by exists s3, P'.
  - destruct (ret =? 1); [|exists s, P; split; [done|by eapply orderly_drop]].
    destruct (readybasic_orderly O P s i j (orderly_drop _ _ _ _ Hs) Hj) as (r & s1 & Hrun & Hs1 & _);
      [done|].
    bind_by exact Hrun. by exists s1, P.
Qed.

Lemma start_job_orderly i O P s :
  orderly (i :: O) P s →
  ∃ r s', start_job i s = Done r s' ∧ orderly (if r : bool then i :: O else O) P s'.
Proof.
  intros Hs. destruct (owned_slot _ _ _ _ Hs) as (j & Hj & Hi & _).
  unfold start_job. bind_by (by apply job_put_run).
  pose proof (orderly_state _ _ _ _ _ schedi_job_state_working Hs Hj) as Hs1.
  destruct (mark_orderly OpMarkExecuting _ _ P _ i eq_refl Hs1 Hi) as (r & s2 & Hrun2 & Hs2 & _);
    [done|].
  bind_by exact Hrun2.
  destruct (negb (r =? 0)); [exists false, s2; split; [done|by eapply orderly_drop]|].
  destruct (mark_orderly OpUnmarkAccess _ _ P _ i eq_refl Hs2 Hi) as (r3 & s3 & Hrun3 & Hs3 & _);
    [done|].
  bind_by exact Hrun3. by exists true, s3.
Qed.

Lemma end_job_orderly i O P s :
  orderly (i :: O) P s → ∃ s', end_job i s = Done () s' ∧ orderly (i :: O) P s'.
Proof.
  intros Hs. destruct (owned_slot _ _ _ _ Hs) as (j & Hj & Hi & _).
  unfold end_job. bind_by (by apply job_put_run).
  pose proof (orderly_state _ _ _ _ _ schedi_job_state_suspended Hs Hj) as Hs1.
  destruct (mark_orderly OpUnmarkExecuting _ _ P _ i eq_refl Hs1 Hi) as (r & s2 & Hrun2 & Hs2 & _);
    [done|].
  bind_by exact Hrun2. by exists s2.
Qed.

(** ** Picking and cleaning up *)

Definition owned_by (r : option nat) (O : list nat) : list nat :=
  match r with Some i => i :: O | None => O end.

(** Nothing UNSTABLE and nothing marked WLLDESTROY is in the cache. *)
Lemma none_dropped O P s (flag : view → bool) (l rest : list nat) :
  orderly O P s → somes (s_cache s) ≡ₚ l ++ rest →
  (∀ v, v_unstable v || v_wlldestroy v = false → flag v = false) →
  Forall (λ i, ∀ j, job_at s i j → flag (view_of (meta_flag j)) = true) l → l = [].
Proof.
  intros Hs Hp Hflag Hl. destruct l as [|i l]; [done|]. exfalso.
  assert (i ∈ somes (s_cache s)) as Hin by (rewrite Hp; left).
  pose proof (ok_base _ _ (or_ok _ _ _ Hs)) as Hb.
  pose proof (ok_cached _ Hb) as Hidx. rewrite Forall_forall in Hidx.
  destruct (base_job _ _ Hb (Hidx i Hin)) as (j & Hj & _).
  destruct (sl_cached _ _ _ _ _ _ (or_slot _ _ _ Hs i j Hj) Hin) as (_ & Hban & _).
  apply Forall_cons in Hl as [Hi _]. specialize (Hi j Hj). rewrite (Hflag _ Hban) in Hi. done.
Qed.

Lemma pick_orderly O P s :
  orderly O P s →
  ∃ r s', schedi_job_pickready s = Done r s' ∧ orderly (owned_by r O) P s' ∧
    ∀ i, r = Some i → i ∈ somes (s_cache s).
Proof.
  intros Hs. pose proof Hs as [Hok Hc [Hn Ho] Hsl Hp].
  destruct (pickready_loop_done (S SCHEDI_MAXIMUM_JOBS) _ _ Hok) as (r & s' & Hrun & Hok' & Hr & _).
  { destruct (ok_cache _ (ok_base _ _ Hok)) as [peak Hck].
    pose proof (length_somes_le (s_cache s)) as Hle.
    rewrite (ok_length _ _ Hck : length (s_cache s) = _) in Hle. lia. }
  pose proof (keeps_pickready s_indicators ltac:(done) ltac:(done) _ _ _ Hrun) as Ei.
  pose proof (keeps_pickready free_of ltac:(done) ltac:(done) _ _ _ Hrun) as Ef.
  exists r, s'. split; [exact Hrun|]. destruct Hr as (dropped & Hdrop & Hcase).
  destruct r as [i|]; cbn [owned_by].
  - destruct Hcase as (Hperm & j & w & Hj & Hg & Ej & Hv).
    rewrite (none_dropped O P s v_unstable dropped (i :: somes (s_cache s'))) in Hperm;
      [|done|done|by intros v [? _]%orb_false_iff|done].
    cbn [app] in Hperm. assert (i ∈ somes (s_cache s)) as Hin by (rewrite Hperm; left).
    destruct (sl_cached _ _ _ _ _ _ (Hsl i j Hj) Hin) as (_ & Hban & HF & HP & HO).
    pose proof Hc as Hc'. rewrite Hperm in Hc'. apply NoDup_cons in Hc' as [Hni Hc'].
    split; [|by intros ? [= <-]]. split; [done|done| | |].
    + split; [by constructor|]. constructor; [by eapply orderly_index|done].
    + intros k l Hl. rewrite Ef. unfold job_at in Hl. rewrite Ej in Hl.
      apply list_lookup_insert_Some in Hl as [(<- & <- & _)|[Hne Hl]].
      * cbn [meta_flag set_meta]. rewrite Hv. by split.
      * destruct (Hsl k l Hl) as [H1 H2 H3 H4]. split; [|intros Hk| done|done].
        -- intros Hk. destruct H1 as (? & ? & ? & ? & ?); [rewrite Hperm; by right|].
           split_and!; try done. by intros [?|?]%elem_of_cons.
        -- apply H2. by apply elem_of_cons in Hk as [?|?].
    + by eapply (pointers_one i j _ s).
  - destruct Hcase as (Ej & lost & Hperm & Hlost).
    rewrite (none_dropped O P s v_unstable dropped (lost ++ somes (s_cache s'))) in Hperm;
      [|done|done|by intros v [? _]%orb_false_iff|done].
    rewrite (none_dropped O P s v_wlldestroy lost (somes (s_cache s'))) in Hperm;
      [|done|done|by intros v [_ ?]%orb_false_iff|done].
    cbn [app] in Hperm. split; [|done]. split; [done|by rewrite <-Hperm|done| |].
    + intros k l Hl. rewrite Ef. unfold job_at in Hl. rewrite Ej in Hl.
      eapply slot_places; [by apply Hsl|done|by rewrite Hperm].
    + apply (pointers_jobs s); [done|by apply keeps_unlocked_same|]. intros k l Hl.
      exists l. unfold job_at in *. by rewrite <-Ej.
Qed.

Lemma queued_not_idle O P s : orderly O P s → still_idle s P = [].
Proof.
  intros Hs. apply elem_of_nil_inv. intros i [Hidle Hi]%list_elem_of_filter. revert Hidle.
  unfold idle_at.
  destruct (s_jobs s !! i) as [j|] eqn:Hj; cbn [from_option]; cycle 1.
  { exfalso. destruct (ok_fenced _ _ (or_ok _ _ _ Hs)) as [_ Hf]. destruct (Hf i Hi) as [Hidx _].
    destruct (base_job _ _ (ok_base _ _ (or_ok _ _ _ Hs)) Hidx) as (j & Hj' & _).
    unfold job_at in Hj'. congruence. }
  unfold idle. cbn [op_guard].
  by rewrite (sl_queued _ _ _ _ _ _ (or_slot _ _ _ Hs i j Hj) Hi).
Qed.

Lemma queue_check_orderly O P s :
  orderly O P s → ∃ s', schedi_job_destroy_queue_check s = Done () s' ∧ orderly O [] s'.
Proof.
  intros Hs. pose proof Hs as [Hok Hc Ho Hsl Hp].
  destruct (queue_check_done _ _ Hok) as (s' & Hrun & Hok' & _ & Ec & Hfree & Hjobs).
  rewrite (queued_not_idle _ _ _ Hs) in Hok'.
  pose proof (keeps_queue_check s_indicators ltac:(done) ltac:(done) ltac:(done) ltac:(done)
    _ _ _ Hrun) as Ei.
  assert (∀ k l', job_at s' k l' → ∃ l, job_at s k l ∧
    (k ∈ P ∧ l' = dead_job l ∨ (k ∉ P) ∧ l' = l)) as Hback.
  { intros k l' Hl'. pose proof (job_index_at _ _ _ _ Hok' Hl') as Hk.
    destruct (base_job _ _ (ok_base _ _ Hok) Hk) as (l & Hl & _). exists l. split; [done|].
    destruct (Hjobs k l Hl) as (l2 & Hl2 & Hcase).
    assert (l2 = l') as -> by (unfold job_at in *; congruence).
    destruct (decide (k ∈ P)) as [HkP|HkP]; [left|by right]. split; [done|].
    unfold checked in Hcase. destruct (idle l) eqn:Hidle; [|done].
    unfold idle in Hidle. cbn [op_guard] in Hidle.
    by rewrite (sl_queued _ _ _ _ _ _ (Hsl k l Hl) HkP) in Hidle. }
  exists s'. split; [done|]. split; [done|by rewrite Ec|done| |].
  - intros k l' Hl'. destruct (Hback k l' Hl') as (l & Hl & [[HkP ->]|[HkP ->]]);
      destruct (Hsl k l Hl) as [H1 H2 H3 H4]; rewrite Ec.
    + split; [|intros Hk; by destruct (H2 Hk) as (_ & _ & _ & _ & [])|by intros ?%not_elem_of_nil|done].
      intros Hk. by destruct (H1 Hk) as (_ & _ & _ & [] & _).
    + assert (k ∉ free_of s → k ∉ free_of s') as HF.
      { intros Hk Hk'. apply Hfree, elem_of_union in Hk' as [Hk'|?]; [|done].
        by apply elem_of_list_to_set in Hk'. }
      split; [| |by intros ?%not_elem_of_nil|naive_solver].
      * intros Hk. destruct (H1 Hk) as (? & ? & ? & ? & ?). split_and!; auto using not_elem_of_nil.
      * intros Hk. destruct (H2 Hk) as (? & ? & ? & ? & ?). split_and!; auto using not_elem_of_nil.
  - apply (pointers_jobs s); [done|by apply keeps_unlocked_same|]. intros k l' Hl'.
    destruct (Hback k l' Hl') as (l & Hl & [[_ ->]|[_ ->]]); by exists l.
Qed.

Lemma tick_orderly O P s :
  orderly O P s →
  ∃ s', on_cache schedi_ready_jobs_cache_reorganize_tick s = Done () s' ∧ orderly O P s'.
Proof.
  intros Hs. pose proof Hs as [Hok Hc Ho Hsl Hp]. pose proof (ok_base _ _ Hok) as Hb.
  destruct (ok_cache _ Hb) as [peak Hck].
  destruct (tick_run _ _ Hck (ok_mutex _ Hb)) as (c & Hrun & Hg).
  assert (cached c ≡ₚ somes (s_cache s)) as Hperm.
  { destruct (_ <? _); [by subst c|]. by destruct Hg as (_ & _ & ? & _). }
  destruct (tick_done _ _ Hok) as (s' & Hrun' & Hok').
  assert (s' = put_cache c s) as ->.
  { rewrite (on_cache_run _ _ _ _ Hrun) in Hrun'. by injection Hrun'. }
  exists (put_cache c s). split; [done|]. split; [done| |done| |done].
  - cbn [s_cache put_cache]. by rewrite Hperm.
  - intros k j Hj. rewrite free_put_cache. eapply slot_places; [by apply Hsl|done|].
    cbn [s_cache put_cache]. by rewrite Hperm.
Qed.

Lemma between_jobs_orderly O P s :
  orderly O P s → ∃ s', between_jobs s = Done () s' ∧ orderly O [] s'.
Proof.
  intros Hs. destruct (queue_check_orderly _ _ _ Hs) as (s1 & Hrun1 & Hs1).
  destruct (tick_orderly _ _ _ Hs1) as (s2 & Hrun2 & Hs2).
  unfold between_jobs. bind_by exact Hrun1. by exists s2.
Qed.

(** ** What job functions and other threads ask of the library *)

(** A change of one slot that leaves its word and its indicator alone. *)
Lemma put_orderly (f : schedi_job → schedi_job) i j O P s :
  orderly O P s → job_at s i j → meta_flag (f j) = meta_flag j →
  completion_indicator (f j) = completion_indicator j →
  (∀ r, requested_job (f j) = Some r → requested_job j = Some r ∨ job_index r) →
  job_put f i s = Done () (with_job i (f j) s) ∧ orderly O P (with_job i (f j) s).
Proof.
  intros Hs Hj Em Ek Er. split; [by apply job_put_run|].
  pose proof Hs as [Hok Hc Ho Hsl Hp]. split; [|done|done| |].
  - eapply with_job_ok; [done..|]. rewrite Em. exact (ok_words _ (ok_base _ _ Hok) _ _ Hj).
  - intros k l Hl. unfold job_at, with_job in Hl. cbn [s_jobs set_jobs] in Hl.
    cbn [s_cache with_job set_jobs]. rewrite free_with_job.
    apply list_lookup_insert_Some in Hl as [(<- & <- & _)|[_ Hl]]; [rewrite Em|]; by apply Hsl.
  - intros k l Hl. unfold job_at, with_job in Hl. cbn [s_jobs set_jobs] in Hl.
    apply list_lookup_insert_Some in Hl as [(<- & <- & _)|[_ Hl]]; [|by apply (Hp k l)].
    destruct (Hp i j Hj) as [Hr Hk]. split; [|by rewrite Ek].
    intros r [|]%Er; [by apply Hr|done].
Qed.

(** [schedi_job_tool_job]: the job [t] is asked to tell [u]. *)
Lemma tool_job_orderly u t l O P s :
  orderly O P s → job_index u → job_at s t l →
  ∃ l', schedi_job_tool_job u t s = Done () (with_job t l' s) ∧
    meta_flag l' = meta_flag l ∧ orderly O P (with_job t l' s).
Proof.
  intros Hs Hu Hl. destruct (base_job _ _ (ok_base _ _ (or_ok _ _ _ Hs)) Hu) as (j & Hj & _).
  destruct (put_orderly (set_requested (Some u) (gen j)) t l O P s) as [Hrun Hs']; try done.
  { intros r [= <-]. by right. }
  eexists. split; [unfold schedi_job_tool_job; by bind_by (by apply job_get_run)|by split].
Qed.

(** [schedi_job_required_available_jobs], of a running job too. *)
Lemma required_jobs_orderly i n O P s :
  orderly O P s → job_index i →
  ∃ s', schedi_job_required_available_jobs i n s = Done () s' ∧ orderly O P s'.
Proof.
  intros Hs Hi. destruct (base_job _ _ (ok_base _ _ (or_ok _ _ _ Hs)) Hi) as (j & Hj & _).
  destruct (put_orderly (set_required_jobs n) i j O P s) as [Hrun Hs1]; try done.
  { intros r Hr. by left. }
  unfold schedi_job_required_available_jobs. bind_by exact Hrun.
  destruct (cas_update_orderly O P _ i 0 0 0 Hs1 Hi) as (r & s2 & Hrun2 & Hs2 & _).
  bind_by exact Hrun2. by exists s2.
Qed.

Lemma required_sockets_orderly i n O P s :
  orderly O P s → job_index i →
  ∃ s', schedi_job_required_available_socket i n s = Done () s' ∧ orderly O P s'.
Proof.
  intros Hs Hi. destruct (base_job _ _ (ok_base _ _ (or_ok _ _ _ Hs)) Hi) as (j & Hj & _).
  destruct (put_orderly (set_required_sockets n) i j O P s) as [Hrun Hs1]; try done.
  { intros r Hr. by left. }
  unfold schedi_job_required_available_socket. bind_by exact Hrun.
  destruct (cas_update_orderly O P _ i 0 0 0 Hs1 Hi) as (r & s2 & Hrun2 & Hs2 & _).
  bind_by exact Hrun2. by exists s2.
Qed.

Lemma gone (k : nat) (F X : gset nat) : (k ∉ F) → k ∉ F ∖ X.
Proof. intros Hk [? _]%elem_of_difference. done. Qed.

Lemma create_orderly ctx fn d O P s :
  orderly O P s →
  ∃ r s', schedi_job_create ctx fn d s = Done r s' ∧ orderly O P s' ∧
    match r with
    | Some i => ∃ j, job_at s' i j ∧ job_index i ∧ may_ready O P s' i (view_of (meta_flag j))
    | None => s' = s
    end.
Proof.
  intros Hs. pose proof Hs as [Hok Hc Ho Hsl Hp].
  destruct (create_done ctx fn d P s Hok) as (r & s' & Hrun & Hok' & Hr).
  exists r, s'. split; [done|]. destruct r as [i|]; [|by destruct Hr as [_ ->]].
  destruct Hr as (j & p & Hj & Hi & Ef & -> & _).
  assert (i ∉ P) as HP.
  { intros Hin. destruct (ok_fenced _ _ Hok) as [_ Hfence]. by destruct (Hfence i Hin). }
  assert (i ∉ O) as HO by (intros Hin; by destruct (sl_owned _ _ _ _ _ _ (Hsl i j Hj) Hin)
    as (_ & _ & _ & ? & _)).
  assert (i ∉ somes (s_cache s)) as HC by (intros Hin; by destruct (sl_cached _ _ _ _ _ _
    (Hsl i j Hj) Hin) as (_ & _ & ? & _)).
  set (j' := created_job ctx fn d j) in *.
  assert (job_at (with_job i j' (put_pool p s)) i j') as Hj' by by eapply job_at_with.
  split.
  - split; [done|done|done| |].
    + intros k l Hl. rewrite Ef. unfold job_at, with_job in Hl. cbn [s_jobs set_jobs put_pool] in Hl.
      apply list_lookup_insert_Some in Hl as [(<- & <- & _)|[Hne Hl]].
      * split; [by intros ?|by intros ?|by intros ?|intros _ _ Hin].
        apply elem_of_difference in Hin as [_ []]. by apply elem_of_singleton.
      * destruct (Hsl k l Hl) as [H1 H2 H3 H4]. split; [| |done|].
        -- intros Hk. destruct (H1 Hk) as (? & ? & ? & ? & ?). by split_and!; try apply gone.
        -- intros Hk. destruct (H2 Hk) as (? & ? & ? & ? & ?). by split_and!; try apply gone.
        -- intros ? ?. by apply gone, H4.
    + intros k l Hl. unfold job_at, with_job in Hl. cbn [s_jobs set_jobs put_pool] in Hl.
      apply list_lookup_insert_Some in Hl as [(<- & <- & _)|[_ Hl]]; [|by apply (Hp k l)].
      destruct (Hp i j Hj) as [_ Hk]. by split.
  - exists j'. split; [done|]. split; [by eapply orderly_index|]. intros _. rewrite Ef. split; [|done].
    intros [_ []]%elem_of_difference. by apply elem_of_singleton.
Qed.

(** The state at start-up. *)
Lemma start_orderly : orderly [] [] sys_init.
Proof.
  split; [exact sys_init_ok|by constructor|split; constructor| |].
  - intros i j Hj. unfold job_at, sys_init in Hj. cbn [s_jobs] in Hj.
    apply lookup_replicate in Hj as [-> _].
    split; [by intros ?%not_elem_of_nil| by intros ?%not_elem_of_nil|by intros ?%not_elem_of_nil|done].
  - intros i j Hj. unfold job_at, sys_init in Hj. cbn [s_jobs] in Hj.
    apply lookup_replicate in Hj as [-> _]. done.
Qed.

(** A job is created and set going, as the examples do. *)
Definition spawn (ctx : Z) (fn : nat) (d : option nat) : M sys unit :=
  job ← schedi_job_create ctx fn d;
  match job with
  | Some i => schedi_job_mark_readybasic i ≫= λ _, mret ()
  | None => mret ()
  end.

Lemma spawn_orderly ctx fn d O P s :
  orderly O P s → ∃ s', spawn ctx fn d s = Done () s' ∧ orderly O P s'.
Proof.
  intros Hs. destruct (create_orderly ctx fn d _ _ _ Hs) as (r & s1 & Hrun1 & Hs1 & Hr).
  unfold spawn. bind_by exact Hrun1. destruct r as [i|]; [|by exists s1].
  destruct Hr as (j & Hj & _ & Hmay).
  destruct (readybasic_orderly _ _ _ _ _ Hs1 Hj Hmay) as (r & s2 & Hrun2 & Hs2 & _).
  bind_by exact Hrun2. by exists s2.
Qed.
End pool.
