(* ===== verification/WorkerTurns.v ===== *)
(** * Interleaved workers (src/src/worker.c)

    [worker_routine] of any number of workers, cut at its calls into the shared state, the
    pieces interleaved in any order with each other and with what the rest of the program
    asks of the library, the request to shut down included.  No interleaving of them makes
    two workers run the same job, or destroys, frees or caches a job that a worker runs
    ([workers_do_not_interfere]). *)

From S2P Require Export WorkerPool.

Local Open Scope Z_scope.

(** Where a worker is: at the test of its loop, before the first look without the mutex,
    before the second look under it, asleep, at [_got_a_job], before and after the job's
    function, before the part that depends on what the function returned, at [_continue],
    and out of the loop. *)
Inductive wpc : Type :=
  | AtTop
  | AtFirstLook
  | AtSecondLook
  | Asleep
  | GotJob (i : nat)
  | Started (i : nat)
  | Returned (i : nat) (ret : Z)
  | GaveBack (i : nat) (ret : Z)
  | AtContinue
  | Left.

(** The job a worker holds. *)
Definition held (p : wpc) : option nat :=
  match p with
  | GotJob i | Started i | Returned i _ | GaveBack i _ => Some i
  | AtTop | AtFirstLook | AtSecondLook | Asleep | AtContinue | Left => None
  end.

(** All workers and the state they share. *)
Record crew : Type := Crew { c_workers : list wpc; c_sys : sys }.
Definition set_crew_sys s c := Crew (c_workers c) s.
Definition set_crew_workers ws c := Crew ws (c_sys c).
Definition held_jobs (ws : list wpc) : list nat := omap held ws.

Section turns.
Context `{BuildConfig, JobAddress}.

(** The job functions, and the requests of other threads. *)
Variables (code : nat → nat → M sys Z) (client : nat → M sys unit).

Definition first_look (job : option nat) : wpc :=
  match job with
  | Some i => GotJob i
  | None => if lockless_readyjob then AtContinue else AtSecondLook
  end.
(** Without a job the worker leaves if it is told to, else it sleeps. *)
Definition second_look (stop : bool) (job : option nat) : wpc :=
  match job with Some i => GotJob i | None => if stop then Left else Asleep end.

(** One piece of the loop; [stop] is what the worker reads in [ctx->shutdown], which
    another thread may set at any time.  The second look is one piece: the mutex is held
    from its first to its last call, or released by the wait; a worker that wakes up takes
    the mutex once more and releases it.  One that has left the loop does nothing. *)
Definition act (stop : bool) (p : wpc) : M sys wpc :=
  match p with
  | AtTop => mret (if stop then Left else AtFirstLook)
  | AtFirstLook =>
      job ← schedi_job_pickready; mret (first_look job)
  | AtSecondLook =>
      on_cache schedi_pickingreadyjob ≫= λ _,
      job ← schedi_job_pickready;
      on_cache schedi_pickedreadyjob ≫= λ _,
      mret (second_look stop job)
  | Asleep =>
      on_cache schedi_pickingreadyjob ≫= λ _,
      on_cache schedi_pickedreadyjob ≫= λ _, mret AtContinue
  | GotJob i =>
      start_job i ≫= λ started : bool, mret (if started then Started i else AtContinue)
  | Started i => ret ← run_job code i; mret (Returned i ret)
  | Returned i ret => end_job i ≫= λ _, mret (GaveBack i ret)
  | GaveBack i ret => after_run i ret ≫= λ _, mret AtContinue
  | AtContinue => between_jobs ≫= λ _, mret AtTop
  | Left => mret Left
  end.

(** Worker [k] does its next piece, reading [stop] if it reads [ctx->shutdown], or another
    thread makes its request [r]. *)
Inductive move : Type := Work (k : nat) (stop : bool) | Request (r : nat).

Definition on_crew {A} : M sys A → M crew A := zoom c_sys set_crew_sys.
Definition crew_move (m : move) : M crew unit :=
  match m with
  | Work k stop =>
      p ← reads (λ c, c_workers c !! k);
      p' ← on_crew (act stop p);
      modify (λ c, set_crew_workers (<[k := p']> (c_workers c)) c)
  | Request r => on_crew (client r)
  end.

Fixpoint crew_run (ms : list move) : M crew unit :=
  match ms with
  | [] => mret ()
  | m :: ms => crew_move m ≫= λ _, crew_run ms
  end.

(** ** All workers *)

(** Job functions and clients keep the order: a function returns with its job still held
    and everything else in its place.  The calls of the library that jobs make satisfy
    this ([spawn_orderly], [put_orderly], [cas_update_orderly], ...). *)
Definition code_orderly : Prop := ∀ f i O P s, orderly (i :: O) P s →
  ∃ ret s' P', code f i s = Done ret s' ∧ orderly (i :: O) P' s'.
Definition client_orderly : Prop := ∀ r O P s, orderly O P s →
  ∃ s' P', client r s = Done () s' ∧ orderly O P' s'.

Definition holding (p : wpc) (O : list nat) : list nat := owned_by (held p) O.

(** Nobody holds the mutex between two pieces. *)
Lemma mutex_taken O P s :
  orderly O P s → on_cache schedi_pickingreadyjob s = Done () (relock true s).
Proof.
  intros Hs. pose proof (ok_mutex _ (ok_base _ _ (or_ok _ _ _ Hs))) as Hm.
  apply on_cache_run. unfold schedi_pickingreadyjob, pthread_mutex_lock.
  cbn [readyjob_mutex cache_of]. by rewrite Hm.
Qed.
Lemma mutex_released O P s :
  orderly O P s → on_cache schedi_pickedreadyjob (relock true s) = Done () s.
Proof.
  intros Hs. pose proof (ok_mutex _ (ok_base _ _ (or_ok _ _ _ Hs))) as Hm.
  etrans; [by apply (on_cache_run schedi_pickedreadyjob)|]. f_equal.
  destruct s. cbn in *. by subst.
Qed.

Lemma look_orderly stop O P s :
  orderly O P s →
  ∃ p s', act stop AtSecondLook s = Done p s' ∧ orderly (holding p O) P s'.
Proof.
  intros Hs. destruct (pick_orderly _ _ _ Hs) as (r & s' & Hrun & Hs' & _).
  exists (second_look stop r), s'. cbn [act]. split; [|by destruct r, stop].
  bind_by exact (mutex_taken _ _ _ Hs). bind_by (by rewrite pickready_blind, Hrun).
  by bind_by exact (mutex_released _ _ _ Hs').
Qed.

Lemma act_orderly stop p O P s :
  code_orderly → orderly (holding p O) P s →
  ∃ p' s' P', act stop p s = Done p' s' ∧ orderly (holding p' O) P' s'.
Proof.
  intros Hcode Hs. destruct p as [| | | |i|i|i ret|i ret| |]; unfold holding in Hs;
    cbn [act held owned_by] in *.
  - eexists _, s, P. split; [done|]. by destruct stop.
  - destruct (pick_orderly _ _ _ Hs) as (r & s' & Hrun & Hs' & _). bind_by exact Hrun.
    eexists _, s', P. split; [done|]. destruct r as [i|]; [done|].
    unfold first_look. by destruct lockless_readyjob.
  - destruct (look_orderly stop _ _ _ Hs) as (p' & s' & Hrun & Hs'). by exists p', s', P.
  - bind_by exact (mutex_taken _ _ _ Hs). bind_by exact (mutex_released _ _ _ Hs).
    by eexists _, s, P.
  - destruct (start_job_orderly _ _ _ _ Hs) as (r & s' & Hrun & Hs'). bind_by exact Hrun.
    eexists _, s', P. split; [done|]. by destruct r.
  - destruct (owned_slot _ _ _ _ Hs) as (j & Hj & _). unfold run_job.
    destruct (Hcode (run j) i O P s Hs) as (ret & s' & P' & Hrun & Hs').
    bind_by (bind_by (by apply job_get_run); exact Hrun). by eexists _, s', P'.
  - destruct (end_job_orderly _ _ _ _ Hs) as (s' & Hrun & Hs'). bind_by exact Hrun.
    by eexists _, s', P.
  - destruct (after_run_orderly i ret _ _ _ Hs) as (s' & P' & Hrun & Hs'). bind_by exact Hrun.
    by eexists _, s', P'.
  - destruct (between_jobs_orderly _ _ _ Hs) as (s' & Hrun & Hs'). bind_by exact Hrun.
    by eexists _, s', [].
  - by eexists _, s, P.
Qed.

Lemma delete_insert_same {A} (l : list A) k x : delete k (<[k := x]> l) = delete k l.
Proof. revert k. induction l as [|y l IH]; intros [|k]; cbn; [done..|]. f_equal. apply IH. Qed.

Lemma held_at k p ws :
  ws !! k = Some p → held_jobs ws ≡ₚ holding p (held_jobs (delete k ws)).
Proof.
  intros Hk. rewrite <-(take_drop_middle ws k p Hk) at 1. rewrite delete_take_drop.
  unfold held_jobs, holding. rewrite !omap_app. cbn [omap list_omap].
  destruct (held p); cbn [owned_by]; [|done]. by rewrite Permutation_middle.
Qed.

(** A state of all workers that is in order. *)
Definition crew_orderly (c : crew) : Prop :=
  ∃ P, orderly (held_jobs (c_workers c)) P (c_sys c).

(** A request, or a piece of a worker there is. *)
Definition move_ok (n : nat) (m : move) : Prop :=
  match m with Work k _ => (k < n)%nat | Request _ => True end.

Lemma move_orderly m c :
  code_orderly → client_orderly → move_ok (length (c_workers c)) m → crew_orderly c →
  ∃ c', crew_move m c = Done () c' ∧ crew_orderly c' ∧
    length (c_workers c') = length (c_workers c).
Proof.
  intros Hcode Hclient Hm [P Hs]. destruct c as [ws s]. cbn [c_workers c_sys] in *.
  destruct m as [k stop|r]; cbn [crew_move].
  - destruct (lookup_lt_is_Some_2 ws k Hm) as [p Hp].
    destruct (act_orderly stop p (held_jobs (delete k ws)) P s Hcode) as (p' & s' & P' & Hrun & Hs').
    { by eapply orderly_perm; [apply held_at|]. }
    bind_by (by unfold reads; cbn [c_workers]; rewrite Hp).
    bind_by (by apply (zoom_done c_sys set_crew_sys)).
    eexists. split; [done|]. cbn [c_workers c_sys set_crew_sys set_crew_workers].
    split; [|by rewrite length_insert]. exists P'.
    assert (<[k := p']> ws !! k = Some p') as Hp' by (by apply list_lookup_insert_eq).
    eapply orderly_perm; [symmetry; apply (held_at _ _ _ Hp')|].
    by rewrite delete_insert_same.
  - destruct (Hclient r _ _ _ Hs) as (s' & P' & Hrun & Hs'). eexists.
    split; [by apply (zoom_done c_sys set_crew_sys)|]. split; [by exists P'|done].
Qed.

Lemma run_orderly ms : ∀ c,
  code_orderly → client_orderly → Forall (move_ok (length (c_workers c))) ms → crew_orderly c →
  ∃ c', crew_run ms c = Done () c' ∧ crew_orderly c' ∧
    length (c_workers c') = length (c_workers c).
Proof.
  induction ms as [|m ms IH]; intros c Hcode Hclient Hms Hc; [by exists c|].
  apply Forall_cons in Hms as [Hm Hms].
  destruct (move_orderly m c Hcode Hclient Hm Hc) as (c1 & Hrun1 & Hc1 & Hlen1).
  destruct (IH c1 Hcode Hclient) as (c2 & Hrun2 & Hc2 & Hlen2); [by rewrite Hlen1|done|].
  exists c2. cbn [crew_run]. split; [by bind_by exact Hrun1|]. split; [done|congruence].
Qed.

(** Two workers hold two jobs. *)
Lemma held_distinct ws k l p q i :
  NoDup (held_jobs ws) → ws !! k = Some p → ws !! l = Some q → held p = Some i →
  held q = Some i → k = l.
Proof.
  intros Hnd Hk Hl Hp Hq. destruct (decide (k = l)) as [|Hne]; [done|]. exfalso.
  rewrite (held_at _ _ _ Hk) in Hnd. unfold holding in Hnd. rewrite Hp in Hnd.
  cbn [owned_by] in Hnd. apply NoDup_cons in Hnd as [Hni _]. apply Hni.
  unfold held_jobs. apply list_elem_of_omap. exists q. split; [|done].
  apply list_elem_of_lookup. destruct (decide (l < k)%nat).
  - exists l. by rewrite list_lookup_delete_lt.
  - exists (l - 1)%nat. rewrite list_lookup_delete_ge by lia.
    by replace (S (l - 1)) with l by lia.
Qed.

(** C5: workers do not interfere.  From a state in order, whatever pieces any number of
    workers and clients do in whatever order, everything returns (nothing blocks, and no
    index is out of range), the state stays in order, no two workers hold the same job,
    and a job that a worker holds is in use, not queued for destruction, not cached as
    READY and not READY itself, so no other worker can pick it. *)
Theorem workers_do_not_interfere ms c :
  code_orderly → client_orderly → Forall (move_ok (length (c_workers c))) ms → crew_orderly c →
  ∃ c' P, crew_run ms c = Done () c' ∧ sys_ok P (c_sys c') ∧
    (∀ k l p q i, c_workers c' !! k = Some p → c_workers c' !! l = Some q →
      held p = Some i → held q = Some i → k = l) ∧
    (∀ k p i, c_workers c' !! k = Some p → held p = Some i →
      ∃ j, job_at (c_sys c') i j ∧ (i ∉ free_of (c_sys c')) ∧ (i ∉ P) ∧
        (i ∉ somes (s_cache (c_sys c'))) ∧ v_ready (view_of (meta_flag j)) = false).
Proof.
  intros Hcode Hclient Hms Hc.
  destruct (run_orderly ms c Hcode Hclient Hms Hc) as (c' & Hrun & [P Hs] & _).
  exists c', P. split; [exact Hrun|]. split; [apply Hs|]. split.
  - intros k l p q i. apply held_distinct, Hs.
  - intros k p i Hk Hi. pose proof (held_at _ _ _ Hk) as Hperm. unfold holding in Hperm.
    rewrite Hi in Hperm. cbn [owned_by] in Hperm.
    destruct (owned_slot i _ _ _ (orderly_perm _ _ _ _ Hperm Hs)) as
      (j & Hj & _ & Hf & HP & _ & HC & _ & Hr & _). by exists j.
Qed.
End turns.

(** ** A concrete crew *)

#[local] Existing Instance default_build.
#[local] Existing Instance contiguous_jobs.

(** Function 5 creates a job with function 6, asks for its completion and waits for it;
    function 6 completes; clients create jobs with function 5. *)
Definition parent_code (f i : nat) : M sys Z :=
  if (f =? 5)%nat then
    child ← schedi_job_create 1 6 None;
    match child with
    | None => mret (-1)
    | Some c =>
        schedi_job_tool_job i c ≫= λ _, schedi_job_mark_readybasic c ≫= λ _,
        schedi_job_required_available_jobs i 1 ≫= λ _, mret 1
    end
  else mret (-1).
Definition parent_client (r : nat) : M sys unit := spawn (Z.of_nat r) 5 None.

Lemma parent_code_orderly : code_orderly parent_code.
Proof.
  intros f i O P s Hs. unfold parent_code. destruct (f =? 5)%nat; [|by exists (-1), s, P].
  destruct (owned_slot _ _ _ _ Hs) as (j & _ & Hi & _).
  destruct (create_orderly 1 6 None _ _ _ Hs) as (r & s1 & Hrun1 & Hs1 & Hr).
  bind_by exact Hrun1. destruct r as [c|]; [|by exists (-1), s1, P].
  destruct Hr as (l & Hl & Hc & Hmay).
  destruct (tool_job_orderly i c l _ _ _ Hs1 Hi Hl) as (l' & Hrun2 & Em & Hs2).
  bind_by exact Hrun2. assert (job_at (with_job c l' s1) c l') as Hl' by by eapply job_at_with.
  destruct (readybasic_orderly _ _ _ _ _ Hs2 Hl') as (r3 & s3 & Hrun3 & Hs3 & _).
  { rewrite Em. intros Hun. rewrite free_with_job. by apply Hmay. }
  bind_by exact Hrun3.
  destruct (required_jobs_orderly i 1 _ _ _ Hs3 Hi) as (s4 & Hrun4 & Hs4).
  bind_by exact Hrun4. by exists 1, s4, P.
Qed.

Lemma parent_client_orderly : client_orderly parent_client.
Proof.
  intros r O P s Hs. destruct (spawn_orderly (Z.of_nat r) 5 None _ _ _ Hs) as (s' & Hrun & Hs').
  by exists s', P.
Qed.

Definition two_workers : crew := Crew [AtTop; AtTop] sys_init.
(** The clients create a job; worker 0 starts it, worker 1 takes its child meanwhile, and
    both are told to stop in the end. *)
Definition parent_moves : list move :=
  [Request 0; Work 0 false; Work 0 false; Work 0 false; Work 1 false; Work 1 false;
   Work 0 false; Work 1 false; Work 1 false; Work 1 false; Work 0 false; Work 1 false;
   Work 0 false; Work 1 true; Work 0 true; Work 1 true; Work 0 true; Work 1 true].

Lemma workers_do_not_interfere_witness :
  ∃ c' P, crew_run parent_code parent_client parent_moves two_workers = Done () c' ∧
    sys_ok P (c_sys c') ∧
    (∀ k l p q i, c_workers c' !! k = Some p → c_workers c' !! l = Some q →
      held p = Some i → held q = Some i → k = l) ∧
    (∀ k p i, c_workers c' !! k = Some p → held p = Some i →
      ∃ j, job_at (c_sys c') i j ∧ (i ∉ free_of (c_sys c')) ∧ (i ∉ P) ∧
        (i ∉ somes (s_cache (c_sys c'))) ∧ v_ready (view_of (meta_flag j)) = false).
Proof.
  apply (workers_do_not_interfere parent_code parent_client parent_moves two_workers).
  - exact parent_code_orderly.
  - exact parent_client_orderly.
  - repeat constructor.
  - exists []. exact start_orderly.
Defined.

(** In that run the two workers hold two jobs at a time, and leave in the end. *)
Lemma parent_moves_overlap :
  let after n := c_workers (final_of two_workers
    (crew_run parent_code parent_client (take n parent_moves) two_workers)) in
  after 8%nat = [Returned 0 1; GotJob 1] ∧ after (length parent_moves) = [Left; Left].
Proof. split; vm_compute; reflexivity. Qed.
