(* ===== verification/SockWord.v ===== *)
(** * The packed state word of an epoll socket (src/src/jobs.c and jobs.h, [htc])

    One 64-bit word holds the bytes buffered for reading ([count]), the free bytes of
    the write buffer ([avail]) and seven flags.  The definitions are the bodies of
    the compare-and-swap loops of jobs.c; a record of the fields is the abstract
    state they implement.  The layout depends on the build: with socket timeouts the
    counters have 28 bits each and bit 57 is a flag, else they have 29 bits. *)

From S2P Require Export ReadyCache.

Local Open Scope Z_scope.

Definition SCHEDI_JOB_EPOLLSOCKET_BUFFERSIZE : Z := 1024.

Section layout.
Context `{BuildConfig}.

Definition SCHEDI_JOB_EPOLLSOCKET_AVAIL_SHIFT : Z := if ext_timeout then 28 else 29.
Definition SCHEDI_JOB_EPOLLSOCKET_COUNT_MASK : Z :=
  Z.shiftl 1 SCHEDI_JOB_EPOLLSOCKET_AVAIL_SHIFT - 1.
Definition SCHEDI_JOB_EPOLLSOCKET_AVAIL_MASK : Z :=
  Z.shiftl (Z.shiftl 1 SCHEDI_JOB_EPOLLSOCKET_AVAIL_SHIFT - 1)
    SCHEDI_JOB_EPOLLSOCKET_AVAIL_SHIFT.
End layout.

Definition SCHEDI_JOB_EPOLLSOCKET_TIMEOUT : Z := Z.shiftl 1 57.
Definition SCHEDI_JOB_EPOLLSOCKET_EPOLLDID : Z := Z.shiftl 1 58.
Definition SCHEDI_JOB_EPOLLSOCKET_EPOLLNT : Z := Z.shiftl 1 59.
Definition SCHEDI_JOB_EPOLLSOCKET_READ_READY : Z := Z.shiftl 1 60.
Definition SCHEDI_JOB_EPOLLSOCKET_WRITE_READY : Z := Z.shiftl 1 61.
Definition SCHEDI_JOB_EPOLLSOCKET_READY : Z := Z.shiftl 1 62.
Definition SCHEDI_JOB_EPOLLSOCKET_DEAD : Z := Z.shiftl 1 63.

(** ** The loops' bodies

    A body's result is [Some (old, new)] when the loop goes on to
    [schedi_job_epollsocket_jobready_update], [None] when the function returns. *)

Definition cas_result : Type := option (Z * Z).

Definition swap_to (htc des : Z) : attempt Z cas_result := Swap des (Some (htc, des)).

Section bodies.
Context `{BuildConfig}.

Definition schedi_job_epollsocket_count_from (htc : Z) : Z :=
  Z.land htc SCHEDI_JOB_EPOLLSOCKET_COUNT_MASK.
Definition schedi_job_epollsocket_avail_from (htc : Z) : Z :=
  Z.shiftr (Z.land htc SCHEDI_JOB_EPOLLSOCKET_AVAIL_MASK) SCHEDI_JOB_EPOLLSOCKET_AVAIL_SHIFT.

(** [(!epollnt ? (read_ready && write_ready || is_dead) : 0) || epolldid]. *)
Definition ready_of (read_ready write_ready is_dead epolldid epollnt : bool) : bool :=
  (if negb epollnt then read_ready && write_ready || is_dead else false) || epolldid.

(** The early return of a socket that timed out. *)
Definition timed_out (htc : Z) : bool :=
  ext_timeout && has htc SCHEDI_JOB_EPOLLSOCKET_TIMEOUT.

Definition avail_add_body (cond delta : Z) (dead : bool) (htc : Z) : attempt Z cas_result :=
  if timed_out htc then Leave None
  else
    let des_avail := schedi_job_epollsocket_avail_from htc + delta in
    let write_ready := cond <=? u32 des_avail in
    let read_ready := has htc SCHEDI_JOB_EPOLLSOCKET_READ_READY in
    let is_dead := dead || has htc SCHEDI_JOB_EPOLLSOCKET_DEAD in
    let ready := ready_of read_ready write_ready is_dead
      (has htc SCHEDI_JOB_EPOLLSOCKET_EPOLLDID) (has htc SCHEDI_JOB_EPOLLSOCKET_EPOLLNT) in
    swap_to htc
      (Z.lor (Z.lor (Z.lor (Z.lor
        (Z.land htc (Z.lnot (Z.lor (Z.lor SCHEDI_JOB_EPOLLSOCKET_AVAIL_MASK
          SCHEDI_JOB_EPOLLSOCKET_WRITE_READY) SCHEDI_JOB_EPOLLSOCKET_READY)))
        (u64 (Z.shiftl (u64 des_avail) SCHEDI_JOB_EPOLLSOCKET_AVAIL_SHIFT)))
        (flag_if write_ready SCHEDI_JOB_EPOLLSOCKET_WRITE_READY))
        (flag_if ready SCHEDI_JOB_EPOLLSOCKET_READY))
        (flag_if is_dead SCHEDI_JOB_EPOLLSOCKET_DEAD)).

Definition count_add_body (cond delta : Z) (dead : bool) (htc : Z) : attempt Z cas_result :=
  if timed_out htc then Leave None
  else
    let des_count := schedi_job_epollsocket_count_from htc + delta in
    let read_ready := cond <=? u32 des_count in
    let write_ready := has htc SCHEDI_JOB_EPOLLSOCKET_WRITE_READY in
    let is_dead := dead || has htc SCHEDI_JOB_EPOLLSOCKET_DEAD in
    let ready := ready_of read_ready write_ready is_dead
      (has htc SCHEDI_JOB_EPOLLSOCKET_EPOLLDID) (has htc SCHEDI_JOB_EPOLLSOCKET_EPOLLNT) in
    swap_to htc
      (Z.lor (Z.lor (Z.lor (Z.lor
        (Z.land htc (Z.lnot (Z.lor (Z.lor SCHEDI_JOB_EPOLLSOCKET_COUNT_MASK
          SCHEDI_JOB_EPOLLSOCKET_READ_READY) SCHEDI_JOB_EPOLLSOCKET_READY)))
        (Z.land (u64 des_count) SCHEDI_JOB_EPOLLSOCKET_COUNT_MASK))
        (flag_if read_ready SCHEDI_JOB_EPOLLSOCKET_READ_READY))
        (flag_if ready SCHEDI_JOB_EPOLLSOCKET_READY))
        (flag_if is_dead SCHEDI_JOB_EPOLLSOCKET_DEAD)).

Definition dead_body (htc : Z) : attempt Z cas_result :=
  swap_to htc (Z.lor (Z.lor htc SCHEDI_JOB_EPOLLSOCKET_DEAD) SCHEDI_JOB_EPOLLSOCKET_READY).

Definition done_epollside_body (htc : Z) : attempt Z cas_result :=
  swap_to htc (Z.lor (Z.lor htc SCHEDI_JOB_EPOLLSOCKET_EPOLLDID) SCHEDI_JOB_EPOLLSOCKET_READY).

Definition done_jobside_body (htc : Z) : attempt Z cas_result :=
  let des := Z.lor htc SCHEDI_JOB_EPOLLSOCKET_EPOLLNT in
  swap_to htc
    (if negb (has des SCHEDI_JOB_EPOLLSOCKET_EPOLLDID)
     then Z.land des (Z.lnot SCHEDI_JOB_EPOLLSOCKET_READY) else des).

Definition timeout_body (htc : Z) : attempt Z cas_result :=
  swap_to htc (Z.lor (Z.lor htc SCHEDI_JOB_EPOLLSOCKET_TIMEOUT) SCHEDI_JOB_EPOLLSOCKET_READY).

Definition untimeout_body (htc : Z) : attempt Z cas_result :=
  if negb (has htc SCHEDI_JOB_EPOLLSOCKET_EPOLLDID) then Leave None
  else
    let des := Z.land (Z.land htc (Z.lnot SCHEDI_JOB_EPOLLSOCKET_EPOLLDID))
      (Z.lnot SCHEDI_JOB_EPOLLSOCKET_TIMEOUT) in
    let ready := ready_of (has htc SCHEDI_JOB_EPOLLSOCKET_READ_READY)
      (has htc SCHEDI_JOB_EPOLLSOCKET_WRITE_READY) (has htc SCHEDI_JOB_EPOLLSOCKET_DEAD)
      false (has htc SCHEDI_JOB_EPOLLSOCKET_EPOLLNT) in
    swap_to htc
      (if ready then Z.lor des SCHEDI_JOB_EPOLLSOCKET_READY
       else Z.land des (Z.lnot SCHEDI_JOB_EPOLLSOCKET_READY)).

(** The word of a new socket. *)
Definition initial_htc (read_cond write_cond : Z) : Z :=
  let htc := Z.shiftl SCHEDI_JOB_EPOLLSOCKET_BUFFERSIZE SCHEDI_JOB_EPOLLSOCKET_AVAIL_SHIFT in
  let read_ready := read_cond <=? u32 (schedi_job_epollsocket_count_from htc) in
  let write_ready := write_cond <=? u32 (schedi_job_epollsocket_avail_from htc) in
  Z.lor (Z.lor (Z.lor htc
    (flag_if read_ready SCHEDI_JOB_EPOLLSOCKET_READ_READY))
    (flag_if write_ready SCHEDI_JOB_EPOLLSOCKET_WRITE_READY))
    (flag_if (read_ready && write_ready) SCHEDI_JOB_EPOLLSOCKET_READY).
End bodies.

(** ** The abstract state *)

Record sock_view : Type := SockView {
  k_count : Z; k_avail : Z;
  k_timeout : bool; k_epolldid : bool; k_epollnt : bool;
  k_read_ready : bool; k_write_ready : bool; k_ready : bool; k_dead : bool;
}.

Section views.
Context `{BuildConfig}.

Definition sock_view_of (w : Z) : sock_view :=
  let n := SCHEDI_JOB_EPOLLSOCKET_AVAIL_SHIFT in
  SockView (field_get w 0 n) (field_get w n n)
    (ext_timeout && Z.testbit w 57) (Z.testbit w 58) (Z.testbit w 59) (Z.testbit w 60) (Z.testbit w 61)
    (Z.testbit w 62) (Z.testbit w 63).

(** What the documentation of the structure says readiness is: EPOLLDID makes it true no
    matter what, EPOLLNT without EPOLLDID false no matter what, else death forces it, and
    without any of these it is the conjunction of the two conditions. *)
Definition spec_ready (v : sock_view) : bool :=
  if k_epolldid v then true
  else if k_epollnt v then false
  else if k_dead v then true
  else k_read_ready v && k_write_ready v.

(** The expression of the loops computes it. *)
Lemma spec_ready_code v :
  spec_ready v =
    ready_of (k_read_ready v) (k_write_ready v) (k_dead v) (k_epolldid v) (k_epollnt v).
Proof.
  unfold spec_ready, ready_of.
  destruct (k_epolldid v), (k_epollnt v), (k_dead v), (k_read_ready v), (k_write_ready v); done.
Qed.

Inductive sock_op : Type :=
  | SAvail (cond delta : Z) (dead : bool)
  | SCount (cond delta : Z) (dead : bool)
  | SDead | SDoneEpoll | SDoneJob | STimeout | SUntimeout.

Definition sock_body (op : sock_op) : Z → attempt Z cas_result :=
  match op with
  | SAvail c d b => avail_add_body c d b
  | SCount c d b => count_add_body c d b
  | SDead => dead_body
  | SDoneEpoll => done_epollside_body
  | SDoneJob => done_jobside_body
  | STimeout => timeout_body
  | SUntimeout => untimeout_body
  end.

(** The operations the build has. *)
Definition in_build (op : sock_op) : bool :=
  match op with STimeout | SUntimeout => ext_timeout | _ => true end.

(** Whether the operation changes the word. *)
Definition sock_guard (op : sock_op) (v : sock_view) : bool :=
  match op with
  | SAvail _ _ _ | SCount _ _ _ => negb (k_timeout v)
  | SUntimeout => k_epolldid v
  | _ => true
  end.

Definition with_ready (b : bool) (v : sock_view) : sock_view :=
  SockView (k_count v) (k_avail v) (k_timeout v) (k_epolldid v) (k_epollnt v)
    (k_read_ready v) (k_write_ready v) b (k_dead v).

(** Readiness recomputed from the other fields. *)
Definition recomputed (v : sock_view) : sock_view := with_ready (spec_ready v) v.

Definition sock_effect (op : sock_op) (v : sock_view) : sock_view :=
  match op with
  | SAvail cond delta dead =>
      let a := k_avail v + delta in
      recomputed (SockView (k_count v) a (k_timeout v) (k_epolldid v) (k_epollnt v)
        (k_read_ready v) (cond <=? a) (k_ready v) (dead || k_dead v))
  | SCount cond delta dead =>
      let c := k_count v + delta in
      recomputed (SockView c (k_avail v) (k_timeout v) (k_epolldid v) (k_epollnt v)
        (cond <=? c) (k_write_ready v) (k_ready v) (dead || k_dead v))
  | SDead => SockView (k_count v) (k_avail v) (k_timeout v) (k_epolldid v) (k_epollnt v)
      (k_read_ready v) (k_write_ready v) true true
  | SDoneEpoll => SockView (k_count v) (k_avail v) (k_timeout v) true (k_epollnt v)
      (k_read_ready v) (k_write_ready v) true (k_dead v)
  | SDoneJob => SockView (k_count v) (k_avail v) (k_timeout v) (k_epolldid v) true
      (k_read_ready v) (k_write_ready v) (k_epolldid v && k_ready v) (k_dead v)
  | STimeout => SockView (k_count v) (k_avail v) true (k_epolldid v) (k_epollnt v)
      (k_read_ready v) (k_write_ready v) true (k_dead v)
  | SUntimeout => recomputed (SockView (k_count v) (k_avail v) false false (k_epollnt v)
      (k_read_ready v) (k_write_ready v) (k_ready v) (k_dead v))
  end.

(** The byte counts an operation may reach: the ring buffers' size. *)
Definition sock_in_range (op : sock_op) (v : sock_view) : Prop :=
  match op with
  | SAvail _ delta _ => 0 <= k_avail v + delta <= SCHEDI_JOB_EPOLLSOCKET_BUFFERSIZE
  | SCount _ delta _ => 0 <= k_count v + delta <= SCHEDI_JOB_EPOLLSOCKET_BUFFERSIZE
  | _ => True
  end.

Definition word64 (w : Z) : Prop := 0 <= w < 2 ^ 64.

(** What it is for the outcome of a loop to implement an operation. *)
Definition sock_refines (op : sock_op) (w : Z) (out : cas_result * Z) : Prop :=
  word64 out.2 ∧
  if sock_guard op (sock_view_of w)
  then out.1 = Some (w, out.2) ∧ sock_view_of out.2 = sock_effect op (sock_view_of w)
  else out = (None, w).
End views.

(** ** The bodies implement the operations *)

Lemma field_get_flag_if b m k n : field_get (flag_if b m) k n = flag_if b (field_get m k n).
Proof. destruct b; [done|]. cbn. unfold field_get. by rewrite Z.shiftr_0_l. Qed.

Lemma flag_if_0 b : flag_if b 0 = 0.
Proof. by destruct b. Qed.

Lemma land_mask_range w m n : 0 <= n → 0 <= m < 2 ^ n → 0 <= Z.land w m < 2 ^ n.
Proof. intros. rewrite Z.land_comm. by apply land_range. Qed.

Section refinement.
Context `{BuildConfig}.

Lemma count_from_field w :
  schedi_job_epollsocket_count_from w = field_get w 0 SCHEDI_JOB_EPOLLSOCKET_AVAIL_SHIFT.
Proof.
  unfold schedi_job_epollsocket_count_from, field_get. rewrite Z.shiftr_0_r.
  unfold SCHEDI_JOB_EPOLLSOCKET_COUNT_MASK, SCHEDI_JOB_EPOLLSOCKET_AVAIL_SHIFT.
  by destruct ext_timeout.
Qed.

Lemma avail_from_field w :
  schedi_job_epollsocket_avail_from w =
    field_get w SCHEDI_JOB_EPOLLSOCKET_AVAIL_SHIFT SCHEDI_JOB_EPOLLSOCKET_AVAIL_SHIFT.
Proof.
  unfold schedi_job_epollsocket_avail_from, field_get, SCHEDI_JOB_EPOLLSOCKET_AVAIL_MASK,
    SCHEDI_JOB_EPOLLSOCKET_AVAIL_SHIFT.
  destruct ext_timeout; by rewrite Z.shiftr_land.
Qed.

Lemma k_count_of w : k_count (sock_view_of w) = schedi_job_epollsocket_count_from w.
Proof. by rewrite count_from_field. Qed.
Lemma k_avail_of w : k_avail (sock_view_of w) = schedi_job_epollsocket_avail_from w.
Proof. by rewrite avail_from_field. Qed.

Lemma timed_out_of w : timed_out w = k_timeout (sock_view_of w).
Proof. unfold timed_out. cbn. f_equal. by apply (has_bit w 57). Qed.

Lemma has_sock_flags w :
  has w SCHEDI_JOB_EPOLLSOCKET_EPOLLDID = k_epolldid (sock_view_of w) ∧
  has w SCHEDI_JOB_EPOLLSOCKET_EPOLLNT = k_epollnt (sock_view_of w) ∧
  has w SCHEDI_JOB_EPOLLSOCKET_READ_READY = k_read_ready (sock_view_of w) ∧
  has w SCHEDI_JOB_EPOLLSOCKET_WRITE_READY = k_write_ready (sock_view_of w) ∧
  has w SCHEDI_JOB_EPOLLSOCKET_READY = k_ready (sock_view_of w) ∧
  has w SCHEDI_JOB_EPOLLSOCKET_DEAD = k_dead (sock_view_of w).
Proof.
  split_and!; [apply (has_bit w 58)|apply (has_bit w 59)|apply (has_bit w 60)
              |apply (has_bit w 61)|apply (has_bit w 62)|apply (has_bit w 63)]; done.
Qed.
End refinement.

(** ** Reading the words the bodies build *)

Lemma clear_all w k n : 0 <= n → Z.land (field_get w k n) (Z.lnot (Z.ones n)) = 0.
Proof.
  intros Hn. unfold field_get. rewrite <-Z.land_assoc, Z.land_lnot_diag.
  apply Z.land_0_r.
Qed.
Lemma clear_all28 w k : Z.land (field_get w k 28) (Z.lnot 268435455) = 0.
Proof. by apply (clear_all w k 28). Qed.
Lemma clear_all29 w k : Z.land (field_get w k 29) (Z.lnot 536870911) = 0.
Proof. by apply (clear_all w k 29). Qed.

Lemma testbit_shiftl_high v k n i :
  0 <= k → 0 <= v < 2 ^ n → n + k <= i → Z.testbit (Z.shiftl v k) i = false.
Proof.
  intros Hk Hv Hi. destruct (Z.lt_ge_cases i 0).
  - by apply Z.testbit_neg_r.
  - rewrite Z.shiftl_spec by lia. apply (testbit_small _ n); [done|lia].
Qed.

(** Masks are closed: they are evaluated, words with variables are not. *)
Ltac closed_word m :=
  lazymatch m with
  | Z.lor ?a ?b => closed_word a; closed_word b
  | Z.shiftl ?a ?b => closed_word a; closed_word b
  | Z.sub ?a ?b => closed_word a; closed_word b
  | Z0 => idtac
  | Zpos ?p => idtac
  | _ => is_const m
  end.

Ltac ground_word :=
  repeat match goal with
  | |- context [field_get ?m ?k ?n] =>
      closed_word m; let v := eval vm_compute in (field_get m k n) in
      change (field_get m k n) with v
  | |- context [Z.testbit ?m ?k] =>
      closed_word m; let v := eval vm_compute in (Z.testbit m k) in
      change (Z.testbit m k) with v
  end.

Ltac sock_word :=
  repeat first
    [ rewrite field_get_lor | rewrite field_get_clear by lia | rewrite field_get_flag_if
    | rewrite (field_get_shiftl_same _ _ 28) by lia
    | rewrite (field_get_shiftl_other _ _ 28) by lia
    | rewrite (field_get_shiftl_same _ _ 29) by lia
    | rewrite (field_get_shiftl_other _ _ 29) by lia
    | rewrite Z.lor_spec | rewrite testbit_clear by lia | rewrite testbit_flag_if
    | rewrite (testbit_shiftl_high _ 28 28) by lia
    | rewrite (testbit_shiftl_high _ 29 28) by lia
    | match goal with
      | |- context [field_get ?v 0 ?n] => rewrite (field_get_small v n) by lia
      | |- context [field_get ?v ?k ?n] => rewrite (field_get_high v 28 k n) by lia
      | |- context [Z.testbit ?v ?k] => rewrite (testbit_small v 28 k) by lia
      end
    | progress ground_word ];
  rewrite ?flag_if_0, ?clear_all28, ?clear_all29, ?clear_idle, ?Z.lor_0_r, ?Z.lor_0_l;
  try reflexivity; try btauto.

Ltac view_simpl :=
  cbn [k_count k_avail k_timeout k_epolldid k_epollnt k_read_ready k_write_ready
    k_ready k_dead].

(** Both layouts. *)
Ltac by_layout :=
  unfold sock_view_of, SCHEDI_JOB_EPOLLSOCKET_AVAIL_MASK,
    SCHEDI_JOB_EPOLLSOCKET_COUNT_MASK, SCHEDI_JOB_EPOLLSOCKET_AVAIL_SHIFT in *;
  destruct ext_timeout; view_simpl; f_equal; sock_word.

Section refined.
Context `{BuildConfig}.

Lemma shift_layout :
  SCHEDI_JOB_EPOLLSOCKET_AVAIL_SHIFT = 28 ∨ SCHEDI_JOB_EPOLLSOCKET_AVAIL_SHIFT = 29.
Proof. unfold SCHEDI_JOB_EPOLLSOCKET_AVAIL_SHIFT. destruct ext_timeout; auto. Qed.

Lemma shifted_range a :
  0 <= a <= 1024 → 0 <= Z.shiftl a SCHEDI_JOB_EPOLLSOCKET_AVAIL_SHIFT < 2 ^ 64.
Proof.
  intros Ha. pose proof (shiftl_range SCHEDI_JOB_EPOLLSOCKET_AVAIL_SHIFT 11 a).
  destruct shift_layout as [E|E]; rewrite E in *; lia.
Qed.

Lemma avail_add_refines cond delta dead w :
  word64 w → sock_in_range (SAvail cond delta dead) (sock_view_of w) →
  sock_refines (SAvail cond delta dead) w (rmw (avail_add_body cond delta dead) w).
Proof.
  intros Hw Hr. cbn [sock_in_range] in Hr. rewrite k_avail_of in Hr.
  unfold rmw, avail_add_body, sock_refines, swap_to. rewrite timed_out_of.
  cbn [sock_guard]. destruct (k_timeout _); cbn [negb]; [done|].
  destruct (has_sock_flags w) as (-> & -> & -> & _ & _ & ->).
  set (a := schedi_job_epollsocket_avail_from w + delta) in *.
  change SCHEDI_JOB_EPOLLSOCKET_BUFFERSIZE with 1024 in Hr.
  pose proof (shifted_range a Hr) as Hsh.
  rewrite (u32_small a), (u64_small a), (u64_small (Z.shiftl _ _)) by lia.
  cbn [fst snd]. set (rd := ready_of _ _ _ _ _). split; [|split; [done|]].
  - repeat apply lor_range; try apply flag_if_range; try done. by apply land_range.
  - cbn [sock_effect]. rewrite k_avail_of. fold a.
    unfold recomputed, with_ready. rewrite spec_ready_code. view_simpl. fold rd. clearbody rd a.
    by_layout.
Qed.
Lemma count_add_refines cond delta dead w :
  word64 w → sock_in_range (SCount cond delta dead) (sock_view_of w) →
  sock_refines (SCount cond delta dead) w (rmw (count_add_body cond delta dead) w).
Proof.
  intros Hw Hr. cbn [sock_in_range] in Hr. rewrite k_count_of in Hr.
  unfold rmw, count_add_body, sock_refines, swap_to. rewrite timed_out_of.
  cbn [sock_guard]. destruct (k_timeout _); cbn [negb]; [done|].
  destruct (has_sock_flags w) as (-> & -> & _ & -> & _ & ->).
  set (c := schedi_job_epollsocket_count_from w + delta) in *.
  change SCHEDI_JOB_EPOLLSOCKET_BUFFERSIZE with 1024 in Hr.
  rewrite (u32_small c), (u64_small c) by lia.
  assert (Z.land c SCHEDI_JOB_EPOLLSOCKET_COUNT_MASK = c) as ->.
  { unfold SCHEDI_JOB_EPOLLSOCKET_COUNT_MASK, SCHEDI_JOB_EPOLLSOCKET_AVAIL_SHIFT.
    destruct ext_timeout; [change (_ - 1) with (Z.ones 28)|change (_ - 1) with (Z.ones 29)];
      rewrite Z.land_ones by done; apply Z.mod_small; lia. }
  cbn [fst snd]. set (rd := ready_of _ _ _ _ _). split; [|split; [done|]].
  - repeat apply lor_range; try apply flag_if_range; try done; [by apply land_range|lia].
  - cbn [sock_effect]. rewrite k_count_of. fold c.
    unfold recomputed, with_ready. rewrite spec_ready_code. view_simpl. fold rd. clearbody rd c.
    by_layout.
Qed.

Lemma or_flags_refines op w m :
  sock_body op w = swap_to w (Z.lor w m) → sock_guard op (sock_view_of w) = true →
  0 <= m < 2 ^ 64 → word64 w →
  sock_view_of (Z.lor w m) = sock_effect op (sock_view_of w) →
  sock_refines op w (rmw (sock_body op) w).
Proof.
  intros Hb Hg Hm Hw Hv. unfold sock_refines, rmw. rewrite Hb, Hg. cbn.
  split; [by apply lor_range|done].
Qed.

Lemma done_jobside_refines w :
  word64 w → sock_refines SDoneJob w (rmw done_jobside_body w).
Proof.
  intros Hw. unfold sock_refines, rmw, done_jobside_body, swap_to. cbn [fst snd sock_guard].
  assert (has (Z.lor w SCHEDI_JOB_EPOLLSOCKET_EPOLLNT) SCHEDI_JOB_EPOLLSOCKET_EPOLLDID =
    k_epolldid (sock_view_of w)) as ->.
  { unfold has. rewrite Z.land_lor_distr_l, Z.lor_0_r. apply has_sock_flags. }
  destruct (k_epolldid (sock_view_of w)) eqn:Ed; cbn [negb].
  - split; [by apply lor_range|]. split; [done|]. cbn [sock_effect].
    assert (∀ b, k_epolldid (sock_view_of w) && b = b) as -> by by rewrite Ed.
    clear Ed. by_layout.
  - split; [by apply land_range, lor_range|]. split; [done|]. cbn [sock_effect].
    assert (∀ b, k_epolldid (sock_view_of w) && b = false) as -> by by rewrite Ed.
    clear Ed. by_layout.
Qed.

Lemma untimeout_refines w :
  ext_timeout = true → word64 w → sock_refines SUntimeout w (rmw untimeout_body w).
Proof.
  intros Hb Hw. unfold sock_refines, rmw, untimeout_body, swap_to. cbn [sock_guard].
  destruct (has_sock_flags w) as (-> & -> & -> & -> & _ & ->).
  destruct (k_epolldid (sock_view_of w)) eqn:Ed; cbn [negb fst snd]; [|done].
  set (rd := ready_of _ _ _ _ _). split; [|split; [done|]].
  - destruct rd; [apply lor_range|]; try done; by repeat apply land_range.
  - cbn [sock_effect]. unfold recomputed, with_ready. rewrite spec_ready_code. view_simpl. fold rd.
    clearbody rd. clear Ed. unfold sock_view_of, SCHEDI_JOB_EPOLLSOCKET_AVAIL_SHIFT.
    rewrite Hb. view_simpl. destruct rd; f_equal; sock_word.
Qed.

Lemma sock_op_refines_core op w :
  in_build op = true → word64 w → sock_in_range op (sock_view_of w) →
  sock_refines op w (rmw (sock_body op) w).
Proof.
  intros Hb Hw Hr. destruct op; cbn [sock_body in_build] in *.
  - by apply avail_add_refines.
  - by apply count_add_refines.
  - apply (or_flags_refines SDead w
      (Z.lor SCHEDI_JOB_EPOLLSOCKET_DEAD SCHEDI_JOB_EPOLLSOCKET_READY)); try done.
    + cbn. unfold dead_body. by rewrite Z.lor_assoc.
    + cbn [sock_effect]. by_layout.
  - apply (or_flags_refines SDoneEpoll w
      (Z.lor SCHEDI_JOB_EPOLLSOCKET_EPOLLDID SCHEDI_JOB_EPOLLSOCKET_READY)); try done.
    + cbn. unfold done_epollside_body. by rewrite Z.lor_assoc.
    + cbn [sock_effect]. by_layout.
  - by apply done_jobside_refines.
  - apply (or_flags_refines STimeout w
      (Z.lor SCHEDI_JOB_EPOLLSOCKET_TIMEOUT SCHEDI_JOB_EPOLLSOCKET_READY)); try done.
    + cbn. unfold timeout_body. by rewrite Z.lor_assoc.
    + cbn [sock_effect]. unfold sock_view_of, SCHEDI_JOB_EPOLLSOCKET_AVAIL_SHIFT.
      rewrite Hb. view_simpl. f_equal; sock_word.
  - by apply untimeout_refines.
Qed.

(** C16: every compare-and-swap loop on a socket's packed word implements its abstract
    operation on the counters and flags, in both layouts of the build: as long as
    the byte counts stay within the buffers' size, a loop whose guard holds commits
    exactly the operation's effect and hands the old and the new word on, and one
    whose guard fails leaves the word alone and returns early. *)
Theorem sock_op_refines op w :
  in_build op = true → word64 w → sock_in_range op (sock_view_of w) →
  sock_refines op w (rmw (sock_body op) w).
Proof. apply sock_op_refines_core. Qed.

(** ** The word of a new socket *)

Lemma initial_htc_view rc wc :
  word64 (initial_htc rc wc) ∧
  sock_view_of (initial_htc rc wc) =
    recomputed (SockView 0 1024 false false false (rc <=? 0) (wc <=? 1024) false false).
Proof.
  unfold initial_htc, schedi_job_epollsocket_count_from, schedi_job_epollsocket_avail_from,
    SCHEDI_JOB_EPOLLSOCKET_COUNT_MASK, SCHEDI_JOB_EPOLLSOCKET_AVAIL_MASK, recomputed,
    with_ready, spec_ready, sock_view_of, SCHEDI_JOB_EPOLLSOCKET_AVAIL_SHIFT.
  destruct ext_timeout;
    (match goal with |- context [rc <=? u32 ?x] => change (u32 x) with 0 end;
     match goal with |- context [wc <=? u32 ?x] => change (u32 x) with 1024 end;
     generalize (rc <=? 0), (wc <=? 1024); intros [] []; by vm_compute).
Qed.

(** ** Readiness *)

(** Whether READY has been forced, by a death or a timeout, since it was last computed from
    the other flags: what the operations before have left, and what [op] makes of it. *)
Definition forced_after (op : sock_op) (v : sock_view) (forced : bool) : bool :=
  match op with
  | SDead | STimeout => true
  | SAvail _ _ _ | SCount _ _ _ | SUntimeout => if sock_guard op v then false else forced
  | SDoneJob => if k_epolldid v then forced else false
  | SDoneEpoll => forced
  end.

(** A call on the word by any thread, in the order of the swaps. *)
Inductive sock_step : Z * bool → Z * bool → Prop :=
  | Sock_step op w f :
      in_build op = true → sock_in_range op (sock_view_of w) →
      sock_step (w, f) ((rmw (sock_body op) w).2, forced_after op (sock_view_of w) f).

(** READY is what the comments of the structure promise, or was forced. *)
Record ready_exact (v : sock_view) (forced : bool) : Prop := {
  re_ready : k_ready v = spec_ready v || forced;
  re_cause : forced = true → k_dead v = true ∨ k_timeout v = true;
}.

Lemma ready_exact_effect op v f :
  sock_guard op v = true → ready_exact v f → ready_exact (sock_effect op v) (forced_after op v f).
Proof.
  destruct v as [c a t d n r w y x].
  destruct op; cbn [sock_effect forced_after sock_guard]; unfold recomputed, with_ready;
    view_simpl; intros Hg [H1 H2]; cbn in H1, H2; try rewrite Hg; split;
    unfold spec_ready in *; cbn in *; try tauto; try done.
  - by rewrite orb_false_r.
  - by rewrite orb_false_r.
  - by rewrite orb_true_r.
  - rewrite H1. by destruct d.
  - by destruct d.
  - by rewrite orb_true_r.
  - by rewrite orb_false_r.
Qed.

Lemma forced_idle op v f : sock_guard op v = false → forced_after op v f = f.
Proof. destruct op; cbn [sock_guard forced_after]; intros E; rewrite ?E; done. Qed.

Lemma sock_step_ok c c' :
  sock_step c c' → word64 c.1 → ready_exact (sock_view_of c.1) c.2 →
  word64 c'.1 ∧ ready_exact (sock_view_of c'.1) c'.2.
Proof.
  intros [op w f Hb Hr] Hw Hc. cbn [fst snd] in *.
  destruct (sock_op_refines_core op w Hb Hw Hr) as [Hw' Ho]. split; [done|].
  destruct (sock_guard op _) eqn:Hg.
  - destruct Ho as [_ ->]. by apply ready_exact_effect.
  - rewrite Ho. by rewrite forced_idle.
Qed.

(** C27: whatever calls run on a new socket, and in whatever order, its READY flag is
    what the documentation says of the other flags - true once epoll is done with the
    socket, else false once the job is, else true after a death, else the conjunction of
    the two conditions - or it was forced by a death or a timeout and has not been
    computed since.  So READY is exactly as documented while the socket is alive and not
    timed out; on a dead or timed-out one it can only be true where the documentation has
    it false ([dead_overrides_epollnt] is such a run). *)
Theorem readiness_as_documented rc wc w forced :
  rtc sock_step (initial_htc rc wc, false) (w, forced) →
  let v := sock_view_of w in
  word64 w ∧ k_ready v = spec_ready v || forced ∧
  (forced = true → k_dead v = true ∨ k_timeout v = true).
Proof.
  intros Hrun. cbv zeta.
  assert (∀ c c', rtc sock_step c c' → word64 c.1 → ready_exact (sock_view_of c.1) c.2 →
    word64 c'.1 ∧ ready_exact (sock_view_of c'.1) c'.2) as Hall.
  { intros c c' Hr. induction Hr as [c|c c1 c2 Hstep _ IH]; [done|].
    intros Hw Hd. destruct (sock_step_ok _ _ Hstep Hw Hd). by apply IH. }
  destruct (initial_htc_view rc wc) as [Hw Hv].
  destruct (Hall _ _ Hrun) as [Hw' []]; [done| |done].
  cbn [fst snd]. rewrite Hv. split; [|done]. by rewrite orb_false_r.
Qed.

(** A hard error on a socket whose job already called [done] marks it READY although
    epoll is not done with it, against the documentation of EPOLLNT. *)
Theorem dead_overrides_epollnt w :
  word64 w → k_epollnt (sock_view_of w) = true → k_epolldid (sock_view_of w) = false →
  let v := sock_view_of (rmw dead_body w).2 in
  k_ready v = true ∧ spec_ready v = false.
Proof.
  intros Hw Hn Hd. destruct (sock_op_refines_core SDead w eq_refl Hw I) as [_ [_ Hv]].
  cbn [sock_body] in Hv. cbv zeta. rewrite Hv. unfold spec_ready. cbn [sock_effect]. view_simpl.
  by rewrite Hn, Hd.
Qed.

(** ** The calls on a word, one after the other *)

(** [new_ready ? 1 : -1], when the two words differ. *)
Definition ready_delta (r : cas_result) : Z :=
  match r with
  | Some (old, new) =>
      Z.b2z (has new SCHEDI_JOB_EPOLLSOCKET_READY) - Z.b2z (has old SCHEDI_JOB_EPOLLSOCKET_READY)
  | None => 0
  end.

(** The calls on one word in the order of their swaps: the word left, and the sum of
    the deltas handed to the job. *)
Fixpoint sock_run (ops : list sock_op) (w : Z) : Z * Z :=
  match ops with
  | [] => (w, 0)
  | op :: ops =>
      let '(r, w1) := rmw (sock_body op) w in
      let '(w2, d) := sock_run ops w1 in
      (w2, ready_delta r + d)
  end.
End refined.

(** ** Witnesses *)

(** A build with timeouts. *)
Definition timeout_build : BuildConfig :=
  {| lockless_readyjob := false; ext_timeout := true |}.
#[local] Existing Instance timeout_build.

Lemma sock_op_refines_witness :
  sock_guard (SCount 1 5 false)
    (sock_view_of (initial_htc 1 1)) = true ∧
  sock_refines (SCount 1 5 false) (initial_htc 1 1)
    (rmw (count_add_body 1 5 false) (initial_htc 1 1)).
Proof.
  split; [by vm_compute|].
  apply (sock_op_refines (SCount 1 5 false)); by vm_compute.
Defined.

(** The job is done with the socket; then it dies, and READY is forced. *)
Lemma readiness_as_documented_witness :
  let w := (rmw dead_body (rmw done_jobside_body (initial_htc 1 1)).2).2 in
  let v := sock_view_of w in
  spec_ready v = false ∧
  word64 w ∧ k_ready v = spec_ready v || true ∧
  (true = true → k_dead v = true ∨ k_timeout v = true).
Proof.
  intros w v. split; [by vm_compute|].
  apply (readiness_as_documented 1 1 w true).
  eapply rtc_l; [by apply (Sock_step SDoneJob)|].
  eapply rtc_l; [by apply (Sock_step SDead)|]. apply rtc_refl.
Defined.

Lemma dead_overrides_epollnt_witness :
  let w := (rmw done_jobside_body (initial_htc 1 1)).2 in
  let v := sock_view_of (rmw dead_body w).2 in
  k_ready v = true ∧ spec_ready v = false.
Proof.
  intros w. apply (dead_overrides_epollnt w); by vm_compute.
Defined.
