(* ===== verification/Ring.v ===== *)
(** * Ring buffers (src/src/jobs.c, the read and write buffers of a socket)

    A buffer of [BUFFERSIZE] bytes with positions that wrap.  A copy in or out takes
    at most two [memcpy]s.  The abstract content of a ring is the list of bytes from
    its tail, and the copies are the queue's operations on it. *)

From Stdlib Require Import Strings.Byte.
From S2P Require Export SockWord.

Local Open Scope Z_scope.

Definition BUFFERSIZE : nat := 1024.

Lemma BUFFERSIZE_Z : Z.of_nat BUFFERSIZE = SCHEDI_JOB_EPOLLSOCKET_BUFFERSIZE.
Proof. done. Qed.

(** [memcpy(buffer + off, data, length data)]: [None] when it runs past the end. *)
Definition copy_in (buf : list byte) (off : nat) (data : list byte) : option (list byte) :=
  if decide (off + length data <= length buf)%nat
  then Some (take off buf ++ data ++ drop (off + length data) buf) else None.

(** [memcpy(data, buffer + off, n)]. *)
Definition copy_out (buf : list byte) (off n : nat) : option (list byte) :=
  if decide (off + n <= length buf)%nat then Some (take n (drop off buf)) else None.

(** The [n] bytes from position [tail] on. *)
Definition content (buf : list byte) (tail n : nat) : list byte :=
  take n (drop tail buf ++ take tail buf).

Lemma length_content buf tail n :
  length buf = BUFFERSIZE → (tail < BUFFERSIZE)%nat → (n <= BUFFERSIZE)%nat → length (content buf tail n) = n.
Proof.
  intros Hl Ht Hn. unfold content.
  rewrite length_take, length_app, length_drop, length_take. lia.
Qed.

Lemma lookup_content buf tail n i :
  length buf = BUFFERSIZE → (tail < BUFFERSIZE)%nat → (i < n)%nat → (n <= BUFFERSIZE)%nat →
  content buf tail n !! i = buf !! ((tail + i) mod BUFFERSIZE)%nat.
Proof.
  intros Hl Ht Hi Hn. unfold content. rewrite lookup_take_lt by done.
  destruct (decide (tail + i < BUFFERSIZE)%nat) as [Hs|Hs].
  - rewrite lookup_app_l by (rewrite length_drop; lia).
    rewrite lookup_drop, Nat.mod_small by done. done.
  - rewrite lookup_app_r by (rewrite length_drop; lia).
    rewrite length_drop, lookup_take_lt by lia.
    replace ((tail + i) mod BUFFERSIZE)%nat with (tail + i - BUFFERSIZE)%nat.
    + f_equal. lia.
    + rewrite <-(Nat.mod_small (tail + i - BUFFERSIZE) BUFFERSIZE) by lia.
      replace (tail + i)%nat with ((tail + i - BUFFERSIZE) + 1 * BUFFERSIZE)%nat at 2 by lia.
      by rewrite Nat.Div0.mod_add.
Qed.

Lemma content_ext buf tail n l :
  length buf = BUFFERSIZE → (tail < BUFFERSIZE)%nat → (n <= BUFFERSIZE)%nat → length l = n →
  (∀ i, (i < n)%nat → l !! i = buf !! ((tail + i) mod BUFFERSIZE)%nat) → content buf tail n = l.
Proof.
  intros Hl Ht Hn Hlen H. apply list_eq_same_length with n; [done|by apply length_content|].
  intros i x y Hi Hx Hy. rewrite lookup_content, <-H in Hx by done. congruence.
Qed.

(** ** Putting bytes in *)

(** Writing a chunk that does not run past the end. *)
Lemma lookup_copy_in buf off data buf' j :
  copy_in buf off data = Some buf' →
  buf' !! j = if decide (off <= j < off + length data)%nat then data !! (j - off)%nat else buf !! j.
Proof.
  unfold copy_in. case_decide as Hd; [|done]. intros [= <-].
  case_decide as Hj.
  - rewrite lookup_app_r by (rewrite length_take; lia).
    rewrite length_take, lookup_app_l by lia. f_equal. lia.
  - destruct (decide (j < off)%nat).
    + rewrite lookup_app_l by (rewrite length_take; lia). by rewrite lookup_take_lt by lia.
    + rewrite lookup_app_r by (rewrite length_take; lia).
      rewrite length_take, lookup_app_r by lia. rewrite lookup_drop. f_equal. lia.
Qed.

Lemma length_copy_in buf off data buf' :
  copy_in buf off data = Some buf' → length buf' = length buf.
Proof.
  unfold copy_in. case_decide; [|done]. intros [= <-].
  rewrite !length_app, length_take, length_drop. lia.
Qed.

Lemma copy_in_fits buf off data :
  (off + length data <= length buf)%nat → ∃ buf', copy_in buf off data = Some buf'.
Proof. intros. unfold copy_in. rewrite decide_True by done. eauto. Qed.

Lemma copy_out_fits buf off n :
  (off + n <= length buf)%nat → copy_out buf off n = Some (take n (drop off buf)).
Proof. intros. unfold copy_out. by rewrite decide_True. Qed.

(** A chunk written at the head (after the [n] bytes in use) that stays below the end
    of the buffer extends the content. *)
Lemma content_copy_in buf tail n head data buf' :
  length buf = BUFFERSIZE → (tail < BUFFERSIZE)%nat → head = ((tail + n) mod BUFFERSIZE)%nat →
  (n + length data <= BUFFERSIZE)%nat → copy_in buf head data = Some buf' →
  content buf' tail (n + length data) = content buf tail n ++ data.
Proof.
  intros Hl Ht Hh Hn Hc. pose proof (length_copy_in _ _ _ _ Hc) as Hl'.
  assert (head + length data <= BUFFERSIZE)%nat as Hfit.
  { unfold copy_in in Hc. case_decide; [lia|done]. }
  apply content_ext; [congruence|done|done| |].
  { rewrite length_app, length_content by lia. done. }
  intros i Hi. rewrite (lookup_copy_in _ _ _ _ _ Hc).
  assert (∀ k, (k < BUFFERSIZE)%nat → (tail + k) mod BUFFERSIZE =
    if decide (tail + k < BUFFERSIZE) then tail + k else tail + k - BUFFERSIZE)%nat as Hmod.
  { intros k Hk. case_decide; [by apply Nat.mod_small|].
    replace (tail + k)%nat with ((tail + k - BUFFERSIZE) + 1 * BUFFERSIZE)%nat at 1 by lia.
    rewrite Nat.Div0.mod_add. apply Nat.mod_small. lia. }
  destruct (decide (i < n)%nat) as [Hin|Hin].
  - rewrite lookup_app_l by (rewrite length_content; lia).
    rewrite lookup_content by lia. rewrite decide_False; [done|].
    subst head. destruct (decide (n = BUFFERSIZE)) as [->|].
    { replace (length data) with 0%nat by lia. lia. }
    rewrite (Hmod i), (Hmod n) in * by lia. repeat case_decide; lia.
  - rewrite lookup_app_r by (rewrite length_content; lia). rewrite length_content by lia.
    subst head. rewrite (Hmod i), (Hmod n) in * by lia.
    rewrite decide_True; [|repeat case_decide; lia].
    f_equal. repeat case_decide; lia.
Qed.

(** The next head. *)
Lemma mod_add_step tail n k :
  (((tail + n) mod BUFFERSIZE + k) mod BUFFERSIZE = (tail + (n + k)) mod BUFFERSIZE)%nat.
Proof. rewrite Nat.Div0.add_mod_idemp_l. f_equal. lia. Qed.

(** ** Taking bytes out *)

(** The bytes of the content up to the end of the buffer are a contiguous piece, and
    the rest starts at position 0. *)
Lemma content_first buf tail n k :
  length buf = BUFFERSIZE → (tail < BUFFERSIZE)%nat → (k <= n)%nat → (n <= BUFFERSIZE)%nat →
  (tail + k <= BUFFERSIZE)%nat → take k (content buf tail n) = take k (drop tail buf).
Proof.
  intros Hl Ht Hk Hn Hs. unfold content. rewrite take_take, Nat.min_l by done.
  rewrite take_app_le; [done|]. rewrite length_drop. lia.
Qed.

Lemma content_drop buf tail n k :
  length buf = BUFFERSIZE → (tail < BUFFERSIZE)%nat → (k <= n)%nat → (n <= BUFFERSIZE)%nat →
  content buf ((tail + k) mod BUFFERSIZE) (n - k) = drop k (content buf tail n).
Proof.
  intros Hl Ht Hk Hn.
  assert ((tail + k) mod BUFFERSIZE < BUFFERSIZE)%nat by (apply Nat.mod_upper_bound; done).
  apply content_ext; [done|done|lia| |].
  { rewrite length_drop, length_content by lia. done. }
  intros i Hi. rewrite lookup_drop, lookup_content by lia. by rewrite mod_add_step.
Qed.

Lemma content_zero buf n :
  length buf = BUFFERSIZE → (n <= BUFFERSIZE)%nat → content buf 0 n = take n buf.
Proof.
  intros Hl Hn. unfold content. rewrite drop_0, take_0, app_nil_r. done.
Qed.

(** Both pieces of a read that wraps. *)
Lemma content_wrapped buf tail n k :
  length buf = BUFFERSIZE → (tail < BUFFERSIZE)%nat → (k <= n)%nat → (n <= BUFFERSIZE)%nat →
  (BUFFERSIZE <= tail + k)%nat →
  take k (content buf tail n) =
    take (BUFFERSIZE - tail) (drop tail buf) ++ take (k - (BUFFERSIZE - tail)) buf.
Proof.
  intros Hl Ht Hk Hn Hs.
  assert ((BUFFERSIZE - tail) <= k)%nat as Hle by lia.
  rewrite <-(take_drop (BUFFERSIZE - tail) (take k (content buf tail n))).
  f_equal.
  - rewrite take_take, Nat.min_l by done. apply content_first; lia.
  - rewrite skipn_firstn_comm, <-content_drop by lia.
    replace ((tail + (BUFFERSIZE - tail)) mod BUFFERSIZE)%nat with 0%nat.
    + rewrite content_zero by lia. rewrite take_take. f_equal. lia.
    + replace (tail + (BUFFERSIZE - tail))%nat with BUFFERSIZE by lia. by rewrite Nat.Div0.mod_same.
Qed.

(** ** The copies of the socket operations *)

Lemma wrap_small i : (i < BUFFERSIZE)%nat → (i mod BUFFERSIZE = i)%nat.
Proof. apply Nat.mod_small. Qed.
Lemma wrap_once i :
  (BUFFERSIZE <= i < 2 * BUFFERSIZE)%nat → (i mod BUFFERSIZE = i - BUFFERSIZE)%nat.
Proof.
  intros Hi. replace i with ((i - BUFFERSIZE) + 1 * BUFFERSIZE)%nat at 1 by lia.
  rewrite Nat.Div0.mod_add. apply Nat.mod_small. lia.
Qed.

Section copies.
Variables (buf : list byte) (tail n : nat).
Hypotheses (Hl : length buf = BUFFERSIZE) (Ht : (tail < BUFFERSIZE)%nat).
Hypothesis (Hn : (n <= BUFFERSIZE)%nat).

(** One piece at the head, up to the end of the buffer. *)
Lemma ring_piece data :
  let head := ((tail + n) mod BUFFERSIZE)%nat in
  (n + length data <= BUFFERSIZE)%nat → (length data <= BUFFERSIZE - head)%nat →
  ∃ buf', copy_in buf head data = Some buf' ∧ length buf' = BUFFERSIZE ∧
    content buf' tail (n + length data) = content buf tail n ++ data.
Proof using Hl Ht Hn.
  intros head Hd Hf. pose proof (Nat.mod_upper_bound (tail + n) BUFFERSIZE).
  destruct (copy_in_fits buf head data) as [buf' E]; [unfold head, BUFFERSIZE in *; lia|].
  exists buf'. split; [done|]. split; [by rewrite (length_copy_in _ _ _ _ E)|].
  by eapply content_copy_in.
Qed.

(** Where the head stands after a piece. *)
Lemma head_after_piece k :
  let head := ((tail + n) mod BUFFERSIZE)%nat in
  (k <= BUFFERSIZE - head)%nat →
  ((tail + (n + k)) mod BUFFERSIZE =
    if decide (head + k = BUFFERSIZE) then 0 else head + k)%nat.
Proof using.
  clear Hl Ht Hn. intros head Hk. rewrite <-mod_add_step. fold head.
  pose proof (Nat.mod_upper_bound (tail + n) BUFFERSIZE ltac:(done)) as Hh. fold head in Hh.
  case_decide as E; [rewrite E; apply Nat.Div0.mod_same|]. apply wrap_small. lia.
Qed.

(** A read of [k] bytes that does not reach the end of the buffer. *)
Lemma ring_read_flat k :
  (k <= n)%nat → (k + tail < BUFFERSIZE)%nat →
  copy_out buf tail k = Some (take k (content buf tail n)) ∧
  (tail + k = (tail + k) mod BUFFERSIZE)%nat.
Proof using Hl Ht Hn.
  intros Hk Hs. rewrite copy_out_fits by lia. rewrite content_first by lia.
  split; [done|]. symmetry. apply wrap_small. lia.
Qed.

(** A read that does. *)
Lemma ring_read_wrap k :
  (k <= n)%nat → (BUFFERSIZE <= k + tail)%nat →
  let first := (BUFFERSIZE - tail)%nat in
  ∃ d1 d2, copy_out buf tail first = Some d1 ∧ copy_out buf 0 (k - first) = Some d2 ∧
    d1 ++ d2 = take k (content buf tail n) ∧
    (k - first = (tail + k) mod BUFFERSIZE)%nat.
Proof using Hl Ht Hn.
  intros Hk Hs first. unfold first.
  rewrite !copy_out_fits by lia. eexists _, _. split; [done|]. split; [done|]. split.
  - by rewrite content_wrapped by lia.
  - rewrite wrap_once by lia. lia.
Qed.
End copies.
