(* ===== verification/Net.v ===== *)
(** * The outside world: heap, kernel, and the epoll registrations (src/src/epoll.c)

    Sockets, epoll requests and epoll data are heap objects that two sides of the
    program free; the kernel is a parameter ([Kernel]) with the documented behaviour
    the code relies on ([KernelLaws]).  The file holds the state all network code
    shares and the functions of epoll.c that register and remove descriptors. *)

From Stdlib Require Import Strings.Byte.
From S2P Require Export SockWord Lifecycle.

Local Open Scope Z_scope.

(** ** The kernel *)

Definition addr : Type := nat.

Inductive ctl_op : Type := EPOLL_CTL_ADD | EPOLL_CTL_MOD | EPOLL_CTL_DEL.

Definition EPOLLIN : Z := 1.
Definition EPOLLOUT : Z := 4.
Definition EPOLLERR : Z := 8.
Definition EPOLLHUP : Z := 16.
Definition EPOLLONESHOT : Z := 2 ^ 30.

(** What [send] and [recv] return: a byte count (with the bytes received; none is the
    end of the stream), -1 with EAGAIN or EWOULDBLOCK, or -1 with another error. *)
Inductive send_outcome : Type := Sent (n : nat) | SendAgain | SendError.
Inductive recv_outcome : Type := Got (bytes : list byte) | RecvAgain | RecvError.

Class Kernel : Type := {
  kernel : Type;
  sys_malloc : kernel → bool * kernel;
  fresh_bytes : kernel → list byte;
  sys_send : Z → list byte → kernel → send_outcome * kernel;
  sys_recv : Z → nat → kernel → recv_outcome * kernel;
  sys_epoll_ctl : Z → ctl_op → Z → Z → option addr → kernel → Z * kernel;
  sys_timerfd_create : kernel → Z * kernel;
  sys_timerfd_settime : Z → Z → kernel → Z * kernel;
  sys_close : Z → kernel → Z * kernel;
  (** what an epoll instance watches a descriptor for, with its data pointer *)
  interest : kernel → Z → Z → option (Z * option addr);
}.

(** Documented behaviour: [send] takes a prefix and [recv] at most what was asked for;
    [epoll_ctl] changes one entry of one instance if it returns 0 and nothing if not;
    a new descriptor is none that is in use, closing one forgets its entries; no other
    call touches the instances. *)
Class KernelLaws `{Kernel} : Prop := {
  law_send fd bs k n k' : sys_send fd bs k = (Sent n, k') → (n <= length bs)%nat;
  law_recv fd m k bs k' : sys_recv fd m k = (Got bs, k') → (length bs <= m)%nat;
  law_fresh k : length (fresh_bytes k) = 2048%nat;
  law_ctl epfd op fd ev p k r k' :
    sys_epoll_ctl epfd op fd ev p k = (r, k') →
    r = 0 ∧
      (∀ e f, interest k' e f = if decide (e = epfd ∧ f = fd)
         then match op with EPOLL_CTL_DEL => None | _ => Some (ev, p) end
         else interest k e f) ∨
    r = -1 ∧ (∀ e f, interest k' e f = interest k e f);
  law_ctl_add epfd fd ev p k :
    is_Some (interest k epfd fd) → (sys_epoll_ctl epfd EPOLL_CTL_ADD fd ev p k).1 = -1;
  law_ctl_mod epfd fd ev p k :
    interest k epfd fd = None → (sys_epoll_ctl epfd EPOLL_CTL_MOD fd ev p k).1 = -1;
  law_ctl_del epfd fd ev p k :
    is_Some (interest k epfd fd) → (sys_epoll_ctl epfd EPOLL_CTL_DEL fd ev p k).1 = 0;
  law_send_watch fd bs k e f : interest (sys_send fd bs k).2 e f = interest k e f;
  law_recv_watch fd m k e f : interest (sys_recv fd m k).2 e f = interest k e f;
  law_malloc k e f : interest (sys_malloc k).2 e f = interest k e f;
  law_settime fd t k e f : interest (sys_timerfd_settime fd t k).2 e f = interest k e f;
  law_timer_create k fd k' : sys_timerfd_create k = (fd, k') →
    (∀ e f, interest k' e f = interest k e f) ∧
    (fd = -1 ∨ 0 <= fd ∧ ∀ e f, e = fd ∨ f = fd → interest k e f = None);
  law_close fd k e f :
    interest (sys_close fd k).2 e f = interest k e f ∨
    (e = fd ∨ f = fd) ∧ interest (sys_close fd k).2 e f = None;
}.

(** ** The heap *)

(** [struct schedi_job_epollsocket]. *)
Record epollsocket : Type := Socket {
  sk_job : nat; sk_gen : Z; sk_fd : Z; sk_htc : Z;
  sk_read_head : Z; sk_read_tail : Z;
  sk_read_buffer : list byte; sk_read_cond : Z;
  sk_write_head : Z; sk_write_tail : Z;
  sk_write_buffer : list byte; sk_write_cond : Z;
  sk_fall : Z; sk_data_ptr : option addr;
  sk_timeout_sec : Z; sk_to_timer_fd : Z;
}.

(** [struct schedi_job_epoll_request]; [list] is the owner's own list, so the owner
    names it. *)
Record epoll_request : Type := Request {
  rq_socketfd : Z; rq_owner : nat; rq_job_gen : Z; rq_list : nat;
}.

Definition SCHEDI_EPOLL_DATA_JOB : Z := 1.
Definition SCHEDI_EPOLL_DATA_SOCKET : Z := 2.
Definition SCHEDI_EPOLL_DATA_EPOLLSOCKTO : Z := 101.

(** [struct schedi_epoll_data]. *)
Record epoll_data : Type := Data { ed_type : Z; ed_ptr : addr }.

Inductive heap_object : Type :=
  | HSocket (s : epollsocket)
  | HRequest (r : epoll_request)
  | HData (d : epoll_data).

Definition as_socket (o : heap_object) : option epollsocket :=
  match o with HSocket s => Some s | _ => None end.
Definition as_request (o : heap_object) : option epoll_request :=
  match o with HRequest r => Some r | _ => None end.
Definition as_data (o : heap_object) : option epoll_data :=
  match o with HData d => Some d | _ => None end.

(** The bytes that crossed the border to a descriptor, in order. *)
Inductive io_event : Type :=
  | SentBytes (fd : Z) (bs : list byte)
  | ReceivedBytes (fd : Z) (bs : list byte).

Section world.
Context `{Kernel}.

(** The scheduler, the heap, the static data of epoll.c, and the kernel. *)
Record world : Type := World {
  w_sys : sys;
  w_heap : gmap addr heap_object;
  w_epfd_read : Z; w_epfd_write : Z;
  w_kernel : kernel;
  w_io : list io_event;
}.

Definition put_sys (s : sys) (w : world) : world :=
  World s (w_heap w) (w_epfd_read w) (w_epfd_write w) (w_kernel w) (w_io w).
Definition put_heap (h : gmap addr heap_object) (w : world) : world :=
  World (w_sys w) h (w_epfd_read w) (w_epfd_write w) (w_kernel w) (w_io w).
Definition put_kernel (k : kernel) (w : world) : world :=
  World (w_sys w) (w_heap w) (w_epfd_read w) (w_epfd_write w) k (w_io w).
Definition add_io (e : io_event) (w : world) : world :=
  World (w_sys w) (w_heap w) (w_epfd_read w) (w_epfd_write w) (w_kernel w) (w_io w ++ [e]).

Definition on_sys {A} : M sys A → M world A := zoom w_sys put_sys.

(** A system call. *)
Definition call {A} (f : kernel → A * kernel) : M world A := λ w,
  let '(a, k) := f (w_kernel w) in Done a (put_kernel k w).

(** [malloc] and the initialisation of what it returned; NULL is [None]. *)
Definition alloc (o : heap_object) : M world addr := λ w,
  let a := fresh (dom (w_heap w)) in Done a (put_heap (<[a := o]> (w_heap w)) w).
Definition malloc (o : heap_object) : M world (option addr) :=
  call sys_malloc ≫= λ ok : bool,
  if ok then alloc o ≫= λ a, mret (Some a) else mret None.

(** Freeing what is not allocated (twice, say) is undefined. *)
Definition free (a : addr) : M world unit :=
  updates (λ w, (λ _, put_heap (delete a (w_heap w)) w) <$> w_heap w !! a).

(** Access through a pointer: undefined if it does not point to such an object. *)
Definition sock_get {A} (f : epollsocket → A) (a : addr) : M world A :=
  reads (λ w, o ← w_heap w !! a; f <$> as_socket o).
Definition sock_put (f : epollsocket → epollsocket) (a : addr) : M world unit :=
  updates (λ w, o ← w_heap w !! a; s ← as_socket o;
    Some (put_heap (<[a := HSocket (f s)]> (w_heap w)) w)).
Definition req_get {A} (f : epoll_request → A) (a : addr) : M world A :=
  reads (λ w, o ← w_heap w !! a; f <$> as_request o).
Definition data_get {A} (f : epoll_data → A) (a : addr) : M world A :=
  reads (λ w, o ← w_heap w !! a; f <$> as_data o).

(** ** Registrations (epoll.c) *)

Definition epoll_ctl (epfd : Z) (op : ctl_op) (fd events : Z) (data : option addr)
    : M world Z := call (sys_epoll_ctl epfd op fd events data).

Definition schedi_epoll_del_read (fd : Z) : M world unit :=
  e ← gets w_epfd_read; epoll_ctl e EPOLL_CTL_DEL fd 0 None ≫= λ _, mret ().
Definition schedi_epoll_del_write (fd : Z) : M world unit :=
  e ← gets w_epfd_write; epoll_ctl e EPOLL_CTL_DEL fd 0 None ≫= λ _, mret ().
Definition schedi_epoll_del (fd : Z) : M world unit :=
  schedi_epoll_del_read fd ≫= λ _, schedi_epoll_del_write fd.

(** The code after the label [fail]. *)
Definition epoll_add_fail (added : option Z) (fd : Z) (data : addr) : M world Z :=
  match added with
  | Some e =>
      when (0 <=? e) (epoll_ctl e EPOLL_CTL_DEL fd 0 None ≫= λ _, mret ())
  | None => mret ()
  end ≫= λ _,
  free data ≫= λ _, mret (-1).

Definition schedi_epoll_add (fd : Z) (data : addr) (events : Z) : M world Z :=
  rd ← gets w_epfd_read;
  wr ← gets w_epfd_write;
  r ← (if has events EPOLLIN
       then epoll_ctl rd EPOLL_CTL_ADD fd (Z.land events (Z.lnot EPOLLOUT)) (Some data)
       else mret 0);
  if r <? 0 then epoll_add_fail None fd data
  else
    let added := if has events EPOLLIN then Some rd else None in
    r ← (if has events EPOLLOUT
         then epoll_ctl wr EPOLL_CTL_ADD fd (Z.land events (Z.lnot EPOLLIN)) (Some data)
         else mret 0);
    if r <? 0 then epoll_add_fail added fd data else mret 0.

(** [ret |= ...] on [int]s. *)
Definition schedi_epoll_mod (fd : Z) (data : option addr) (events : Z) : M world Z :=
  rd ← gets w_epfd_read;
  wr ← gets w_epfd_write;
  r1 ← (if has events EPOLLIN
        then epoll_ctl rd EPOLL_CTL_MOD fd (Z.land events (Z.lnot EPOLLOUT)) data
        else mret 0);
  r2 ← (if has events EPOLLOUT
        then epoll_ctl wr EPOLL_CTL_MOD fd (Z.land events (Z.lnot EPOLLIN)) data
        else mret 0);
  mret (Z.lor r1 r2).
End world.

(** ** Registering a descriptor *)

Section laws.
Context `{KernelLaws}.

Definition watched (w : world) : Z → Z → option (Z * option addr) := interest (w_kernel w).

(** Nothing but the kernel changed. *)
Definition kernel_step (w w' : world) : Prop := w' = put_kernel (w_kernel w') w.

Lemma put_kernel_id w : put_kernel (w_kernel w) w = w.
Proof. by destruct w. Qed.
Lemma kernel_step_refl w : kernel_step w w.
Proof. unfold kernel_step. by rewrite put_kernel_id. Qed.
Lemma kernel_step_trans w1 w2 w3 : kernel_step w1 w2 → kernel_step w2 w3 → kernel_step w1 w3.
Proof. unfold kernel_step. intros -> ->. done. Qed.
Lemma kernel_step_put k w : kernel_step w (put_kernel k w).
Proof. done. Qed.

Definition entry (op : ctl_op) (ev : Z) (p : option addr) : option (Z * option addr) :=
  match op with EPOLL_CTL_DEL => None | _ => Some (ev, p) end.

Lemma epoll_ctl_done e op fd ev p w :
  ∃ r w', epoll_ctl e op fd ev p w = Done r w' ∧ kernel_step w w' ∧
    (r = 0 ∧ (op = EPOLL_CTL_ADD → watched w e fd = None) ∧
       (op = EPOLL_CTL_MOD → is_Some (watched w e fd)) ∧
       (∀ e' f, watched w' e' f =
         if decide (e' = e ∧ f = fd) then entry op ev p else watched w e' f) ∨
     r = -1 ∧ (op = EPOLL_CTL_DEL → watched w e fd = None) ∧
       ∀ e' f, watched w' e' f = watched w e' f).
Proof.
  unfold epoll_ctl, call. destruct (sys_epoll_ctl e op fd ev p (w_kernel w)) as [r k'] eqn:E.
  exists r, (put_kernel k' w). split; [done|]. split; [done|].
  pose proof (law_ctl e op fd ev p (w_kernel w) r k' E) as [[-> Hi]|[-> Hi]]; [left|right].
  - split; [done|]. split; [|split; [|done]]; intros ->.
    + apply eq_None_not_Some. intros Hs.
      by pose proof (law_ctl_add e fd ev p (w_kernel w) Hs) as Hr; rewrite E in Hr.
    + apply not_eq_None_Some. intros Hs.
      by pose proof (law_ctl_mod e fd ev p (w_kernel w) Hs) as Hr; rewrite E in Hr.
  - split; [done|]. split; [|done]. intros ->. apply eq_None_not_Some. intros Hs.
    by pose proof (law_ctl_del e fd ev p (w_kernel w) Hs) as Hr; rewrite E in Hr.
Qed.

(** The registrations after a successful [schedi_epoll_add]. *)
Definition registered (w : world) (fd : Z) (data : addr) (events : Z) (e f : Z)
    : option (Z * option addr) :=
  if decide (e = w_epfd_read w ∧ f = fd ∧ has events EPOLLIN = true) then
    Some (Z.land events (Z.lnot EPOLLOUT), Some data)
  else if decide (e = w_epfd_write w ∧ f = fd ∧ has events EPOLLOUT = true) then
    Some (Z.land events (Z.lnot EPOLLIN), Some data)
  else watched w e f.

Lemma free_run a o w : w_heap w !! a = Some o →
  free a w = Done () (put_heap (delete a (w_heap w)) w).
Proof. intros Ha. unfold free, updates. by rewrite Ha. Qed.

(** One of the two conditional registrations. *)
Lemma epoll_add_half (b : bool) e fd ev p w :
  ∃ r w', (if b then epoll_ctl e EPOLL_CTL_ADD fd ev p else mret 0) w = Done r w' ∧
    kernel_step w w' ∧
    (r = 0 ∧ (b = true → watched w e fd = None) ∧
       (∀ e' f, watched w' e' f =
         if decide (e' = e ∧ f = fd ∧ b = true) then Some (ev, p) else watched w e' f) ∨
     r = -1 ∧ b = true ∧ ∀ e' f, watched w' e' f = watched w e' f).
Proof.
  destruct b.
  - destruct (epoll_ctl_done e EPOLL_CTL_ADD fd ev p w) as (r & w' & Hrun & Hk & Hr).
    exists r, w'. split; [done|]. split; [done|].
    destruct Hr as [(-> & Hn & _ & Hi)|(-> & _ & Hi)]; [left|right]; split_and!; auto.
    intros e' f. rewrite Hi. repeat case_decide; naive_solver.
  - exists 0, w. split; [done|]. split; [apply kernel_step_refl|]. left.
    split_and!; [done|done|]. intros e' f. case_decide; naive_solver.
Qed.

Lemma epoll_add_fail_done added fd data o w :
  w_heap w !! data = Some o →
  (∀ e, added = Some e → 0 <= e) →
  ∃ w', epoll_add_fail added fd data w = Done (-1) w' ∧
    kernel_step (put_heap (delete data (w_heap w)) w) w' ∧
    ∀ e f, watched w' e f =
      if decide (added = Some e ∧ f = fd) then None else watched w e f.
Proof.
  intros Ho Ha. unfold epoll_add_fail. destruct added as [e|].
  - specialize (Ha e eq_refl). replace (0 <=? e) with true by lia. cbn [when].
    destruct (epoll_ctl_done e EPOLL_CTL_DEL fd 0 None w) as (r & w1 & Hrun & Hk & Hr).
    bind_by (by bind_by exact Hrun).
    assert (w_heap w1 !! data = Some o) as Ho1 by (by rewrite Hk).
    bind_by (by eapply free_run). eexists. split; [done|]. split; [by rewrite Hk|].
    intros e' f. change (watched (put_heap _ w1) e' f) with (watched w1 e' f).
    destruct Hr as [(_ & _ & _ & Hi)|(_ & Hn & Hi)]; rewrite Hi.
    + repeat case_decide; naive_solver.
    + case_decide as Hd; [|done]. destruct Hd as [[= ->] ->]. by apply Hn.
  - bind_by done. bind_by (by eapply free_run). eexists. split; [done|]. split; [done|].
    intros e f. by case_decide; naive_solver.
Qed.

Lemma epoll_add_done fd data o events w :
  w_heap w !! data = Some o → 0 <= w_epfd_read w → w_epfd_read w ≠ w_epfd_write w →
  ∃ r w', schedi_epoll_add fd data events w = Done r w' ∧
    (r = 0 ∧ kernel_step w w' ∧
       (∀ e f, watched w' e f = registered w fd data events e f) ∨
     r = -1 ∧ kernel_step (put_heap (delete data (w_heap w)) w) w' ∧
       ∀ e f, watched w' e f = watched w e f).
Proof.
  intros Ho Hrd Hne. unfold schedi_epoll_add.
  bind_by done. bind_by done.
  destruct (epoll_add_half (has events EPOLLIN) (w_epfd_read w) fd
    (Z.land events (Z.lnot EPOLLOUT)) (Some data) w) as (r1 & w1 & Hrun1 & Hk1 & Hr1).
  bind_by exact Hrun1.
  assert (w_heap w1 !! data = Some o) as Ho1 by (by rewrite Hk1).
  destruct Hr1 as [(-> & Hn1 & Hi1)|(-> & Hb1 & Hi1)]; cbn [Z.ltb Z.compare]; cycle 1.
  { destruct (epoll_add_fail_done None fd data o w1) as (w' & Hrun & Hk & Hi); [done..|].
    exists (-1), w'. split; [done|]. right. split; [done|]. split; [by rewrite Hk1 in Hk|].
    intros e f. rewrite Hi. case_decide; [naive_solver|done]. }
  destruct (epoll_add_half (has events EPOLLOUT) (w_epfd_write w) fd
    (Z.land events (Z.lnot EPOLLIN)) (Some data) w1) as (r2 & w2 & Hrun2 & Hk2 & Hr2).
  bind_by exact Hrun2.
  assert (w_heap w2 !! data = Some o) as Ho2 by (by rewrite Hk2).
  destruct Hr2 as [(-> & Hn2 & Hi2)|(-> & Hb2 & Hi2)]; cbn [Z.ltb Z.compare].
  - exists 0, w2. split; [done|]. left. split; [done|].
    split; [by eapply kernel_step_trans|]. intros e f. unfold registered.
    rewrite Hi2, Hi1. repeat case_decide; naive_solver.
  - set (added := if has events EPOLLIN then Some (w_epfd_read w) else None).
    destruct (epoll_add_fail_done added fd data o w2) as (w' & Hrun & Hk & Hi); [done| |].
    { unfold added. destruct (has events EPOLLIN); naive_solver. }
    exists (-1), w'. split; [done|]. right. split; [done|].
    split; [by rewrite Hk2, Hk1 in Hk|]. intros e f. rewrite Hi, Hi2, Hi1. unfold added.
    destruct (has events EPOLLIN); repeat case_decide; naive_solver.
Qed.

(** C30: [schedi_epoll_add] registers the descriptor with the read instance, the write
    instance, both or neither, as the events say, each with the other direction's bit
    cleared and the data pointer, and returns 0; or it returns -1, and then every
    registration is as before (a half-done one is undone) and the data is freed. *)
Theorem schedi_epoll_add_spec fd data o events w :
  w_heap w !! data = Some o → 0 <= w_epfd_read w → w_epfd_read w ≠ w_epfd_write w →
  ∃ r w', schedi_epoll_add fd data events w = Done r w' ∧
    (r = 0 ∧ kernel_step w w' ∧
       (∀ e f, watched w' e f = registered w fd data events e f) ∨
     r = -1 ∧ kernel_step (put_heap (delete data (w_heap w)) w) w' ∧
       ∀ e f, watched w' e f = watched w e f).
Proof. apply epoll_add_done. Qed.
End laws.

(** ** A concrete kernel

    Scripted answers, for the witnesses: each [send] and [recv] consumes one. *)

Record script : Type := ScriptWith {
  t_watch : gmap (Z * Z) (Z * option addr);
  t_timer : option (gmap (Z * Z) (Z * option addr));  (** once the timer 77 is made *)
  t_sends : list send_outcome;
  t_recvs : list recv_outcome;
  t_wake : bool;  (** whether the wake descriptor has been written *)
}.
Abbreviation Script watch timer sends recvs := (ScriptWith watch timer sends recvs false) (only parsing).
Definition script_woken (b : bool) (k : script) : script :=
  ScriptWith (t_watch k) (t_timer k) (t_sends k) (t_recvs k) b.

Definition script_send (fd : Z) (bs : list byte) (k : script) : send_outcome * script :=
  match t_sends k with
  | [] => (SendAgain, k)
  | o :: os =>
      (match o with Sent n => Sent (Nat.min n (length bs)) | _ => o end,
       ScriptWith (t_watch k) (t_timer k) os (t_recvs k) (t_wake k))
  end.

Definition script_recv (fd : Z) (m : nat) (k : script) : recv_outcome * script :=
  match t_recvs k with
  | [] => (RecvAgain, k)
  | o :: os =>
      (match o with Got bs => Got (take m bs) | _ => o end,
       ScriptWith (t_watch k) (t_timer k) (t_sends k) os (t_wake k))
  end.

Definition of_timer (e f : Z) : bool := (e =? 77) || (f =? 77).
Definition script_interest (k : script) (e f : Z) : option (Z * option addr) :=
  if of_timer e f then match t_timer k with Some m => m !! (e, f) | None => None end
  else t_watch k !! (e, f).
Definition script_put (e f : Z) (o : option (Z * option addr)) (k : script) : script :=
  let put := partial_alter (λ _, o) (e, f) in
  if of_timer e f then ScriptWith (t_watch k) (put <$> t_timer k) (t_sends k) (t_recvs k) (t_wake k)
  else ScriptWith (put (t_watch k)) (t_timer k) (t_sends k) (t_recvs k) (t_wake k).
Definition script_known (e f : Z) (k : script) : bool :=
  negb (of_timer e f) || match t_timer k with Some _ => true | None => false end.

Definition script_ctl (epfd : Z) (op : ctl_op) (fd ev : Z) (p : option addr) (k : script)
    : Z * script :=
  match op, script_interest k epfd fd with
  | EPOLL_CTL_ADD, None =>
      if script_known epfd fd k then (0, script_put epfd fd (Some (ev, p)) k) else (-1, k)
  | EPOLL_CTL_MOD, Some _ => (0, script_put epfd fd (Some (ev, p)) k)
  | EPOLL_CTL_DEL, Some _ => (0, script_put epfd fd None k)
  | _, _ => (-1, k)
  end.

#[local] Instance script_kernel : Kernel := {|
  kernel := script;
  sys_malloc k := (true, k);
  fresh_bytes _ := replicate 2048 "000"%byte;
  sys_send := script_send;
  sys_recv := script_recv;
  sys_epoll_ctl := script_ctl;
  sys_timerfd_create k :=
    match t_timer k with
    | Some _ => (-1, k)
    | None => (77, ScriptWith (t_watch k) (Some ∅) (t_sends k) (t_recvs k) (t_wake k))
    end;
  sys_timerfd_settime _ _ k := (0, k);
  sys_close _ k := (0, k);
  interest := script_interest;
|}.

Lemma script_put_interest e f o k e' f' :
  script_known e f k = true →
  script_interest (script_put e f o k) e' f' =
    if decide (e' = e ∧ f' = f) then o else script_interest k e' f'.
Proof.
  assert (∀ m : gmap (Z * Z) (Z * option addr), partial_alter (λ _, o) (e, f) m !! (e', f') =
    if decide (e' = e ∧ f' = f) then o else m !! (e', f')) as Hp.
  { intros m. case_decide as Hd; [destruct Hd as [-> ->]; apply lookup_partial_alter_eq|].
    apply lookup_partial_alter_ne. naive_solver. }
  unfold script_interest, script_put, script_known.
  destruct (of_timer e f) eqn:E, (of_timer e' f') eqn:E'; cbn; intros Hk; rewrite ?Hp; try done.
  - destruct (t_timer k); [|done]. apply Hp.
  - rewrite decide_False; [done|]. intros [-> ->]. congruence.
  - rewrite decide_False; [done|]. intros [-> ->]. congruence.
Qed.

Lemma script_known_some e f k : is_Some (script_interest k e f) → script_known e f k = true.
Proof.
  unfold script_interest, script_known. intros [x Hx]. destruct (of_timer e f); [|done].
  by destruct (t_timer k).
Qed.

#[local] Instance script_laws : KernelLaws.
Proof.
  split; cbn.
  - intros fd bs k n k'. unfold script_send. destruct (t_sends k) as [|[] ?]; naive_solver lia.
  - intros fd m k bs k'. unfold script_recv. destruct (t_recvs k) as [|[] ?]; try naive_solver.
    intros [= <- <-]. rewrite length_take. lia.
  - done.
  - intros epfd op fd ev p k r k'. unfold script_ctl.
    pose proof (script_known_some epfd fd k) as Hs.
    destruct op, (script_interest k epfd fd) eqn:E; try destruct (script_known epfd fd k) eqn:Hk;
      intros [= <- <-]; auto; try (left; split; [done|]; intros e f; by apply script_put_interest);
      by discriminate Hs.
  - intros epfd fd ev p k [x Hx]. unfold script_ctl. by rewrite Hx.
  - intros epfd fd ev p k Hx. unfold script_ctl. by rewrite Hx.
  - intros epfd fd ev p k [x Hx]. unfold script_ctl. by rewrite Hx.
  - intros fd bs k e f. unfold script_send. by destruct (t_sends k).
  - intros fd m k e f. unfold script_recv. by destruct (t_recvs k).
  - done.
  - done.
  - intros k fd k'. destruct (t_timer k) eqn:E; intros [= <- <-]; [by split; [|left]|].
    unfold script_interest. rewrite E. split.
    + intros e f. by destruct (of_timer e f).
    + right. split; [done|]. intros e f He. unfold of_timer.
      destruct He as [-> | ->]; by rewrite ?orb_true_r.
  - by left.
Qed.

(** A fresh scheduler over the kernel, with the two epoll instances open. *)
Definition script_world (k : script) (h : gmap addr heap_object) (s : sys) : world :=
  World s h 3 4 k [].

Lemma schedi_epoll_add_spec_witness :
  let w := script_world (Script ∅ None [] []) {[8%nat := HData (Data SCHEDI_EPOLL_DATA_JOB 7%nat)]}
             sys_one in
  ∃ r w', schedi_epoll_add 9 8%nat (Z.lor EPOLLIN EPOLLOUT) w = Done r w' ∧
    (r = 0 ∧ kernel_step w w' ∧
       (∀ e f, watched w' e f = registered w 9 8%nat (Z.lor EPOLLIN EPOLLOUT) e f) ∨
     r = -1 ∧ kernel_step (put_heap (delete 8%nat (w_heap w)) w) w' ∧
       ∀ e f, watched w' e f = watched w e f).
Proof.
  intros w. by apply (schedi_epoll_add_spec 9 8%nat (HData (Data SCHEDI_EPOLL_DATA_JOB 7%nat))).
Defined.
