(* ===== verification/SocketHelpers.v ===== *)
(** * Servers and clients on the operating system's sockets (src/examples/create_server.h,
    accept_client.h, and the client of epollsocket_test.c)

    The calls of the operating system are the class [SocketCalls]; [SocketLaws] states what
    they document about the descriptors of a process and what these listen on.  A failing
    [create_server] leaves no descriptor open, and a client accepts its own message as an
    echo and nobody else's. *)

From Stdlib Require Import Strings.Byte.
From S2P Require Export Net.
From stdpp Require Import strings pretty.

Local Open Scope Z_scope.

#[export] Instance byte_decision : EqDecision byte := byte_eq_dec.

(** The socket calls of the examples.  [inet_pton] gives the address, or nothing when its
    result is not positive; [sys_read] gives nothing when it fails. *)
Class SocketCalls `{Kernel} : Type := {
  sys_socket : bool → kernel → Z * kernel;
  sys_setsockopt : Z → kernel → Z * kernel;
  inet_pton : string → option Z;
  sys_bind : Z → Z → Z → kernel → Z * kernel;
  sys_listen : Z → kernel → Z * kernel;
  sys_accept4 : Z → bool → kernel → Z * kernel;
  sys_connect : Z → Z → Z → kernel → Z * kernel;
  sys_read : Z → nat → kernel → option (list byte) * kernel;
  sys_write : Z → list byte → kernel → Z * kernel;
  sys_fork : kernel → Z * kernel;
}.

Section helpers.
Context `{SocketCalls}.

(** A call of the operating system. *)
Definition os {A} (f : kernel → A * kernel) : M kernel A := λ k, let '(a, k') := f k in Done a k'.
Definition on_kernel {A} : M kernel A → M world A := zoom w_kernel put_kernel.

(** ** create_server.h: one text, with and without [SOCK_NONBLOCK] *)

Definition create_server_with (nonblock : bool) (ip : string) (port : Z) : M kernel Z :=
  fd ← os (sys_socket nonblock);
  if fd <? 0 then mret (-1)
  else
    os (sys_setsockopt fd) ≫= λ _,
    match inet_pton ip with
    | None => os (sys_close fd) ≫= λ _, mret (-2)
    | Some address =>
        r ← os (sys_bind fd address (u16 port));
        if r <? 0 then os (sys_close fd) ≫= λ _, mret (-3)
        else
          r ← os (sys_listen fd);
          if r <? 0 then os (sys_close fd) ≫= λ _, mret (-4)
          else mret fd
    end.
Definition create_server_nonblock : string → Z → M kernel Z := create_server_with true.
Definition create_server : string → Z → M kernel Z := create_server_with false.

(** ** accept_client.h *)

Definition accept_client_nonblock (serverfd : Z) : M kernel Z :=
  fd ← os (sys_accept4 serverfd true); if fd <? 0 then mret (-1) else mret fd.
Definition accept_client (serverfd : Z) : M kernel Z :=
  fd ← os (sys_accept4 serverfd false); if fd <? 0 then mret (-1) else mret fd.

(** ** The client of epollsocket_test.c *)

Definition PORT : Z := 5006.

(** The bytes of a string, and the C string that starts an array. *)
Fixpoint string_bytes (s : string) : list byte :=
  match s with
  | EmptyString => []
  | String c s => Ascii.byte_of_ascii c :: string_bytes s
  end.
Fixpoint c_string (bs : list byte) : list byte :=
  match bs with
  | [] => []
  | b :: bs => if Byte.eqb b "000" then [] else b :: c_string bs
  end.

(** [snprintf(msg, sizeof(msg), "hello from client %d", id)]. *)
Definition client_message (id : Z) : list byte :=
  take 63 (string_bytes ("hello from client " +:+ pretty id)).

(** What the client prints at its end; its two [_exit(1)]. *)
Inductive client_verdict : Type := SocketFailed | ConnectFailed | EchoOk | EchoMismatch | NoEcho.

#[export] Instance verdict_decision : EqDecision client_verdict.
Proof. solve_decision. Defined.

Definition client_func (id : Z) : M kernel client_verdict :=
  fd ← os (sys_socket false);
  if fd <? 0 then mret SocketFailed
  else
    r ← os (sys_connect fd (default 0 (inet_pton "127.0.0.1")) PORT);
    if r <? 0 then mret ConnectFailed
    else
      let msg := client_message id in
      os (sys_write fd msg) ≫= λ _,
      buf ← os (sys_read fd 255);
      verdict ← mret (match buf with
        | Some (b :: bs) =>
            if bool_decide (c_string (b :: bs) = msg) then EchoOk else EchoMismatch
        | _ => NoEcho
        end);
      os (sys_close fd) ≫= λ _, mret verdict.

(** ** What is known of the calls *)

(** What a process sees of its descriptors: which are open, and the port one is bound to. *)
Class SocketLaws : Type := {
  open_fds : kernel → gset Z;
  bound_to : kernel → Z → option Z;
  listening : kernel → gset Z;
  law_socket b k fd k' : sys_socket b k = (fd, k') →
    fd < 0 ∧ open_fds k' = open_fds k ∨
    0 <= fd ∧ (fd ∉ open_fds k) ∧ open_fds k' = {[fd]} ∪ open_fds k;
  law_setsockopt fd k : open_fds (sys_setsockopt fd k).2 = open_fds k;
  law_bind fd address port k r k' : sys_bind fd address port k = (r, k') →
    open_fds k' = open_fds k ∧ (0 <= r → bound_to k' fd = Some port);
  law_listen fd k r k' : sys_listen fd k = (r, k') →
    open_fds k' = open_fds k ∧ bound_to k' fd = bound_to k fd ∧ (0 <= r → fd ∈ listening k');
  law_close_fd fd k : open_fds (sys_close fd k).2 = open_fds k ∖ {[fd]};
  law_accept fd b k r k' : sys_accept4 fd b k = (r, k') →
    r < 0 ∧ open_fds k' = open_fds k ∨
    0 <= r ∧ (r ∉ open_fds k) ∧ open_fds k' = {[r]} ∪ open_fds k;
}.

Lemma os_run {A} (f : kernel → A * kernel) k : os f k = Done (f k).1 (f k).2.
Proof. unfold os. by destruct (f k). Qed.

(** Closing a descriptor right after it was opened. *)
Lemma close_new `{!SocketLaws} fd k k1 :
  (fd ∉ open_fds k) → open_fds k1 = {[fd]} ∪ open_fds k → open_fds (sys_close fd k1).2 = open_fds k.
Proof. intros Hn E. rewrite law_close_fd, E. set_solver. Qed.

(** C31: making a server.  [create_server] and [create_server_nonblock] return; on success the
    one new descriptor of the process is the server's, bound to the port and listening; on a
    failure the result is negative, from -1 to -4, and no descriptor is left open. *)
Theorem create_server_spec `{!SocketLaws} nonblock ip port k :
  ∃ r k', create_server_with nonblock ip port k = Done r k' ∧
    if r <? 0 then -4 <= r <= -1 ∧ open_fds k' = open_fds k
    else (r ∉ open_fds k) ∧ open_fds k' = {[r]} ∪ open_fds k ∧ r ∈ listening k' ∧
      bound_to k' r = Some (u16 port).
Proof.
  unfold create_server_with. bind_by (by apply os_run).
  destruct (sys_socket nonblock k) as [fd k1] eqn:E1. cbn [fst snd].
  destruct (law_socket _ _ _ _ E1) as [[Hfd Ho]|(Hfd & Hnew & Ho)].
  { replace (fd <? 0) with true by lia. by exists (-1), k1. }
  replace (fd <? 0) with false by lia. bind_by (by apply os_run).
  pose proof (law_setsockopt fd k1) as Ho2. rewrite Ho in Ho2.
  set (k2 := (sys_setsockopt fd k1).2) in *.
  destruct (inet_pton ip) as [address|]; cycle 1.
  { bind_by (by apply os_run). eexists _, _. split; [done|]. cbn [Z.ltb Z.compare].
    split; [lia|by apply close_new]. }
  bind_by (by apply os_run). destruct (sys_bind fd address (u16 port) k2) as [r3 k3] eqn:E3.
  cbn [fst snd]. destruct (law_bind _ _ _ _ _ _ E3) as [Ho3 Hb3]. rewrite Ho2 in Ho3.
  destruct (Z.ltb_spec r3 0) as [H3|H3].
  { bind_by (by apply os_run). eexists _, _. split; [done|]. cbn [Z.ltb Z.compare].
    split; [lia|by apply close_new]. }
  bind_by (by apply os_run). destruct (sys_listen fd k3) as [r4 k4] eqn:E4. cbn [fst snd].
  destruct (law_listen _ _ _ _ E4) as (Ho4 & Hb4 & Hl4). rewrite Ho3 in Ho4.
  destruct (Z.ltb_spec r4 0) as [H4|H4].
  { bind_by (by apply os_run). eexists _, _. split; [done|]. cbn [Z.ltb Z.compare].
    split; [lia|by apply close_new]. }
  exists fd, k4. split; [done|]. replace (fd <? 0) with false by lia.
  split; [done|]. split; [done|]. split; [by apply Hl4|]. rewrite Hb4. by apply Hb3.
Qed.

(** Accepting gives a new descriptor or -1. *)
Lemma accept_client_spec `{!SocketLaws} serverfd k :
  ∃ r k', accept_client_nonblock serverfd k = Done r k' ∧
    (r = -1 ∧ open_fds k' = open_fds k ∨
     0 <= r ∧ (r ∉ open_fds k) ∧ open_fds k' = {[r]} ∪ open_fds k).
Proof.
  unfold accept_client_nonblock. bind_by (by apply os_run).
  destruct (sys_accept4 serverfd true k) as [fd k1] eqn:E. cbn [fst snd].
  destruct (law_accept _ _ _ _ _ E) as [[Hfd Ho]|(Hfd & Hnew & Ho)].
  - replace (fd <? 0) with true by lia. eexists _, _. split; [done|]. by left.
  - replace (fd <? 0) with false by lia. eexists _, _. split; [done|]. by right.
Qed.
End helpers.

(** ** What the client takes for an echo *)

Lemma c_string_app bs b rest :
  Forall (λ b, Byte.eqb b "000" = false) bs → c_string (bs ++ b :: rest) =
    bs ++ if Byte.eqb b "000" then [] else b :: c_string rest.
Proof. induction 1 as [|x bs Hx _ IH]; cbn; [done|]. by rewrite Hx, IH. Qed.
Lemma c_string_text bs : Forall (λ b, Byte.eqb b "000" = false) bs → c_string bs = bs.
Proof. induction 1 as [|x bs Hx _ IH]; cbn; [done|]. by rewrite Hx, IH. Qed.

(** The four clients' messages are texts, and differ. *)
Definition clients : list Z := [0; 1; 2; 3].
Lemma client_message_text id : id ∈ clients →
  Forall (λ b, Byte.eqb b "000" = false) (client_message id) ∧ client_message id ≠ [].
Proof.
  intros Hid. assert (forallb (λ id, forallb (λ b, negb (Byte.eqb b "000")) (client_message id) &&
    negb (bool_decide (client_message id = []))) clients = true) as Hall by by vm_compute.
  rewrite forallb_forall in Hall. apply list_elem_of_In in Hid. specialize (Hall id Hid).
  apply andb_true_iff in Hall as [Ht Hn]. apply negb_true_iff, bool_decide_eq_false in Hn.
  split; [|done]. rewrite forallb_forall in Ht. apply Forall_forall. intros b Hb.
  apply negb_true_iff, Ht. by apply list_elem_of_In.
Qed.
Lemma client_message_inj i j : i ∈ clients → j ∈ clients → client_message i = client_message j → i = j.
Proof.
  intros Hi Hj. assert (forallb (λ i, forallb (λ j,
    bool_decide (i = j) || negb (bool_decide (client_message i = client_message j))) clients) clients
    = true) as Hall by by vm_compute.
  rewrite forallb_forall in Hall. apply list_elem_of_In in Hi. specialize (Hall i Hi).
  rewrite forallb_forall in Hall. apply list_elem_of_In in Hj. specialize (Hall j Hj).
  intros E. apply orb_true_iff in Hall as [Hall|Hall]; [by apply bool_decide_eq_true in Hall|].
  apply negb_true_iff, bool_decide_eq_false in Hall. done.
Qed.

(** The two calls that must succeed for a verdict, and what the client then reads. *)
Definition client_reads `{SocketCalls} (id : Z) (buf : option (list byte)) (k : kernel) : Prop :=
  let '(fd, k1) := sys_socket false k in
  let '(r, k2) := sys_connect fd (default 0 (inet_pton "127.0.0.1")) PORT k1 in
  0 <= fd ∧ 0 <= r ∧ (sys_read fd 255 (sys_write fd (client_message id) k2).2).1 = buf.

(** A client that connects and reads [bs] is satisfied when [bs] is its message, also with a
    NUL and anything after it; it is not when [bs] is another client's message or only a part
    of its own (the echo in two pieces): it reads once. *)
Theorem client_func_verdict `{SocketCalls} id buf k :
  id ∈ clients → client_reads id buf k →
  ∃ v k', client_func id k = Done v k' ∧
    (∀ rest, buf = Some (client_message id) ∨ buf = Some (client_message id ++ "000"%byte :: rest) →
      v = EchoOk) ∧
    (∀ j, j ∈ clients → j ≠ id → buf = Some (client_message j) → v = EchoMismatch) ∧
    (∀ n, (0 < n < length (client_message id))%nat → buf = Some (take n (client_message id)) →
      v = EchoMismatch) ∧
    (buf = None ∨ buf = Some [] → v = NoEcho).
Proof.
  intros Hid Hr. unfold client_reads in Hr. destruct (client_message_text id Hid) as [Ht Hn].
  destruct (sys_socket false k) as [fd k1] eqn:E1.
  destruct (sys_connect _ _ _ k1) as [r k2] eqn:E2. destruct Hr as (Hfd & Hr & Hbuf).
  set (v := match buf with
    | Some (b :: bs) =>
        if bool_decide (c_string (b :: bs) = client_message id) then EchoOk else EchoMismatch
    | _ => NoEcho
    end). exists v.
  assert (∀ bs, bs ≠ [] → c_string bs = client_message id → buf = Some bs → v = EchoOk) as Hok.
  { intros [|b bs] Hne Hc ->; [done|]. unfold v. by rewrite bool_decide_true. }
  assert (∀ bs, bs ≠ [] → c_string bs ≠ client_message id → buf = Some bs → v = EchoMismatch) as Hbad.
  { intros [|b bs] Hne Hc ->; [done|]. unfold v. by rewrite bool_decide_false. }
  eexists. split; [|split; [|split; [|split]]].
  - unfold client_func. bind_by (by apply os_run). rewrite E1. cbn [fst snd].
    replace (fd <? 0) with false by lia. bind_by (by apply os_run). rewrite E2. cbn [fst snd].
    replace (r <? 0) with false by lia. bind_by (by apply os_run). bind_by (by apply os_run).
    rewrite Hbuf. fold v. bind_by done. by bind_by (by apply os_run).
  - intros rest [E|E]; (eapply Hok; [|..|exact E]).
    + done.
    + by apply c_string_text.
    + by destruct (client_message id).
    + rewrite c_string_app by done. cbn. by rewrite app_nil_r.
  - intros j Hj Hne. destruct (client_message_text j Hj) as [Htj Hnj]. apply Hbad; [done|].
    rewrite c_string_text by done. intros E. by apply Hne, client_message_inj.
  - intros n Hlen. apply Hbad.
    + intros E%(f_equal length). rewrite length_take in E. cbn in E. lia.
    + rewrite c_string_text by by apply Forall_take. intros E%(f_equal length).
      rewrite length_take in E. lia.
  - unfold v. by intros [-> | ->].
Qed.
