(* ===== verification/Sockets.v ===== *)
(** * Epoll sockets (src/src/jobs.c): the operations

    A socket is a heap object shared by the job that owns it and by the epoll side;
    each side releases its reference with [done_], and the last release frees it.  The
    operations are translated call by call on the world of Net.v. *)

From Stdlib Require Import Strings.Byte.
From S2P Require Export Ring Net.

Local Open Scope Z_scope.

Definition set_htc x s := Socket (sk_job s) (sk_gen s) (sk_fd s) x (sk_read_head s)
  (sk_read_tail s) (sk_read_buffer s) (sk_read_cond s) (sk_write_head s) (sk_write_tail s)
  (sk_write_buffer s) (sk_write_cond s) (sk_fall s) (sk_data_ptr s) (sk_timeout_sec s)
  (sk_to_timer_fd s).
Definition set_read head tail buf s := Socket (sk_job s) (sk_gen s) (sk_fd s) (sk_htc s) head
  tail buf (sk_read_cond s) (sk_write_head s) (sk_write_tail s)
  (sk_write_buffer s) (sk_write_cond s) (sk_fall s) (sk_data_ptr s) (sk_timeout_sec s)
  (sk_to_timer_fd s).
Definition set_write head tail buf s := Socket (sk_job s) (sk_gen s) (sk_fd s) (sk_htc s)
  (sk_read_head s) (sk_read_tail s) (sk_read_buffer s) (sk_read_cond s) head tail
  buf (sk_write_cond s) (sk_fall s) (sk_data_ptr s) (sk_timeout_sec s)
  (sk_to_timer_fd s).
Definition set_conds rc wc s := Socket (sk_job s) (sk_gen s) (sk_fd s) (sk_htc s)
  (sk_read_head s) (sk_read_tail s) (sk_read_buffer s) rc (sk_write_head s)
  (sk_write_tail s) (sk_write_buffer s) wc (sk_fall s) (sk_data_ptr s) (sk_timeout_sec s)
  (sk_to_timer_fd s).
Definition set_fall x s := Socket (sk_job s) (sk_gen s) (sk_fd s) (sk_htc s)
  (sk_read_head s) (sk_read_tail s) (sk_read_buffer s) (sk_read_cond s) (sk_write_head s)
  (sk_write_tail s) (sk_write_buffer s) (sk_write_cond s) x (sk_data_ptr s)
  (sk_timeout_sec s) (sk_to_timer_fd s).
Definition set_data_ptr p s := Socket (sk_job s) (sk_gen s) (sk_fd s) (sk_htc s)
  (sk_read_head s) (sk_read_tail s) (sk_read_buffer s) (sk_read_cond s) (sk_write_head s)
  (sk_write_tail s) (sk_write_buffer s) (sk_write_cond s) (sk_fall s) p
  (sk_timeout_sec s) (sk_to_timer_fd s).
Definition set_timer sec fd s := Socket (sk_job s) (sk_gen s) (sk_fd s) (sk_htc s)
  (sk_read_head s) (sk_read_tail s) (sk_read_buffer s) (sk_read_cond s) (sk_write_head s)
  (sk_write_tail s) (sk_write_buffer s) (sk_write_cond s) (sk_fall s) (sk_data_ptr s) sec fd.

Section operations.
Context `{BuildConfig, JobAddress, Kernel}.

(** ** Timer *)

Definition schedi_job_epollsocket_timeout_reset (a : addr) : M world Z :=
  sec ← sock_get sk_timeout_sec a;
  fd ← sock_get sk_to_timer_fd a;
  call (sys_timerfd_settime fd sec).

Definition schedi_job_epollsocket_timeout_stop (a : addr) : M world Z :=
  fd ← sock_get sk_to_timer_fd a;
  call (sys_timerfd_settime fd 0).

(** ** Readiness *)

Definition schedi_job_epollsocket_accessjob (a : addr) : M world bool :=
  j ← sock_get sk_job a;
  bans ← on_sys (schedi_job_mark_access j);
  if bans =? 0 then
    g ← on_sys (job_get gen j);
    g' ← sock_get sk_gen a;
    if g =? g' then mret true
    else on_sys (schedi_job_unmark_access j) ≫= λ _, mret false
  else mret false.

Definition schedi_job_epollsocket_jobready_update (a : addr) (old_htc new_htc : Z)
    : M world unit :=
  when ext_timeout (schedi_job_epollsocket_timeout_reset a ≫= λ _, mret ()) ≫= λ _,
  let old_ready := has old_htc SCHEDI_JOB_EPOLLSOCKET_READY in
  let new_ready := has new_htc SCHEDI_JOB_EPOLLSOCKET_READY in
  if Bool.eqb old_ready new_ready then mret ()
  else
    ok ← schedi_job_epollsocket_accessjob a;
    if negb ok then mret ()
    else
      j ← sock_get sk_job a;
      on_sys (schedi_job_meta_flag_cas_update j (if new_ready then 1 else -1) 0 0 0 0 false)
        ≫= λ _, on_sys (schedi_job_unmark_access j) ≫= λ _, mret ().

(** A compare-and-swap loop on the socket's word. *)
Definition sock_cas {R} (body : Z → attempt Z R) (a : addr) : M world R :=
  w ← sock_get sk_htc a;
  let '(r, w') := rmw body w in
  sock_put (set_htc w') a ≫= λ _, mret r.

(** The loop, then [jobready_update] unless the function returned early. *)
Definition cas_then_update (body : Z → attempt Z cas_result) (a : addr) : M world bool :=
  sock_cas body a ≫= λ r : cas_result,
  match r with
  | None => mret false
  | Some (old, new) =>
      schedi_job_epollsocket_jobready_update a old new ≫= λ _, mret true
  end.

Definition schedi_job_epollsocket_avail_add (a : addr) (delta : Z) (dead : bool)
    : M world unit :=
  cond ← sock_get sk_write_cond a;
  cas_then_update (avail_add_body cond delta dead) a ≫= λ _, mret ().

Definition schedi_job_epollsocket_count_add (a : addr) (delta : Z) (dead : bool)
    : M world unit :=
  cond ← sock_get sk_read_cond a;
  cas_then_update (count_add_body cond delta dead) a ≫= λ _, mret ().

Definition schedi_job_epollsocket_dead (a : addr) : M world unit :=
  cas_then_update dead_body a ≫= λ _, mret ().
Definition schedi_job_epollsocket_done_cas_epollside (a : addr) : M world unit :=
  cas_then_update done_epollside_body a ≫= λ _, mret ().
Definition schedi_job_epollsocket_done_cas_jobside (a : addr) : M world unit :=
  cas_then_update done_jobside_body a ≫= λ _, mret ().
Definition schedi_job_epollsocket_timeout_cas (a : addr) : M world unit :=
  cas_then_update timeout_body a ≫= λ _, mret ().
Definition schedi_job_epollsocket_untimeout (a : addr) : M world Z :=
  cas_then_update untimeout_body a ≫= λ swapped : bool, mret (if swapped then 0 else -1).

Definition schedi_job_epollsocket_timeout (a : addr) : M world bool :=
  w ← sock_get sk_htc a; mret (has w SCHEDI_JOB_EPOLLSOCKET_TIMEOUT).
Definition schedi_job_epollsocket_ready (a : addr) : M world bool :=
  w ← sock_get sk_htc a; mret (has w SCHEDI_JOB_EPOLLSOCKET_READY).

Definition schedi_job_tool_epollsocket_read_cond (a : addr) (read_cond : Z) : M world unit :=
  sock_put (λ s, set_conds read_cond (sk_write_cond s) s) a ≫= λ _,
  schedi_job_epollsocket_count_add a 0 false.
Definition schedi_job_tool_epollsocket_write_cond (a : addr) (write_cond : Z) : M world unit :=
  sock_put (λ s, set_conds (sk_read_cond s) write_cond s) a ≫= λ _,
  schedi_job_epollsocket_avail_add a 0 false.

(** ** Releasing a reference *)

Definition done_cas (a : addr) (epollside : bool) : M world unit :=
  if epollside then schedi_job_epollsocket_done_cas_epollside a
  else schedi_job_epollsocket_done_cas_jobside a.

(** [fetch_sub] on [fall], and [free] by who made it zero. *)
Definition done_drop (a : addr) : M world Z :=
  p ← sock_get sk_fall a;
  sock_put (set_fall (p - 1)) a ≫= λ _,
  if p =? 1 then free a ≫= λ _, mret 0 else mret (-1).

Definition schedi_job_epollsocket_done_ (a : addr) (epollside : bool) : M world Z :=
  done_cas a epollside ≫= λ _, done_drop a.

Definition schedi_job_epollsocket_done (a : addr) : M world Z :=
  schedi_job_epollsocket_done_ a false.

(** ** Registration with epoll *)

Definition schedi_job_epollsocket_push_epoll (a : addr) : M world Z :=
  d ← malloc (HData (Data SCHEDI_EPOLL_DATA_SOCKET a));
  match d with
  | None => undef
  | Some d =>
      sock_put (set_data_ptr (Some d)) a ≫= λ _,
      fd ← sock_get sk_fd a;
      schedi_epoll_add fd d (Z.lor (Z.lor EPOLLIN EPOLLOUT) EPOLLONESHOT)
  end.

Definition schedi_job_epollsocket_timer_push_epoll (a : addr) : M world Z :=
  fd ← sock_get sk_to_timer_fd a;
  if fd <? 0 then mret (-1)
  else
    d ← malloc (HData (Data SCHEDI_EPOLL_DATA_EPOLLSOCKTO a));
    match d with
    | None => undef
    | Some d =>
        r ← schedi_epoll_add fd d EPOLLIN;
        mret (if r <? 0 then -1 else 0)
    end.

(** The labels of [schedi_job_epollsocket_epollisize], last first. *)
Definition fail_epoll_push (a : addr) : M world Z :=
  when ext_timeout (fd ← sock_get sk_to_timer_fd a; schedi_epoll_del_read fd) ≫= λ _,
  mret (-1).
Definition fail_timeout_reset (a : addr) : M world Z :=
  fd ← sock_get sk_fd a; schedi_epoll_del fd ≫= λ _, fail_epoll_push a.

Definition schedi_job_epollsocket_epollisize (a : addr) : M world Z :=
  r ← (if ext_timeout then schedi_job_epollsocket_timeout_stop a else mret 0);
  if negb (r =? 0) then fail_epoll_push a
  else
    r ← (if ext_timeout then schedi_job_epollsocket_timer_push_epoll a else mret 0);
    if negb (r =? 0) then mret (-1)
    else
      r ← schedi_job_epollsocket_push_epoll a;
      if negb (r =? 0) then fail_epoll_push a
      else
        r ← (if ext_timeout then schedi_job_epollsocket_timeout_reset a else mret 0);
        if negb (r =? 0) then fail_timeout_reset a else mret 0.

Definition schedi_job_epollsocket_epollagain (a : addr) : M world Z :=
  if ext_timeout then
    r ← schedi_job_epollsocket_untimeout a;
    if negb (r =? 0) then mret (-1)
    else
      p ← sock_get sk_fall a;
      sock_put (set_fall (p + 1)) a ≫= λ _,
      r ← schedi_job_epollsocket_epollisize a;
      if negb (r =? 0) then schedi_job_epollsocket_done_ a true ≫= λ _, mret (-1)
      else mret 0
  else undef.

(** The socket [schedi_job_tool_epollsocket] fills in; its buffers hold what the memory
    held. *)
Definition new_socket (j : nat) (g fd rc wc : Z) (mem : list byte) : epollsocket :=
  Socket j g fd (initial_htc rc wc) 0 0 (take BUFFERSIZE mem) rc 0 0 (drop BUFFERSIZE mem) wc 2 None 0 0.

(** The label [fail] of [schedi_job_tool_epollsocket]. *)
Definition new_socket_fail (j : nat) (ready : bool) (a : addr) : M world (option addr) :=
  when ready (on_sys (schedi_job_meta_flag_cas_update j (-1) 0 0 0 0 false) ≫= λ _, mret ())
    ≫= λ _,
  free a ≫= λ _, mret None.

(** The last step of [schedi_job_tool_epollsocket], with the label [fail_epollisize]. *)
Definition new_socket_register (j : nat) (ready : bool) (timer : Z) (a : addr)
    : M world (option addr) :=
  r ← schedi_job_epollsocket_epollisize a;
  if negb (r =? 0) then
    when ext_timeout (call (sys_close timer) ≫= λ _, mret ()) ≫= λ _,
    new_socket_fail j ready a
  else mret (Some a).

Definition schedi_job_tool_epollsocket (j : nat) (socketfd read_cond write_cond timeout_sec : Z)
    : M world (option addr) :=
  g ← on_sys (job_get gen j);
  mem ← gets (λ w, fresh_bytes (w_kernel w));
  p ← malloc (HSocket (new_socket j g socketfd read_cond write_cond mem));
  match p with
  | None => undef
  | Some a =>
      let ready := has (initial_htc read_cond write_cond) SCHEDI_JOB_EPOLLSOCKET_READY in
      when ready (on_sys (schedi_job_meta_flag_cas_update j 1 0 0 0 0 false)
        ≫= λ _, mret ()) ≫= λ _,
      timer ← (if ext_timeout then call sys_timerfd_create else mret 0);
      when ext_timeout (sock_put (set_timer timeout_sec timer) a) ≫= λ _,
      if ext_timeout && (timer =? -1) then new_socket_fail j ready a
      else new_socket_register j ready timer a
  end.

Definition schedi_job_epollsocket_epoll_activator (a : addr) : M world unit :=
  fd ← sock_get sk_fd a;
  htc ← sock_get sk_htc a;
  when (negb (schedi_job_epollsocket_count_from htc =? SCHEDI_JOB_EPOLLSOCKET_BUFFERSIZE))
    (p ← sock_get sk_data_ptr a;
     schedi_epoll_mod fd p (Z.lor EPOLLIN EPOLLONESHOT) ≫= λ _, mret ()) ≫= λ _,
  when (negb (schedi_job_epollsocket_avail_from htc =? SCHEDI_JOB_EPOLLSOCKET_BUFFERSIZE))
    (p ← sock_get sk_data_ptr a;
     schedi_epoll_mod fd p (Z.lor EPOLLOUT EPOLLONESHOT) ≫= λ _, mret ()).

(** ** Moving bytes *)

Definition send (fd : Z) (bs : list byte) : M world send_outcome :=
  call (sys_send fd bs) ≫= λ o,
  match o with
  | Sent n => modify (add_io (SentBytes fd (take n bs)))
  | _ => mret ()
  end ≫= λ _, mret o.

Definition recv (fd : Z) (n : nat) : M world recv_outcome :=
  call (sys_recv fd n) ≫= λ o,
  match o with
  | Got bs => modify (add_io (ReceivedBytes fd bs))
  | _ => mret ()
  end ≫= λ _, mret o.

(** [memcpy]s to and from the buffers of a socket. *)
Definition write_buffer_in (a : addr) (off : nat) (bs : list byte) : M world unit :=
  buf ← sock_get sk_write_buffer a;
  match copy_in buf off bs with
  | Some buf' => sock_put (λ s, set_write (sk_write_head s) (sk_write_tail s) buf' s) a
  | None => undef
  end.
Definition read_buffer_in (a : addr) (off : nat) (bs : list byte) : M world unit :=
  buf ← sock_get sk_read_buffer a;
  match copy_in buf off bs with
  | Some buf' => sock_put (λ s, set_read (sk_read_head s) (sk_read_tail s) buf' s) a
  | None => undef
  end.
Definition buffer_out (field : epollsocket → list byte) (a : addr) (off n : nat)
    : M world (list byte) :=
  buf ← sock_get field a;
  match copy_out buf off n with Some bs => mret bs | None => undef end.

Definition store_write_head (x : Z) (a : addr) : M world unit :=
  sock_put (λ s, set_write x (sk_write_tail s) (sk_write_buffer s) s) a.
Definition store_write_tail (x : Z) (a : addr) : M world unit :=
  sock_put (λ s, set_write (sk_write_head s) x (sk_write_buffer s) s) a.
Definition store_read_head (x : Z) (a : addr) : M world unit :=
  sock_put (λ s, set_read x (sk_read_tail s) (sk_read_buffer s) s) a.
Definition store_read_tail (x : Z) (a : addr) : M world unit :=
  sock_put (λ s, set_read (sk_read_head s) x (sk_read_buffer s) s) a.

Definition schedi_job_epollsocket_write_buffer_data (a : addr) (data : list byte)
    : M world nat :=
  htc ← sock_get sk_htc a;
  let avail := Z.to_nat (schedi_job_epollsocket_avail_from htc) in
  head ← sock_get sk_write_head a;
  let head := Z.to_nat head in
  let write_size := Nat.min (length data) avail in
  let first_write := Nat.min write_size (BUFFERSIZE - head) in
  write_buffer_in a head (take first_write data) ≫= λ _,
  '(total, new_head) ←
    (if (BUFFERSIZE <=? head + write_size)%nat then
       let rest_write := (write_size - first_write)%nat in
       write_buffer_in a 0 (take rest_write (drop first_write data)) ≫= λ _,
       mret ((first_write + rest_write)%nat, rest_write)
     else mret (first_write, (head + first_write)%nat));
  store_write_head (Z.of_nat new_head) a ≫= λ _,
  schedi_job_epollsocket_avail_add a (- Z.of_nat total) false ≫= λ _,
  mret total.

(** The part of [schedi_job_epollsocket_write] after the direct [send]; [sent] bytes are
    gone and [data] is left. *)
Definition write_rest (a : addr) (sent : nat) (data : list byte) : M world Z :=
  if (0 <? length data)%nat then
    ret ← schedi_job_epollsocket_write_buffer_data a data;
    schedi_job_epollsocket_epoll_activator a ≫= λ _,
    mret (Z.of_nat (sent + ret))
  else mret (Z.of_nat sent).

Definition schedi_job_epollsocket_write (a : addr) (data : list byte) : M world Z :=
  htc ← sock_get sk_htc a;
  direct ←
    (if schedi_job_epollsocket_avail_from htc =? SCHEDI_JOB_EPOLLSOCKET_BUFFERSIZE then
       fd ← sock_get sk_fd a; send fd data
     else mret (Sent 0));
  match direct with
  | SendError => schedi_job_epollsocket_dead a ≫= λ _, mret (-1)
  | SendAgain => write_rest a 0 data
  | Sent n => write_rest a n (drop n data)
  end.

(** The copies of a read, and the tail after it. *)
Definition read_copy (a : addr) (tail read_size : nat) : M world (list byte * nat) :=
  if (BUFFERSIZE <=? read_size + tail)%nat then
    let fread := (BUFFERSIZE - tail)%nat in
    let rest_read := (read_size - fread)%nat in
    d1 ← buffer_out sk_read_buffer a tail fread;
    d2 ← buffer_out sk_read_buffer a 0 rest_read;
    mret (d1 ++ d2, rest_read)
  else
    d ← buffer_out sk_read_buffer a tail read_size;
    mret (d, (tail + read_size)%nat).

(** The bytes the caller gets; their number is what the function returns. *)
Definition schedi_job_epollsocket_read (a : addr) (n : nat) : M world (list byte) :=
  htc ← sock_get sk_htc a;
  let count := Z.to_nat (schedi_job_epollsocket_count_from htc) in
  tail ← sock_get sk_read_tail a;
  let tail := Z.to_nat tail in
  let read_size := Nat.min count n in
  '(data, tail) ← read_copy a tail read_size;
  schedi_job_epollsocket_count_add a (- Z.of_nat read_size) false ≫= λ _,
  store_read_tail (Z.of_nat tail) a ≫= λ _,
  when (count =? BUFFERSIZE)%nat (schedi_job_epollsocket_epoll_activator a) ≫= λ _,
  mret data.

Definition schedi_job_epollsocket_write_return (a : addr) : M world Z :=
  tail ← sock_get sk_write_tail a;
  let tail := Z.to_nat tail in
  htc ← sock_get sk_htc a;
  let sendable := (BUFFERSIZE - Z.to_nat (schedi_job_epollsocket_avail_from htc))%nat in
  if (sendable =? 0)%nat then mret 0
  else
    let first := Nat.min sendable (BUFFERSIZE - tail) in
    fd ← sock_get sk_fd a;
    bs ← buffer_out sk_write_buffer a tail first;
    sent ← send fd bs;
    match sent with
    | SendAgain => mret 0
    | SendError => schedi_job_epollsocket_dead a ≫= λ _, mret (-1)
    | Sent sent =>
        let tail := ((tail + sent) mod BUFFERSIZE)%nat in
        '(total, tail, dead) ←
          (if (sent =? first)%nat && (first <? sendable)%nat then
             let rest_write := (sendable - first)%nat in
             bs ← buffer_out sk_write_buffer a 0 rest_write;
             sent_rest ← send fd bs;
             mret match sent_rest with
                  | Sent O => (sent, tail, false)
                  | Sent m => ((sent + m)%nat, m, false)
                  | SendAgain => (sent, tail, false)
                  | SendError => (sent, tail, true)
                  end
           else mret (sent, tail, false));
        schedi_job_epollsocket_avail_add a (Z.of_nat total) dead ≫= λ _,
        store_write_tail (Z.of_nat tail) a ≫= λ _,
        mret (if dead : bool then -1 else Z.of_nat total)
    end.

Definition schedi_job_epollsocket_read_return (a : addr) : M world Z :=
  head ← sock_get sk_read_head a;
  let head := Z.to_nat head in
  htc ← sock_get sk_htc a;
  let free := (BUFFERSIZE - Z.to_nat (schedi_job_epollsocket_count_from htc))%nat in
  if (free =? 0)%nat then mret 0
  else
    let first := Nat.min free (BUFFERSIZE - head) in
    fd ← sock_get sk_fd a;
    got ← recv fd first;
    match got with
    | RecvAgain => mret 0
    | Got [] | RecvError => schedi_job_epollsocket_dead a ≫= λ _, mret (-1)
    | Got bs =>
        read_buffer_in a head bs ≫= λ _,
        let got := length bs in
        let head := ((head + got) mod BUFFERSIZE)%nat in
        '(total, head, dead) ←
          (if (got =? first)%nat && (first <? free)%nat then
             let rest_read := (free - first)%nat in
             got_rest ← recv fd rest_read;
             match got_rest with
             | Got [] => mret (got, head, true)
             | Got bs' =>
                 read_buffer_in a 0 bs' ≫= λ _,
                 mret ((got + length bs')%nat, length bs', false)
             | RecvAgain => mret (got, head, false)
             | RecvError => mret (got, head, true)
             end
           else mret (got, head, false));
        schedi_job_epollsocket_count_add a (Z.of_nat total) dead ≫= λ _,
        store_read_head (Z.of_nat head) a ≫= λ _,
        mret (if dead : bool then -1 else Z.of_nat total)
    end.

Definition schedi_job_epollsocket_return (a : addr) (events : Z) : M world Z :=
  dead ←
    (if has events (Z.lor EPOLLERR EPOLLHUP) && negb (has events (Z.lor EPOLLIN EPOLLOUT))
     then schedi_job_epollsocket_dead a ≫= λ _, mret true
     else if has events EPOLLIN then
       r ← schedi_job_epollsocket_read_return a; mret (r <? 0)
     else if has events EPOLLOUT then
       r ← schedi_job_epollsocket_write_return a; mret (r <? 0)
     else mret false);
  schedi_job_epollsocket_epoll_activator a ≫= λ _,
  mret (if dead : bool then -1 else 0).
End operations.
