(* ===== verification/SockStream.v ===== *)
(** * Epoll sockets: no byte is lost, repeated or reordered

    The invariant of a socket (buffers, positions and the packed counts agree), that
    every transfer returns without undefined behaviour and keeps it, and what each does
    to the two byte queues the rings implement: the bytes received and not yet read,
    and the bytes written and not yet sent. *)

From Stdlib Require Import Strings.Byte.
From S2P Require Export Sockets.

Local Open Scope Z_scope.

(** ** The invariant of a socket *)

Section queues.
Context `{BuildConfig}.

Definition sock_count (s : epollsocket) : nat :=
  Z.to_nat (schedi_job_epollsocket_count_from (sk_htc s)).
Definition sock_avail (s : epollsocket) : nat :=
  Z.to_nat (schedi_job_epollsocket_avail_from (sk_htc s)).

(** Received and not read; written and not sent. *)
Definition rqueue (s : epollsocket) : list byte :=
  content (sk_read_buffer s) (Z.to_nat (sk_read_tail s)) (sock_count s).
Definition wqueue (s : epollsocket) : list byte :=
  content (sk_write_buffer s) (Z.to_nat (sk_write_tail s)) (BUFFERSIZE - sock_avail s).

(** The two conditions' flags are up to date. *)
Definition flags_are (x : Z) (s : epollsocket) (count avail : nat) : Prop :=
  k_read_ready (sock_view_of x) = (sk_read_cond s <=? Z.of_nat count) ∧
  k_write_ready (sock_view_of x) = (sk_write_cond s <=? Z.of_nat avail).

Record sock_wf (s : epollsocket) : Prop := {
  wf_flags : flags_are (sk_htc s) s (sock_count s) (sock_avail s);
  wf_word : word64 (sk_htc s);
  wf_job : job_index (sk_job s);
  wf_rlen : length (sk_read_buffer s) = BUFFERSIZE;
  wf_wlen : length (sk_write_buffer s) = BUFFERSIZE;
  wf_rtail : 0 <= sk_read_tail s < 1024;
  wf_wtail : 0 <= sk_write_tail s < 1024;
  wf_count : (sock_count s <= BUFFERSIZE)%nat;
  wf_avail : (sock_avail s <= BUFFERSIZE)%nat;
  wf_rhead : sk_read_head s =
    Z.of_nat ((Z.to_nat (sk_read_tail s) + sock_count s) mod BUFFERSIZE);
  wf_whead : sk_write_head s =
    Z.of_nat ((Z.to_nat (sk_write_tail s) + (BUFFERSIZE - sock_avail s)) mod BUFFERSIZE);
}.

Lemma wf_read_flag s : sock_wf s →
  k_read_ready (sock_view_of (sk_htc s)) = (sk_read_cond s <=? Z.of_nat (sock_count s)).
Proof. intros Hs. apply (wf_flags _ Hs). Qed.
Lemma wf_write_flag s : sock_wf s →
  k_write_ready (sock_view_of (sk_htc s)) = (sk_write_cond s <=? Z.of_nat (sock_avail s)).
Proof. intros Hs. apply (wf_flags _ Hs). Qed.

Definition sock_timed_out (s : epollsocket) : bool := timed_out (sk_htc s).

Lemma length_rqueue s : sock_wf s → length (rqueue s) = sock_count s.
Proof. intros []. apply length_content; [done| |done]. unfold BUFFERSIZE. lia. Qed.
Lemma length_wqueue s : sock_wf s → length (wqueue s) = (BUFFERSIZE - sock_avail s)%nat.
Proof. intros []. apply length_content; [done| |lia]. unfold BUFFERSIZE. lia. Qed.

Lemma count_of_nat s : schedi_job_epollsocket_count_from (sk_htc s) = Z.of_nat (sock_count s).
Proof.
  unfold sock_count. rewrite Z2Nat.id; [done|]. rewrite count_from_field.
  apply field_get_range. unfold SCHEDI_JOB_EPOLLSOCKET_AVAIL_SHIFT. by destruct ext_timeout.
Qed.
Lemma avail_of_nat s : schedi_job_epollsocket_avail_from (sk_htc s) = Z.of_nat (sock_avail s).
Proof.
  unfold sock_avail. rewrite Z2Nat.id; [done|]. rewrite avail_from_field.
  apply field_get_range. unfold SCHEDI_JOB_EPOLLSOCKET_AVAIL_SHIFT. by destruct ext_timeout.
Qed.
End queues.

(** ** Running socket operations *)

Section running.
Context `{BuildConfig, JobAddress, KernelLaws}.

Definition sock_at (w : world) (a : addr) (s : epollsocket) : Prop :=
  w_heap w !! a = Some (HSocket s).
Definition with_sock (a : addr) (s : epollsocket) (w : world) : world :=
  put_heap (<[a := HSocket s]> (w_heap w)) w.

Lemma sock_at_with a s w : sock_at (with_sock a s w) a s.
Proof. apply lookup_insert_eq. Qed.
Lemma with_sock_twice a s1 s2 w : with_sock a s2 (with_sock a s1 w) = with_sock a s2 w.
Proof. unfold with_sock, put_heap. cbn. by rewrite insert_insert_eq. Qed.
Lemma set_htc_id s : set_htc (sk_htc s) s = s.
Proof. by destruct s. Qed.
Lemma with_sock_same a s w : sock_at w a s → with_sock a s w = w.
Proof. intros Hs. unfold with_sock. rewrite insert_id by done. by destruct w. Qed.

Lemma sock_get_run {A} (f : epollsocket → A) a s w :
  sock_at w a s → sock_get f a w = Done (f s) w.
Proof. unfold sock_at, sock_get, reads. by intros ->. Qed.
Lemma sock_put_run f a s w :
  sock_at w a s → sock_put f a w = Done () (with_sock a (f s) w).
Proof. unfold sock_at, sock_put, updates. by intros ->. Qed.

(** Everything a socket's operation may touch besides its socket: the scheduler keeps
    its invariant; heap, registrations and transferred bytes stay. *)
Record quiet (pend : list nat) (w w' : world) : Prop := {
  q_heap : w_heap w' = w_heap w;
  q_io : w_io w' = w_io w;
  q_rd : w_epfd_read w' = w_epfd_read w;
  q_wr : w_epfd_write w' = w_epfd_write w;
  q_watch : ∀ e f, watched w' e f = watched w e f;
  q_sys : sys_ok pend (w_sys w');
}.

Lemma quiet_refl pend w : sys_ok pend (w_sys w) → quiet pend w w.
Proof. done. Qed.
Lemma quiet_trans pend w1 w2 w3 : quiet pend w1 w2 → quiet pend w2 w3 → quiet pend w1 w3.
Proof. intros [] []. split; congruence. Qed.
Lemma quiet_sock pend w w' a s : quiet pend w w' → sock_at w a s → sock_at w' a s.
Proof. unfold sock_at. intros [-> _ _ _ _ _]. done. Qed.
Lemma quiet_kernel pend k w :
  sys_ok pend (w_sys w) → (∀ e f, interest k e f = watched w e f) →
  quiet pend w (put_kernel k w).
Proof. done. Qed.
Lemma quiet_put_sys pend s w : sys_ok pend s → quiet pend w (put_sys s w).
Proof. done. Qed.

Lemma call_run {A} (f : kernel → A * kernel) w :
  call f w = Done (f (w_kernel w)).1 (put_kernel (f (w_kernel w)).2 w).
Proof. unfold call. by destruct (f (w_kernel w)). Qed.

Lemma net_sys_run {A} (m : M sys A) w a s :
  m (w_sys w) = Done a s → on_sys m w = Done a (put_sys s w).
Proof. apply zoom_done. Qed.

(** A mark on a job, run from a socket. *)
Lemma on_sys_mark op m i pend w :
  mark_of op = Some m → sys_ok pend (w_sys w) → job_index i →
  ∃ r w', on_sys (m i) w = Done r w' ∧ quiet pend w w'.
Proof.
  intros Hm Hs Hi. destruct (base_job _ _ (ok_base _ _ Hs) Hi) as (j & Hj & Hw).
  destruct (mark_done op m i j _ Hm Hj Hw) as (r & w1 & Hrun & Hw1 & _).
  eexists r, _. split; [by apply net_sys_run|]. apply quiet_put_sys. by eapply with_job_ok.
Qed.

Lemma on_sys_update i d pend w :
  sys_ok pend (w_sys w) → job_index i →
  ∃ r w', on_sys (schedi_job_meta_flag_cas_update i d 0 0 0 0 false) w = Done r w' ∧
    quiet pend w w'.
Proof.
  intros Hs Hi. destruct (cas_update_ok pend i (w_sys w) d 0 0 false Hs Hi)
    as (r & s' & Hrun & Hs' & _).
  eexists r, _. split; [by apply net_sys_run|]. by apply quiet_put_sys.
Qed.

Lemma on_sys_gen i pend w :
  sys_ok pend (w_sys w) → job_index i →
  ∃ g, on_sys (job_get gen i) w = Done g w.
Proof.
  intros Hs Hi. destruct (base_job _ _ (ok_base _ _ Hs) Hi) as (j & Hj & Hw).
  exists (gen j). erewrite net_sys_run by by apply job_get_run. by destruct w.
Qed.

Lemma accessjob_quiet a s pend w :
  sock_at w a s → sys_ok pend (w_sys w) → job_index (sk_job s) →
  ∃ r w', schedi_job_epollsocket_accessjob a w = Done r w' ∧ quiet pend w w'.
Proof.
  intros Ha Hs Hi. unfold schedi_job_epollsocket_accessjob.
  bind_by (by apply sock_get_run).
  destruct (on_sys_mark OpMarkAccess _ (sk_job s) pend w eq_refl Hs Hi) as (r & w1 & Hrun & Hq).
  bind_by exact Hrun. destruct (r =? 0); [|by eauto].
  destruct (on_sys_gen (sk_job s) pend w1 (q_sys _ _ _ Hq) Hi) as [g Hg]. bind_by exact Hg.
  bind_by (by eapply sock_get_run, quiet_sock). destruct (g =? sk_gen s); [by eauto|].
  destruct (on_sys_mark OpUnmarkAccess _ (sk_job s) pend w1 eq_refl (q_sys _ _ _ Hq) Hi)
    as (r2 & w2 & Hrun2 & Hq2).
  bind_by exact Hrun2. eexists _, _. split; [done|]. by eapply quiet_trans.
Qed.

Lemma timeout_reset_quiet a s pend w :
  sock_at w a s → sys_ok pend (w_sys w) →
  ∃ r w', schedi_job_epollsocket_timeout_reset a w = Done r w' ∧ quiet pend w w'.
Proof.
  intros Ha Hs. unfold schedi_job_epollsocket_timeout_reset.
  do 2 bind_by (by apply sock_get_run). rewrite call_run. eexists _, _. split; [done|].
  apply quiet_kernel; [done|]. intros e f. apply law_settime.
Qed.

Lemma jobready_update_quiet a s old new pend w :
  sock_at w a s → sys_ok pend (w_sys w) → job_index (sk_job s) →
  ∃ w', schedi_job_epollsocket_jobready_update a old new w = Done () w' ∧ quiet pend w w'.
Proof.
  intros Ha Hs Hi. unfold schedi_job_epollsocket_jobready_update.
  assert (∃ w1, when ext_timeout (schedi_job_epollsocket_timeout_reset a ≫= λ _, mret ()) w
    = Done () w1 ∧ quiet pend w w1) as (w1 & Hrun1 & Hq1).
  { destruct ext_timeout; [|by eauto using quiet_refl].
    destruct (timeout_reset_quiet a s pend w Ha Hs) as (r & w1 & Hrun & Hq).
    exists w1. split; [|done]. cbn [when]. by bind_by exact Hrun. }
  bind_by exact Hrun1. destruct (Bool.eqb _ _); [by eauto|].
  pose proof (quiet_sock _ _ _ _ _ Hq1 Ha) as Ha1. pose proof (q_sys _ _ _ Hq1) as Hs1.
  destruct (accessjob_quiet a s pend w1 Ha1 Hs1 Hi) as (ok & w2 & Hrun2 & Hq2).
  bind_by exact Hrun2. destruct (negb ok); [by eauto using quiet_trans|].
  pose proof (quiet_sock _ _ _ _ _ Hq2 Ha1) as Ha2. pose proof (q_sys _ _ _ Hq2) as Hs2.
  bind_by (by apply sock_get_run).
  destruct (on_sys_update (sk_job s) (if has new SCHEDI_JOB_EPOLLSOCKET_READY then 1 else -1)
    pend w2 Hs2 Hi) as (r3 & w3 & Hrun3 & Hq3). bind_by exact Hrun3.
  destruct (on_sys_mark OpUnmarkAccess _ (sk_job s) pend w3 eq_refl (q_sys _ _ _ Hq3) Hi)
    as (r4 & w4 & Hrun4 & Hq4). bind_by exact Hrun4.
  eexists. split; [done|]. eauto 6 using quiet_trans.
Qed.

Lemma sock_cas_run {R} (body : Z → attempt Z R) a s w :
  sock_at w a s →
  sock_cas body a w = Done (rmw body (sk_htc s)).1
                        (with_sock a (set_htc (rmw body (sk_htc s)).2 s) w).
Proof.
  intros Ha. unfold sock_cas. bind_by (by apply sock_get_run).
  destruct (rmw body (sk_htc s)) as [r x]. by bind_by (by apply sock_put_run).
Qed.

(** A loop on the word, with its readiness update. *)
Lemma cas_then_update_quiet op a s pend w :
  sock_at w a s → sys_ok pend (w_sys w) → word64 (sk_htc s) → job_index (sk_job s) →
  in_build op = true → sock_in_range op (sock_view_of (sk_htc s)) →
  ∃ b w', cas_then_update (sock_body op) a w = Done b w' ∧
    b = sock_guard op (sock_view_of (sk_htc s)) ∧
    let s' := set_htc (rmw (sock_body op) (sk_htc s)).2 s in
    quiet pend (with_sock a s' w) w'.
Proof.
  intros Ha Hs Hw Hi Hb Hr. destruct (sock_op_refines_core op _ Hb Hw Hr) as [_ Ho].
  unfold cas_then_update. bind_by (by apply sock_cas_run).
  destruct (rmw (sock_body op) (sk_htc s)) as [r x].
  cbn [fst snd] in *. destruct (sock_guard _ _).
  - destruct Ho as [-> _].
    destruct (jobready_update_quiet a (set_htc x s) (sk_htc s) x pend
      (with_sock a (set_htc x s) w)) as (w' & Hrun' & Hq);
      [apply sock_at_with|done|done|].
    bind_by exact Hrun'. by eauto.
  - simplify_eq. eexists _, _. split; [done|]. split; [done|]. by apply quiet_refl.
Qed.

(** What a loop on the counts leaves: the two counts, and the flags that stay. *)
Definition counts_are (x : Z) (s : epollsocket) (count avail : nat) : Prop :=
  word64 x ∧ schedi_job_epollsocket_count_from x = Z.of_nat count ∧
  schedi_job_epollsocket_avail_from x = Z.of_nat avail ∧ timed_out x = false ∧
  flags_are x s count avail.

Lemma counts_are_view x s c v k :
  word64 x → sock_view_of x = k → k_count k = Z.of_nat c → k_avail k = Z.of_nat v →
  k_timeout k = false → k_read_ready k = (sk_read_cond s <=? Z.of_nat c) →
  k_write_ready k = (sk_write_cond s <=? Z.of_nat v) → counts_are x s c v.
Proof.
  intros Hx <- Hc Hv Ht Hr Hw. unfold counts_are. rewrite <-k_count_of, <-k_avail_of.
  rewrite timed_out_of. done.
Qed.

Lemma count_add_quiet a s delta dead n pend w :
  sock_at w a s → sys_ok pend (w_sys w) → word64 (sk_htc s) → job_index (sk_job s) →
  k_write_ready (sock_view_of (sk_htc s)) = (sk_write_cond s <=? Z.of_nat (sock_avail s)) →
  sock_timed_out s = false → Z.of_nat (sock_count s) + delta = Z.of_nat n →
  (n <= BUFFERSIZE)%nat →
  ∃ x w', schedi_job_epollsocket_count_add a delta dead w = Done () w' ∧
    counts_are x s n (sock_avail s) ∧ quiet pend (with_sock a (set_htc x s) w) w'.
Proof.
  intros Ha Hs Hw Hi Hf Hto Hn Hle. unfold schedi_job_epollsocket_count_add.
  bind_by (by apply sock_get_run). set (op := SCount (sk_read_cond s) delta dead).
  assert (sock_in_range op (sock_view_of (sk_htc s))) as Hr.
  { cbn [sock_in_range op]. rewrite k_count_of, count_of_nat, Hn, <-BUFFERSIZE_Z. lia. }
  destruct (cas_then_update_quiet op a s pend w Ha Hs Hw Hi eq_refl Hr)
    as (b & w' & Hrun & _ & Hq).
  bind_by exact Hrun. eexists _, _. split; [done|]. split; [|exact Hq].
  destruct (sock_op_refines_core op (sk_htc s) eq_refl Hw Hr) as [Hx Ho].
  unfold sock_timed_out in Hto. rewrite timed_out_of in Hto.
  cbn [sock_guard op] in Ho. rewrite Hto in Ho. cbn [negb] in Ho. destruct Ho as [_ Hv].
  apply (counts_are_view _ _ _ _ _ Hx Hv); cbn.
  - by rewrite <-Hn, <-count_of_nat, <-k_count_of.
  - by rewrite <-avail_of_nat, <-k_avail_of.
  - done.
  - by rewrite <-Hn, <-count_of_nat, <-k_count_of.
  - done.
Qed.

Lemma avail_add_quiet a s delta dead n pend w :
  sock_at w a s → sys_ok pend (w_sys w) → word64 (sk_htc s) → job_index (sk_job s) →
  k_read_ready (sock_view_of (sk_htc s)) = (sk_read_cond s <=? Z.of_nat (sock_count s)) →
  sock_timed_out s = false → Z.of_nat (sock_avail s) + delta = Z.of_nat n →
  (n <= BUFFERSIZE)%nat →
  ∃ x w', schedi_job_epollsocket_avail_add a delta dead w = Done () w' ∧
    counts_are x s (sock_count s) n ∧ quiet pend (with_sock a (set_htc x s) w) w'.
Proof.
  intros Ha Hs Hw Hi Hf Hto Hn Hle. unfold schedi_job_epollsocket_avail_add.
  bind_by (by apply sock_get_run). set (op := SAvail (sk_write_cond s) delta dead).
  assert (sock_in_range op (sock_view_of (sk_htc s))) as Hr.
  { cbn [sock_in_range op]. rewrite k_avail_of, avail_of_nat, Hn, <-BUFFERSIZE_Z. lia. }
  destruct (cas_then_update_quiet op a s pend w Ha Hs Hw Hi eq_refl Hr)
    as (b & w' & Hrun & _ & Hq).
  bind_by exact Hrun. eexists _, _. split; [done|]. split; [|exact Hq].
  destruct (sock_op_refines_core op (sk_htc s) eq_refl Hw Hr) as [Hx Ho].
  unfold sock_timed_out in Hto. rewrite timed_out_of in Hto.
  cbn [sock_guard op] in Ho. rewrite Hto in Ho. cbn [negb] in Ho. destruct Ho as [_ Hv].
  apply (counts_are_view _ _ _ _ _ Hx Hv); cbn.
  - by rewrite <-count_of_nat, <-k_count_of.
  - by rewrite <-Hn, <-avail_of_nat, <-k_avail_of.
  - done.
  - done.
  - by rewrite <-Hn, <-avail_of_nat, <-k_avail_of.
Qed.

Lemma dead_quiet a s pend w :
  sock_at w a s → sys_ok pend (w_sys w) → word64 (sk_htc s) → job_index (sk_job s) →
  flags_are (sk_htc s) s (sock_count s) (sock_avail s) → sock_timed_out s = false →
  ∃ x w', schedi_job_epollsocket_dead a w = Done () w' ∧
    counts_are x s (sock_count s) (sock_avail s) ∧ k_dead (sock_view_of x) = true ∧
    quiet pend (with_sock a (set_htc x s) w) w'.
Proof.
  intros Ha Hs Hw Hi [Hf1 Hf2] Hto. unfold schedi_job_epollsocket_dead.
  destruct (cas_then_update_quiet SDead a s pend w Ha Hs Hw Hi eq_refl I)
    as (b & w' & Hrun & _ & Hq).
  bind_by exact Hrun. eexists _, _. split; [done|].
  destruct (sock_op_refines_core SDead (sk_htc s) eq_refl Hw I) as [Hx [_ Hv]].
  split; [|split; [by rewrite Hv|exact Hq]].
  unfold sock_timed_out in Hto. rewrite timed_out_of in Hto.
  apply (counts_are_view _ _ _ _ _ Hx Hv); cbn; [| |done..].
  - by rewrite <-count_of_nat, <-k_count_of.
  - by rewrite <-avail_of_nat, <-k_avail_of.
Qed.
End running.

(** ** What a transfer leaves *)

Section transfers.
Context `{BuildConfig, JobAddress, KernelLaws}.

(** Everything of a socket but its word, its positions and its buffers. *)
Definition identity_of (s : epollsocket) :=
  (sk_job s, sk_gen s, sk_fd s, sk_read_cond s, sk_write_cond s, sk_fall s, sk_data_ptr s,
   (sk_timeout_sec s, sk_to_timer_fd s)).

(** Only the socket's own registrations may have been renewed, with its data pointer. *)
Definition rewatched (s : epollsocket) (w w' : world) : Prop := ∀ e f,
  watched w' e f = watched w e f ∨
  f = sk_fd s ∧ is_Some (watched w e f) ∧ ∃ ev, watched w' e f = Some (ev, sk_data_ptr s).

Lemma rewatched_refl s w w' :
  (∀ e f, watched w' e f = watched w e f) → rewatched s w w'.
Proof. intros Hw e f. by left. Qed.

Lemma rewatched_trans s w1 w2 w3 : rewatched s w1 w2 → rewatched s w2 w3 → rewatched s w1 w3.
Proof.
  intros Hw1 Hw2 e f. destruct (Hw2 e f) as [->|(Hf & Hs & Hev)]; [apply Hw1|]. right.
  split; [done|]. split; [|done]. destruct (Hw1 e f) as [<-|(_ & Hs1 & _)]; done.
Qed.

Lemma rewatched_same s s' w w' :
  identity_of s' = identity_of s → rewatched s' w w' → rewatched s w w'.
Proof. unfold rewatched. intros [= _ _ -> _ _ _ -> _ _]. done. Qed.

(** A call on the socket [a] left [s'] there, moved [io] across the border and changed
    no other object; the scheduler and the socket are consistent. *)
Record after (pend : list nat) (a : addr) (s s' : epollsocket) (io : list io_event)
    (w w' : world) : Prop := {
  af_heap : w_heap w' = <[a := HSocket s']> (w_heap w);
  af_io : w_io w' = w_io w ++ io;
  af_rd : w_epfd_read w' = w_epfd_read w;
  af_wr : w_epfd_write w' = w_epfd_write w;
  af_watch : rewatched s w w';
  af_sys : sys_ok pend (w_sys w');
  af_same : identity_of s' = identity_of s;
  af_wf : sock_wf s';
  af_live : sock_timed_out s' = false;
}.

(** A socket a transfer can run on. *)
Record usable (pend : list nat) (a : addr) (s : epollsocket) (w : world) : Prop := {
  us_at : sock_at w a s;
  us_sys : sys_ok pend (w_sys w);
  us_wf : sock_wf s;
  us_live : sock_timed_out s = false;
}.

Lemma after_usable pend a s s' io w w' : after pend a s s' io w w' → usable pend a s' w'.
Proof. intros []. split; [|done..]. unfold sock_at. rewrite af_heap0. apply lookup_insert_eq. Qed.

Lemma after_refl pend a s w : usable pend a s w → after pend a s s [] w w.
Proof.
  intros []. split; try done;
    [by rewrite insert_id|by rewrite app_nil_r|by apply rewatched_refl].
Qed.

Lemma after_trans pend a s1 s2 s3 io1 io2 w1 w2 w3 :
  after pend a s1 s2 io1 w1 w2 → after pend a s2 s3 io2 w2 w3 →
  after pend a s1 s3 (io1 ++ io2) w1 w3.
Proof.
  intros [] []. split; try congruence.
  - rewrite af_heap1, af_heap0. apply insert_insert_eq.
  - by rewrite af_io1, af_io0, app_assoc.
  - by eapply rewatched_trans, rewatched_same.
Qed.

(** The last loop of a transfer restores the invariant. *)
Lemma quiet_after pend a s s' w w0 w' :
  w0 = with_sock a s' w → quiet pend w0 w' →
  identity_of s' = identity_of s → sock_wf s' → sock_timed_out s' = false →
  after pend a s s' [] w w'.
Proof.
  intros -> [] Hid Hwf Hto. split; try done; [by rewrite q_io0, app_nil_r|].
  by apply rewatched_refl.
Qed.

Lemma write_buffer_in_run a s w off bs buf' :
  sock_at w a s → copy_in (sk_write_buffer s) off bs = Some buf' →
  write_buffer_in a off bs w =
    Done () (with_sock a (set_write (sk_write_head s) (sk_write_tail s) buf' s) w).
Proof.
  intros Ha Hc. unfold write_buffer_in. bind_by (by apply sock_get_run). rewrite Hc.
  by erewrite sock_put_run.
Qed.
Lemma read_buffer_in_run a s w off bs buf' :
  sock_at w a s → copy_in (sk_read_buffer s) off bs = Some buf' →
  read_buffer_in a off bs w =
    Done () (with_sock a (set_read (sk_read_head s) (sk_read_tail s) buf' s) w).
Proof.
  intros Ha Hc. unfold read_buffer_in. bind_by (by apply sock_get_run). rewrite Hc.
  by erewrite sock_put_run.
Qed.
Lemma buffer_out_run field a s w off n bs :
  sock_at w a s → copy_out (field s) off n = Some bs →
  buffer_out field a off n w = Done bs w.
Proof.
  intros Ha Hc. unfold buffer_out. bind_by (by apply sock_get_run). by rewrite Hc.
Qed.

(** The positions of a well-formed socket as naturals. *)
Lemma wf_read_head s : sock_wf s →
  Z.to_nat (sk_read_head s) = ((Z.to_nat (sk_read_tail s) + sock_count s) mod BUFFERSIZE)%nat.
Proof. intros Hs. by rewrite (wf_rhead _ Hs), Nat2Z.id. Qed.
Lemma wf_write_head s : sock_wf s →
  Z.to_nat (sk_write_head s) =
    ((Z.to_nat (sk_write_tail s) + (BUFFERSIZE - sock_avail s)) mod BUFFERSIZE)%nat.
Proof. intros Hs. by rewrite (wf_whead _ Hs), Nat2Z.id. Qed.
Lemma wf_read_tail s : sock_wf s → (Z.to_nat (sk_read_tail s) < BUFFERSIZE)%nat.
Proof. intros []. unfold BUFFERSIZE. lia. Qed.
Lemma wf_write_tail s : sock_wf s → (Z.to_nat (sk_write_tail s) < BUFFERSIZE)%nat.
Proof. intros []. unfold BUFFERSIZE. lia. Qed.

Lemma wrapped_range i : 0 <= Z.of_nat (i mod BUFFERSIZE) < 1024.
Proof. pose proof (Nat.mod_upper_bound i BUFFERSIZE ltac:(done)). unfold BUFFERSIZE in *. lia. Qed.

(** A socket with new bytes at the end of its write ring. *)
Lemma wf_written s x buf' bs :
  sock_wf s → length buf' = BUFFERSIZE → (length bs <= sock_avail s)%nat →
  let tail := Z.to_nat (sk_write_tail s) in
  let used := (BUFFERSIZE - sock_avail s)%nat in
  content buf' tail (used + length bs) = wqueue s ++ bs →
  counts_are x s (sock_count s) (sock_avail s - length bs) →
  let s' := set_htc x (set_write (Z.of_nat ((tail + (used + length bs)) mod BUFFERSIZE))
              (sk_write_tail s) buf' s) in
  sock_wf s' ∧ sock_timed_out s' = false ∧ rqueue s' = rqueue s ∧ wqueue s' = wqueue s ++ bs.
Proof.
  intros Hwf Hl Hle tail used Hc (Hx & Ec & Ea & Hto & Hfl) s'. pose proof (wf_avail _ Hwf) as Hav.
  assert (sock_count s' = sock_count s) as Ec'.
  { unfold sock_count at 1. cbn [s' sk_htc set_htc]. by rewrite Ec, Nat2Z.id. }
  assert (sock_avail s' = sock_avail s - length bs)%nat as Ea'.
  { unfold sock_avail at 1. cbn [s' sk_htc set_htc]. by rewrite Ea, Nat2Z.id. }
  assert (BUFFERSIZE - sock_avail s' = used + length bs)%nat as Eu by (unfold used; lia).
  split; [|split; [done|split]].
  - destruct Hwf. split; unfold flags_are in *; rewrite ?Ec', ?Eu, ?Ea'; try done; lia.
  - unfold rqueue. by rewrite Ec'.
  - unfold wqueue. by rewrite Eu.
Qed.

(** The end of [write_buffer_data]: [bs] are in the buffer. *)
Lemma write_buffer_end pend a s buf' bs w :
  usable pend a s w → length buf' = BUFFERSIZE → (length bs <= sock_avail s)%nat →
  let tail := Z.to_nat (sk_write_tail s) in
  let used := (BUFFERSIZE - sock_avail s)%nat in
  content buf' tail (used + length bs) = wqueue s ++ bs →
  ∃ s' w', (store_write_head (Z.of_nat ((tail + (used + length bs)) mod BUFFERSIZE)) a ≫= λ _,
      schedi_job_epollsocket_avail_add a (- Z.of_nat (length bs)) false ≫= λ _, mret (length bs))
      (with_sock a (set_write (sk_write_head s) (sk_write_tail s) buf' s) w) = Done (length bs) w' ∧
    after pend a s s' [] w w' ∧ rqueue s' = rqueue s ∧ wqueue s' = wqueue s ++ bs.
Proof.
  intros [Ha Hs Hwf Hto] Hl Hle tail used Hq. pose proof (wf_avail _ Hwf) as Hav.
  bind_by (by eapply sock_put_run, sock_at_with). rewrite with_sock_twice.
  cbn [sk_write_tail sk_write_buffer set_write]. set (s2 := set_write _ _ _ (set_write _ _ _ s)).
  destruct (avail_add_quiet a s2 (- Z.of_nat (length bs)) false (sock_avail s - length bs) pend
    (with_sock a s2 w)) as (x & w' & Hrun & Hcnt & Hqt);
    [apply sock_at_with|done|apply Hwf|apply Hwf|by apply (wf_read_flag s)|done|
     change (sock_avail s2) with (sock_avail s); lia|lia|].
  bind_by exact Hrun. rewrite with_sock_twice in Hqt.
  destruct (wf_written s x buf' bs) as (Hwf' & Hto' & Hr' & Hw'); [done..|].
  eexists _, _. split; [done|]. split; [|done]. eapply quiet_after; done.
Qed.

Lemma write_buffer_data_done pend a s data w :
  usable pend a s w →
  ∃ n s' w', schedi_job_epollsocket_write_buffer_data a data w = Done n w' ∧
    after pend a s s' [] w w' ∧ n = Nat.min (length data) (sock_avail s) ∧
    rqueue s' = rqueue s ∧ wqueue s' = wqueue s ++ take n data.
Proof.
  intros Hu. pose proof Hu as [Ha Hs Hwf Hto]. unfold schedi_job_epollsocket_write_buffer_data.
  do 2 bind_by (by apply sock_get_run). fold (sock_avail s). rewrite wf_write_head by done.
  set (tail := Z.to_nat (sk_write_tail s)). set (used := (BUFFERSIZE - sock_avail s)%nat).
  pose proof (wf_write_tail _ Hwf) as Htail. pose proof (wf_avail _ Hwf) as Hav.
  pose proof (Nat.mod_upper_bound (tail + used) BUFFERSIZE ltac:(done)) as Hh.
  set (head := ((tail + used) mod BUFFERSIZE)%nat) in *.
  set (ws := Nat.min (length data) (sock_avail s)).
  set (fw := Nat.min ws (BUFFERSIZE - head)).
  destruct (ring_piece (sk_write_buffer s) tail used (wf_wlen _ Hwf) Htail ltac:(lia)
    (take fw data)) as (b1 & Hc1 & Hl1 & Hq1); [rewrite length_take; lia..|].
  rewrite length_take, (Nat.min_l fw) in Hq1 by lia.
  bind_by (by eapply write_buffer_in_run).
  set (s1 := set_write (sk_write_head s) (sk_write_tail s) b1 s).
  assert (length (take ws data) = ws) as Hlen by (rewrite length_take; lia).
  destruct (Nat.leb_spec BUFFERSIZE (head + ws)) as [Hwrap|Hflat].
  - assert (fw = BUFFERSIZE - head)%nat as Efw by lia.
    pose proof (head_after_piece tail used fw ltac:(fold head; lia)) as Eh. fold head in Eh.
    rewrite decide_True in Eh by lia.
    destruct (ring_piece b1 tail (used + fw) Hl1 Htail ltac:(lia)
      (take (ws - fw) (drop fw data))) as (b2 & Hc2 & Hl2 & Hq2);
      [rewrite length_take, length_drop; lia..|].
    rewrite Eh in Hc2. rewrite length_take, length_drop, Nat.min_l in Hq2 by lia.
    bind_by (bind_by (by eapply write_buffer_in_run; [apply sock_at_with|]); done).
    rewrite with_sock_twice. cbn [sk_write_head sk_write_tail set_write].
    assert (content b2 tail (used + length (take ws data)) = wqueue s ++ take ws data) as Hend.
    { rewrite Hlen. replace (used + ws)%nat with (used + fw + (ws - fw))%nat by lia.
      rewrite Hq2, Hq1, <-app_assoc. f_equal.
      rewrite <-(take_drop fw (take ws data)), take_take, skipn_firstn_comm.
      f_equal. f_equal. lia. }
    destruct (write_buffer_end pend a s b2 (take ws data) w Hu Hl2 ltac:(lia) Hend)
      as (s' & w' & Hrun & Hpost). fold tail used in Hrun.
    rewrite Hlen in Hrun. exists ws, s', w'. split; [|tauto].
    replace (fw + (ws - fw))%nat with ws by lia.
    assert ((tail + (used + ws)) mod BUFFERSIZE = ws - fw)%nat as <-; [|done].
    replace (used + ws)%nat with (used + fw + (ws - fw))%nat by lia.
    rewrite <-mod_add_step, Eh. apply wrap_small. lia.
  - assert (fw = ws) as Efw by lia. rewrite Efw in Hq1 |- *. bind_by done.
    rewrite <-Hlen in Hq1 at 1.
    destruct (write_buffer_end pend a s b1 (take ws data) w Hu Hl1 ltac:(lia) Hq1)
      as (s' & w' & Hrun & Hpost). fold tail used in Hrun. rewrite Hlen in Hrun.
    exists ws, s', w'. split; [|tauto].
    assert ((tail + (used + ws)) mod BUFFERSIZE = head + ws)%nat as Eh.
    { rewrite <-mod_add_step. apply wrap_small. fold head. lia. }
    rewrite Eh in Hrun. exact Hrun.
Qed.

(** ** System calls *)

(** Bytes may have crossed the border; nothing else that matters here changed. *)
Record border (s : epollsocket) (io : list io_event) (w w' : world) : Prop := {
  bo_heap : w_heap w' = w_heap w;
  bo_io : w_io w' = w_io w ++ io;
  bo_rd : w_epfd_read w' = w_epfd_read w;
  bo_wr : w_epfd_write w' = w_epfd_write w;
  bo_watch : rewatched s w w';
  bo_sys : w_sys w' = w_sys w;
}.

Lemma border_usable pend io a s w w' : border s io w w' → usable pend a s w → usable pend a s w'.
Proof.
  intros [] []. split; try done; [|by rewrite bo_sys0]. unfold sock_at in *.
  by rewrite bo_heap0.
Qed.

Lemma border_after pend io1 io2 a s s' w w1 w' :
  border s io1 w w1 → after pend a s s' io2 w1 w' → after pend a s s' (io1 ++ io2) w w'.
Proof.
  intros [] []. split; try congruence; [by rewrite af_io0, bo_io0, app_assoc|].
  by eapply rewatched_trans.
Qed.

Lemma after_border pend io1 io2 a s s' w w1 w' :
  after pend a s s' io1 w w1 → border s' io2 w1 w' → after pend a s s' (io1 ++ io2) w w'.
Proof.
  intros [] []. split; try congruence; [by rewrite bo_io0, af_io0, app_assoc|].
  by eapply rewatched_trans, rewatched_same.
Qed.

Definition io_of_send (fd : Z) (bs : list byte) (o : send_outcome) : list io_event :=
  match o with Sent n => [SentBytes fd (take n bs)] | _ => [] end.
Definition io_of_recv (fd : Z) (o : recv_outcome) : list io_event :=
  match o with Got bs => [ReceivedBytes fd bs] | _ => [] end.

Lemma send_done s fd bs w :
  ∃ o w', send fd bs w = Done o w' ∧ border s (io_of_send fd bs o) w w' ∧
    ∀ n, o = Sent n → (n <= length bs)%nat.
Proof.
  unfold send. rewrite (bind_done _ _ _ _ _ (call_run _ _)).
  pose proof (law_send_watch fd bs (w_kernel w)) as Hk.
  destruct (sys_send fd bs (w_kernel w)) as [o k] eqn:E. cbn [fst snd] in *. exists o.
  destruct o as [n| |]; cbn; eexists; (split; [done|]);
    (split; [by split; rewrite ?app_nil_r; try apply rewatched_refl|]); [|done..].
  intros m [= <-]. by eapply law_send.
Qed.

Lemma recv_done s fd n w :
  ∃ o w', recv fd n w = Done o w' ∧ border s (io_of_recv fd o) w w' ∧
    ∀ bs, o = Got bs → (length bs <= n)%nat.
Proof.
  unfold recv. rewrite (bind_done _ _ _ _ _ (call_run _ _)).
  pose proof (law_recv_watch fd n (w_kernel w)) as Hk.
  destruct (sys_recv fd n (w_kernel w)) as [o k] eqn:E. cbn [fst snd] in *. exists o.
  destruct o as [bs| |]; cbn; eexists; (split; [done|]);
    (split; [by split; rewrite ?app_nil_r; try apply rewatched_refl|]); [|done..].
  intros m [= <-]. by eapply law_recv.
Qed.

Lemma border_refl s w : border s [] w w.
Proof. split; try done; [by rewrite app_nil_r|by apply rewatched_refl]. Qed.
Lemma border_trans s io1 io2 w1 w2 w3 :
  border s io1 w1 w2 → border s io2 w2 w3 → border s (io1 ++ io2) w1 w3.
Proof.
  intros [] []. split; try congruence; [by rewrite bo_io1, bo_io0, app_assoc|].
  by eapply rewatched_trans.
Qed.

(** Renewing a registration of the socket in one instance. *)
Lemma mod_half_border s (b : bool) e ev w :
  ∃ r w', (if b then epoll_ctl e EPOLL_CTL_MOD (sk_fd s) ev (sk_data_ptr s) else mret 0) w =
    Done r w' ∧ border s [] w w'.
Proof.
  destruct b; [|by eauto using border_refl].
  destruct (epoll_ctl_done e EPOLL_CTL_MOD (sk_fd s) ev (sk_data_ptr s) w)
    as (r & w' & Hrun & Hk & Hr).
  exists r, w'. split; [done|]. unfold kernel_step in Hk.
  split; rewrite ?app_nil_r; try by rewrite Hk. intros e' f.
  destruct Hr as [(_ & _ & Hs & Hi)|(_ & _ & Hi)]; rewrite Hi; [|by left].
  case_decide as Hd; [|by left]. destruct Hd as [-> ->]. right. cbn. eauto.
Qed.

Lemma epoll_mod_border s ev w :
  ∃ r w', schedi_epoll_mod (sk_fd s) (sk_data_ptr s) ev w = Done r w' ∧ border s [] w w'.
Proof.
  unfold schedi_epoll_mod. bind_by done. bind_by done.
  destruct (mod_half_border s (has ev EPOLLIN) (w_epfd_read w) (Z.land ev (Z.lnot EPOLLOUT)) w)
    as (r1 & w1 & Hr1 & Hb1). bind_by exact Hr1.
  destruct (mod_half_border s (has ev EPOLLOUT) (w_epfd_write w) (Z.land ev (Z.lnot EPOLLIN)) w1)
    as (r2 & w2 & Hr2 & Hb2). bind_by exact Hr2.
  eexists _, _. split; [done|]. by apply (border_trans s [] [] w w1 w2).
Qed.

Lemma activator_border a s w :
  sock_at w a s →
  ∃ w', schedi_job_epollsocket_epoll_activator a w = Done () w' ∧ border s [] w w'.
Proof.
  intros Ha. unfold schedi_job_epollsocket_epoll_activator.
  do 2 bind_by (by apply sock_get_run).
  assert (∀ b ev w, sock_at w a s → ∃ w',
    when b (p ← sock_get sk_data_ptr a; schedi_epoll_mod (sk_fd s) p ev ≫= λ _, mret ()) w =
      Done () w' ∧ border s [] w w') as Hone.
  { intros b ev w0 Ha0. destruct b; cbn [when]; [|by eauto using border_refl].
    bind_by (by apply sock_get_run).
    destruct (epoll_mod_border s ev w0) as (r & w1 & Hr & Hb).
    bind_by exact Hr. eauto. }
  edestruct Hone as (w1 & Hr1 & Hb1); [exact Ha|]. bind_by exact Hr1.
  edestruct Hone as (w2 & Hr2 & Hb2); [|rewrite Hr2].
  { unfold sock_at in *. by rewrite (bo_heap _ _ _ _ Hb1). }
  eexists. split; [done|]. by apply (border_trans s [] [] w w1 w2).
Qed.

Lemma when_activator (b : bool) a s w :
  sock_at w a s →
  ∃ w', when b (schedi_job_epollsocket_epoll_activator a) w = Done () w' ∧ border s [] w w'.
Proof.
  intros Ha. destruct b; [by eapply activator_border|]. by eauto using border_refl.
Qed.

(** The bytes of a history that were sent, and those received. *)
Definition sent_bytes (io : list io_event) : list byte :=
  concat (map (λ e, match e with SentBytes _ bs => bs | _ => [] end) io).
Definition received_bytes (io : list io_event) : list byte :=
  concat (map (λ e, match e with ReceivedBytes _ bs => bs | _ => [] end) io).

Lemma sent_bytes_app io1 io2 : sent_bytes (io1 ++ io2) = sent_bytes io1 ++ sent_bytes io2.
Proof. unfold sent_bytes. by rewrite map_app, concat_app. Qed.
Lemma received_bytes_app io1 io2 :
  received_bytes (io1 ++ io2) = received_bytes io1 ++ received_bytes io2.
Proof. unfold received_bytes. by rewrite map_app, concat_app. Qed.
Lemma sent_of_recv fd o : sent_bytes (io_of_recv fd o) = [].
Proof. by destruct o. Qed.
Lemma received_of_send fd bs o : received_bytes (io_of_send fd bs o) = [].
Proof. by destruct o. Qed.

(** ** The job's calls *)

Lemma dead_done pend a s w :
  usable pend a s w →
  ∃ s' w', schedi_job_epollsocket_dead a w = Done () w' ∧ after pend a s s' [] w w' ∧
    rqueue s' = rqueue s ∧ wqueue s' = wqueue s ∧ k_dead (sock_view_of (sk_htc s')) = true.
Proof.
  intros [Ha Hs Hwf Hto].
  destruct (dead_quiet a s pend w Ha Hs (wf_word _ Hwf) (wf_job _ Hwf)
    (wf_flags _ Hwf) Hto)
    as (x & w' & Hrun & (Hx & Ec & Ea & Hto' & Hfl) & Hd & Hq).
  set (s' := set_htc x s) in *.
  assert (sock_count s' = sock_count s) as Ec'.
  { unfold sock_count at 1. cbn [s' sk_htc set_htc]. by rewrite Ec, Nat2Z.id. }
  assert (sock_avail s' = sock_avail s) as Ea'.
  { unfold sock_avail at 1. cbn [s' sk_htc set_htc]. by rewrite Ea, Nat2Z.id. }
  exists s', w'. split; [done|]. split.
  - eapply quiet_after; [done|done|done| |done].
    destruct Hwf. split; unfold flags_are in *; rewrite ?Ec', ?Ea'; done.
  - unfold rqueue, wqueue. by rewrite Ec', Ea'.
Qed.

(** After a direct transfer of [n] bytes. *)
Lemma write_rest_done pend a s n data w :
  usable pend a s w → (n <= length data)%nat →
  let k := (n + Nat.min (length data - n) (sock_avail s))%nat in
  ∃ s' w', write_rest a n (drop n data) w = Done (Z.of_nat k) w' ∧ after pend a s s' [] w w' ∧
    wqueue s' = wqueue s ++ drop n (take k data) ∧ rqueue s' = rqueue s.
Proof.
  intros Hu Hn k. unfold write_rest. rewrite length_drop.
  destruct (Nat.ltb_spec 0 (length data - n)) as [Hlt|Hge].
  - destruct (write_buffer_data_done pend a s (drop n data) w Hu)
      as (m & s' & w2 & Hrun2 & Haf & Hm & Hr & Hw).
    bind_by exact Hrun2.
    destruct (activator_border a s' w2) as (w3 & Hrun3 & Hb3);
      [by eapply us_at, after_usable|].
    bind_by exact Hrun3. rewrite length_drop in Hm. eexists s', _.
    split; [unfold k; by rewrite Hm|].
    split; [by apply (after_border pend [] [] a s s' w w2 w3)|]. split; [|done].
    rewrite Hw, skipn_firstn_comm. f_equal. f_equal. lia.
  - eexists s, w. split; [unfold k; do 3 f_equal; lia|]. split; [by apply after_refl|].
    split; [|done]. rewrite drop_ge by (rewrite length_take; lia). by rewrite app_nil_r.
Qed.

(** What the kernel answers to a write's direct [send]; with bytes in the buffer there is
    none, which is as good as one that took nothing. *)
Definition direct_send (s : epollsocket) (data : list byte) (w : world) : send_outcome :=
  if (sock_avail s =? BUFFERSIZE)%nat then (sys_send (sk_fd s) data (w_kernel w)).1 else Sent 0.

Definition sent_by (o : send_outcome) : nat := match o with Sent n => n | _ => 0 end.

(** How many bytes the write takes: those sent and what fits the buffer of the others. *)
Definition write_takes (s : epollsocket) (data : list byte) (o : send_outcome) : nat :=
  match o with
  | SendError => 0
  | _ => (sent_by o + Nat.min (length data - sent_by o) (sock_avail s))%nat
  end.

(** The exact result of a write. *)
Record wrote (s s' : epollsocket) (data : list byte) (o : send_outcome) (r : Z)
    (io : list io_event) : Prop := {
  wr_result : r = match o with SendError => -1 | _ => Z.of_nat (write_takes s data o) end;
  wr_dead : o = SendError → k_dead (sock_view_of (sk_htc s')) = true;
  wr_sent : sent_bytes io = take (sent_by o) data;
  wr_queue : wqueue s' = wqueue s ++ drop (sent_by o) (take (write_takes s data o) data);
  wr_received : received_bytes io = [];
  wr_read : rqueue s' = rqueue s;
}.

Lemma direct_send_done pend a s data w :
  usable pend a s w →
  ∃ w1 io, (if schedi_job_epollsocket_avail_from (sk_htc s) =? SCHEDI_JOB_EPOLLSOCKET_BUFFERSIZE
     then fd ← sock_get sk_fd a; send fd data else mret (Sent 0)) w =
       Done (direct_send s data w) w1 ∧
    border s io w w1 ∧ sent_bytes io = take (sent_by (direct_send s data w)) data ∧
    received_bytes io = [] ∧ (sent_by (direct_send s data w) <= length data)%nat.
Proof.
  intros Hu. unfold direct_send. rewrite avail_of_nat, <-BUFFERSIZE_Z.
  destruct (Nat.eqb_spec (sock_avail s) BUFFERSIZE) as [E|E].
  - rewrite E, Z.eqb_refl. bind_by (by apply sock_get_run, Hu).
    destruct (send_done s (sk_fd s) data w) as (o & w1 & Hrun & Hb & Hle).
    assert (o = (sys_send (sk_fd s) data (w_kernel w)).1) as <-.
    { revert Hrun. unfold send. rewrite (bind_done _ _ _ _ _ (call_run _ _)).
      destruct (sys_send _ _ _) as [o0 k]. cbn [fst snd]. by destruct o0; cbn; intros [= <-]. }
    exists w1, (io_of_send (sk_fd s) data o). split; [exact Hrun|]. split; [done|].
    split; [|split; [apply received_of_send|]].
    + destruct o; cbn; by rewrite ?app_nil_r, ?take_0.
    + destruct o; cbn; [by apply Hle|lia..].
  - rewrite (proj2 (Z.eqb_neq _ _)) by lia. exists w, [].
    split; [done|]. split; [apply border_refl|]. split; [done|]. split; [done|]. cbn. lia.
Qed.

Lemma write_exact pend a s data w :
  usable pend a s w →
  ∃ r s' io w', schedi_job_epollsocket_write a data w = Done r w' ∧
    after pend a s s' io w w' ∧ wrote s s' data (direct_send s data w) r io.
Proof.
  intros Hu. unfold schedi_job_epollsocket_write. bind_by (by apply sock_get_run, Hu).
  destruct (direct_send_done pend a s data w Hu) as (w1 & io & Hrun & Hb & Hs & Hr & Hle).
  bind_by exact Hrun. pose proof (border_usable _ _ _ _ _ _ Hb Hu) as Hu1.
  destruct (direct_send s data w) as [n| |]; cbn [sent_by] in *.
  - destruct (write_rest_done pend a s n data w1 Hu1 Hle) as (s' & w' & Hrun' & Haf & Hq & Hrd).
    eexists _, s', (io ++ []), w'. split; [exact Hrun'|]. split; [by eapply border_after|].
    by split; rewrite ?app_nil_r.
  - destruct (write_rest_done pend a s 0 data w1 Hu1 Hle) as (s' & w' & Hrun' & Haf & Hq & Hrd).
    eexists _, s', (io ++ []), w'. split; [exact Hrun'|]. split; [by eapply border_after|].
    by split; rewrite ?app_nil_r.
  - destruct (dead_done pend a s w1 Hu1) as (s' & w' & Hrun' & Haf & Hrd & Hq & Hdead).
    bind_by exact Hrun'. eexists _, s', (io ++ []), w'. split; [done|].
    split; [by eapply border_after|]. split; rewrite ?app_nil_r; done.
Qed.

(** The queues of a write, by its result. *)
Lemma write_done pend a s data w :
  usable pend a s w →
  ∃ r s' io w', schedi_job_epollsocket_write a data w = Done r w' ∧
    after pend a s s' io w w' ∧
    (r = -1 ∧ direct_send s data w = SendError ∨
     Z.of_nat (Nat.min (length data) (sock_avail s)) <= r <= Z.of_nat (length data)) ∧
    sent_bytes io ++ wqueue s' = wqueue s ++ take (Z.to_nat r) data ∧
    received_bytes io = [] ∧ rqueue s' = rqueue s.
Proof.
  intros Hu. destruct (write_exact pend a s data w Hu)
    as (r & s' & io & w' & Hrun & Haf & [Hr _ Hs Hq Hrec Hrd]).
  destruct (direct_send_done pend a s data w Hu) as (_ & _ & _ & _ & _ & _ & Hle).
  exists r, s', io, w'. split; [done|]. split; [done|].
  assert (sent_by (direct_send s data w) = 0%nat ∨ wqueue s = []) as Hempty.
  { unfold direct_send. destruct (Nat.eqb_spec (sock_avail s) BUFFERSIZE) as [E|E]; [|by left].
    right. apply length_zero_iff_nil. rewrite length_wqueue by apply Hu. lia. }
  set (o := direct_send s data w) in *.
  assert (Z.to_nat r = write_takes s data o) as Er by (rewrite Hr; destruct o; cbn; lia).
  assert (sent_by o <= write_takes s data o)%nat as Hst by (destruct o; cbn; lia).
  split; [|split; [|done]].
  - clear -Hr Hle. rewrite Hr. destruct o; cbn in *; [right; lia|right; lia|by left].
  - rewrite Hs, Hq, Er. clear -Hempty Hst. destruct Hempty as [-> | ->]; [done|]. cbn.
    rewrite <-(take_drop (sent_by o) (take (write_takes s data o) data)) at 2.
    by rewrite take_take, Nat.min_l.
Qed.

Lemma counts_nat x s c v :
  counts_are x s c v → sock_count (set_htc x s) = c ∧ sock_avail (set_htc x s) = v.
Proof.
  intros (_ & Ec & Ea & _ & _). unfold sock_count, sock_avail. cbn [sk_htc set_htc].
  by rewrite Ec, Ea, !Nat2Z.id.
Qed.

(** A socket with [k] bytes fewer at the front of its read ring. *)
Lemma wf_consumed s x k :
  sock_wf s → (k <= sock_count s)%nat →
  let tail := ((Z.to_nat (sk_read_tail s) + k) mod BUFFERSIZE)%nat in
  counts_are x s (sock_count s - k) (sock_avail s) →
  let s' := set_read (sk_read_head s) (Z.of_nat tail) (sk_read_buffer s) (set_htc x s) in
  sock_wf s' ∧ sock_timed_out s' = false ∧ rqueue s' = drop k (rqueue s) ∧
  wqueue s' = wqueue s.
Proof.
  intros Hwf Hk tail Hcnt s'. destruct (counts_nat x s _ _ Hcnt) as [Ec Ea].
  destruct Hcnt as (Hx & _ & _ & Hto & Hfl). pose proof (wf_read_tail _ Hwf) as Ht.
  change (sock_count (set_htc x s)) with (sock_count s') in Ec.
  change (sock_avail (set_htc x s)) with (sock_avail s') in Ea.
  split; [|split; [done|split]].
  - pose proof (wrapped_range (Z.to_nat (sk_read_tail s) + k)).
    destruct Hwf. split; unfold flags_are in *; rewrite ?Ec, ?Ea; try done; [lia|].
    cbn [s' sk_read_tail sk_read_head set_read set_htc]. rewrite Nat2Z.id.
    unfold tail. rewrite mod_add_step, wf_rhead0. do 3 f_equal. lia.
  - unfold rqueue. rewrite Ec. cbn [s' sk_read_tail sk_read_buffer set_read set_htc].
    rewrite Nat2Z.id. apply content_drop; [apply Hwf|done|done|apply Hwf].
  - unfold wqueue. by rewrite Ea.
Qed.

Lemma read_copy_run a s n w :
  sock_at w a s → sock_wf s →
  let k := Nat.min (sock_count s) n in
  read_copy a (Z.to_nat (sk_read_tail s)) k w =
    Done (take n (rqueue s), ((Z.to_nat (sk_read_tail s) + k) mod BUFFERSIZE)%nat) w ∧
  drop n (rqueue s) = drop k (rqueue s).
Proof.
  intros Ha Hwf k. set (tail := Z.to_nat (sk_read_tail s)).
  pose proof (wf_read_tail _ Hwf) as Ht. pose proof (length_rqueue _ Hwf) as Hlen.
  assert (take n (rqueue s) = take k (rqueue s) ∧ drop n (rqueue s) = drop k (rqueue s))
    as [-> ->].
  { unfold k. destruct (decide (sock_count s <= n)%nat).
    - rewrite Nat.min_l by done. by rewrite !take_ge, !drop_ge by lia.
    - by rewrite Nat.min_r by lia. }
  split; [|done]. unfold read_copy. destruct (Nat.leb_spec BUFFERSIZE (k + tail)).
  - destruct (ring_read_wrap (sk_read_buffer s) tail (sock_count s) (wf_rlen _ Hwf) Ht
      (wf_count _ Hwf) k) as (d1 & d2 & Hd1 & Hd2 & Hd & Hm); [lia|lia|].
    do 2 bind_by (by eapply buffer_out_run). by rewrite Hd, Hm.
  - destruct (ring_read_flat (sk_read_buffer s) tail (sock_count s) (wf_rlen _ Hwf) Ht
      (wf_count _ Hwf) k) as [Hd Hm]; [lia|lia|].
    bind_by (by eapply buffer_out_run). by rewrite Hm at 1.
Qed.

Lemma read_done pend a s n w :
  usable pend a s w →
  ∃ s' w', schedi_job_epollsocket_read a n w = Done (take n (rqueue s)) w' ∧
    after pend a s s' [] w w' ∧ rqueue s' = drop n (rqueue s) ∧ wqueue s' = wqueue s.
Proof.
  intros Hu. pose proof Hu as [Ha Hs Hwf Hto]. unfold schedi_job_epollsocket_read.
  do 2 bind_by (by apply sock_get_run). fold (sock_count s).
  destruct (read_copy_run a s n w Ha Hwf) as [Hcopy Edrop].
  set (tail := Z.to_nat (sk_read_tail s)) in *. set (k := Nat.min (sock_count s) n) in *.
  bind_by exact Hcopy.
  destruct (count_add_quiet a s (- Z.of_nat k) false (sock_count s - k) pend w)
    as (x & w1 & Hrun1 & Hcnt & Hq1);
    [done|done|apply Hwf|apply Hwf|by apply (wf_write_flag s)|done|lia| |].
  { pose proof (wf_count _ Hwf). lia. }
  bind_by exact Hrun1.
  assert (sock_at w1 a (set_htc x s)) as Ha1 by (eapply quiet_sock; [done|apply sock_at_with]).
  bind_by (by eapply sock_put_run). cbn [sk_read_head sk_read_buffer set_htc].
  destruct (wf_consumed s x k Hwf ltac:(lia) Hcnt) as (Hwf' & Hto' & Hr' & Hw').
  fold tail in Hwf', Hto', Hr', Hw'. set (s' := set_read _ _ _ _) in *.
  assert (after pend a s s' [] w (with_sock a s' w1)) as Haf.
  { destruct Hq1. split; try done; cbn.
    - rewrite q_heap0. apply insert_insert_eq.
    - by rewrite q_io0, app_nil_r.
    - by apply rewatched_refl. }
  rewrite Edrop.
  destruct (sock_count s =? BUFFERSIZE)%nat; cbn [when].
  - destruct (activator_border a s' (with_sock a s' w1)) as (w2 & Hrun2 & Hb2);
      [apply sock_at_with|].
    bind_by exact Hrun2. eexists s', _. split; [done|]. split; [|done].
    by apply (after_border pend [] [] a s s' w (with_sock a s' w1) w2).
  - bind_by done. by eexists s', _.
Qed.

(** ** The epoll side's transfers *)

(** A socket with [k] bytes fewer at the front of its write ring. *)
Lemma wf_flushed s x k :
  sock_wf s → (k <= BUFFERSIZE - sock_avail s)%nat →
  let tail := ((Z.to_nat (sk_write_tail s) + k) mod BUFFERSIZE)%nat in
  counts_are x s (sock_count s) (sock_avail s + k) →
  let s' := set_write (sk_write_head s) (Z.of_nat tail) (sk_write_buffer s) (set_htc x s) in
  sock_wf s' ∧ sock_timed_out s' = false ∧ wqueue s' = drop k (wqueue s) ∧
  rqueue s' = rqueue s.
Proof.
  intros Hwf Hk tail Hcnt s'. destruct (counts_nat x s _ _ Hcnt) as [Ec Ea].
  destruct Hcnt as (Hx & _ & _ & Hto & Hfl). pose proof (wf_write_tail _ Hwf) as Ht.
  pose proof (wf_avail _ Hwf) as Hav.
  change (sock_count (set_htc x s)) with (sock_count s') in Ec.
  change (sock_avail (set_htc x s)) with (sock_avail s') in Ea.
  assert (BUFFERSIZE - sock_avail s' = BUFFERSIZE - sock_avail s - k)%nat as Eu by lia.
  split; [|split; [done|split]].
  - pose proof (wrapped_range (Z.to_nat (sk_write_tail s) + k)).
    destruct Hwf. split; unfold flags_are in *; rewrite ?Ec, ?Ea; try done; [lia|].
    cbn [s' sk_write_tail sk_write_head set_write set_htc]. rewrite Nat2Z.id.
    unfold tail. rewrite mod_add_step, wf_whead0. do 3 f_equal. lia.
  - unfold wqueue. rewrite Eu. cbn [s' sk_write_tail sk_write_buffer set_write set_htc].
    rewrite Nat2Z.id. apply content_drop; [apply Hwf|done|done|lia].
  - unfold rqueue. by rewrite Ec.
Qed.

(** The end of [write_return]. *)
Lemma flush_end pend a s total dead w :
  usable pend a s w → (total <= BUFFERSIZE - sock_avail s)%nat →
  let tail := ((Z.to_nat (sk_write_tail s) + total) mod BUFFERSIZE)%nat in
  ∃ s' w', (schedi_job_epollsocket_avail_add a (Z.of_nat total) dead ≫= λ _,
      store_write_tail (Z.of_nat tail) a ≫= λ _,
      mret (if dead : bool then -1 else Z.of_nat total)) w =
        Done (if dead then -1 else Z.of_nat total) w' ∧
    after pend a s s' [] w w' ∧ wqueue s' = drop total (wqueue s) ∧ rqueue s' = rqueue s.
Proof.
  intros [Ha Hs Hwf Hto] Hk tail. pose proof (wf_avail _ Hwf) as Hav.
  destruct (avail_add_quiet a s (Z.of_nat total) dead (sock_avail s + total) pend w)
    as (x & w1 & Hrun1 & Hcnt & Hq1);
    [done|done|apply Hwf|apply Hwf|by apply (wf_read_flag s)|done|lia|lia|].
  bind_by exact Hrun1.
  assert (sock_at w1 a (set_htc x s)) as Ha1 by (eapply quiet_sock; [done|apply sock_at_with]).
  bind_by (by eapply sock_put_run). cbn [sk_write_head sk_write_buffer set_htc].
  destruct (wf_flushed s x total Hwf ltac:(lia) Hcnt) as (Hwf' & Hto' & Hw' & Hr').
  fold tail in Hwf', Hto', Hr', Hw'. set (s' := set_write _ _ _ _) in *.
  exists s', (with_sock a s' w1). split; [done|]. split; [|done].
  destruct Hq1. split; try done; cbn.
  - rewrite q_heap0. apply insert_insert_eq.
  - by rewrite q_io0, app_nil_r.
  - by apply rewatched_refl.
Qed.

(** The second [send] of [write_return], when the first took all up to the buffer's end. *)
Lemma second_send pend a s w :
  usable pend a s w →
  let tail := Z.to_nat (sk_write_tail s) in
  let sendable := (BUFFERSIZE - sock_avail s)%nat in
  let first := (BUFFERSIZE - tail)%nat in
  (first < sendable)%nat →
  ∃ m dead io w2, (bs ← buffer_out sk_write_buffer a 0 (sendable - first);
      sent_rest ← send (sk_fd s) bs;
      mret match sent_rest with
           | Sent O => (first, ((tail + first) mod BUFFERSIZE)%nat, false)
           | Sent m => ((first + m)%nat, m, false)
           | SendAgain => (first, ((tail + first) mod BUFFERSIZE)%nat, false)
           | SendError => (first, ((tail + first) mod BUFFERSIZE)%nat, true)
           end) w = Done (first + m, (tail + (first + m)) mod BUFFERSIZE, dead)%nat w2 ∧
    usable pend a s w2 ∧ border s io w w2 ∧ (m <= sendable - first)%nat ∧
    sent_bytes io = take m (drop first (wqueue s)) ∧ received_bytes io = [].
Proof.
  intros Hu tail sendable first Hlt. pose proof Hu as [Ha Hs Hwf Hto].
  pose proof (wf_write_tail _ Hwf) as Ht. fold tail in Ht.
  pose proof (length_wqueue _ Hwf) as Hlen. fold sendable in Hlen.
  destruct (ring_read_wrap (sk_write_buffer s) tail sendable (wf_wlen _ Hwf) Ht
    ltac:(unfold sendable; lia) sendable) as (d1 & d2 & Hd1 & Hd2 & Hd & Hm); [lia|lia|].
  fold first in Hd1, Hd2. assert (d2 = drop first (wqueue s)) as ->.
  { rewrite copy_out_fits in Hd1 by (rewrite (wf_wlen _ Hwf); lia). injection Hd1 as <-.
    change (content _ tail sendable) with (wqueue s) in Hd.
    rewrite (take_ge (wqueue s) sendable) in Hd by lia. rewrite <-Hd. symmetry. apply drop_app_length'.
    rewrite length_take, length_drop, (wf_wlen _ Hwf). lia. }
  assert (((tail + first) mod BUFFERSIZE)%nat = 0%nat) as Et0.
  { replace (tail + first)%nat with BUFFERSIZE by lia. apply Nat.Div0.mod_same. }
  destruct (send_done s (sk_fd s) (drop first (wqueue s)) w) as (o2 & w2 & Hrun2 & Hb2 & Hle2).
  exists (match o2 with Sent m => m | _ => 0%nat end), (match o2 with SendError => true | _ => false end).
  eexists _, w2. split; [|split; [by eapply border_usable|split; [exact Hb2|split; [|split]]]].
  - bind_by (by eapply buffer_out_run). bind_by exact Hrun2.
    destruct o2 as [[|m']| |]; rewrite ?Nat.add_0_r; try done.
    unfold mret, M_ret. do 3 f_equal. rewrite <-mod_add_step, Et0. symmetry.
    apply wrap_small. specialize (Hle2 _ eq_refl). rewrite length_drop in Hle2. lia.
  - destruct o2 as [m'| |]; [|lia..]. specialize (Hle2 m' eq_refl). rewrite length_drop in Hle2. lia.
  - destruct o2; cbn; by rewrite ?app_nil_r.
  - apply received_of_send.
Qed.

Lemma write_return_done pend a s w :
  usable pend a s w →
  ∃ r s' io w', schedi_job_epollsocket_write_return a w = Done r w' ∧
    after pend a s s' io w w' ∧ sent_bytes io ++ wqueue s' = wqueue s ∧
    received_bytes io = [] ∧ rqueue s' = rqueue s.
Proof.
  intros Hu. pose proof Hu as [Ha Hs Hwf Hto]. unfold schedi_job_epollsocket_write_return.
  do 2 bind_by (by apply sock_get_run). fold (sock_avail s).
  set (tail := Z.to_nat (sk_write_tail s)). set (sendable := (BUFFERSIZE - sock_avail s)%nat).
  pose proof (wf_write_tail _ Hwf) as Ht. fold tail in Ht.
  pose proof (length_wqueue _ Hwf) as Hlen. fold sendable in Hlen.
  assert (sendable <= BUFFERSIZE)%nat as Hsb by lia.
  destruct (Nat.eqb_spec sendable 0) as [E|E].
  { eexists 0, s, [], w. split; [done|]. by split; [apply after_refl|]. }
  bind_by (by apply sock_get_run). set (first := Nat.min sendable (BUFFERSIZE - tail)).
  assert (copy_out (sk_write_buffer s) tail first = Some (take first (wqueue s))) as Hc1.
  { rewrite copy_out_fits by (rewrite (wf_wlen _ Hwf); lia).
    unfold wqueue. fold tail sendable.
    by rewrite content_first by (try apply (wf_wlen _ Hwf); lia). }
  bind_by (by eapply buffer_out_run).
  destruct (send_done s (sk_fd s) (take first (wqueue s)) w) as (o & w1 & Hrun1 & Hb1 & Hle).
  bind_by exact Hrun1. pose proof (border_usable _ _ _ _ _ _ Hb1 Hu) as Hu1.
  destruct o as [n| |]; cycle 1.
  { eexists 0, s, _, w1. split; [done|]. split; [by eapply border_after, after_refl|].
    done. }
  { destruct (dead_done pend a s w1 Hu1) as (s' & w' & Hrun' & Haf & Hr & Hw & _).
    bind_by exact Hrun'. eexists _, s', _, w'. split; [done|].
    split; [by eapply border_after|]. by rewrite Hw. }
  specialize (Hle n eq_refl). rewrite length_take, Nat.min_l in Hle by lia.
  destruct ((n =? first)%nat && (first <? sendable)%nat) eqn:Ewrap.
  - apply andb_true_iff in Ewrap as [->%Nat.eqb_eq Hlt%Nat.ltb_lt].
    destruct (second_send pend a s w1 Hu1 ltac:(fold sendable; lia))
      as (m & dead & io & w2 & Hrun2 & Hu2 & Hb2 & Hmr & Hsent & Hrecv).
    fold tail sendable in Hrun2, Hmr, Hsent.
    replace (BUFFERSIZE - tail)%nat with first in Hrun2, Hmr, Hsent by lia.
    rewrite (bind_done _ _ _ _ _ Hrun2). cbn beta iota.
    destruct (flush_end pend a s (first + m) dead w2 Hu2 ltac:(fold sendable; lia))
      as (s' & w' & Hrun' & Haf & Hw & Hr).
    eexists _, s', (_ ++ io ++ []), w'. split; [exact Hrun'|].
    split; [by eapply border_after, border_after|].
    rewrite !sent_bytes_app, !received_bytes_app, Hsent, Hrecv, received_of_send, Hw.
    split; [|done]. cbn [io_of_send sent_bytes map concat]. rewrite !app_nil_r.
    rewrite take_take, Nat.min_id, <-app_assoc, <-drop_drop. by rewrite !take_drop.
  - bind_by done. destruct (flush_end pend a s n false w1 Hu1 ltac:(fold sendable; lia))
      as (s' & w' & Hrun' & Haf & Hw & Hr).
    eexists _, s', _, w'. split; [exact Hrun'|]. split; [by eapply border_after|].
    rewrite !sent_bytes_app, !received_bytes_app, Hw.
    split; [|done]. cbn. rewrite !app_nil_r, take_take, Nat.min_l by done. apply take_drop.
Qed.

(** A socket with new bytes at the end of its read ring. *)
Lemma wf_received s x buf' bs :
  sock_wf s → length buf' = BUFFERSIZE → (length bs <= BUFFERSIZE - sock_count s)%nat →
  let head := ((Z.to_nat (sk_read_tail s) + (sock_count s + length bs)) mod BUFFERSIZE)%nat in
  content buf' (Z.to_nat (sk_read_tail s)) (sock_count s + length bs) = rqueue s ++ bs →
  counts_are x s (sock_count s + length bs) (sock_avail s) →
  let s' := set_read (Z.of_nat head) (sk_read_tail s) buf' (set_htc x s) in
  sock_wf s' ∧ sock_timed_out s' = false ∧ rqueue s' = rqueue s ++ bs ∧ wqueue s' = wqueue s.
Proof.
  intros Hwf Hl Hle head Hc Hcnt s'. destruct (counts_nat x s _ _ Hcnt) as [Ec Ea].
  destruct Hcnt as (Hx & _ & _ & Hto & Hfl). pose proof (wf_count _ Hwf) as Hct.
  change (sock_count (set_htc x s)) with (sock_count s') in Ec.
  change (sock_avail (set_htc x s)) with (sock_avail s') in Ea.
  split; [|split; [done|split]].
  - destruct Hwf. split; unfold flags_are in *; rewrite ?Ec, ?Ea; try done. lia.
  - unfold rqueue at 1. by rewrite Ec.
  - unfold wqueue. by rewrite Ea.
Qed.

(** The end of [read_return]; [s1] is the socket with the bytes in its buffer. *)
Lemma receive_end pend a s buf' bs dead w :
  usable pend a s w → length buf' = BUFFERSIZE →
  (length bs <= BUFFERSIZE - sock_count s)%nat →
  let head := ((Z.to_nat (sk_read_tail s) + (sock_count s + length bs)) mod BUFFERSIZE)%nat in
  content buf' (Z.to_nat (sk_read_tail s)) (sock_count s + length bs) = rqueue s ++ bs →
  let s1 := set_read (sk_read_head s) (sk_read_tail s) buf' s in
  ∃ s' w', (schedi_job_epollsocket_count_add a (Z.of_nat (length bs)) dead ≫= λ _,
      store_read_head (Z.of_nat head) a ≫= λ _,
      mret (if dead : bool then -1 else Z.of_nat (length bs))) (with_sock a s1 w) =
        Done (if dead then -1 else Z.of_nat (length bs)) w' ∧
    after pend a s s' [] w w' ∧ rqueue s' = rqueue s ++ bs ∧ wqueue s' = wqueue s.
Proof.
  intros [Ha Hs Hwf Hto] Hl Hle head Hc s1. pose proof (wf_count _ Hwf) as Hct.
  destruct (count_add_quiet a s1 (Z.of_nat (length bs)) dead (sock_count s + length bs) pend
    (with_sock a s1 w)) as (x & w1 & Hrun1 & Hcnt & Hq1);
    [apply sock_at_with|done|apply Hwf|apply Hwf|by apply (wf_write_flag s)|done|
     change (sock_count s1) with (sock_count s); lia|lia|].
  bind_by exact Hrun1. rewrite with_sock_twice in Hq1.
  assert (sock_at w1 a (set_htc x s1)) as Ha1 by (eapply quiet_sock; [done|apply sock_at_with]).
  bind_by (by eapply sock_put_run). cbn [sk_read_tail sk_read_buffer set_htc set_read s1].
  destruct (wf_received s x buf' bs Hwf Hl Hle Hc Hcnt) as (Hwf' & Hto' & Hr' & Hw').
  fold head in Hwf', Hto', Hr', Hw'.
  change (set_read (Z.of_nat head) (sk_read_tail s) buf' (set_htc x s1)) with
    (set_read (Z.of_nat head) (sk_read_tail s) buf' (set_htc x s)).
  set (s' := set_read (Z.of_nat head) (sk_read_tail s) buf' (set_htc x s)) in *.
  exists s', (with_sock a s' w1). split; [done|]. split; [|done].
  destruct Hq1. split; try done; cbn.
  - rewrite q_heap0. apply insert_insert_eq.
  - by rewrite q_io0, app_nil_r.
  - by apply rewatched_refl.
Qed.

Lemma border_with_sock t io a s w w' :
  border t io (with_sock a s w) w' → ∃ w1, border t io w w1 ∧ w' = with_sock a s w1.
Proof.
  intros [Eh Eio Er Ew Ei Es]. exists (put_heap (w_heap w) w'). split; [by split|].
  destruct w' as [sy h er ew k i]. cbn in *. by rewrite Eh.
Qed.

(** The second [recv] of [read_return], when the first filled the ring up to its end: whatever it
    brings, [bs2] follow [bs] in the ring. *)
Lemma second_recv pend a s b1 bs w :
  usable pend a s w → length b1 = BUFFERSIZE →
  let tail := Z.to_nat (sk_read_tail s) in
  let head := ((tail + sock_count s) mod BUFFERSIZE)%nat in
  let free := (BUFFERSIZE - sock_count s)%nat in
  let first := Nat.min free (BUFFERSIZE - head) in
  let got := length bs in
  (got <= first)%nat → content b1 tail (sock_count s + got) = rqueue s ++ bs →
  ∃ bs2 b2 dead io w2,
    (if (got =? first)%nat && (first <? free)%nat then
       got_rest ← recv (sk_fd s) (free - first);
       match got_rest with
       | Got [] => mret (got, ((head + got) mod BUFFERSIZE)%nat, true)
       | Got bs' =>
           read_buffer_in a 0 bs' ≫= λ _, mret ((got + length bs')%nat, length bs', false)
       | RecvAgain => mret (got, ((head + got) mod BUFFERSIZE)%nat, false)
       | RecvError => mret (got, ((head + got) mod BUFFERSIZE)%nat, true)
       end
     else mret (got, ((head + got) mod BUFFERSIZE)%nat, false))
      (with_sock a (set_read (sk_read_head s) (sk_read_tail s) b1 s) w) =
    Done (length (bs ++ bs2), ((tail + (sock_count s + length (bs ++ bs2))) mod BUFFERSIZE)%nat, dead)
      (with_sock a (set_read (sk_read_head s) (sk_read_tail s) b2 s) w2) ∧
    border s io w w2 ∧ length b2 = BUFFERSIZE ∧ (length (bs ++ bs2) <= free)%nat ∧
    content b2 tail (sock_count s + length (bs ++ bs2)) = rqueue s ++ bs ++ bs2 ∧
    received_bytes io = bs2 ∧ sent_bytes io = [].
Proof.
  intros [Ha Hs Hwf Hto] Hl1 tail head free first got Hle Hq1.
  pose proof (wf_read_tail _ Hwf) as Ht. fold tail in Ht. pose proof (wf_count _ Hwf) as Hct.
  pose proof (Nat.mod_upper_bound (tail + sock_count s) BUFFERSIZE ltac:(done)) as Hh.
  fold head in Hh.
  assert (∀ (dead : bool) io w2, border s io w w2 → received_bytes io = [] → sent_bytes io = [] →
    ∃ bs2 b2 dead' io' w2',
      Done (got, ((head + got) mod BUFFERSIZE)%nat, dead)
        (with_sock a (set_read (sk_read_head s) (sk_read_tail s) b1 s) w2) =
      Done (length (bs ++ bs2), ((tail + (sock_count s + length (bs ++ bs2))) mod BUFFERSIZE)%nat, dead')
        (with_sock a (set_read (sk_read_head s) (sk_read_tail s) b2 s) w2') ∧
      border s io' w w2' ∧ length b2 = BUFFERSIZE ∧ (length (bs ++ bs2) <= free)%nat ∧
      content b2 tail (sock_count s + length (bs ++ bs2)) = rqueue s ++ bs ++ bs2 ∧
      received_bytes io' = bs2 ∧ sent_bytes io' = []) as Hnothing.
  { intros dead io w2 Hb Hr Hsnt. exists [], b1, dead, io, w2. rewrite app_nil_r.
    unfold head. rewrite mod_add_step. repeat split; try done; try apply Hb; lia. }
  destruct (_ && _) eqn:Ewrap; [|by eapply Hnothing; [apply border_refl|..]].
  apply andb_true_iff in Ewrap as [Elen%Nat.eqb_eq Hlt%Nat.ltb_lt].
  set (s1 := set_read (sk_read_head s) (sk_read_tail s) b1 s) in *.
  destruct (recv_done s (sk_fd s) (free - first) (with_sock a s1 w)) as (o & w2' & Hrun & Hb' & Hle2).
  destruct (border_with_sock _ _ _ _ _ _ Hb') as (w2 & Hb & ->).
  rewrite (bind_done _ _ _ _ _ Hrun).
  destruct o as [[|b' bs0']| |]; try by eapply Hnothing.
  set (bs2 := b' :: bs0') in *. specialize (Hle2 bs2 eq_refl).
  pose proof (head_after_piece tail (sock_count s) got ltac:(fold head; lia)) as Eh.
  fold head in Eh. rewrite decide_True in Eh by lia.
  destruct (ring_piece b1 tail (sock_count s + got) Hl1 Ht ltac:(lia) bs2)
    as (b2 & Hc2 & Hl2 & Hq2); [lia|rewrite Eh; lia|]. rewrite Eh in Hc2.
  rewrite Hq1, <-app_assoc, <-Nat.add_assoc in Hq2.
  rewrite (bind_done _ _ _ _ _ (read_buffer_in_run a s1 _ 0 bs2 b2 (sock_at_with a s1 w2) Hc2)).
  rewrite with_sock_twice. cbn [sk_read_head sk_read_tail set_read s1].
  exists bs2, b2, false, (io_of_recv (sk_fd s) (Got bs2)), w2. rewrite length_app. fold got.
  split; [|split; [done|]].
  - unfold mret, M_ret. do 3 f_equal.
    rewrite (Nat.add_assoc (sock_count s)), <-mod_add_step, Eh. symmetry. apply wrap_small. lia.
  - repeat split; try done; [lia|]. cbn. by rewrite app_nil_r.
Qed.

Lemma read_return_done pend a s w :
  usable pend a s w →
  ∃ r s' io w', schedi_job_epollsocket_read_return a w = Done r w' ∧
    after pend a s s' io w w' ∧ rqueue s' = rqueue s ++ received_bytes io ∧
    sent_bytes io = [] ∧ wqueue s' = wqueue s.
Proof.
  intros Hu. pose proof Hu as [Ha Hs Hwf Hto]. unfold schedi_job_epollsocket_read_return.
  do 2 bind_by (by apply sock_get_run). fold (sock_count s). rewrite wf_read_head by done.
  set (tail := Z.to_nat (sk_read_tail s)). set (free := (BUFFERSIZE - sock_count s)%nat).
  pose proof (wf_read_tail _ Hwf) as Ht. fold tail in Ht. pose proof (wf_count _ Hwf) as Hct.
  pose proof (Nat.mod_upper_bound (tail + sock_count s) BUFFERSIZE ltac:(done)) as Hh.
  set (head := ((tail + sock_count s) mod BUFFERSIZE)%nat) in *.
  destruct (Nat.eqb_spec free 0) as [E|E].
  { eexists 0, s, [], w. split; [done|]. split; [by apply after_refl|].
    by rewrite app_nil_r. }
  bind_by (by apply sock_get_run). set (first := Nat.min free (BUFFERSIZE - head)).
  destruct (recv_done s (sk_fd s) first w) as (o & w1 & Hrun1 & Hb1 & Hle).
  bind_by exact Hrun1. pose proof (border_usable _ _ _ _ _ _ Hb1 Hu) as Hu1.
  destruct (dead_done pend a s w1 Hu1) as (sd & wd & Hrund & Hafd & Hrd & Hwd & _).
  pose proof (border_after _ _ _ _ _ _ _ _ _ Hb1 Hafd) as Hdead.
  destruct o as [[|b bs0]| |].
  - bind_by exact Hrund. eexists _, sd, _, wd. split; [done|]. split; [exact Hdead|].
    cbn. by rewrite app_nil_r.
  - set (bs := b :: bs0) in *. specialize (Hle bs eq_refl).
    destruct (ring_piece (sk_read_buffer s) tail (sock_count s) (wf_rlen _ Hwf) Ht Hct bs)
      as (b1 & Hc1 & Hl1 & Hq1); [lia|fold head; lia|].
    bind_by (by eapply read_buffer_in_run; [apply Hu1|]).
    destruct (second_recv pend a s b1 bs w1 Hu1 Hl1 Hle Hq1)
      as (bs2 & b2 & dead & io & w2 & Hrun2 & Hb2 & Hl2 & Hle2 & Hq2 & Hr & Hsnt).
    bind_by exact Hrun2. pose proof (border_usable _ _ _ _ _ _ Hb2 Hu1) as Hu2.
    destruct (receive_end pend a s b2 (bs ++ bs2) dead w2 Hu2 Hl2 Hle2 Hq2)
      as (s' & w' & Hrun' & Haf & Hr' & Hw').
    eexists _, s', (_ ++ io ++ []), w'. split; [exact Hrun'|].
    split; [by eapply border_after, border_after|].
    rewrite !received_bytes_app, !sent_bytes_app, Hr, Hsnt, Hr'. cbn. by rewrite !app_nil_r.
  - eexists 0, s, _, w1. split; [done|]. split; [by eapply border_after, after_refl|].
    cbn. by rewrite app_nil_r.
  - bind_by exact Hrund. eexists _, sd, _, wd. split; [done|]. split; [exact Hdead|].
    cbn. by rewrite app_nil_r.
Qed.

(** What a call of the epoll side may do to the queues. *)
Definition flow (s s' : epollsocket) (io : list io_event) : Prop :=
  sent_bytes io ++ wqueue s' = wqueue s ∧ rqueue s' = rqueue s ++ received_bytes io.

Lemma flow_idle s : flow s s [].
Proof. split; [done|]. by rewrite app_nil_r. Qed.

Lemma return_done pend a s events w :
  usable pend a s w →
  ∃ r s' io w', schedi_job_epollsocket_return a events w = Done r w' ∧
    after pend a s s' io w w' ∧ flow s s' io.
Proof.
  intros Hu. unfold schedi_job_epollsocket_return.
  assert (∃ dead s' io w', (if has events (Z.lor EPOLLERR EPOLLHUP) &&
        negb (has events (Z.lor EPOLLIN EPOLLOUT))
     then schedi_job_epollsocket_dead a ≫= λ _, mret true
     else if has events EPOLLIN then
       r ← schedi_job_epollsocket_read_return a; mret (r <? 0)
     else if has events EPOLLOUT then
       r ← schedi_job_epollsocket_write_return a; mret (r <? 0)
     else mret false) w = Done dead w' ∧
    after pend a s s' io w w' ∧ flow s s' io) as (dead & s' & io & w1 & Hrun1 & Haf & Hfl).
  { destruct (_ && _); [|destruct (has events EPOLLIN); [|destruct (has events EPOLLOUT)]].
    - destruct (dead_done pend a s w Hu) as (s' & w' & Hrun & Haf & Hr & Hw & _).
      bind_by exact Hrun. eexists _, s', [], _. split; [done|]. split; [done|].
      split; [done|]. by rewrite Hr, app_nil_r.
    - destruct (read_return_done pend a s w Hu) as (r & s' & io & w' & Hrun & Haf & Hr & Hs & Hw).
      bind_by exact Hrun. eexists _, s', io, _. split; [done|]. split; [done|].
      split; [|done]. by rewrite Hs, Hw.
    - destruct (write_return_done pend a s w Hu) as (r & s' & io & w' & Hrun & Haf & Hs & Hr & Hw).
      bind_by exact Hrun. eexists _, s', io, _. split; [done|]. split; [done|].
      split; [done|]. by rewrite Hr, Hw, app_nil_r.
    - eexists _, s, [], w. split; [done|]. split; [by apply after_refl|apply flow_idle]. }
  bind_by exact Hrun1.
  destruct (activator_border a s' w1) as (w2 & Hrun2 & Hb2); [by eapply us_at, after_usable|].
  bind_by exact Hrun2. eexists _, s', io, w2. split; [done|]. split; [|done].
  rewrite <-(app_nil_r io). by eapply after_border.
Qed.

(** ** Any sequence of calls *)

Inductive sock_call : Type :=
  | CallWrite (data : list byte)
  | CallRead (n : nat)
  | CallReturn (events : Z).

(** A call, with the bytes the socket took from the job and gave to it. *)
Definition run_call (a : addr) (c : sock_call) : M world (list byte * list byte) :=
  match c with
  | CallWrite data =>
      r ← schedi_job_epollsocket_write a data; mret (take (Z.to_nat r) data, [])
  | CallRead n => bs ← schedi_job_epollsocket_read a n; mret ([], bs)
  | CallReturn events => schedi_job_epollsocket_return a events ≫= λ _, mret ([], [])
  end.

Fixpoint run_calls (a : addr) (cs : list sock_call) : M world (list byte * list byte) :=
  match cs with
  | [] => mret ([], [])
  | c :: cs =>
      '(w1, r1) ← run_call a c;
      '(w2, r2) ← run_calls a cs;
      mret (w1 ++ w2, r1 ++ r2)
  end.

(** The two streams: bytes the job wrote are sent or queued, in order; bytes received
    are read or queued, in order. *)
Definition streams (s s' : epollsocket) (io : list io_event) (written given : list byte)
    : Prop :=
  sent_bytes io ++ wqueue s' = wqueue s ++ written ∧
  given ++ rqueue s' = rqueue s ++ received_bytes io.

Lemma streams_trans s1 s2 s3 io1 io2 wr1 wr2 gv1 gv2 :
  streams s1 s2 io1 wr1 gv1 → streams s2 s3 io2 wr2 gv2 →
  streams s1 s3 (io1 ++ io2) (wr1 ++ wr2) (gv1 ++ gv2).
Proof.
  unfold streams. rewrite sent_bytes_app, received_bytes_app. intros [E1 F1] [E2 F2]. split.
  - by rewrite <-app_assoc, E2, app_assoc, E1, <-app_assoc.
  - by rewrite <-app_assoc, F2, app_assoc, F1, <-app_assoc.
Qed.

Lemma run_call_done pend a s c w :
  usable pend a s w →
  ∃ wr gv s' io w', run_call a c w = Done (wr, gv) w' ∧ after pend a s s' io w w' ∧
    streams s s' io wr gv.
Proof.
  intros Hu. unfold streams. destruct c as [data|n|events]; cbn [run_call].
  - destruct (write_done pend a s data w Hu)
      as (r & s' & io & w' & Hrun & Haf & _ & Hw & Hrec & Hr).
    bind_by exact Hrun. eexists _, _, s', io, _. split; [done|]. split; [done|].
    split; [done|]. by rewrite Hrec, Hr, app_nil_r.
  - destruct (read_done pend a s n w Hu) as (s' & w' & Hrun & Haf & Hr & Hw).
    bind_by exact Hrun. eexists _, _, s', [], _. split; [done|]. split; [done|].
    rewrite Hr, Hw, take_drop. cbn. by rewrite !app_nil_r.
  - destruct (return_done pend a s events w Hu) as (r & s' & io & w' & Hrun & Haf & Hs & Hr).
    bind_by exact Hrun. eexists _, _, s', io, _. split; [done|]. split; [done|].
    by rewrite Hs, Hr, app_nil_r.
Qed.

Lemma run_calls_done pend a cs s w :
  usable pend a s w →
  ∃ wr gv s' io w', run_calls a cs w = Done (wr, gv) w' ∧ after pend a s s' io w w' ∧
    streams s s' io wr gv.
Proof.
  revert s w. induction cs as [|c cs IH]; intros s w Hu; cbn [run_calls].
  - eexists _, _, s, [], w. split; [done|]. split; [by apply after_refl|].
    unfold streams. by rewrite !app_nil_r.
  - destruct (run_call_done pend a s c w Hu) as (wr1 & gv1 & s1 & io1 & w1 & Hr1 & Ha1 & Hs1).
    destruct (IH s1 w1 (after_usable _ _ _ _ _ _ _ Ha1))
      as (wr2 & gv2 & s2 & io2 & w2 & Hr2 & Ha2 & Hs2).
    bind_by exact Hr1. bind_by exact Hr2. eexists _, _, s2, (io1 ++ io2), w2.
    split; [done|]. split; [by eapply after_trans|by eapply streams_trans].
Qed.

(** C6: any sequence of writes and reads by the job and of events by the epoll side, with
    any answers of the kernel (partial transfers, refusals, errors, the end of the
    stream), returns without undefined behaviour and keeps both byte streams intact:
    what was sent followed by what is buffered is what was buffered before followed by
    what the writes accepted, and what the reads gave followed by what is buffered is
    what was buffered before followed by what was received.  The scheduler and the
    socket stay consistent. *)
Theorem stream_integrity pend a cs s w :
  usable pend a s w →
  ∃ written given s' io w', run_calls a cs w = Done (written, given) w' ∧
    after pend a s s' io w w' ∧ streams s s' io written given.
Proof. apply run_calls_done. Qed.

(** C29: what a write does, for every answer of the kernel.  When the buffer is empty it
    sends directly.  If the kernel refuses that with an error the socket is marked dead,
    nothing is buffered, and the write returns -1; in every other case - the kernel takes
    some of the bytes, or would block, or the buffer was not empty - the bytes the kernel
    took are followed in the buffer by as many of the others as fit, and the write returns
    the number of both together.  What was buffered before stays in front, and nothing is
    sent past it. *)
Theorem schedi_job_epollsocket_write_spec pend a s data w :
  usable pend a s w →
  ∃ r s' io w', schedi_job_epollsocket_write a data w = Done r w' ∧
    after pend a s s' io w w' ∧ wrote s s' data (direct_send s data w) r io.
Proof. apply write_exact. Qed.


(** C28: when a socket is READY and neither dead, timed out nor given up by epoll, a read
    of up to the read condition gives as many bytes as it asks for, the oldest, and a
    write of up to the write condition takes every byte; it fails, with -1, only if the
    kernel refuses the direct [send] with an error that is not EAGAIN. *)
Theorem ready_guarantee pend a s forced n data w :
  usable pend a s w → ready_exact (sock_view_of (sk_htc s)) forced →
  k_ready (sock_view_of (sk_htc s)) = true → k_dead (sock_view_of (sk_htc s)) = false →
  k_epolldid (sock_view_of (sk_htc s)) = false →
  Z.of_nat n <= sk_read_cond s → Z.of_nat (length data) <= sk_write_cond s →
  (∃ bs w', schedi_job_epollsocket_read a n w = Done bs w' ∧
     bs = take n (rqueue s) ∧ length bs = n) ∧
  (∃ r w', schedi_job_epollsocket_write a data w = Done r w' ∧
     r = match direct_send s data w with SendError => -1 | _ => Z.of_nat (length data) end).
Proof.
  intros Hu [Hdoc Hcause] Hready Hdead Hdid Hn Hd. pose proof Hu as [_ _ Hwf Hto].
  unfold sock_timed_out in Hto. rewrite timed_out_of in Hto.
  assert (forced = false) as ->.
  { destruct forced; [|done]. destruct Hcause; congruence. }
  rewrite Hready, orb_false_r in Hdoc. unfold spec_ready in Hdoc. rewrite Hdead, Hdid in Hdoc.
  destruct (wf_flags _ Hwf) as [Hr Hw]. rewrite Hr, Hw in Hdoc.
  assert (sk_read_cond s <= Z.of_nat (sock_count s) ∧ sk_write_cond s <= Z.of_nat (sock_avail s))
    as [Hrc Hwc] by (destruct (k_epollnt _); lia).
  split.
  - destruct (read_done pend a s n w Hu) as (s' & w' & Hrun & _).
    eexists _, w'. split; [exact Hrun|]. split; [done|].
    rewrite length_take, length_rqueue by done. lia.
  - destruct (write_exact pend a s data w Hu) as (r & s' & io & w' & Hrun & _ & [Hres _ _ _ _ _]).
    destruct (direct_send_done pend a s data w Hu) as (_ & _ & _ & _ & _ & _ & Hle).
    exists r, w'. split; [done|]. rewrite Hres.
    destruct (direct_send s data w); cbn in *; lia.
Qed.

(** ** A socket that timed out *)

(** The read of a timed-out socket: the counts do not follow the tail. *)
Lemma timed_out_read_done pend a s n w :
  sock_at w a s → sys_ok pend (w_sys w) → sock_wf s → sock_timed_out s = true →
  ∃ s' w', schedi_job_epollsocket_read a n w = Done (take n (rqueue s)) w' ∧
    sock_at w' a s' ∧ sock_count s' = sock_count s ∧
    sk_read_head s' = sk_read_head s ∧
    Z.to_nat (sk_read_tail s') =
      ((Z.to_nat (sk_read_tail s) + Nat.min (sock_count s) n) mod BUFFERSIZE)%nat.
Proof.
  intros Ha Hs Hwf Hto. unfold schedi_job_epollsocket_read.
  do 2 bind_by (by apply sock_get_run). fold (sock_count s).
  destruct (read_copy_run a s n w Ha Hwf) as [Hcopy _].
  set (tail := Z.to_nat (sk_read_tail s)) in *. set (k := Nat.min (sock_count s) n) in *.
  bind_by exact Hcopy.
  assert (∃ w1, schedi_job_epollsocket_count_add a (- Z.of_nat k) false w = Done () w1 ∧
    quiet pend w w1) as (w1 & Hrun1 & Hq).
  { unfold schedi_job_epollsocket_count_add. bind_by (by apply sock_get_run).
    exists w. split; [|done].
    assert (cas_then_update (count_add_body (sk_read_cond s) (- Z.of_nat k) false) a w =
      Done false w) as Hcas.
    { unfold cas_then_update. bind_by (by apply sock_cas_run).
      unfold sock_timed_out in Hto. unfold rmw, count_add_body. rewrite Hto. cbn [fst snd].
      by rewrite set_htc_id, with_sock_same. }
    by bind_by exact Hcas. }
  bind_by exact Hrun1. pose proof (quiet_sock _ _ _ _ _ Hq Ha) as Ha1.
  bind_by (by eapply sock_put_run). set (s' := set_read _ _ _ _).
  destruct (when_activator (sock_count s =? BUFFERSIZE)%nat a s' (with_sock a s' w1))
    as (w2 & Hrun2 & Hb); [apply sock_at_with|].
  bind_by exact Hrun2. exists s', w2. split; [done|].
  split; [unfold sock_at; rewrite (bo_heap _ _ _ _ Hb); apply sock_at_with|].
  split; [done|]. split; [done|]. cbn. by rewrite Nat2Z.id.
Qed.

(** Once a socket has timed out, a read still gives the oldest bytes and moves the
    tail but no longer counts them: unless it reads nothing or the whole buffer, the
    ring is inconsistent from then on (the next read gives the bytes after them, which
    were never received), also after the socket is put back with [epollagain]. *)
Theorem timed_out_read_corrupts pend a s n w :
  sock_at w a s → sys_ok pend (w_sys w) → sock_wf s → sock_timed_out s = true →
  (0 < Nat.min (sock_count s) n < BUFFERSIZE)%nat →
  ∃ s' w', schedi_job_epollsocket_read a n w = Done (take n (rqueue s)) w' ∧
    sock_at w' a s' ∧ sock_count s' = sock_count s ∧ ¬ sock_wf s'.
Proof.
  intros Ha Hs Hwf Hto Hk.
  destruct (timed_out_read_done pend a s n w Ha Hs Hwf Hto)
    as (s' & w' & Hrun & Ha' & Ec & Eh & Et).
  exists s', w'. split; [done|]. split; [done|]. split; [done|]. intros Hwf'.
  pose proof (wf_read_head _ Hwf') as Hh'. rewrite Eh, (wf_read_head _ Hwf), Ec, Et in Hh'.
  set (k := Nat.min (sock_count s) n) in *. pose proof (wf_read_tail _ Hwf) as Ht.
  pose proof (wf_count _ Hwf) as Hct.
  set (tail := Z.to_nat (sk_read_tail s)) in *. set (c := sock_count s) in *.
  rewrite Nat.Div0.add_mod_idemp_l in Hh'.
  assert (∀ i, (i mod BUFFERSIZE = i - BUFFERSIZE * (i / BUFFERSIZE))%nat) as Hmod.
  { intros i. rewrite Nat.Div0.mod_eq. done. }
  rewrite !Hmod in Hh'.
  pose proof (Nat.Div0.mul_div_le (tail + c) BUFFERSIZE).
  pose proof (Nat.Div0.mul_div_le (tail + k + c) BUFFERSIZE).
  set (q1 := ((tail + c) / BUFFERSIZE)%nat) in *.
  set (q2 := ((tail + k + c) / BUFFERSIZE)%nat) in *. unfold BUFFERSIZE in *. lia.
Qed.

(** A new socket. *)
Lemma new_socket_wf j g fd rc wc mem :
  job_index j → length mem = 2048%nat → sock_wf (new_socket j g fd rc wc mem).
Proof.
  intros Hj Hm. destruct (initial_htc_view rc wc) as [Hw Hv].
  assert (sock_count (new_socket j g fd rc wc mem) = 0%nat ∧
    sock_avail (new_socket j g fd rc wc mem) = 1024%nat) as [Ec Ea].
  { unfold sock_count, sock_avail. cbn [sk_htc new_socket].
    rewrite <-k_count_of, <-k_avail_of, Hv. done. }
  split; rewrite ?Ec, ?Ea; try done; cbn.
  - unfold flags_are. by rewrite Hv.
  - unfold BUFFERSIZE. rewrite length_take. lia.
  - unfold BUFFERSIZE. rewrite length_drop. lia.
  - unfold BUFFERSIZE. lia.
Qed.

End transfers.

(** ** Witnesses *)

Section witnesses.
#[local] Existing Instance script_kernel.
#[local] Existing Instance script_laws.
#[local] Existing Instance timeout_build.
#[local] Existing Instance contiguous_jobs.

(** A new socket, and one that received two bytes and has three to send. *)
Definition socket_zero : epollsocket :=
  set_timer 30 77 (new_socket 0 0 9 1 1 (replicate 2048 "000"%byte)).

Definition kernel_zero : script :=
  Script ∅ None [Sent 2; Sent 1] [Got ["a"%byte; "b"%byte; "c"%byte]].
Definition world_zero : world :=
  script_world kernel_zero {[5%nat := HSocket socket_zero]} sys_one.

Lemma usable_zero : usable [] 5%nat socket_zero world_zero.
Proof.
  split; [done|apply sys_one_ok| |done].
  assert (sock_wf (new_socket 0 0 9 1 1 (replicate 2048 "000"%byte))) as [] by
    (apply new_socket_wf; [unfold job_index, SCHEDI_MAXIMUM_JOBS; lia|apply length_replicate]).
  by split.
Qed.

Lemma stream_integrity_witness :
  let cs := [CallWrite ["x"%byte; "y"%byte; "z"%byte]; CallReturn EPOLLIN; CallRead 2;
             CallReturn EPOLLOUT] in
  (∃ w', run_calls 5%nat cs world_zero =
     Done (["x"%byte; "y"%byte; "z"%byte], ["a"%byte; "b"%byte]) w') ∧
  ∃ written given s' io w', run_calls 5%nat cs world_zero = Done (written, given) w' ∧
    after [] 5%nat socket_zero s' io world_zero w' ∧
    streams socket_zero s' io written given.
Proof.
  intros cs. split; [eexists; by vm_compute|]. apply stream_integrity, usable_zero.
Defined.

Lemma schedi_job_epollsocket_write_spec_witness :
  let data := ["x"%byte; "y"%byte; "z"%byte] in
  direct_send socket_zero data world_zero = Sent 2 ∧
  ∃ r s' io w', schedi_job_epollsocket_write 5%nat data world_zero = Done r w' ∧
    after [] 5%nat socket_zero s' io world_zero w' ∧
    wrote socket_zero s' data (direct_send socket_zero data world_zero) r io.
Proof.
  intros data. split; [by vm_compute|]. apply schedi_job_epollsocket_write_spec, usable_zero.
Defined.

(** The socket after two bytes came in, and after it timed out on top. *)
Definition socket_two : epollsocket :=
  set_htc (sock_run [SCount 1 2 false] (initial_htc 1 1)).1
    (set_read 2 0 (sk_read_buffer socket_zero) socket_zero).
Definition socket_late : epollsocket :=
  set_htc (sock_run [SCount 1 2 false; STimeout] (initial_htc 1 1)).1 socket_two.

Definition world_of (s : epollsocket) : world :=
  script_world kernel_zero {[5%nat := HSocket s]} sys_one.

Lemma socket_two_wf : sock_wf socket_two ∧ sock_wf socket_late.
Proof.
  split; split; try (by vm_compute); try (cbn; lia);
    try (unfold job_index, SCHEDI_MAXIMUM_JOBS; cbn; lia);
    change (sock_count _) with 2%nat; change (sock_avail _) with 1024%nat;
    unfold BUFFERSIZE; lia.
Qed.

Lemma usable_two : usable [] 5%nat socket_two (world_of socket_two).
Proof. split; [done|apply sys_one_ok|apply socket_two_wf|by vm_compute]. Qed.


Lemma ready_guarantee_witness :
  (∃ bs w', schedi_job_epollsocket_read 5%nat 1 (world_of socket_two) = Done bs w' ∧
     bs = take 1 (rqueue socket_two) ∧ length bs = 1%nat) ∧
  (∃ r w', schedi_job_epollsocket_write 5%nat ["x"%byte] (world_of socket_two) = Done r w' ∧
     r = match direct_send socket_two ["x"%byte] (world_of socket_two) with
         | SendError => -1 | _ => 1 end).
Proof.
  apply (ready_guarantee [] 5%nat socket_two false 1 ["x"%byte] (world_of socket_two));
    [apply usable_two|split; by vm_compute|by vm_compute..].
Defined.

Lemma timed_out_read_corrupts_witness :
  ∃ s' w', schedi_job_epollsocket_read 5%nat 1 (world_of socket_late) =
      Done (take 1 (rqueue socket_late)) w' ∧
    sock_at w' 5%nat s' ∧ sock_count s' = sock_count socket_late ∧ ¬ sock_wf s'.
Proof.
  apply (timed_out_read_corrupts [] 5%nat socket_late 1 (world_of socket_late));
    [done|apply sys_one_ok|apply socket_two_wf|by vm_compute|].
  change (sock_count socket_late) with 2%nat. unfold BUFFERSIZE. lia.
Defined.
End witnesses.
