(* ===== verification/SockLife.v ===== *)
(** * Epoll sockets: readiness of the job, references, creation

    How a socket's readiness reaches its job, and the life of a socket: it is created
    with two references, each side drops one, and the last one frees it. *)

From Stdlib Require Import Strings.Byte.
From S2P Require Export Access SockStream.

Local Open Scope Z_scope.

Section life.
Context `{BuildConfig, JobAddress, KernelLaws}.

(** ** The job of a socket *)

Definition ready_flag (x : Z) : bool := has x SCHEDI_JOB_EPOLLSOCKET_READY.

Lemma timer_part a s w :
  sock_at w a s →
  ∃ k, when ext_timeout (schedi_job_epollsocket_timeout_reset a ≫= λ _, mret ()) w =
    Done () (put_kernel k w).
Proof.
  intros Ha. destruct ext_timeout; cbn [when].
  - unfold schedi_job_epollsocket_timeout_reset. eexists.
    bind_by (do 2 bind_by (by apply sock_get_run); by rewrite call_run). done.
  - exists (w_kernel w). by rewrite put_kernel_id.
Qed.

(** C19: when a socket of the job's current generation becomes READY or stops being so, and
    the job can be accessed and its count stays in 0..15, the job's [available_sockets]
    moves by one, its readiness bits follow, and if that completes the readiness set of
    a job that was not READY (and the cache has room) the job is READY and cached; its
    access count is as before and no other job changes. *)
Theorem readiness_reaches_job pend a s j old new w :
  sock_at w a s → sys_ok pend (w_sys w) → job_index (sk_job s) →
  job_at (w_sys w) (sk_job s) j → gen j = sk_gen s →
  op_guard OpMarkAccess (view_of (meta_flag j)) = true →
  ready_flag old ≠ ready_flag new →
  let d := if ready_flag new then 1 else -1 in
  in_count (v_avsock (view_of (meta_flag j)) + d) = true →
  ∃ w' j', schedi_job_epollsocket_jobready_update a old new w = Done () w' ∧
    w_heap w' = w_heap w ∧ sys_ok pend (w_sys w') ∧
    same_elsewhere (sk_job s) (w_sys w) (w_sys w') ∧
    moved_counts (sk_job s) j j' d 0 (w_sys w) (w_sys w').
Proof.
  intros Ha Hs Hi Hj Hgen Hg Hne d Hc. unfold schedi_job_epollsocket_jobready_update.
  destruct (timer_part a s w Ha) as [k Hk]. bind_by exact Hk.
  fold (ready_flag old) (ready_flag new). rewrite (proj2 (eqb_false_iff _ _) Hne). fold d.
  destruct (accessed_update_done pend (sk_job s) j (w_sys w) d 0 Hs Hi Hj Hg Hc)
    as (w1 & s2 & s3 & j' & Hr1 & Hr2 & Hr3 & Hs3 & He & Hm).
  { apply in_count_spec. rewrite Z.add_0_r. cbn [view_of v_wait].
    pose proof (field_get_range (meta_flag j) SCHEDI_JOB_METAFLAG_WAIT_SHIFT 4 ltac:(lia)).
    unfold SCHEDI_JOB_METAFLAG_GETWAIT. lia. }
  set (wk := put_kernel k w).
  assert (schedi_job_epollsocket_accessjob a wk =
    Done true (put_sys (with_job (sk_job s) (set_meta w1 j) (w_sys w)) wk)) as Hacc.
  { unfold schedi_job_epollsocket_accessjob. bind_by (by apply sock_get_run).
    bind_by (by apply net_sys_run). cbn [Z.eqb].
    bind_by (by apply net_sys_run, job_get_run, (job_at_with _ _ _ j)).
    bind_by (by apply sock_get_run). cbn [gen set_meta]. rewrite Hgen, Z.eqb_refl. done. }
  bind_by exact Hacc. cbn [negb]. bind_by (by apply sock_get_run).
  bind_by (by apply net_sys_run). bind_by (by apply net_sys_run).
  eexists _, j'. split; [done|]. done.
Qed.

(** A socket whose job can not be accessed (it is UNSTABLE, WLLDESTROY, or at 15
    accesses) or belongs to another generation by now changes nothing in the scheduler:
    a recycled slot is never touched; the readiness change of an inaccessible job is
    dropped. *)
Theorem stale_socket_leaves_scheduler pend a s j old new w :
  sock_at w a s → sys_ok pend (w_sys w) → job_at (w_sys w) (sk_job s) j →
  op_guard OpMarkAccess (view_of (meta_flag j)) = false ∨ gen j ≠ sk_gen s →
  ∃ w', schedi_job_epollsocket_jobready_update a old new w = Done () w' ∧
    w_sys w' = w_sys w ∧ w_heap w' = w_heap w.
Proof.
  intros Ha Hs Hj Hbad. unfold schedi_job_epollsocket_jobready_update.
  destruct (timer_part a s w Ha) as [k Hk]. bind_by exact Hk. set (wk := put_kernel k w).
  destruct (Bool.eqb _ _); [by eexists|].
  pose proof (ok_words _ (ok_base _ _ Hs) _ _ Hj) as Hword.
  assert (schedi_job_epollsocket_accessjob a wk = Done false wk) as Hacc.
  { unfold schedi_job_epollsocket_accessjob. bind_by (by apply sock_get_run).
    pose proof (mark_run OpMarkAccess _ _ _ _ eq_refl Hj) as Hrun.
    cbn [op_body] in Hrun.
    destruct (meta_op_refines_core OpMarkAccess (meta_flag j) Hword) as [Hw1 Hr].
    cbn [op_body] in Hr, Hw1. bind_by (by apply net_sys_run).
    destruct (op_guard OpMarkAccess (view_of (meta_flag j))) eqn:Hg.
    - destruct Hr as [Hr _]. rewrite Hr. cbn [Z.eqb].
      set (j1 := set_meta (rmw mark_access_body (meta_flag j)).2 j).
      assert (job_at (with_job (sk_job s) j1 (w_sys w)) (sk_job s) j1) as Hj1
        by by eapply job_at_with.
      bind_by (by apply net_sys_run, job_get_run, Hj1). bind_by (by apply sock_get_run).
      destruct Hbad as [?|Hgen]; [congruence|]. cbn [j1 gen set_meta].
      rewrite (proj2 (Z.eqb_neq _ _) Hgen).
      bind_by (by apply net_sys_run, (mark_run OpUnmarkAccess _ _ _ _ eq_refl Hj1)).
      cbn [op_body]. change (meta_flag j1) with (rmw mark_access_body (meta_flag j)).2.
      rewrite (access_round_trip _ Hg). cbn [snd]. unfold j1.
      rewrite with_job_twice, set_meta_meta, set_meta_id, with_job_same by done.
      unfold wk. by destruct w.
    - destruct Hr as [Hr Hw]. rewrite (proj2 (Z.eqb_neq _ _) Hr), Hw.
      rewrite set_meta_id, with_job_same by done. unfold wk. by destruct w. }
  bind_by exact Hacc. by eexists.
Qed.

(** ** References *)

Definition done_op (epollside : bool) : sock_op := if epollside then SDoneEpoll else SDoneJob.

Lemma done_cas_done pend a s side w :
  sock_at w a s → sys_ok pend (w_sys w) → word64 (sk_htc s) → job_index (sk_job s) →
  ∃ x w', done_cas a side w = Done () w' ∧ word64 x ∧
    sock_view_of x = sock_effect (done_op side) (sock_view_of (sk_htc s)) ∧
    quiet pend (with_sock a (set_htc x s) w) w'.
Proof.
  intros Ha Hs Hw Hi. set (op := done_op side).
  assert (in_build op = true ∧ sock_in_range op (sock_view_of (sk_htc s)) ∧
    sock_guard op (sock_view_of (sk_htc s)) = true) as (Hb & Hr & Hg) by by destruct side.
  destruct (cas_then_update_quiet op a s pend w Ha Hs Hw Hi Hb Hr) as (b & w' & Hrun & _ & Hq).
  destruct (sock_op_refines_core op (sk_htc s) Hb Hw Hr) as [Hx Hv]. rewrite Hg in Hv.
  eexists _, w'. split; [|split; [done|split; [apply Hv|done]]].
  destruct side; unfold done_cas, schedi_job_epollsocket_done_cas_epollside,
    schedi_job_epollsocket_done_cas_jobside; by bind_by exact Hrun.
Qed.

Lemma done_drop_run a s w :
  sock_at w a s →
  done_drop a w =
    if sk_fall s =? 1 then Done 0 (put_heap (delete a (w_heap w)) w)
    else Done (-1) (with_sock a (set_fall (sk_fall s - 1) s) w).
Proof.
  intros Ha. unfold done_drop. bind_by (by apply sock_get_run). bind_by (by apply sock_put_run).
  destruct (sk_fall s =? 1); [|done].
  bind_by (by eapply free_run, sock_at_with).
  unfold with_sock, put_heap. cbn. by rewrite delete_insert_eq.
Qed.

(** The steps of the two sides' [done_]: the loop on the word (with its access to the
    job), and the drop of the reference. *)
Inductive ref_step : Type := RCas (epollside : bool) | RDrop.

Fixpoint run_refs (a : addr) (l : list ref_step) : M world (list Z) :=
  match l with
  | [] => mret []
  | RCas side :: l => done_cas a side ≫= λ _, run_refs a l
  | RDrop :: l => r ← done_drop a; rs ← run_refs a l; mret (r :: rs)
  end.

#[local] Instance ref_step_eq_dec : EqDecision ref_step.
Proof. solve_decision. Defined.

Definition drops (l : list ref_step) : nat :=
  length (filter (λ x, x = RDrop) l).

(** Whoever touches the word drops a reference later. *)
Fixpoint holds_reference (l : list ref_step) : Prop :=
  match l with
  | [] => True
  | RCas _ :: l => (0 < drops l)%nat ∧ holds_reference l
  | RDrop :: l => holds_reference l
  end.

Lemma run_refs_done pend a l s w :
  sock_at w a s → sys_ok pend (w_sys w) → word64 (sk_htc s) → job_index (sk_job s) →
  holds_reference l → (0 < drops l)%nat → sk_fall s = Z.of_nat (drops l) →
  ∃ w', run_refs a l w = Done (replicate (drops l - 1) (-1) ++ [0]) w' ∧
    w_heap w' = delete a (w_heap w) ∧ sys_ok pend (w_sys w').
Proof.
  revert s w. induction l as [|[side|] l IH]; intros s w Ha Hs Hw Hi Hl Hd Hf;
    cbn [run_refs holds_reference] in *; [cbn in Hd; lia| |].
  - destruct Hl as [Hd' Hl].
    destruct (done_cas_done pend a s side w Ha Hs Hw Hi) as (x & w1 & Hrun & Hx & _ & Hq).
    bind_by exact Hrun.
    destruct (IH (set_htc x s) w1) as (w' & Hrun' & Hh & Hs'); try done.
    { eapply quiet_sock; [exact Hq|apply sock_at_with]. }
    { apply Hq. }
    exists w'. split; [exact Hrun'|]. split; [|done].
    rewrite Hh, (q_heap _ _ _ Hq). cbn. by rewrite delete_insert_eq.
  - change (drops (RDrop :: l)) with (S (drops l)) in *.
    pose proof (done_drop_run a s w Ha) as Hdrop.
    destruct (decide (drops l = 0)%nat) as [E|E].
    + assert ((sk_fall s =? 1) = true) as E1 by (apply Z.eqb_eq; lia). rewrite E1 in Hdrop.
      bind_by exact Hdrop.
      assert (l = []) as ->.
      { destruct l as [|[]]; [done| |]; [cbn [holds_reference] in Hl; change (drops (RCas epollside :: l)) with (drops l) in E; lia|].
        change (drops (RDrop :: l)) with (S (drops l)) in E. lia. }
      bind_by done. rewrite E. by eexists.
    + assert ((sk_fall s =? 1) = false) as E1 by (apply Z.eqb_neq; lia). rewrite E1 in Hdrop.
      bind_by exact Hdrop.
      destruct (IH (set_fall (sk_fall s - 1) s) (with_sock a (set_fall (sk_fall s - 1) s) w))
        as (w' & Hrun' & Hh & Hs'); try done; [apply sock_at_with|lia|cbn; lia|].
      bind_by exact Hrun'. exists w'. split; [|split; [|done]].
      * replace (S (drops l) - 1)%nat with (S (drops l - 1)) by lia. done.
      * rewrite Hh. cbn. by rewrite delete_insert_eq.
Qed.

(** C20: when the job and the epoll side each call [done_] once on a socket with two
    references, then however their steps interleave the socket is alive at every step
    that touches it, the first drop returns -1, the second returns 0 and frees it, and
    nothing else on the heap is freed. *)
Theorem done_frees_once pend a l s w :
  merge [RCas false; RDrop] [RCas true; RDrop] l →
  sock_at w a s → sys_ok pend (w_sys w) → sock_wf s → sk_fall s = 2 →
  ∃ w', run_refs a l w = Done [-1; 0] w' ∧ w_heap w' = delete a (w_heap w) ∧
    sys_ok pend (w_sys w').
Proof.
  intros Hm Ha Hs Hwf Hf.
  assert (holds_reference l ∧ drops l = 2%nat) as [Hl Hd].
  { repeat match goal with H : merge _ _ _ |- _ => inversion H; subst; clear H end;
      vm_compute; repeat split; lia. }
  destruct (run_refs_done pend a l s w Ha Hs (wf_word _ Hwf) (wf_job _ Hwf) Hl)
    as (w' & Hrun & Hpost); [lia|by rewrite Hf, Hd|].
  exists w'. rewrite Hd in Hrun. done.
Qed.

(** A drop too many - the epoll side releases its reference twice, say for an event of
    the socket and one of its timer from the same [epoll_wait] - frees the socket under
    the job: the job's next call on it is a use after free. *)
Theorem double_release_frees_under_job pend a s w :
  sock_at w a s → sys_ok pend (w_sys w) → sock_wf s → sk_fall s = 2 →
  ∃ w', run_refs a [RCas true; RDrop; RCas true; RDrop] w = Done [-1; 0] w' ∧
    schedi_job_epollsocket_read a 1 w' = Undef ∧ schedi_job_epollsocket_done a w' = Undef.
Proof.
  intros Ha Hs Hwf Hf.
  destruct (run_refs_done pend a [RCas true; RDrop; RCas true; RDrop] s w Ha Hs
    (wf_word _ Hwf) (wf_job _ Hwf)) as (w' & Hrun & Hh & _); 
    [vm_compute; repeat split; lia|vm_compute; lia|by rewrite Hf|].
  exists w'. split; [done|].
  assert (w_heap w' !! a = None) as Hnone by (rewrite Hh; apply lookup_delete_eq).
  split; unfold schedi_job_epollsocket_read, schedi_job_epollsocket_done,
    schedi_job_epollsocket_done_, done_cas, schedi_job_epollsocket_done_cas_jobside,
    cas_then_update, sock_cas, sock_get, reads, mbind, M_bind; by rewrite Hnone.
Qed.
End life.

(** ** Witnesses *)

Section witnesses.
#[local] Existing Instance script_kernel.
#[local] Existing Instance script_laws.
#[local] Existing Instance timeout_build.
#[local] Existing Instance contiguous_jobs.

Lemma job_index_zero : job_index 0.
Proof. unfold job_index, SCHEDI_MAXIMUM_JOBS. lia. Qed.

Lemma readiness_reaches_job_witness :
  ∃ w' j', schedi_job_epollsocket_jobready_update 5%nat 0 SCHEDI_JOB_EPOLLSOCKET_READY world_zero =
      Done () w' ∧ w_heap w' = w_heap world_zero ∧ sys_ok [] (w_sys w') ∧
    same_elsewhere 0 (w_sys world_zero) (w_sys w') ∧
    moved_counts 0 job_one j' 1 0 (w_sys world_zero) (w_sys w').
Proof.
  apply (readiness_reaches_job [] 5%nat socket_zero job_one 0 SCHEDI_JOB_EPOLLSOCKET_READY
    world_zero); [done|apply sys_one_ok|apply job_index_zero|apply sys_one_job|done| | |];
    by vm_compute.
Defined.

(** A socket made for an earlier job of the slot. *)
Definition socket_old : epollsocket := new_socket 0 7 9 1 1 (replicate 2048 "000"%byte).

Lemma stale_socket_leaves_scheduler_witness :
  ∃ w', schedi_job_epollsocket_jobready_update 5%nat 0 SCHEDI_JOB_EPOLLSOCKET_READY
      (world_of socket_old) = Done () w' ∧
    w_sys w' = w_sys (world_of socket_old) ∧ w_heap w' = w_heap (world_of socket_old).
Proof.
  apply (stale_socket_leaves_scheduler [] 5%nat socket_old job_one);
    [done|apply sys_one_ok|apply sys_one_job|]. right. discriminate.
Defined.

Lemma done_frees_once_witness :
  ∃ w', run_refs 5%nat [RCas true; RCas false; RDrop; RDrop] world_zero = Done [-1; 0] w' ∧
    w_heap w' = delete 5%nat (w_heap world_zero) ∧ sys_ok [] (w_sys w').
Proof.
  apply (done_frees_once [] 5%nat _ socket_zero);
    [|done|apply sys_one_ok|apply usable_zero|done].
  apply merge_right, merge_left, merge_left, merge_right, merge_nil.
Defined.

Lemma double_release_frees_under_job_witness :
  ∃ w', run_refs 5%nat [RCas true; RDrop; RCas true; RDrop] world_zero = Done [-1; 0] w' ∧
    schedi_job_epollsocket_read 5%nat 1 w' = Undef ∧
    schedi_job_epollsocket_done 5%nat w' = Undef.
Proof.
  apply (double_release_frees_under_job [] 5%nat socket_zero);
    [done|apply sys_one_ok|apply usable_zero|done].
Defined.
End witnesses.
