(* ===== verification/EpollTool.v ===== *)
(** * Waiting for a descriptor once (src/src/jobs.c: the epoll tool)

    A request ties a descriptor to a job: [schedi_job_tool_epoll] allocates it, counts
    it in the job's [waiting_count] and registers it; when the descriptor fires the
    epoll side calls [schedi_job_epoll_request_return], which takes the count back. *)

From S2P Require Export SockLife.

Local Open Scope Z_scope.

Section operations.
Context `{BuildConfig, JobAddress, Kernel}.

Definition bump_total (l : epoll_requests_list) : epoll_requests_list :=
  RequestsList (u32 (total_req l + 1)) (ret_count l) (err_count l).
Definition bump_return (error : bool) (l : epoll_requests_list) : epoll_requests_list :=
  if error then RequestsList (total_req l) (ret_count l) (u32 (err_count l + 1))
  else RequestsList (total_req l) (u32 (ret_count l + 1)) (err_count l).

(** An atomic add on a counter of a job's list. *)
Definition on_list (f : epoll_requests_list → epoll_requests_list) (i : nat) : M sys unit :=
  job_put (λ j, set_epoll_list (f (epoll_list j)) j) i.

(** The waiting loop of [request_return]: it goes on while the owner refuses access
    without being UNSTABLE.  Between two attempts other threads act on the scheduler;
    [others] lists what they do, and when nobody acts any more the loop spins for ever. *)
Fixpoint spin_access (others : list (M sys unit)) (owner : nat) : M sys Z :=
  bans ← schedi_job_mark_access owner;
  if negb (bans =? 0) && negb (has bans SCHEDI_JOB_METAFLAG_UNSTABLE) then
    match others with
    | [] => stuck
    | act :: others => act ≫= λ _, spin_access others owner
    end
  else mret bans.

Definition schedi_job_epoll_request_return (others : list (M sys unit)) (req : addr)
    (error : bool) : M world Z :=
  owner ← req_get rq_owner req;
  bans ← on_sys (spin_access others owner);
  if negb (bans =? 0) then mret (-1)
  else
    g ← on_sys (job_get gen owner);
    g' ← req_get rq_job_gen req;
    if negb (g =? g') then on_sys (schedi_job_unmark_access owner) ≫= λ _, mret (-1)
    else
      l ← req_get rq_list req;
      on_sys (on_list (bump_return error) l) ≫= λ _,
      on_sys (schedi_job_meta_flag_cas_update owner 0 (-1) 0 0 0 false) ≫= λ _,
      on_sys (schedi_job_unmark_access owner) ≫= λ _, mret 0.

(** The second half of [schedi_job_tool_epoll]: the request [req] is counted. *)
Definition tool_epoll_register (j : nat) (socketfd events : Z) (req : addr) : M world Z :=
  data ← malloc (HData (Data SCHEDI_EPOLL_DATA_JOB req));
  match data with
  | None =>
      on_sys (schedi_job_meta_flag_cas_update j 0 (-1) 0 0 0 false) ≫= λ _,
      free req ≫= λ _, mret (-2)
  | Some data =>
      r ← schedi_epoll_add socketfd data events;
      if r <? 0 then
        on_sys (schedi_job_meta_flag_cas_update j 0 (-1) 0 0 0 false) ≫= λ _,
        free req ≫= λ _, mret (-3)
      else mret 0
  end.

Definition schedi_job_tool_epoll (j : nat) (socketfd events : Z) : M world Z :=
  g ← on_sys (job_get gen j);
  req ← malloc (HRequest (Request socketfd j g j));
  match req with
  | None => mret (-1)
  | Some req =>
      on_sys (on_list bump_total j) ≫= λ _,
      r ← on_sys (schedi_job_meta_flag_cas_update j 0 1 0 0 0 false);
      if negb (r =? 0) then free req ≫= λ _, mret (-4)
      else tool_epoll_register j socketfd events req
  end.

(** [free(list)]: for lists that are objects of their own; a job's own list is a part of
    the job array and no address of the heap. *)
Definition schedi_job_epoll_requests_list_destroy (list : option addr) : M world unit :=
  match list with Some a => free a | None => mret () end.
End operations.

(** ** Specifications *)

Section specs.
Context `{BuildConfig, JobAddress, KernelLaws}.

Definition req_at (w : world) (a : addr) (r : epoll_request) : Prop :=
  w_heap w !! a = Some (HRequest r).

Lemma req_get_run {A} (f : epoll_request → A) a r w :
  req_at w a r → req_get f a w = Done (f r) w.
Proof. unfold req_at, req_get, reads. by intros ->. Qed.

(** One entry into the loop is enough when nobody holds the owner back. *)
Lemma spin_access_once others i s bans s' :
  schedi_job_mark_access i s = Done bans s' →
  bans = 0 ∨ has bans SCHEDI_JOB_METAFLAG_UNSTABLE = true →
  spin_access others i s = Done bans s'.
Proof.
  intros Hrun Hb. destruct others; cbn [spin_access]; bind_by exact Hrun.
  all: destruct Hb as [->|Hb]; [done|]. all: by rewrite Hb, andb_false_r.
Qed.

Lemma on_list_run f i j s :
  job_at s i j →
  on_list f i s = Done () (with_job i (set_epoll_list (f (epoll_list j)) j) s).
Proof. exact (job_put_run (λ j, set_epoll_list (f (epoll_list j)) j) i j s). Qed.

Lemma set_list_meta l x j : set_epoll_list l (set_meta x j) = set_meta x (set_epoll_list l j).
Proof. done. Qed.

Lemma mark_access_word i j s w1 :
  job_at s i j → schedi_job_mark_access i s = Done 0 (with_job i (set_meta w1 j) s) →
  rmw mark_access_body (meta_flag j) = (0, w1).
Proof.
  intros Hj Hrun. pose proof (mark_run OpMarkAccess _ _ _ _ eq_refl Hj) as Hrun'.
  cbn [op_body] in Hrun'. rewrite Hrun in Hrun'. injection Hrun' as Hr Hs.
  destruct (rmw mark_access_body (meta_flag j)) as [r x]. cbn [fst snd] in *. subst r.
  f_equal. apply (f_equal (λ l, l !! i)) in Hs.
  assert (i < length (s_jobs s))%nat as Hlt by by eapply lookup_lt_Some.
  rewrite !list_lookup_insert_eq in Hs by done. by injection Hs as <-.
Qed.

Lemma in_count_avsock w : in_count (v_avsock (view_of w) + 0) = true.
Proof.
  apply in_count_spec. rewrite Z.add_0_r. cbn [view_of v_avsock].
  unfold SCHEDI_JOB_METAFLAG_GETAVSOCK.
  pose proof (field_get_range w SCHEDI_JOB_METAFLAG_AVSOCK_SHIFT 4 ltac:(lia)). lia.
Qed.

(** The three scheduler steps of a request that returns. *)
Lemma request_steps pend i j s error :
  sys_ok pend s → job_index i → job_at s i j →
  op_guard OpMarkAccess (view_of (meta_flag j)) = true → 1 <= v_wait (view_of (meta_flag j)) →
  let j0 := set_epoll_list (bump_return error (epoll_list j)) j in
  ∃ s1 s1' s2 s3 j', schedi_job_mark_access i s = Done 0 s1 ∧
    job_get gen i s1 = Done (gen j) s1 ∧
    on_list (bump_return error) i s1 = Done () s1' ∧
    schedi_job_meta_flag_cas_update i 0 (-1) 0 0 0 false s1' = Done 0 s2 ∧
    schedi_job_unmark_access i s2 = Done 0 s3 ∧
    sys_ok pend s3 ∧ same_elsewhere i s s3 ∧ moved_counts i j0 j' 0 (-1) s s3.
Proof.
  intros Hs Hi Hj Hg Hw j0. set (s0 := with_job i j0 s).
  assert (job_at s0 i j0) as Hj0 by by eapply job_at_with.
  pose proof (ok_words _ (ok_base _ _ Hs) _ _ Hj) as Hword.
  assert (sys_ok pend s0) as Hs0 by by eapply with_job_ok.
  destruct (accessed_update_done pend i j0 s0 0 (-1) Hs0 Hi Hj0 Hg)
    as (w1 & s2 & s3 & j' & Hr1 & Hr2 & Hr3 & Hs3 & He & Hm);
    [apply in_count_avsock| |].
  { apply in_count_spec. pose proof (field_get_range (meta_flag j)
      SCHEDI_JOB_METAFLAG_WAIT_SHIFT 4 ltac:(lia)) as Hrange.
    cbn [view_of v_wait j0 meta_flag set_epoll_list] in *.
    unfold SCHEDI_JOB_METAFLAG_GETWAIT in *. lia. }
  apply (mark_access_word _ _ _ _ Hj0) in Hr1. change (meta_flag j0) with (meta_flag j) in Hr1.
  pose proof (mark_run OpMarkAccess _ _ _ _ eq_refl Hj) as Hrun. cbn [op_body] in Hrun.
  rewrite Hr1 in Hrun. cbn [fst snd] in Hrun.
  exists (with_job i (set_meta w1 j) s), (with_job i (set_meta w1 j0) s0), s2, s3, j'.
  assert (job_at (with_job i (set_meta w1 j) s) i (set_meta w1 j)) as Hj1
    by by eapply job_at_with.
  split; [done|]. split; [exact (job_get_run gen i _ _ Hj1)|].
  split.
  { rewrite (on_list_run _ _ _ _ Hj1), with_job_twice. unfold s0. by rewrite with_job_twice. }
  split; [done|]. split; [done|]. split; [done|]. split; [|exact Hm].
  eapply same_elsewhere_trans; [apply with_job_elsewhere|exact He].
Qed.

Lemma request_return_done pend others a r j error w :
  req_at w a r → sys_ok pend (w_sys w) → job_index (rq_owner r) → rq_list r = rq_owner r →
  job_at (w_sys w) (rq_owner r) j → gen j = rq_job_gen r →
  op_guard OpMarkAccess (view_of (meta_flag j)) = true → 1 <= v_wait (view_of (meta_flag j)) →
  ∃ w' j', schedi_job_epoll_request_return others a error w = Done 0 w' ∧
    w' = put_sys (w_sys w') w ∧ sys_ok pend (w_sys w') ∧
    same_elsewhere (rq_owner r) (w_sys w) (w_sys w') ∧
    moved_counts (rq_owner r) (set_epoll_list (bump_return error (epoll_list j)) j) j' 0 (-1)
      (w_sys w) (w_sys w').
Proof.
  intros Ha Hs Hi Hlist Hj Hgen Hg Hw. unfold schedi_job_epoll_request_return.
  destruct (request_steps pend (rq_owner r) j (w_sys w) error Hs Hi Hj Hg Hw)
    as (s1 & s1' & s2 & s3 & j' & Hr1 & Hrg & Hrl & Hr2 & Hr3 & Hs3 & He & Hm).
  bind_by (by apply req_get_run).
  bind_by (by eapply net_sys_run, spin_access_once; [exact Hr1|left]). cbn [Z.eqb negb].
  bind_by (by apply net_sys_run). bind_by (by apply req_get_run).
  rewrite Hgen, Z.eqb_refl. cbn [negb]. bind_by (by apply req_get_run). rewrite Hlist.
  bind_by (by apply net_sys_run). bind_by (by apply net_sys_run). bind_by (by apply net_sys_run).
  eexists _, j'. split; [done|]. done.
Qed.

(** A request that returns to the job that made it (same generation, accessible, with
    requests outstanding) returns 0: it counts in [ret_count] or [err_count], takes the
    job's [waiting_count] down by one, and if that completes the readiness set of a job
    that was not READY the job is READY and cached (room given); nothing else changes. *)
Theorem schedi_job_epoll_request_return_spec pend others a r j error w :
  req_at w a r → sys_ok pend (w_sys w) → job_index (rq_owner r) → rq_list r = rq_owner r →
  job_at (w_sys w) (rq_owner r) j → gen j = rq_job_gen r →
  op_guard OpMarkAccess (view_of (meta_flag j)) = true → 1 <= v_wait (view_of (meta_flag j)) →
  ∃ w' j', schedi_job_epoll_request_return others a error w = Done 0 w' ∧
    w' = put_sys (w_sys w') w ∧ sys_ok pend (w_sys w') ∧
    same_elsewhere (rq_owner r) (w_sys w) (w_sys w') ∧
    moved_counts (rq_owner r) (set_epoll_list (bump_return error (epoll_list j)) j) j' 0 (-1)
      (w_sys w) (w_sys w').
Proof. apply request_return_done. Qed.

(** A request whose owner's slot was torn down (it is UNSTABLE, or of another
    generation by now) is ignored: it returns -1 and the scheduler is as before. *)
Theorem stale_request_ignored pend others a r j error w :
  req_at w a r → sys_ok pend (w_sys w) → job_at (w_sys w) (rq_owner r) j →
  v_unstable (view_of (meta_flag j)) = true ∨
    op_guard OpMarkAccess (view_of (meta_flag j)) = true ∧ gen j ≠ rq_job_gen r →
  schedi_job_epoll_request_return others a error w = Done (-1) w.
Proof.
  intros Ha Hs Hj Hbad. unfold schedi_job_epoll_request_return.
  bind_by (by apply req_get_run).
  pose proof (ok_words _ (ok_base _ _ Hs) _ _ Hj) as Hword.
  pose proof (mark_run OpMarkAccess _ _ _ _ eq_refl Hj) as Hrun. cbn [op_body] in Hrun.
  destruct (meta_op_refines_core OpMarkAccess (meta_flag j) Hword) as [Hw1 Hr].
  cbn [op_body] in Hr, Hw1.
  destruct Hbad as [Hun|[Hg Hgen]].
  - assert (op_guard OpMarkAccess (view_of (meta_flag j)) = false) as Hg
      by (cbn [op_guard]; by rewrite Hun).
    rewrite Hg in Hr. destruct Hr as [Hne Hw].
    rewrite Hw, set_meta_id, with_job_same in Hrun by done.
    destruct (mark_access_bans (meta_flag j)) as [Hbun _]. rewrite Hun in Hbun.
    bind_by (by eapply net_sys_run, spin_access_once; [exact Hrun|right]).
    rewrite (proj2 (Z.eqb_neq _ _) Hne). cbn [negb]. by destruct w.
  - rewrite Hg in Hr. destruct Hr as [Hr _]. rewrite Hr in Hrun.
    set (j1 := set_meta (rmw mark_access_body (meta_flag j)).2 j) in *.
    assert (job_at (with_job (rq_owner r) j1 (w_sys w)) (rq_owner r) j1) as Hj1
      by by eapply job_at_with.
    bind_by (by eapply net_sys_run, spin_access_once; [exact Hrun|left]). cbn [Z.eqb negb].
    bind_by (by apply net_sys_run, job_get_run, Hj1). bind_by (by apply req_get_run).
    change (gen j1) with (gen j). rewrite (proj2 (Z.eqb_neq _ _) Hgen). cbn [negb].
    bind_by (by apply net_sys_run, (mark_run OpUnmarkAccess _ _ _ _ eq_refl Hj1)).
    cbn [op_body]. change (meta_flag j1) with (rmw mark_access_body (meta_flag j)).2.
    rewrite (access_round_trip _ Hg). cbn [snd]. unfold j1.
    rewrite with_job_twice, set_meta_meta, set_meta_id, with_job_same by done. by destruct w.
Qed.

(** ** Making a request *)

(** The two epoll instances are the same ones. *)
Definition same_instances (w w' : world) : Prop :=
  w_epfd_read w' = w_epfd_read w ∧ w_epfd_write w' = w_epfd_write w.

Definition mallocs_succeed : Prop := ∀ k, (sys_malloc k).1 = true.

(** Whether the next [malloc] succeeds, and the kernel after it. *)
Definition malloc_ok (k : kernel) : bool := (sys_malloc k).1.
Definition malloc_next (k : kernel) : kernel := (sys_malloc k).2.

Lemma malloc_done o w :
  malloc_ok (w_kernel w) = true →
  let k := malloc_next (w_kernel w) in
  ∃ a, malloc o w = Done (Some a) (put_heap (<[a := o]> (w_heap w)) (put_kernel k w)) ∧
    w_heap w !! a = None.
Proof.
  intros Hok. exists (fresh (dom (w_heap w))). unfold malloc. bind_by (by rewrite call_run).
  unfold malloc_ok in Hok. rewrite Hok. split; [done|]. apply not_elem_of_dom, is_fresh.
Qed.

Lemma malloc_null o w :
  malloc_ok (w_kernel w) = false →
  malloc o w = Done None (put_kernel (malloc_next (w_kernel w)) w).
Proof. intros Hok. unfold malloc. bind_by (by rewrite call_run). unfold malloc_ok in Hok. by rewrite Hok. Qed.

Lemma malloc_watch w e f : interest (malloc_next (w_kernel w)) e f = watched w e f.
Proof. apply law_malloc. Qed.

Lemma malloc_run o w :
  mallocs_succeed →
  ∃ a k, malloc o w = Done (Some a) (put_heap (<[a := o]> (w_heap w)) (put_kernel k w)) ∧
    w_heap w !! a = None ∧ ∀ e f, interest k e f = watched w e f.
Proof.
  intros Hm. destruct (malloc_done o w (Hm _)) as (a & Hr & Hf). exists a, (malloc_next (w_kernel w)).
  split; [done|]. split; [done|]. apply malloc_watch.
Qed.

(** An update of the counts of a job that accepts READY, from the job itself. *)
Lemma counted_update pend i j s sd wd :
  sys_ok pend s → job_index i → job_at s i j →
  v_unstable (view_of (meta_flag j)) || v_wlldestroy (view_of (meta_flag j)) = false →
  ∃ r s', schedi_job_meta_flag_cas_update i sd wd 0 0 0 false s = Done r s' ∧
    sys_ok pend s' ∧ same_elsewhere i s s' ∧
    if in_count (v_avsock (view_of (meta_flag j)) + sd) && in_count (v_wait (view_of (meta_flag j)) + wd)
    then r = 0 ∧ ∃ j', moved_counts i j j' sd wd s s'
    else r ≠ 0 ∧ s' = s.
Proof.
  intros Hs Hi Hj Hban. pose proof (ok_base _ _ Hs) as Hb.
  pose proof (ok_words _ Hb _ _ Hj) as Hword.
  destruct (cas_update_done i j s sd wd 0 false Hj Hword (ok_cache _ Hb) (ok_mutex _ Hb))
    as (r & s' & Hrun & Hu).
  exists r, s'. split; [done|]. split; [by eapply updated_ok|].
  split; [by eapply updated_elsewhere|].
  destruct (in_count (v_avsock _ + sd)) eqn:Ea; cbn [andb].
  - destruct (in_count (v_wait (view_of (meta_flag j)) + wd)) eqn:Ew.
    + by apply (updated_counts i j s s' sd wd r Hj Hu Hban).
    + unfold updated in Hu. cbv zeta in Hu. cbn [op_guard andb negb] in Hu.
      by rewrite Ew, Ea, andb_false_r in Hu.
  - unfold updated in Hu. cbv zeta in Hu. cbn [op_guard andb negb] in Hu. by rewrite Ea in Hu.
Qed.

Lemma plain_update pend i j s wd :
  sys_ok pend s → job_index i → job_at s i j →
  v_unstable (view_of (meta_flag j)) || v_wlldestroy (view_of (meta_flag j)) = false →
  ∃ r s', schedi_job_meta_flag_cas_update i 0 wd 0 0 0 false s = Done r s' ∧
    sys_ok pend s' ∧ same_elsewhere i s s' ∧
    if in_count (v_wait (view_of (meta_flag j)) + wd)
    then r = 0 ∧ ∃ j', moved_counts i j j' 0 wd s s'
    else r ≠ 0 ∧ s' = s.
Proof.
  intros Hs Hi Hj Hban. pose proof (counted_update pend i j s 0 wd Hs Hi Hj Hban) as Hu.
  by rewrite in_count_avsock in Hu.
Qed.

Lemma moved_not_banned i j j' sd wd s s' :
  moved_counts i j j' sd wd s s' →
  v_unstable (view_of (meta_flag j')) || v_wlldestroy (view_of (meta_flag j')) =
    v_unstable (view_of (meta_flag j)) || v_wlldestroy (view_of (meta_flag j)) ∧
  v_wait (view_of (meta_flag j')) = v_wait (view_of (meta_flag j)) + wd.
Proof. intros (_ & _ & b & -> & _). done. Qed.

(** The last lines of the failures: the count is taken back and the request freed. *)
Lemma undo_request pend i j req (r : Z) w :
  sys_ok pend (w_sys w) → job_index i → job_at (w_sys w) i j →
  v_unstable (view_of (meta_flag j)) || v_wlldestroy (view_of (meta_flag j)) = false →
  is_Some (w_heap w !! req) → 1 <= v_wait (view_of (meta_flag j)) <= 15 →
  ∃ s' j', (on_sys (schedi_job_meta_flag_cas_update i 0 (-1) 0 0 0 false) ≫= λ _,
      free req ≫= λ _, mret r) w = Done r (put_heap (delete req (w_heap w)) (put_sys s' w)) ∧
    sys_ok pend s' ∧ same_elsewhere i (w_sys w) s' ∧ job_at s' i j' ∧
    job_core j' = job_core j ∧
    v_wait (view_of (meta_flag j')) = v_wait (view_of (meta_flag j)) - 1.
Proof.
  intros Hs Hi Hj Hban [o Ho] Hwait.
  destruct (plain_update pend i j (w_sys w) (-1) Hs Hi Hj Hban) as (r4 & s4 & Hrun & Hs4 & He4 & Hc).
  assert (in_count (v_wait (view_of (meta_flag j)) + -1) = true) as Ew
    by (apply in_count_spec; lia).
  rewrite Ew in Hc. destruct Hc as [-> [j4 Hmv]]. pose proof Hmv as (Hj4 & Hcore & _).
  destruct (moved_not_banned _ _ _ _ _ _ _ Hmv) as [_ Hw4].
  exists s4, j4. bind_by (by apply net_sys_run).
  split; [by bind_by (by eapply free_run)|]. split_and!; [done..|lia].
Qed.

(** What a request leaves of the rest when it fails. *)
Definition request_undone (j j' : schedi_job) (w w' : world) : Prop :=
  w_heap w' = w_heap w ∧ (∀ e f, watched w' e f = watched w e f) ∧
  v_wait (view_of (meta_flag j')) = v_wait (view_of (meta_flag j)).

(** The kernel refuses to add the descriptor to an instance. *)
Definition add_refused (fd : Z) (w : world) : Prop := ∃ e ev p k,
  (e = w_epfd_read w ∨ e = w_epfd_write w) ∧ (sys_epoll_ctl e EPOLL_CTL_ADD fd ev p k).1 < 0.

(** How making a request on the job [j] ends, by the code it returns; [j'] is the job
    after it. *)
Inductive request_made (i : nat) (j j' : schedi_job) (fd events : Z) (w w' : world) : Z → Prop :=
  | Request_made req data :
      malloc_ok (w_kernel w) = true → malloc_ok (malloc_next (w_kernel w)) = true →
      w_heap w !! req = None → w_heap w !! data = None → req ≠ data →
      w_heap w' = <[data := HData (Data SCHEDI_EPOLL_DATA_JOB req)]>
        (<[req := HRequest (Request fd i (gen j) i)]> (w_heap w)) →
      (∀ e f, watched w' e f = registered w fd data events e f) →
      v_wait (view_of (meta_flag j')) = v_wait (view_of (meta_flag j)) + 1 →
      v_readyepolltool (view_of (meta_flag j')) = false →
      op_guard OpMarkAccess (view_of (meta_flag j')) =
        op_guard OpMarkAccess (view_of (meta_flag j)) →
      job_core j' = job_core (set_epoll_list (bump_total (epoll_list j)) j) →
      request_made i j j' fd events w w' 0
  | Request_no_memory :
      malloc_ok (w_kernel w) = false → w_sys w' = w_sys w → j' = j →
      request_undone j j' w w' →
      request_made i j j' fd events w w' (-1)
  | Request_no_data :
      malloc_ok (w_kernel w) = true → malloc_ok (malloc_next (w_kernel w)) = false →
      v_wait (view_of (meta_flag j)) < 15 → request_undone j j' w w' →
      job_core j' = job_core (set_epoll_list (bump_total (epoll_list j)) j) →
      request_made i j j' fd events w w' (-2)
  | Request_refused :
      malloc_ok (w_kernel w) = true → malloc_ok (malloc_next (w_kernel w)) = true →
      v_wait (view_of (meta_flag j)) < 15 → add_refused fd w → request_undone j j' w w' →
      job_core j' = job_core (set_epoll_list (bump_total (epoll_list j)) j) →
      request_made i j j' fd events w w' (-3)
  | Request_too_many :
      malloc_ok (w_kernel w) = true →
      v_wait (view_of (meta_flag j)) = 15 → request_undone j j' w w' →
      job_core j' = job_core (set_epoll_list (bump_total (epoll_list j)) j) →
      request_made i j j' fd events w w' (-4).

Lemma epoll_add_refused fd data events w w' r :
  schedi_epoll_add fd data events w = Done r w' → r < 0 → add_refused fd w.
Proof.
  intros Hrun Hr. unfold schedi_epoll_add in Hrun.
  assert (∀ (b : bool) e ev w0 r0 w1, (e = w_epfd_read w ∨ e = w_epfd_write w) →
    (if b then epoll_ctl e EPOLL_CTL_ADD fd ev (Some data) else mret 0) w0 = Done r0 w1 →
    r0 < 0 → add_refused fd w) as Hone.
  { intros b e ev w0 r0 w1 He Hc Hr0. destruct b; [|injection Hc as <- _; lia].
    unfold epoll_ctl in Hc. rewrite call_run in Hc. injection Hc as <- _. by do 4 eexists. }
  unfold mbind, M_bind in Hrun. cbn [gets] in Hrun.
  destruct ((if has events EPOLLIN then
    epoll_ctl (w_epfd_read w) EPOLL_CTL_ADD fd (Z.land events (Z.lnot EPOLLOUT)) (Some data)
    else mret 0) w) as [r1 w1| |] eqn:E1; [|done..].
  destruct (Z.ltb_spec r1 0); [by eapply (Hone _ (w_epfd_read w)); [left| |]|].
  destruct ((if has events EPOLLOUT then
    epoll_ctl (w_epfd_write w) EPOLL_CTL_ADD fd (Z.land events (Z.lnot EPOLLIN)) (Some data)
    else mret 0) w1) as [r2 w2| |] eqn:E2; [|done..].
  destruct (Z.ltb_spec r2 0); [by eapply (Hone _ (w_epfd_write w)); [right| |]|].
  injection Hrun as <- _. lia.
Qed.

(** The second half; [w] is the world in which [req] is allocated and counted. *)
Lemma tool_epoll_register_done pend i j fd events req w :
  0 <= w_epfd_read w → w_epfd_read w ≠ w_epfd_write w →
  sys_ok pend (w_sys w) → job_index i → job_at (w_sys w) i j →
  v_unstable (view_of (meta_flag j)) || v_wlldestroy (view_of (meta_flag j)) = false →
  is_Some (w_heap w !! req) → 1 <= v_wait (view_of (meta_flag j)) <= 15 →
  ∃ r w' j', tool_epoll_register i fd events req w = Done r w' ∧
    sys_ok pend (w_sys w') ∧ same_elsewhere i (w_sys w) (w_sys w') ∧ same_instances w w' ∧
    job_at (w_sys w') i j' ∧ job_core j' = job_core j ∧
    ((r = 0 ∧ malloc_ok (w_kernel w) = true ∧ j' = j ∧ ∃ data, w_heap w !! data = None ∧
        w_heap w' = <[data := HData (Data SCHEDI_EPOLL_DATA_JOB req)]> (w_heap w) ∧
        (∀ e f, watched w' e f = registered w fd data events e f)) ∨
     ((r = -2 ∧ malloc_ok (w_kernel w) = false ∨
       r = -3 ∧ malloc_ok (w_kernel w) = true ∧ add_refused fd w) ∧
        w_heap w' = delete req (w_heap w) ∧ (∀ e f, watched w' e f = watched w e f) ∧
        v_wait (view_of (meta_flag j')) = v_wait (view_of (meta_flag j)) - 1)).
Proof.
  intros Hrd Hne Hs Hi Hj Hban Hreq Hwait. unfold tool_epoll_register.
  destruct (malloc_ok (w_kernel w)) eqn:Hok; cycle 1.
  { bind_by (by apply malloc_null). set (w2 := put_kernel _ w).
    destruct (undo_request pend i j req (-2) w2 Hs Hi Hj Hban Hreq Hwait)
      as (s' & j' & Hrun & Hs' & He & Hj' & Hcore & Hw).
    eexists _, _, j'. split; [exact Hrun|]. split_and!; try done. right.
    split; [by left|]. split; [done|]. split; [|done]. exact (malloc_watch w). }
  destruct (malloc_done (HData (Data SCHEDI_EPOLL_DATA_JOB req)) w Hok) as (data & Hr & Hf).
  bind_by exact Hr. set (w2 := put_heap _ _).
  destruct (epoll_add_done fd data (HData (Data SCHEDI_EPOLL_DATA_JOB req)) events w2)
    as (r3 & w3 & Hr3 & Hpost); [apply lookup_insert_eq|done|done|].
  assert (∀ e f, watched w2 e f = watched w e f) as Hk by exact (malloc_watch w).
  bind_by exact Hr3. destruct Hpost as [(-> & Hks & Hi3)|(-> & Hks & Hi3)];
    cbn [Z.ltb Z.compare].
  - eexists _, w3, j. split; [done|]. rewrite Hks. split_and!; try done. left.
    split_and!; [done..|]. exists data. split; [done|]. split; [done|].
    intros e f. rewrite <-Hks, Hi3. unfold registered.
    change (w_epfd_read w2) with (w_epfd_read w). change (w_epfd_write w2) with (w_epfd_write w).
    by rewrite Hk.
  - assert (add_refused fd w) as Href by (by eapply (epoll_add_refused _ _ _ w2)).
    assert (w_sys w3 = w_sys w ∧ same_instances w w3 ∧ w_heap w3 = w_heap w) as (Es & Hin & Eh).
    { rewrite Hks. split_and!; try done. cbn. by rewrite delete_insert_eq, (delete_id (w_heap w) data). }
    destruct (undo_request pend i j req (-3) w3) as (s' & j' & Hrun & Hs' & He & Hj' & Hcore & Hw);
      rewrite ?Es, ?Eh; try done.
    rewrite Es in He. eexists _, _, j'. split; [exact Hrun|]. split_and!; try done. right.
    split; [by right|]. split; [cbn; by rewrite Eh|]. split; [|done].
    intros e f. change (watched w3 e f = watched w e f). by rewrite Hi3, Hk.
Qed.

Lemma tool_epoll_outcome pend i j fd events w :
  0 <= w_epfd_read w → w_epfd_read w ≠ w_epfd_write w →
  sys_ok pend (w_sys w) → job_index i → job_at (w_sys w) i j →
  v_unstable (view_of (meta_flag j)) || v_wlldestroy (view_of (meta_flag j)) = false →
  ∃ r w' j', schedi_job_tool_epoll i fd events w = Done r w' ∧
    sys_ok pend (w_sys w') ∧ same_elsewhere i (w_sys w) (w_sys w') ∧ same_instances w w' ∧
    job_at (w_sys w') i j' ∧ request_made i j j' fd events w w' r.
Proof.
  intros Hrd Hne Hs Hi Hj Hban. unfold schedi_job_tool_epoll.
  bind_by (by erewrite net_sys_run by (by apply job_get_run)).
  assert (put_sys (w_sys w) w = w) as -> by by destruct w.
  destruct (malloc_ok (w_kernel w)) eqn:Hok; cycle 1.
  { bind_by (by apply malloc_null). eexists _, _, j. split; [done|]. split_and!; try done.
    apply Request_no_memory; try done. split_and!; try done. exact (malloc_watch w). }
  destruct (malloc_done (HRequest (Request fd i (gen j) i)) w Hok) as (req & Hr1 & Hf1).
  bind_by exact Hr1. set (h1 := <[req := _]> (w_heap w)).
  bind_by (by apply net_sys_run; cbn; apply (on_list_run bump_total i j)).
  set (j0 := set_epoll_list (bump_total (epoll_list j)) j). set (s0 := with_job i j0 (w_sys w)).
  assert (job_at s0 i j0) as Hj0 by by eapply job_at_with.
  pose proof (ok_words _ (ok_base _ _ Hs) _ _ Hj) as Hword.
  assert (sys_ok pend s0) as Hs0 by by eapply with_job_ok.
  pose proof (field_get_range (meta_flag j) SCHEDI_JOB_METAFLAG_WAIT_SHIFT 4 ltac:(lia)) as Hwr.
  change (field_get _ _ _) with (v_wait (view_of (meta_flag j))) in Hwr.
  destruct (plain_update pend i j0 s0 1 Hs0 Hi Hj0 Hban) as (r & s1 & Hrun & Hs1 & He1 & Hc).
  bind_by (by apply net_sys_run). change (meta_flag j0) with (meta_flag j) in Hc.
  assert (same_elsewhere i (w_sys w) s1) as He
    by (eapply same_elsewhere_trans; [apply with_job_elsewhere|exact He1]).
  assert (delete req h1 = w_heap w) as Hdel
    by (unfold h1; by rewrite delete_insert_eq, delete_id).
  destruct (in_count (v_wait (view_of (meta_flag j)) + 1)) eqn:Ew; cycle 1.
  { destruct Hc as [Hr ->]. rewrite (proj2 (Z.eqb_neq _ _) Hr). cbn [negb].
    bind_by (by eapply free_run, lookup_insert_eq). eexists _, _, j0. split; [done|].
    apply not_true_iff_false in Ew. rewrite in_count_spec in Ew. split_and!; try done.
    apply Request_too_many; try done; [lia|]. split_and!; try done. exact (malloc_watch w). }
  destruct Hc as [-> [j1 Hmv]]. cbn [Z.eqb negb]. pose proof Hmv as (Hj1 & Hcore & b & Hv1 & _).
  destruct (moved_not_banned _ _ _ _ _ _ _ Hmv) as [Hban1 Hw1].
  change (meta_flag j0) with (meta_flag j) in Hban1, Hw1, Hv1. rewrite Hban in Hban1.
  apply in_count_spec in Ew. set (w1 := put_sys s1 _).
  destruct (tool_epoll_register_done pend i j1 fd events req w1)
    as (r & w' & j' & Hrun' & Hs' & He' & Hin' & Hj' & Hcore' & Hpost);
    [done..|eexists; apply lookup_insert_eq|lia|].
  exists r, w', j'. split; [exact Hrun'|]. split; [done|].
  split; [by eapply same_elsewhere_trans|]. split; [exact Hin'|]. split; [done|].
  assert (∀ e f, watched w1 e f = watched w e f) as Hk by exact (malloc_watch w).
  assert (job_core j' = job_core j0) as Hcore2 by congruence.
  destruct Hpost as [(-> & Hok2 & -> & data & Hfd & Hh & Hreg)|(Hr & Hh & Hreg & Hw')].
  - change (w_heap w1) with h1 in Hfd, Hh. unfold h1 in Hfd.
    apply lookup_insert_None in Hfd as [Hfd Hrd'].
    apply (Request_made _ _ _ _ _ _ _ req data); try done.
    + intros e f. rewrite Hreg. unfold registered. by rewrite Hk.
    + rewrite Hv1. apply Z.eqb_neq. lia.
    + by rewrite Hv1.
  - assert (request_undone j j' w w') as Hun.
    { split; [by rewrite Hh|]. split; [|lia]. intros e f. by rewrite Hreg. }
    destruct Hr as [[-> Hok2]|(-> & Hok2 & Href)].
    + apply Request_no_data; try done. lia.
    + apply Request_refused; try done. lia.
Qed.

Lemma tool_epoll_done pend i j fd events w :
  mallocs_succeed → 0 <= w_epfd_read w → w_epfd_read w ≠ w_epfd_write w →
  sys_ok pend (w_sys w) → job_index i → job_at (w_sys w) i j →
  v_unstable (view_of (meta_flag j)) || v_wlldestroy (view_of (meta_flag j)) = false →
  let j0 := set_epoll_list (bump_total (epoll_list j)) j in
  ∃ r w' j', schedi_job_tool_epoll i fd events w = Done r w' ∧
    sys_ok pend (w_sys w') ∧ same_elsewhere i (w_sys w) (w_sys w') ∧ same_instances w w' ∧
    job_at (w_sys w') i j' ∧ job_core j' = job_core j0 ∧
    ((r = 0 ∧ ∃ req data, w_heap w !! req = None ∧ w_heap w !! data = None ∧ req ≠ data ∧
        w_heap w' = <[data := HData (Data SCHEDI_EPOLL_DATA_JOB req)]>
          (<[req := HRequest (Request fd i (gen j) i)]> (w_heap w)) ∧
        (∀ e f, watched w' e f = registered w fd data events e f) ∧
        v_wait (view_of (meta_flag j')) = v_wait (view_of (meta_flag j)) + 1 ∧
        v_readyepolltool (view_of (meta_flag j')) = false ∧
        op_guard OpMarkAccess (view_of (meta_flag j')) =
          op_guard OpMarkAccess (view_of (meta_flag j))) ∨
     ((r = -4 ∧ v_wait (view_of (meta_flag j)) = 15 ∨ r = -3) ∧
        w_heap w' = w_heap w ∧ (∀ e f, watched w' e f = watched w e f) ∧
        v_wait (view_of (meta_flag j')) = v_wait (view_of (meta_flag j)))).
Proof.
  intros Hm Hrd Hne Hs Hi Hj Hban j0.
  destruct (tool_epoll_outcome pend i j fd events w Hrd Hne Hs Hi Hj Hban)
    as (r & w' & j' & Hrun & Hs' & He & Hin & Hj' & Hout).
  exists r, w', j'. split_and!; try done.
  - destruct Hout as [| E | | |]; try done. unfold malloc_ok in E. by rewrite Hm in E.
  - destruct Hout as [req data|E|? E|? ? ? ? (?&?&?)|? ? (?&?&?)];
      try (unfold malloc_ok in E; by rewrite Hm in E).
    + left. split; [done|]. by exists req, data.
    + right. split; [by right|done].
    + right. split; [by left|done].
Qed.

(** C21: making a request on a job that is neither UNSTABLE nor WLLDESTROY.  It returns 0
    when both [malloc]s and the registration succeed: the request and its data are on the
    heap, the descriptor is registered with them as the events say, [waiting_count] is one
    more and READYEPOLLTOOL follows, and the job is as accessible as before.  It returns -1
    when the first [malloc] fails, and then no job is touched; -4 when 15 requests are
    outstanding; -2 when the second [malloc] fails; -3 when the kernel refuses the
    registration.  In these three the request is counted in [total_req] nevertheless, and
    in every failure nothing is left on the heap, nothing more is registered and
    [waiting_count] is as before, the count of the request taken back. *)
Theorem schedi_job_tool_epoll_spec pend i j fd events w :
  0 <= w_epfd_read w → w_epfd_read w ≠ w_epfd_write w →
  sys_ok pend (w_sys w) → job_index i → job_at (w_sys w) i j →
  v_unstable (view_of (meta_flag j)) || v_wlldestroy (view_of (meta_flag j)) = false →
  ∃ r w' j', schedi_job_tool_epoll i fd events w = Done r w' ∧
    sys_ok pend (w_sys w') ∧ same_elsewhere i (w_sys w) (w_sys w') ∧ same_instances w w' ∧
    job_at (w_sys w') i j' ∧ request_made i j j' fd events w w' r.
Proof. apply tool_epoll_outcome. Qed.
End specs.

(** ** Witnesses *)

Section witnesses.
#[local] Existing Instance script_kernel.
#[local] Existing Instance script_laws.
#[local] Existing Instance timeout_build.
#[local] Existing Instance contiguous_jobs.

(** A job with one request outstanding. *)
Definition sys_waiting : sys :=
  state_after (schedi_job_meta_flag_cas_update 0 0 1 0 0 0 false) sys_one.
Definition job_waiting : schedi_job := default job_one (s_jobs sys_waiting !! 0%nat).

Lemma sys_waiting_ok : sys_ok [] sys_waiting.
Proof.
  destruct (cas_update_ok [] 0 sys_one 0 1 0 false sys_one_ok job_index_zero)
    as (r & s' & Hrun & Hs' & _).
  unfold sys_waiting, state_after.
  replace (schedi_job_meta_flag_cas_update 0 0 1 0 0 0 false sys_one) with (Done r s'); done.
Qed.

Definition world_waiting (g : Z) : world :=
  script_world kernel_zero {[6%nat := HRequest (Request 9 0 g 0)]} sys_waiting.

Lemma schedi_job_epoll_request_return_spec_witness :
  ∃ w' j', schedi_job_epoll_request_return [] 6%nat false (world_waiting 0) = Done 0 w' ∧
    w' = put_sys (w_sys w') (world_waiting 0) ∧ sys_ok [] (w_sys w') ∧
    same_elsewhere 0 sys_waiting (w_sys w') ∧
    moved_counts 0 (set_epoll_list (bump_return false (epoll_list job_waiting)) job_waiting) j'
      0 (-1) sys_waiting (w_sys w').
Proof.
  apply (schedi_job_epoll_request_return_spec [] [] 6%nat (Request 9 0 0 0) job_waiting false
    (world_waiting 0)); [done|apply sys_waiting_ok|apply job_index_zero|done|..];
    by vm_compute.
Defined.

Lemma stale_request_ignored_witness :
  schedi_job_epoll_request_return [] 6%nat false (world_waiting 7) =
    Done (-1) (world_waiting 7).
Proof.
  apply (stale_request_ignored [] [] 6%nat (Request 9 0 7 0) job_waiting);
    [done|apply sys_waiting_ok|by vm_compute|]. right. split; [by vm_compute|].
  vm_compute. discriminate.
Defined.

Lemma schedi_job_tool_epoll_spec_witness :
  (∃ w', schedi_job_tool_epoll 0 9 EPOLLIN (script_world kernel_zero ∅ sys_one) = Done 0 w') ∧
  let w := script_world kernel_zero ∅ sys_one in
  ∃ r w' j', schedi_job_tool_epoll 0 9 EPOLLIN w = Done r w' ∧
    sys_ok [] (w_sys w') ∧ same_elsewhere 0 (w_sys w) (w_sys w') ∧ same_instances w w' ∧
    job_at (w_sys w') 0 j' ∧ request_made 0 job_one j' 9 EPOLLIN w w' r.
Proof.
  split; [eexists; by vm_compute|]. intros w.
  apply (schedi_job_tool_epoll_spec [] 0 job_one 9 EPOLLIN w);
    [done|done|apply sys_one_ok|apply job_index_zero|apply sys_one_job|by vm_compute].
Defined.
End witnesses.
