(* ===== verification/EpollLoop.v ===== *)
(** * The epoll thread (src/src/epoll.c): dispatch, loop, start and stop

    The epoll instances hand tagged data pointers back; the handlers dispatch on the
    tag, run the job's or the socket's callback and free what is no longer registered.
    The loop polls the two instances and the wake descriptor until it is stopped. *)

From S2P Require Export EpollTool.

Local Open Scope Z_scope.

(** [struct epoll_event]. *)
Record epoll_event : Type := Event { ev_events : Z; ev_data : option addr }.

Section handlers.
Context `{BuildConfig, JobAddress, Kernel}.
(** What other threads do to the scheduler while a request's return waits for access. *)
Variable others : list (M sys unit).

Definition schedi_epoll_del_socketcompletely (sock : addr) : M world unit :=
  fd ← sock_get sk_fd sock;
  schedi_epoll_del fd ≫= λ _,
  when ext_timeout (tfd ← sock_get sk_to_timer_fd sock; schedi_epoll_del_read tfd).

(** [case SCHEDI_EPOLL_DATA_JOB]. *)
Definition handle_job (d : addr) (events : Z) : M world unit :=
  req ← data_get ed_ptr d;
  fd ← req_get rq_socketfd req;
  schedi_epoll_del fd ≫= λ _,
  schedi_job_epoll_request_return others req (has events (Z.lor EPOLLERR EPOLLHUP)) ≫= λ _,
  free req ≫= λ _, free d.

(** Taking a socket out of the epoll system. *)
Definition release_socket (d sock : addr) : M world unit :=
  schedi_epoll_del_socketcompletely sock ≫= λ _,
  free d ≫= λ _,
  schedi_job_epollsocket_done_ sock true ≫= λ _, mret ().

(** [case SCHEDI_EPOLL_DATA_SOCKET]. *)
Definition handle_socket (d : addr) (events : Z) : M world unit :=
  sock ← data_get ed_ptr d;
  r ← schedi_job_epollsocket_return sock events;
  when (negb (r =? 0)) (release_socket d sock).

(** [case SCHEDI_EPOLL_DATA_EPOLLSOCKTO]. *)
Definition handle_timer (d : addr) : M world unit :=
  sock ← data_get ed_ptr d;
  schedi_job_epollsocket_ready sock ≫= λ ready : bool,
  if ready then schedi_job_epollsocket_timeout_reset sock ≫= λ _, mret ()
  else
    schedi_job_epollsocket_timeout_cas sock ≫= λ _, release_socket d sock.

Definition schedi_epoll_handle_read (ev : epoll_event) : M world unit :=
  match ev_data ev with
  | None => mret ()
  | Some d =>
      ty ← data_get ed_type d;
      if ty =? SCHEDI_EPOLL_DATA_JOB then handle_job d (ev_events ev)
      else if ty =? SCHEDI_EPOLL_DATA_SOCKET then handle_socket d (ev_events ev)
      else if ext_timeout && (ty =? SCHEDI_EPOLL_DATA_EPOLLSOCKTO) then handle_timer d
      else free d
  end.

Definition schedi_epoll_handle_write (ev : epoll_event) : M world unit :=
  match ev_data ev with
  | None => mret ()
  | Some d =>
      ty ← data_get ed_type d;
      if ty =? SCHEDI_EPOLL_DATA_JOB then handle_job d (ev_events ev)
      else if ty =? SCHEDI_EPOLL_DATA_SOCKET then handle_socket d (ev_events ev)
      else free d
  end.

(** The [for] over the events of one [epoll_wait]. *)
Fixpoint handle_all (handle : epoll_event → M world unit) (evs : list epoll_event)
    : M world unit :=
  match evs with
  | [] => mret ()
  | ev :: evs => handle ev ≫= λ _, handle_all handle evs
  end.
End handlers.

(** ** The loop and the thread *)

Definition MAX_EVENTS : nat := 1024.

Inductive poll_outcome : Type := Polled (wake rd wr : bool) | PollInterrupted | PollError.

(** The calls of the kernel and the thread library only the epoll thread makes.  [sys_poll]
    looks once: [None] is that [poll] has nothing to return and goes on blocking.
    [wake_pending] tells whether an eventfd has been written and not read since. *)
Class EventKernel `{Kernel} : Type := {
  sys_epoll_wait : Z → nat → kernel → list epoll_event * kernel;
  sys_poll : Z → Z → Z → kernel → option poll_outcome * kernel;
  sys_read_wake : Z → kernel → bool * kernel;
  sys_write_wake : Z → kernel → Z * kernel;
  wake_pending : kernel → Z → bool;
  sys_epoll_create1 : kernel → Z * kernel;
  sys_eventfd : kernel → Z * kernel;
  pthread_create : kernel → Z * kernel;
  pthread_join : kernel → Z * kernel;
}.

Section thread.
Context `{BuildConfig, JobAddress, EventKernel}.

(** The static data of epoll.c that only the thread's control uses. *)
Record epoll_thread : Type := Thread {
  t_world : world;
  epoll_wakefd : Z;
  epoll_thread_lock : bool;
  epoll_thread_running : Z;
  epoll_stop : Z;
}.

Definition put_world (w : world) (t : epoll_thread) : epoll_thread :=
  Thread w (epoll_wakefd t) (epoll_thread_lock t) (epoll_thread_running t) (epoll_stop t).
Definition set_fds (rd wr wake : Z) (t : epoll_thread) : epoll_thread :=
  let w := t_world t in
  Thread (World (w_sys w) (w_heap w) rd wr (w_kernel w) (w_io w)) wake (epoll_thread_lock t)
    (epoll_thread_running t) (epoll_stop t).
Definition set_thread_lock (b : bool) (t : epoll_thread) : epoll_thread :=
  Thread (t_world t) (epoll_wakefd t) b (epoll_thread_running t) (epoll_stop t).
Definition set_running (x : Z) (t : epoll_thread) : epoll_thread :=
  Thread (t_world t) (epoll_wakefd t) (epoll_thread_lock t) x (epoll_stop t).
Definition set_stop (x : Z) (t : epoll_thread) : epoll_thread :=
  Thread (t_world t) (epoll_wakefd t) (epoll_thread_lock t) (epoll_thread_running t) x.

Definition in_world {A} : M world A → M epoll_thread A := zoom t_world put_world.
Definition thread_call {A} (f : kernel → A * kernel) : M epoll_thread A := in_world (call f).

(** [schedi_epoll_drain_read] and [..._write]: batches until [epoll_wait] has none; the
    fuel bounds the number of batches. *)
Fixpoint drain (handle : epoll_event → M world unit) (fuel : nat) (epfd : Z) : M world unit :=
  match fuel with
  | O => stuck
  | S fuel =>
      call (sys_epoll_wait epfd MAX_EVENTS) ≫= λ evs,
      match evs with
      | [] => mret ()
      | _ => handle_all handle evs ≫= λ _, drain handle fuel epfd
      end
  end.
Definition schedi_epoll_drain_read (others : list (M sys unit)) : nat → Z → M world unit :=
  drain (schedi_epoll_handle_read others).
Definition schedi_epoll_drain_write (others : list (M sys unit)) : nat → Z → M world unit :=
  drain (schedi_epoll_handle_write others).

Definition schedi_epoll_init_fds : M epoll_thread Z :=
  rd ← gets (λ t, w_epfd_read (t_world t));
  if 0 <=? rd then mret 0
  else
    wake ← gets epoll_wakefd;
    wr0 ← gets (λ t, w_epfd_write (t_world t));
    rd ← thread_call sys_epoll_create1;
    if rd <? 0 then modify (set_fds rd wr0 wake) ≫= λ _, mret (-1)
    else
      wr ← thread_call sys_epoll_create1;
      if wr <? 0 then
        thread_call (sys_close rd) ≫= λ _, modify (set_fds (-1) wr wake) ≫= λ _, mret (-1)
      else
        wake ← thread_call sys_eventfd;
        if wake <? 0 then
          thread_call (sys_close rd) ≫= λ _, thread_call (sys_close wr) ≫= λ _,
          modify (set_fds (-1) (-1) wake) ≫= λ _, mret (-1)
        else modify (set_fds rd wr wake) ≫= λ _, mret 0.

(** [while (read(epoll_wakefd, ...) > 0);]. *)
Fixpoint drain_wake (fuel : nat) (fd : Z) : M epoll_thread unit :=
  match fuel with
  | O => stuck
  | S fuel =>
      thread_call (sys_read_wake fd) ≫= λ more : bool,
      if more then drain_wake fuel fd else mret ()
  end.

(** The head of the [while (1)] of [schedi_epoll_loop]: the test of the stop flag, and the
    array [pfd].  The result of the loop tells whether [poll] failed. *)
Definition loop_head (body : Z * Z * Z → M epoll_thread bool) : M epoll_thread bool :=
  stop ← gets epoll_stop;
  if negb (stop =? 0) then mret false
  else
    wake ← gets epoll_wakefd;
    rd ← gets (λ t, w_epfd_read (t_world t));
    wr ← gets (λ t, w_epfd_write (t_world t));
    body (wake, rd, wr).

(** What follows a [poll] that returned. *)
Definition after_poll (others : list (M sys unit)) (fuel : nat) (r : poll_outcome)
    (again : M epoll_thread bool) : M epoll_thread bool :=
  stop ← gets epoll_stop;
  if negb (stop =? 0) then mret false
  else
    match r with
    | PollInterrupted => again
    | PollError => mret true
    | Polled p0 p1 p2 =>
        when p0 (wake ← gets epoll_wakefd; drain_wake fuel wake) ≫= λ _,
        when p1 (rd ← gets (λ t, w_epfd_read (t_world t));
                 in_world (schedi_epoll_drain_read others fuel rd)) ≫= λ _,
        when p2 (wr ← gets (λ t, w_epfd_write (t_world t));
                 in_world (schedi_epoll_drain_write others fuel wr)) ≫= λ _,
        again
    end.

(** The loop from [poll(pfd, 3, -1)] on.  [poll] blocks until the kernel has something to
    return; each element of [meanwhile] is what other threads do before it looks (again).
    When nobody does anything any more the last [poll] never returns. *)
Fixpoint poll_wait (others : list (M sys unit)) (fuel : nat)
    (meanwhile : list (M epoll_thread unit)) (pfd : Z * Z * Z) : M epoll_thread bool :=
  match meanwhile with
  | [] => stuck
  | act :: meanwhile =>
      act ≫= λ _,
      r ← thread_call (sys_poll pfd.1.1 pfd.1.2 pfd.2);
      match r with
      | None => poll_wait others fuel meanwhile pfd
      | Some r => after_poll others fuel r (loop_head (poll_wait others fuel meanwhile))
      end
  end.

Definition poll_loop (others : list (M sys unit)) (fuel : nat)
    (meanwhile : list (M epoll_thread unit)) : M epoll_thread bool :=
  loop_head (poll_wait others fuel meanwhile).

Definition schedi_epoll_loop (others : list (M sys unit)) (fuel : nat)
    (meanwhile : list (M epoll_thread unit)) : M epoll_thread Z :=
  stop ← gets epoll_stop;
  if negb (stop =? 0) then mret 0
  else
    rd ← gets (λ t, w_epfd_read (t_world t));
    wr ← gets (λ t, w_epfd_write (t_world t));
    if (rd <? 0) || (wr <? 0) then mret (-1)
    else
      poll_loop others fuel meanwhile ≫= λ poll_error : bool,
      wake ← gets epoll_wakefd;
      rd ← gets (λ t, w_epfd_read (t_world t));
      wr ← gets (λ t, w_epfd_write (t_world t));
      thread_call (sys_close wake) ≫= λ _,
      thread_call (sys_close rd) ≫= λ _,
      thread_call (sys_close wr) ≫= λ _,
      modify (set_fds (-1) (-1) (-1)) ≫= λ _,
      mret (if poll_error then -1 else 0).

Definition lock_thread : M epoll_thread unit := pthread_mutex_lock epoll_thread_lock set_thread_lock.
Definition unlock_thread : M epoll_thread unit :=
  pthread_mutex_unlock epoll_thread_lock set_thread_lock.

Definition schedi_epoll_thread_init : M epoll_thread Z :=
  lock_thread ≫= λ _,
  running ← gets epoll_thread_running;
  if negb (running =? 0) then unlock_thread ≫= λ _, mret 0
  else
    r ← schedi_epoll_init_fds;
    if r <? 0 then unlock_thread ≫= λ _, mret (-1)
    else
      err ← thread_call pthread_create;
      if negb (err =? 0) then unlock_thread ≫= λ _, mret (-1)
      else
        modify (set_running 1) ≫= λ _, unlock_thread ≫= λ _, mret 0.

(** The flag, and the write that wakes [poll] up. *)
Definition stop_request : M epoll_thread unit :=
  modify (set_stop 1) ≫= λ _,
  wake ← gets epoll_wakefd;
  when (0 <=? wake) (thread_call (sys_write_wake wake) ≫= λ _, mret ()).

(** [pthread_join] waits for the thread's loop: [thread_exit] is what the thread still does
    before it ends. *)
Definition schedi_epoll_thread_deinit (thread_exit : M epoll_thread unit) : M epoll_thread Z :=
  lock_thread ≫= λ _,
  running ← gets epoll_thread_running;
  if running =? 0 then unlock_thread ≫= λ _, mret 0
  else
    stop_request ≫= λ _,
    thread_exit ≫= λ _,
    ret ← thread_call pthread_join;
    modify (set_running 0) ≫= λ _,
    unlock_thread ≫= λ _,
    mret ret.

Definition schedi_epoll_destroy : M epoll_thread Z :=
  lock_thread ≫= λ _,
  rd ← gets (λ t, w_epfd_read (t_world t));
  when (0 <=? rd) (thread_call (sys_close rd) ≫= λ _, mret ()) ≫= λ _,
  wr ← gets (λ t, w_epfd_write (t_world t));
  when (0 <=? wr) (thread_call (sys_close wr) ≫= λ _, mret ()) ≫= λ _,
  wake ← gets epoll_wakefd;
  when (0 <=? wake) (thread_call (sys_close wake) ≫= λ _, mret ()) ≫= λ _,
  modify (set_fds (if 0 <=? rd then -1 else rd) (if 0 <=? wr then -1 else wr)
    (if 0 <=? wake then -1 else wake)) ≫= λ _,
  unlock_thread ≫= λ _, mret 0.
End thread.
