(* ===== verification/SockBounds.v ===== *)
(** * Epoll sockets: no transfer leaves the buffers (src/src/jobs.c)

    SockStream.v follows the bytes of a socket that has not timed out.  After a timeout the
    counts of a socket no longer follow its positions ([timed_out_read_corrupts]), and the
    rings hold garbage.  What still holds then, and for every state a socket can get into,
    is that the positions and counts stay within the buffers and no copy runs past their
    ends: that is shown here for all transfers, conditions and operations on the word. *)

From Stdlib Require Import Strings.Byte.
From S2P Require Export SockStream.

Local Open Scope Z_scope.

(** A position in a buffer. *)
Definition in_buffer (x : Z) : Prop := 0 <= x < Z.of_nat BUFFERSIZE.

Section bounds.
Context `{BuildConfig, JobAddress, KernelLaws}.

(** Buffers of their size, positions in them, counts up to it; nothing is said of how the
    positions and the counts are related. *)
Record bounded (s : epollsocket) : Prop := {
  bd_read : length (sk_read_buffer s) = BUFFERSIZE;
  bd_write : length (sk_write_buffer s) = BUFFERSIZE;
  bd_read_head : in_buffer (sk_read_head s);
  bd_read_tail : in_buffer (sk_read_tail s);
  bd_write_head : in_buffer (sk_write_head s);
  bd_write_tail : in_buffer (sk_write_tail s);
  bd_count : (sock_count s <= BUFFERSIZE)%nat;
  bd_avail : (sock_avail s <= BUFFERSIZE)%nat;
  bd_word : word64 (sk_htc s);
  bd_job : job_index (sk_job s);
}.

(** A socket that follows its bytes is within its buffers. *)
Lemma wf_bounded s : sock_wf s → bounded s.
Proof.
  intros Hwf. pose proof (wrapped_range (Z.to_nat (sk_read_tail s) + sock_count s)).
  pose proof (wrapped_range (Z.to_nat (sk_write_tail s) + (BUFFERSIZE - sock_avail s))).
  destruct Hwf. split; try done; unfold in_buffer; change (Z.of_nat BUFFERSIZE) with 1024.
  - by rewrite wf_rhead.
  - by rewrite wf_whead.
Qed.

(** The call left [s'] at [a], within its buffers, and changed no other object. *)
Record stays (pend : list nat) (a : addr) (s' : epollsocket) (w w' : world) : Prop := {
  sy_heap : w_heap w' = <[a := HSocket s']> (w_heap w);
  sy_sys : sys_ok pend (w_sys w');
  sy_bounded : bounded s';
}.

Lemma stays_at pend a s w w' : stays pend a s w w' → sock_at w' a s.
Proof. intros []. unfold sock_at. rewrite sy_heap0. apply lookup_insert_eq. Qed.

Lemma stays_refl pend a s w :
  sock_at w a s → sys_ok pend (w_sys w) → bounded s → stays pend a s w w.
Proof. intros Ha Hs Hb. split; [|done..]. by rewrite insert_id. Qed.

Lemma stays_trans pend a s1 s2 w w1 w2 :
  stays pend a s1 w w1 → stays pend a s2 w1 w2 → stays pend a s2 w w2.
Proof. intros [] []. split; [|done..]. rewrite sy_heap1, sy_heap0. apply insert_insert_eq. Qed.

(** Steps from a state in bounds that neither touch the socket nor the scheduler. *)
Lemma stays_border pend a s t io w w1 w2 :
  stays pend a s w w1 → border t io w1 w2 → stays pend a s w w2.
Proof. intros [E S B] [F _ _ _ _ G]. split; [by rewrite F|by rewrite G|done]. Qed.

(** A store into the socket. *)
Lemma stays_put pend a s f w w1 :
  stays pend a s w w1 → bounded (f s) →
  ∃ w2, sock_put f a w1 = Done () w2 ∧ stays pend a (f s) w w2.
Proof.
  intros Hs Hb. eexists. split; [by apply sock_put_run; eapply stays_at|].
  eapply stays_trans; [done|]. split; [done|apply Hs|done].
Qed.

(** ** Operations on the word *)

Definition counts_in (v : sock_view) : Prop := 0 <= k_count v <= 1024 ∧ 0 <= k_avail v <= 1024.

Lemma counts_in_effect op v : sock_in_range op v → counts_in v → counts_in (sock_effect op v).
Proof.
  unfold counts_in, sock_in_range, SCHEDI_JOB_EPOLLSOCKET_BUFFERSIZE.
  destruct op; cbn; intros; done || lia.
Qed.

Lemma counts_of s : bounded s → counts_in (sock_view_of (sk_htc s)).
Proof.
  intros []. unfold counts_in. rewrite k_count_of, k_avail_of, count_of_nat, avail_of_nat.
  unfold BUFFERSIZE in *. lia.
Qed.

Lemma bounded_word s x :
  bounded s → word64 x → counts_in (sock_view_of x) → bounded (set_htc x s).
Proof.
  intros Hb Hx [Hc Ha]. rewrite k_count_of in Hc. rewrite k_avail_of in Ha.
  destruct Hb. split; try done; unfold sock_count, sock_avail; cbn [sk_htc set_htc];
    unfold BUFFERSIZE; lia.
Qed.

Lemma word_stays op pend a s w w1 :
  stays pend a s w w1 → in_build op = true → sock_in_range op (sock_view_of (sk_htc s)) →
  ∃ b x w2, cas_then_update (sock_body op) a w1 = Done b w2 ∧ stays pend a (set_htc x s) w w2.
Proof.
  intros Hs Hop Hr. pose proof (sy_bounded _ _ _ _ _ Hs) as Hb.
  destruct (cas_then_update_quiet op a s pend w1 (stays_at _ _ _ _ _ Hs) (sy_sys _ _ _ _ _ Hs)
    (bd_word _ Hb) (bd_job _ Hb) Hop Hr) as (b & w2 & Hrun & _ & [Eh _ _ _ _ Hsys]).
  eexists b, _, w2. split; [exact Hrun|]. eapply stays_trans; [done|].
  split; [exact Eh|exact Hsys|]. destruct (sock_op_refines_core op _ Hop (bd_word _ Hb) Hr) as [Hx Ho].
  apply bounded_word; [done..|]. destruct (sock_guard _ _).
  - destruct Ho as [_ ->]. apply counts_in_effect; [done|by apply counts_of].
  - rewrite Ho. by apply counts_of.
Qed.

Lemma count_stays pend a s delta dead w w1 :
  stays pend a s w w1 → 0 <= Z.of_nat (sock_count s) + delta <= Z.of_nat BUFFERSIZE →
  ∃ x w2, schedi_job_epollsocket_count_add a delta dead w1 = Done () w2 ∧
    stays pend a (set_htc x s) w w2.
Proof.
  intros Hs Hr. destruct (word_stays (SCount (sk_read_cond s) delta dead) pend a s w w1 Hs eq_refl)
    as (b & x & w2 & Hrun & Hs2).
  { cbn [sock_in_range]. by rewrite k_count_of, count_of_nat, <-BUFFERSIZE_Z. }
  exists x, w2. split; [|done]. unfold schedi_job_epollsocket_count_add.
  bind_by (by apply sock_get_run; eapply stays_at). by bind_by exact Hrun.
Qed.

Lemma avail_stays pend a s delta dead w w1 :
  stays pend a s w w1 → 0 <= Z.of_nat (sock_avail s) + delta <= Z.of_nat BUFFERSIZE →
  ∃ x w2, schedi_job_epollsocket_avail_add a delta dead w1 = Done () w2 ∧
    stays pend a (set_htc x s) w w2.
Proof.
  intros Hs Hr. destruct (word_stays (SAvail (sk_write_cond s) delta dead) pend a s w w1 Hs eq_refl)
    as (b & x & w2 & Hrun & Hs2).
  { cbn [sock_in_range]. by rewrite k_avail_of, avail_of_nat, <-BUFFERSIZE_Z. }
  exists x, w2. split; [|done]. unfold schedi_job_epollsocket_avail_add.
  bind_by (by apply sock_get_run; eapply stays_at). by bind_by exact Hrun.
Qed.

Lemma dead_stays pend a s w w1 :
  stays pend a s w w1 →
  ∃ x w2, schedi_job_epollsocket_dead a w1 = Done () w2 ∧ stays pend a (set_htc x s) w w2.
Proof.
  intros Hs. destruct (word_stays SDead pend a s w w1 Hs eq_refl I) as (b & x & w2 & Hrun & Hs2).
  exists x, w2. split; [|done]. unfold schedi_job_epollsocket_dead. by bind_by exact Hrun.
Qed.
(** ** Copies *)

Lemma stored pend a s off bs w w1 :
  stays pend a s w w1 → (off + length bs <= BUFFERSIZE)%nat →
  (∃ b w2, write_buffer_in a off bs w1 = Done () w2 ∧
     stays pend a (set_write (sk_write_head s) (sk_write_tail s) b s) w w2) ∧
  ∃ b w2, read_buffer_in a off bs w1 = Done () w2 ∧
     stays pend a (set_read (sk_read_head s) (sk_read_tail s) b s) w w2.
Proof.
  intros Hs Hle. pose proof (sy_bounded _ _ _ _ _ Hs) as Hb.
  pose proof (stays_at _ _ _ _ _ Hs) as Ha. split.
  - destruct (copy_in_fits (sk_write_buffer s) off bs) as [b Hc]; [by rewrite (bd_write _ Hb)|].
    exists b. eexists. split; [by apply write_buffer_in_run with (bs := bs) (off := off)|].
    eapply stays_trans; [done|]. split; [done|apply Hs|]. destruct Hb. split; try done.
    cbn. by rewrite (length_copy_in _ _ _ _ Hc).
  - destruct (copy_in_fits (sk_read_buffer s) off bs) as [b Hc]; [by rewrite (bd_read _ Hb)|].
    exists b. eexists. split; [by apply read_buffer_in_run with (bs := bs) (off := off)|].
    eapply stays_trans; [done|]. split; [done|apply Hs|]. destruct Hb. split; try done.
    cbn. by rewrite (length_copy_in _ _ _ _ Hc).
Qed.

Lemma fetched (field : epollsocket → list byte) a s off n w :
  sock_at w a s → length (field s) = BUFFERSIZE → (off + n <= BUFFERSIZE)%nat →
  ∃ bs, buffer_out field a off n w = Done bs w ∧ length bs = n.
Proof.
  intros Ha Hl Hle. eexists. split; [eapply buffer_out_run; [done|]; apply copy_out_fits; lia|].
  rewrite length_take, length_drop. lia.
Qed.

Lemma in_buffer_nat x : in_buffer x → (Z.to_nat x < BUFFERSIZE)%nat.
Proof. unfold in_buffer. lia. Qed.
Lemma nat_in_buffer n : (n < BUFFERSIZE)%nat → in_buffer (Z.of_nat n).
Proof. unfold in_buffer. lia. Qed.
Lemma mod_in_buffer n : in_buffer (Z.of_nat (n mod BUFFERSIZE)).
Proof. apply nat_in_buffer. by apply Nat.mod_upper_bound. Qed.

(** ** The job's calls *)

Lemma activator_stays (b : bool) pend a s w w1 :
  stays pend a s w w1 →
  ∃ w2, when b (schedi_job_epollsocket_epoll_activator a) w1 = Done () w2 ∧ stays pend a s w w2.
Proof.
  intros Hs. destruct (when_activator b a s w1 (stays_at _ _ _ _ _ Hs)) as (w2 & Hrun & Hb).
  exists w2. split; [done|]. by eapply stays_border.
Qed.

Lemma read_copy_bounded a s k w :
  sock_at w a s → bounded s → (k <= BUFFERSIZE)%nat →
  ∃ data new, read_copy a (Z.to_nat (sk_read_tail s)) k w = Done (data, new) w ∧
    (new < BUFFERSIZE)%nat.
Proof.
  intros Ha Hb Hk. pose proof (in_buffer_nat _ (bd_read_tail _ Hb)) as Ht.
  set (tail := Z.to_nat (sk_read_tail s)) in *. unfold read_copy.
  destruct (Nat.leb_spec BUFFERSIZE (k + tail)).
  - destruct (fetched sk_read_buffer a s tail (BUFFERSIZE - tail) w Ha (bd_read _ Hb))
      as (d1 & Hr1 & _); [lia|].
    destruct (fetched sk_read_buffer a s 0 (k - (BUFFERSIZE - tail)) w Ha (bd_read _ Hb))
      as (d2 & Hr2 & _); [lia|].
    bind_by exact Hr1. bind_by exact Hr2. eexists _, _. split; [done|]. lia.
  - destruct (fetched sk_read_buffer a s tail k w Ha (bd_read _ Hb)) as (d & Hr & _); [lia|].
    bind_by exact Hr. eexists _, _. split; [done|]. lia.
Qed.

Lemma read_bounded pend a s n w :
  stays pend a s w w →
  ∃ r s' w', schedi_job_epollsocket_read a n w = Done r w' ∧ stays pend a s' w w'.
Proof.
  intros Hs. pose proof (sy_bounded _ _ _ _ _ Hs) as Hb. pose proof (stays_at _ _ _ _ _ Hs) as Ha.
  unfold schedi_job_epollsocket_read. do 2 bind_by (by apply sock_get_run). fold (sock_count s).
  set (k := Nat.min (sock_count s) n). pose proof (bd_count _ Hb) as Hc.
  destruct (read_copy_bounded a s k w Ha Hb) as (data & new & Hr & Hnew); [lia|]. bind_by exact Hr.
  destruct (count_stays pend a s (- Z.of_nat k) false w w Hs) as (x & w1 & Hr1 & Hs1); [lia|].
  bind_by exact Hr1.
  destruct (stays_put pend a _ (λ s, set_read (sk_read_head s) (Z.of_nat new) (sk_read_buffer s) s)
    w w1 Hs1) as (w2 & Hr2 & Hs2).
  { destruct (sy_bounded _ _ _ _ _ Hs1). split; try done. by apply nat_in_buffer. }
  bind_by exact Hr2.
  destruct (activator_stays (sock_count s =? BUFFERSIZE)%nat _ _ _ _ _ Hs2) as (w3 & Hr3 & Hs3).
  bind_by exact Hr3. eexists _, _, w3. by split.
Qed.

(** The end of [write_buffer_data]. *)
Lemma write_end_bounded pend a s new total w w1 :
  stays pend a s w w1 → (new < BUFFERSIZE)%nat → (total <= sock_avail s)%nat →
  ∃ s' w', (store_write_head (Z.of_nat new) a ≫= λ _,
      schedi_job_epollsocket_avail_add a (- Z.of_nat total) false ≫= λ _, mret total) w1 =
    Done total w' ∧ stays pend a s' w w'.
Proof.
  intros Hs Hnew Htot. pose proof (bd_avail _ (sy_bounded _ _ _ _ _ Hs)) as Hav.
  destruct (stays_put pend a s (λ s, set_write (Z.of_nat new) (sk_write_tail s) (sk_write_buffer s) s)
    w w1 Hs) as (w2 & Hr2 & Hs2).
  { destruct (sy_bounded _ _ _ _ _ Hs). split; try done. by apply nat_in_buffer. }
  bind_by exact Hr2. set (s2 := set_write _ _ _ _) in *.
  destruct (avail_stays pend a s2 (- Z.of_nat total) false w w2 Hs2) as (x & w3 & Hr3 & Hs3).
  { change (sock_avail s2) with (sock_avail s). lia. }
  bind_by exact Hr3. eexists _, w3. by split.
Qed.

Lemma write_data_bounded pend a s data w w1 :
  stays pend a s w w1 →
  ∃ n s' w', schedi_job_epollsocket_write_buffer_data a data w1 = Done n w' ∧ stays pend a s' w w'.
Proof.
  intros Hs. pose proof (sy_bounded _ _ _ _ _ Hs) as Hb. pose proof (stays_at _ _ _ _ _ Hs) as Ha.
  unfold schedi_job_epollsocket_write_buffer_data. do 2 bind_by (by apply sock_get_run).
  fold (sock_avail s). pose proof (bd_avail _ Hb) as Hav.
  pose proof (in_buffer_nat _ (bd_write_head _ Hb)) as Hh.
  set (head := Z.to_nat (sk_write_head s)) in *. set (ws := Nat.min (length data) (sock_avail s)).
  set (fw := Nat.min ws (BUFFERSIZE - head)).
  destruct (stored pend a s head (take fw data) w w1 Hs) as [(b1 & w2 & Hr2 & Hs2) _];
    [rewrite length_take; lia|]. bind_by exact Hr2. set (s2 := set_write _ _ b1 s) in *.
  destruct (Nat.leb_spec BUFFERSIZE (head + ws)).
  - destruct (stored pend a s2 0 (take (ws - fw) (drop fw data)) w w2 Hs2)
      as [(b3 & w3 & Hr3 & Hs3) _]; [rewrite length_take, length_drop; lia|].
    bind_by (by bind_by exact Hr3).
    destruct (write_end_bounded pend a _ (ws - fw) (fw + (ws - fw)) w w3 Hs3) as (s' & w' & Hr & Hs');
      [lia|change (fw + (ws - fw) <= sock_avail s)%nat; lia|].
    eexists _, s', w'. by split.
  - bind_by done.
    destruct (write_end_bounded pend a s2 (head + fw) fw w w2 Hs2) as (s' & w' & Hr & Hs');
      [lia|change (fw <= sock_avail s)%nat; lia|].
    eexists _, s', w'. by split.
Qed.

Lemma write_rest_bounded pend a s n data w w1 :
  stays pend a s w w1 →
  ∃ r s' w', write_rest a n data w1 = Done r w' ∧ stays pend a s' w w'.
Proof.
  intros Hs. unfold write_rest. destruct (0 <? length data)%nat; [|by eexists _, s, w1].
  destruct (write_data_bounded pend a s data w w1 Hs) as (m & s2 & w2 & Hr2 & Hs2).
  bind_by exact Hr2.
  destruct (activator_stays true pend a s2 w w2 Hs2) as (w3 & Hr3 & Hs3). cbn [when] in Hr3.
  bind_by exact Hr3. by eexists _, s2, w3.
Qed.

Lemma write_bounded pend a s data w :
  stays pend a s w w →
  ∃ r s' w', schedi_job_epollsocket_write a data w = Done r w' ∧ stays pend a s' w w'.
Proof.
  intros Hs. pose proof (stays_at _ _ _ _ _ Hs) as Ha. unfold schedi_job_epollsocket_write.
  bind_by (by apply sock_get_run).
  assert (∃ o w1, (if schedi_job_epollsocket_avail_from (sk_htc s) =? SCHEDI_JOB_EPOLLSOCKET_BUFFERSIZE
    then fd ← sock_get sk_fd a; send fd data else mret (Sent 0)) w = Done o w1 ∧
    stays pend a s w w1) as (o & w1 & Hr1 & Hs1).
  { destruct (_ =? _); [|by eexists _, w].
    destruct (send_done s (sk_fd s) data w) as (o & w1 & Hr1 & Hb & _). exists o, w1.
    split; [by bind_by (by apply sock_get_run)|]. by eapply stays_border. }
  bind_by exact Hr1. destruct o as [n| |]; [by apply (write_rest_bounded pend a s)..|].
  destruct (dead_stays pend a s w w1 Hs1) as (x & w2 & Hr2 & Hs2). bind_by exact Hr2.
  by eexists _, _, w2.
Qed.

(** ** The epoll side's transfers *)

(** The end of [write_return]. *)
Lemma flush_bounded pend a s total tail (dead : bool) w w1 :
  stays pend a s w w1 → (tail < BUFFERSIZE)%nat → (sock_avail s + total <= BUFFERSIZE)%nat →
  ∃ r s' w', (schedi_job_epollsocket_avail_add a (Z.of_nat total) dead ≫= λ _,
      store_write_tail (Z.of_nat tail) a ≫= λ _,
      mret (if dead then -1 else Z.of_nat total)) w1 = Done r w' ∧ stays pend a s' w w'.
Proof.
  intros Hs Ht Htot.
  destruct (avail_stays pend a s (Z.of_nat total) dead w w1 Hs) as (x & w2 & Hr2 & Hs2); [lia|].
  bind_by exact Hr2.
  destruct (stays_put pend a _ (λ s, set_write (sk_write_head s) (Z.of_nat tail) (sk_write_buffer s) s)
    w w2 Hs2) as (w3 & Hr3 & Hs3).
  { destruct (sy_bounded _ _ _ _ _ Hs2). split; try done. by apply nat_in_buffer. }
  bind_by exact Hr3. by eexists _, _, w3.
Qed.

Lemma write_return_bounded pend a s w :
  stays pend a s w w →
  ∃ r s' w', schedi_job_epollsocket_write_return a w = Done r w' ∧ stays pend a s' w w'.
Proof.
  intros Hs. pose proof (sy_bounded _ _ _ _ _ Hs) as Hb. pose proof (stays_at _ _ _ _ _ Hs) as Ha.
  unfold schedi_job_epollsocket_write_return. do 2 bind_by (by apply sock_get_run).
  fold (sock_avail s). pose proof (in_buffer_nat _ (bd_write_tail _ Hb)) as Ht.
  set (tail := Z.to_nat (sk_write_tail s)) in *. set (sendable := (BUFFERSIZE - sock_avail s)%nat).
  pose proof (bd_avail _ Hb) as Hav. destruct (Nat.eqb_spec sendable 0) as [E0|E0]; [by eexists _, s, w|].
  bind_by (by apply sock_get_run). set (first := Nat.min sendable (BUFFERSIZE - tail)).
  destruct (fetched sk_write_buffer a s tail first w Ha (bd_write _ Hb)) as (bs & Hr1 & Hlen);
    [lia|]. bind_by exact Hr1.
  destruct (send_done s (sk_fd s) bs w) as (o & w1 & Hr2 & Hb2 & Hle).
  pose proof (stays_border _ _ _ _ _ _ _ _ Hs Hb2) as Hs1. bind_by exact Hr2.
  destruct o as [n| |]; cycle 1.
  { by eexists _, s, w1. }
  { destruct (dead_stays pend a s w w1 Hs1) as (x & w2 & Hr3 & Hs2). bind_by exact Hr3.
    by eexists _, _, w2. }
  specialize (Hle n eq_refl). rewrite Hlen in Hle.
  destruct ((n =? first)%nat && (first <? sendable)%nat) eqn:E.
  - apply andb_true_iff in E as [->%Nat.eqb_eq Hlt%Nat.ltb_lt].
    destruct (fetched sk_write_buffer a s 0 (sendable - first) w1 (stays_at _ _ _ _ _ Hs1)
      (bd_write _ Hb)) as (bs' & Hr3 & Hlen'); [lia|].
    destruct (send_done s (sk_fd s) bs' w1) as (o & w2 & Hr4 & Hb4 & Hle').
    pose proof (stays_border _ _ _ _ _ _ _ _ Hs1 Hb4) as Hs2.
    bind_by (by bind_by exact Hr3; bind_by exact Hr4).
    destruct o as [[|m]| |]; try (apply (flush_bounded pend a s); [done| |lia];
      by apply Nat.mod_upper_bound).
    specialize (Hle' _ eq_refl). apply (flush_bounded pend a s); [done|lia|lia].
  - bind_by done. apply (flush_bounded pend a s); [done| |lia]. by apply Nat.mod_upper_bound.
Qed.

(** The end of [read_return]. *)
Lemma receive_bounded pend a s total head (dead : bool) w w1 :
  stays pend a s w w1 → (head < BUFFERSIZE)%nat → (sock_count s + total <= BUFFERSIZE)%nat →
  ∃ r s' w', (schedi_job_epollsocket_count_add a (Z.of_nat total) dead ≫= λ _,
      store_read_head (Z.of_nat head) a ≫= λ _,
      mret (if dead then -1 else Z.of_nat total)) w1 = Done r w' ∧ stays pend a s' w w'.
Proof.
  intros Hs Ht Htot.
  destruct (count_stays pend a s (Z.of_nat total) dead w w1 Hs) as (x & w2 & Hr2 & Hs2); [lia|].
  bind_by exact Hr2.
  destruct (stays_put pend a _ (λ s, set_read (Z.of_nat head) (sk_read_tail s) (sk_read_buffer s) s)
    w w2 Hs2) as (w3 & Hr3 & Hs3).
  { destruct (sy_bounded _ _ _ _ _ Hs2). split; try done. by apply nat_in_buffer. }
  bind_by exact Hr3. by eexists _, _, w3.
Qed.

Lemma read_return_bounded pend a s w :
  stays pend a s w w →
  ∃ r s' w', schedi_job_epollsocket_read_return a w = Done r w' ∧ stays pend a s' w w'.
Proof.
  intros Hs. pose proof (sy_bounded _ _ _ _ _ Hs) as Hb. pose proof (stays_at _ _ _ _ _ Hs) as Ha.
  unfold schedi_job_epollsocket_read_return. do 2 bind_by (by apply sock_get_run).
  fold (sock_count s). pose proof (in_buffer_nat _ (bd_read_head _ Hb)) as Hh.
  set (head := Z.to_nat (sk_read_head s)) in *. set (free := (BUFFERSIZE - sock_count s)%nat).
  pose proof (bd_count _ Hb) as Hc. destruct (Nat.eqb_spec free 0) as [E0|E0]; [by eexists _, s, w|].
  bind_by (by apply sock_get_run). set (first := Nat.min free (BUFFERSIZE - head)).
  destruct (recv_done s (sk_fd s) first w) as (o & w1 & Hr1 & Hb1 & Hle).
  pose proof (stays_border _ _ _ _ _ _ _ _ Hs Hb1) as Hs1. bind_by exact Hr1.
  assert (∃ r s' w', (schedi_job_epollsocket_dead a ≫= λ _, mret (-1)) w1 = Done r w' ∧
    stays pend a s' w w') as Hdead.
  { destruct (dead_stays pend a s w w1 Hs1) as (x & w2 & Hr3 & Hs2). bind_by exact Hr3.
    by eexists _, _, w2. }
  destruct o as [bs| |]; [|by eexists _, s, w1|exact Hdead].
  specialize (Hle bs eq_refl). destruct bs as [|b0 bs0]; [exact Hdead|]. set (bs := b0 :: bs0) in *.
  destruct (stored pend a s head bs w w1 Hs1) as [_ (b2 & w2 & Hr2 & Hs2)]; [lia|].
  bind_by exact Hr2. set (s2 := set_read _ _ b2 s) in *.
  assert (∀ w3 total new (dead : bool), stays pend a s2 w w3 → (total <= free)%nat →
    (new < BUFFERSIZE)%nat →
    ∃ r s' w', (schedi_job_epollsocket_count_add a (Z.of_nat total) dead ≫= λ _,
      store_read_head (Z.of_nat new) a ≫= λ _,
      mret (if dead then -1 else Z.of_nat total)) w3 = Done r w' ∧ stays pend a s' w w') as Hend.
  { intros w3 total new dead Hs3 Htot Hnew. apply (receive_bounded pend a s2); [done..|].
    change (sock_count s2) with (sock_count s). lia. }
  assert (∀ k, (k mod BUFFERSIZE < BUFFERSIZE)%nat) as Hmod by (intros; by apply Nat.mod_upper_bound).
  destruct ((length bs =? first)%nat && (first <? free)%nat) eqn:E.
  - apply andb_true_iff in E as [E%Nat.eqb_eq Hlt%Nat.ltb_lt].
    destruct (recv_done s (sk_fd s) (free - first) w2) as (o & w3 & Hr3 & Hb3 & Hle3).
    pose proof (stays_border _ _ _ _ _ _ _ _ Hs2 Hb3) as Hs3.
    destruct o as [[|b1 bs1]| |]; try (bind_by (by bind_by exact Hr3); apply Hend; [done|lia|done]).
    specialize (Hle3 _ eq_refl).
    destruct (stored pend a s2 0 (b1 :: bs1) w w3 Hs3) as [_ (b4 & w4 & Hr4 & Hs4)]; [lia|].
    bind_by (bind_by exact Hr3; bind_by exact Hr4; reflexivity).
    eapply (receive_bounded pend a); [exact Hs4|lia|].
    change (sock_count s + (length bs + length (b1 :: bs1)) <= BUFFERSIZE)%nat. lia.
  - bind_by done. apply Hend; [done|lia|done].
Qed.

Lemma return_bounded pend a s events w :
  stays pend a s w w →
  ∃ r s' w', schedi_job_epollsocket_return a events w = Done r w' ∧ stays pend a s' w w'.
Proof.
  intros Hs. unfold schedi_job_epollsocket_return.
  assert (∃ dead s' w', (if has events (Z.lor EPOLLERR EPOLLHUP) &&
        negb (has events (Z.lor EPOLLIN EPOLLOUT))
     then schedi_job_epollsocket_dead a ≫= λ _, mret true
     else if has events EPOLLIN then
       r ← schedi_job_epollsocket_read_return a; mret (r <? 0)
     else if has events EPOLLOUT then
       r ← schedi_job_epollsocket_write_return a; mret (r <? 0)
     else mret false) w = Done dead w' ∧ stays pend a s' w w') as (dead & s1 & w1 & Hr1 & Hs1).
  { destruct (_ && _); [|destruct (has events EPOLLIN); [|destruct (has events EPOLLOUT)]].
    - destruct (dead_stays pend a s w w Hs) as (x & w1 & Hr & Hs1). bind_by exact Hr.
      by eexists _, _, w1.
    - destruct (read_return_bounded pend a s w Hs) as (r & s1 & w1 & Hr & Hs1). bind_by exact Hr.
      by eexists _, s1, w1.
    - destruct (write_return_bounded pend a s w Hs) as (r & s1 & w1 & Hr & Hs1). bind_by exact Hr.
      by eexists _, s1, w1.
    - by eexists _, s, w. }
  bind_by exact Hr1.
  destruct (activator_stays true pend a s1 w w1 Hs1) as (w2 & Hr2 & Hs2). cbn [when] in Hr2.
  bind_by exact Hr2. by eexists _, s1, w2.
Qed.

(** ** Any sequence of calls *)

(** A transfer; new conditions; an operation on the word that leaves the counts, a timeout
    and its renewal among them. *)
Inductive any_call : Type :=
  | Transfer (c : sock_call)
  | NewReadCond (c : Z)
  | NewWriteCond (c : Z)
  | MarkDead | MarkEpollDone | MarkJobDone | MarkTimeout | Unmark.

Definition run_any (a : addr) (c : any_call) : M world unit :=
  match c with
  | Transfer c => run_call a c ≫= λ _, mret ()
  | NewReadCond c => schedi_job_tool_epollsocket_read_cond a c
  | NewWriteCond c => schedi_job_tool_epollsocket_write_cond a c
  | MarkDead => schedi_job_epollsocket_dead a
  | MarkEpollDone => schedi_job_epollsocket_done_cas_epollside a
  | MarkJobDone => schedi_job_epollsocket_done_cas_jobside a
  | MarkTimeout => when ext_timeout (schedi_job_epollsocket_timeout_cas a)
  | Unmark => when ext_timeout (schedi_job_epollsocket_untimeout a ≫= λ _, mret ())
  end.

Fixpoint run_all (a : addr) (cs : list any_call) : M world unit :=
  match cs with [] => mret () | c :: cs => run_any a c ≫= λ _, run_all a cs end.

Lemma any_bounded pend a s c w :
  stays pend a s w w → ∃ s' w', run_any a c w = Done () w' ∧ stays pend a s' w w'.
Proof.
  intros Hs. assert (∃ s' w', (mret () : M world unit) w = Done () w' ∧ stays pend a s' w w') as Hid
    by by exists s, w.
  assert (∀ op, in_build op = true → sock_in_range op (sock_view_of (sk_htc s)) →
    ∃ b s' w', cas_then_update (sock_body op) a w = Done b w' ∧ stays pend a s' w w') as Hword.
  { intros op Hop Hr. destruct (word_stays op pend a s w w Hs Hop Hr) as (b & x & w' & Hrun & Hs').
    by eexists b, _, w'. }
  destruct c as [c|c|c| | | | |]; cbn [run_any].
  - destruct c as [data|n|events]; cbn [run_call].
    + destruct (write_bounded pend a s data w Hs) as (r & s' & w' & Hrun & Hs').
      bind_by (by bind_by exact Hrun). by exists s', w'.
    + destruct (read_bounded pend a s n w Hs) as (r & s' & w' & Hrun & Hs').
      bind_by (by bind_by exact Hrun). by exists s', w'.
    + destruct (return_bounded pend a s events w Hs) as (r & s' & w' & Hrun & Hs').
      bind_by (by bind_by exact Hrun). by exists s', w'.
  - destruct (stays_put pend a s (λ s, set_conds c (sk_write_cond s) s) w w Hs) as (w1 & Hr1 & Hs1).
    { by destruct (sy_bounded _ _ _ _ _ Hs). }
    unfold schedi_job_tool_epollsocket_read_cond. bind_by exact Hr1.
    destruct (count_stays pend a _ 0 false w w1 Hs1) as (x & w2 & Hr2 & Hs2).
    { pose proof (bd_count _ (sy_bounded _ _ _ _ _ Hs1)). lia. }
    by eexists _, w2.
  - destruct (stays_put pend a s (λ s, set_conds (sk_read_cond s) c s) w w Hs) as (w1 & Hr1 & Hs1).
    { by destruct (sy_bounded _ _ _ _ _ Hs). }
    unfold schedi_job_tool_epollsocket_write_cond. bind_by exact Hr1.
    destruct (avail_stays pend a _ 0 false w w1 Hs1) as (x & w2 & Hr2 & Hs2).
    { pose proof (bd_avail _ (sy_bounded _ _ _ _ _ Hs1)). lia. }
    by eexists _, w2.
  - destruct (Hword SDead eq_refl I) as (b & s' & w' & Hrun & Hs').
    unfold schedi_job_epollsocket_dead. bind_by exact Hrun. by exists s', w'.
  - destruct (Hword SDoneEpoll eq_refl I) as (b & s' & w' & Hrun & Hs').
    unfold schedi_job_epollsocket_done_cas_epollside. bind_by exact Hrun. by exists s', w'.
  - destruct (Hword SDoneJob eq_refl I) as (b & s' & w' & Hrun & Hs').
    unfold schedi_job_epollsocket_done_cas_jobside. bind_by exact Hrun. by exists s', w'.
  - destruct ext_timeout eqn:E; cbn [when]; [|exact Hid].
    destruct (Hword STimeout E I) as (b & s' & w' & Hrun & Hs').
    unfold schedi_job_epollsocket_timeout_cas. bind_by exact Hrun. by exists s', w'.
  - destruct ext_timeout eqn:E; cbn [when]; [|exact Hid].
    destruct (Hword SUntimeout E I) as (b & s' & w' & Hrun & Hs').
    unfold schedi_job_epollsocket_untimeout. bind_by (by bind_by exact Hrun). by exists s', w'.
Qed.

(** C11: whatever happens to a socket, its transfers stay within its buffers.  From any state
    with buffers of 1024 bytes, positions below 1024 and counts up to 1024 - whether or not
    the counts agree with the positions - any sequence of reads, writes and events with any
    answers of the kernel, new conditions, deaths, releases of the word, timeouts and their
    renewals returns: no copy runs past the end of a buffer.  The positions and counts stay
    in these bounds, and no other object on the heap changes. *)
Theorem transfers_stay_in_bounds pend a cs s w :
  sock_at w a s → sys_ok pend (w_sys w) → bounded s →
  ∃ s' w', run_all a cs w = Done () w' ∧ w_heap w' = <[a := HSocket s']> (w_heap w) ∧
    sys_ok pend (w_sys w') ∧ bounded s'.
Proof.
  revert s w. induction cs as [|c cs IH]; intros s w Ha Hs Hb; cbn [run_all].
  { exists s, w. split; [done|]. split; [by rewrite insert_id|done]. }
  destruct (any_bounded pend a s c w (stays_refl _ _ _ _ Ha Hs Hb)) as (s1 & w1 & Hrun1 & Hs1).
  destruct (IH s1 w1 (stays_at _ _ _ _ _ Hs1)) as (s2 & w2 & Hrun2 & Eh & Hs2 & Hb2); [apply Hs1..|].
  exists s2, w2. bind_by exact Hrun1. split; [done|]. split; [|done].
  rewrite Eh, (sy_heap _ _ _ _ _ Hs1). apply insert_insert_eq.
Qed.
End bounds.

(** ** Witness *)

Section witnesses.
#[local] Existing Instance script_kernel.
#[local] Existing Instance script_laws.
#[local] Existing Instance timeout_build.
#[local] Existing Instance contiguous_jobs.

(** A socket with two bytes times out, is read (which breaks its ring), renewed, and used
    again. *)
Definition late_calls : list any_call :=
  [MarkTimeout; MarkEpollDone; Transfer (CallRead 1); Unmark; Transfer (CallRead 2);
   Transfer (CallReturn EPOLLIN); Transfer (CallWrite ["x"%byte; "y"%byte])].

Lemma transfers_stay_in_bounds_witness :
  ∃ s' w', run_all 5%nat late_calls (world_of socket_two) = Done () w' ∧
    w_heap w' = <[5%nat := HSocket s']> (w_heap (world_of socket_two)) ∧
    sys_ok [] (w_sys w') ∧ bounded s'.
Proof.
  apply (transfers_stay_in_bounds [] 5%nat late_calls socket_two (world_of socket_two)).
  - reflexivity.
  - apply sys_one_ok.
  - apply wf_bounded, socket_two_wf.
Defined.
End witnesses.
