(* ===== verification/NetJobs.v ===== *)
(** * What the network code does to the scheduler

    The operations on sockets and requests (Sockets.v, EpollTool.v, EpollLoop.v) reach the
    jobs through four calls only: they mark and unmark an access, change the counts of
    available sockets and waiting requests, and count in a request list.  So whatever
    property of the scheduler these four keep, every call and every event keeps. *)

From Stdlib Require Import Strings.Byte.
From S2P Require Export EpollLoop.

Local Open Scope Z_scope.

(** ** Triples *)

Section triples.
Context `{Kernel}.

(** From a state with [I], [m] ends, if it ends, in one with [J], with a result in [Q]. *)
Definition triple {A} (I : world → Prop) (m : M world A) (J : world → Prop) (Q : A → Prop) : Prop :=
  ∀ w a w', I w → m w = Done a w' → J w' ∧ Q a.

Definition any {A} (_ : A) : Prop := True.

Lemma triple_bind {A B} I J K (m : M world A) (k : A → M world B) P Q :
  triple I m K P → (∀ a, P a → triple K (k a) J Q) → triple I (m ≫= k) J Q.
Proof.
  intros Hm Hk w b w' Hw. unfold mbind, M_bind. destruct (m w) as [a w1| |] eqn:E; [|done..].
  destruct (Hm w a w1 Hw E) as [Hw1 Ha]. by apply Hk.
Qed.

Lemma triple_ret {A} I (a : A) (Q : A → Prop) : Q a → triple I (mret a) I Q.
Proof. by intros Ha w b w' Hw [= <- <-]. Qed.
Lemma triple_undef {A} I J (Q : A → Prop) : triple I undef J Q.
Proof. done. Qed.
Lemma triple_post {A} I (m : M world A) J (Q R : A → Prop) :
  triple I m J Q → (∀ a, Q a → R a) → triple I m J R.
Proof. intros Hm HR w a w' Hw E. destruct (Hm w a w' Hw E). auto. Qed.
Lemma triple_any {A} I (m : M world A) J (Q : A → Prop) : triple I m J Q → triple I m J any.
Proof. intros Hm. by eapply triple_post. Qed.
End triples.

(** ** What is kept *)

(** A property of the scheduler that the calls of the network code keep. *)
Class kept_by_network `{BuildConfig, JobAddress} (J : sys → Prop) : Prop := {
  kn_access i s r s' : J s → schedi_job_mark_access i s = Done r s' → J s';
  kn_unaccess i s r s' : J s → schedi_job_unmark_access i s = Done r s' → J s';
  kn_update i sd wd s r s' :
    J s → schedi_job_meta_flag_cas_update i sd wd 0 0 0 false s = Done r s' → J s';
  kn_count f i s s' : J s → on_list f i s = Done () s' → J s';
}.

Section jobs.
Context `{BuildConfig, JobAddress, Kernel} (J : sys → Prop) `{!kept_by_network J}.

Definition jobs_ok (w : world) : Prop := J (w_sys w).
Local Abbreviation keeps_jobs m := (triple jobs_ok m jobs_ok any).

(** ** The primitives *)

Lemma jobs_frame {A} (m : M world A) :
  (∀ w a w', m w = Done a w' → w_sys w' = w_sys w) → keeps_jobs m.
Proof. intros Hm w a w' Hw E. split; [|done]. unfold jobs_ok. by rewrite (Hm w a w' E). Qed.

Lemma jobs_call {A} (f : kernel → A * kernel) : keeps_jobs (call f).
Proof. apply jobs_frame. intros w a w'. unfold call. by destruct (f _); intros [= _ <-]. Qed.
Lemma jobs_gets {A} (f : world → A) : keeps_jobs (gets f).
Proof. apply jobs_frame. by intros w a w' [= _ <-]. Qed.
Lemma jobs_io e : keeps_jobs (modify (add_io e)).
Proof. apply jobs_frame. by intros w a w' [= _ <-]. Qed.
Lemma jobs_sock_get {A} (f : epollsocket → A) a : keeps_jobs (sock_get f a).
Proof.
  apply jobs_frame. intros w b w'. unfold sock_get, reads. by destruct (_ ≫= _); intros [= _ <-].
Qed.
Lemma jobs_req_get {A} (f : epoll_request → A) a : keeps_jobs (req_get f a).
Proof.
  apply jobs_frame. intros w b w'. unfold req_get, reads. by destruct (_ ≫= _); intros [= _ <-].
Qed.
Lemma jobs_data_get {A} (f : epoll_data → A) a : keeps_jobs (data_get f a).
Proof.
  apply jobs_frame. intros w b w'. unfold data_get, reads. by destruct (_ ≫= _); intros [= _ <-].
Qed.
Lemma jobs_put f a : keeps_jobs (sock_put f a).
Proof.
  apply jobs_frame. intros w b w'. unfold sock_put, updates.
  destruct (w_heap w !! a) as [[]|]; [|done..]. by intros [= _ <-].
Qed.
Lemma jobs_free a : keeps_jobs (free a).
Proof.
  apply jobs_frame. intros w b w'. unfold free, updates.
  destruct (w_heap w !! a); [|done]. by intros [= _ <-].
Qed.
Lemma jobs_malloc o : keeps_jobs (malloc o).
Proof.
  apply jobs_frame. intros w b w'. unfold malloc, call, mbind, M_bind.
  destruct (sys_malloc (w_kernel w)) as [[|] k]; by intros [= _ <-].
Qed.
Lemma jobs_when (b : bool) m : keeps_jobs m → keeps_jobs (when b m).
Proof. destruct b; [done|]. intros _. by apply triple_ret. Qed.

Lemma jobs_sys {A} (m : M sys A) :
  (∀ s a s', J s → m s = Done a s' → J s') → keeps_jobs (on_sys m).
Proof.
  intros Hm w a w' Hw. unfold on_sys, zoom. destruct (m (w_sys w)) as [b s'| |] eqn:E; [|done..].
  intros [= <- <-]. split; [|done]. by eapply Hm.
Qed.
Lemma jobs_job_get {A} (f : schedi_job → A) i : keeps_jobs (on_sys (job_get f i)).
Proof.
  apply jobs_sys. intros s a s' Hs. unfold job_get, reads. destruct (_ <$> _); [|done].
  by intros [= _ <-].
Qed.
Lemma jobs_access i : keeps_jobs (on_sys (schedi_job_mark_access i)).
Proof. apply jobs_sys, kn_access. Qed.
Lemma jobs_unaccess i : keeps_jobs (on_sys (schedi_job_unmark_access i)).
Proof. apply jobs_sys, kn_unaccess. Qed.
Lemma jobs_update i sd wd :
  keeps_jobs (on_sys (schedi_job_meta_flag_cas_update i sd wd 0 0 0 false)).
Proof. apply jobs_sys. intros s a s' Hs. by apply kn_update. Qed.
Lemma jobs_count f i : keeps_jobs (on_sys (on_list f i)).
Proof. apply jobs_sys. intros s [] s'. apply kn_count. Qed.
End jobs.

Create HintDb jobs.
#[export] Hint Resolve triple_undef triple_ret jobs_call jobs_gets jobs_io jobs_sock_get
  jobs_req_get jobs_data_get jobs_put jobs_free jobs_malloc jobs_when jobs_job_get jobs_access
  jobs_unaccess jobs_update jobs_count : jobs.
#[export] Hint Extern 0 (kept_by_network _) => exact _ : jobs.
#[export] Hint Extern 1 (any _) => exact Logic.I : jobs.
Ltac keep_jobs := intros; repeat lazymatch goal with
  | |- triple _ (mbind _ _) _ _ => eapply triple_bind with (P := any)
  | |- triple _ (when _ _) _ _ => apply jobs_when
  | |- triple _ (match _ with _ => _ end) _ _ => case_match
  | |- triple _ (let _ := _ in _) _ _ => cbv zeta
  | |- triple _ _ _ _ => solve [eauto 2 with jobs]
  | |- ∀ _, _ => intros
  | |- any _ → _ => intros _
  end.

(** ** The operations *)

Section operations.
Context `{BuildConfig, JobAddress, Kernel} (J : sys → Prop) `{!kept_by_network J}.
Local Abbreviation keeps_jobs m := (triple (jobs_ok J) m (jobs_ok J) any).

(** Other threads that run while a request's return waits for access. *)
Variable others : list (M sys unit).
Hypothesis Hothers : Forall (λ act, ∀ s s', J s → act s = Done () s' → J s') others.

Lemma jobs_reset a : keeps_jobs (schedi_job_epollsocket_timeout_reset a).
Proof. unfold schedi_job_epollsocket_timeout_reset. keep_jobs. Qed.
Lemma jobs_stop a : keeps_jobs (schedi_job_epollsocket_timeout_stop a).
Proof. unfold schedi_job_epollsocket_timeout_stop. keep_jobs. Qed.
#[local] Hint Resolve jobs_reset jobs_stop : jobs.
Lemma jobs_accessjob a : keeps_jobs (schedi_job_epollsocket_accessjob a).
Proof. unfold schedi_job_epollsocket_accessjob. keep_jobs. Qed.
#[local] Hint Resolve jobs_accessjob : jobs.
Lemma jobs_ready_update a x y : keeps_jobs (schedi_job_epollsocket_jobready_update a x y).
Proof. unfold schedi_job_epollsocket_jobready_update. keep_jobs. Qed.
#[local] Hint Resolve jobs_ready_update : jobs.

(** *** The socket's word *)

Lemma jobs_cas {R} (body : Z → attempt Z R) a : keeps_jobs (sock_cas body a).
Proof. unfold sock_cas. keep_jobs. Qed.
#[local] Hint Resolve jobs_cas : jobs.
Lemma jobs_cas_update body a : keeps_jobs (cas_then_update body a).
Proof. unfold cas_then_update. keep_jobs. Qed.
#[local] Hint Resolve jobs_cas_update : jobs.
Lemma jobs_avail_add a d dead : keeps_jobs (schedi_job_epollsocket_avail_add a d dead).
Proof. unfold schedi_job_epollsocket_avail_add. keep_jobs. Qed.
Lemma jobs_count_add a d dead : keeps_jobs (schedi_job_epollsocket_count_add a d dead).
Proof. unfold schedi_job_epollsocket_count_add. keep_jobs. Qed.
Lemma jobs_dead a : keeps_jobs (schedi_job_epollsocket_dead a).
Proof. unfold schedi_job_epollsocket_dead. keep_jobs. Qed.
#[local] Hint Resolve jobs_avail_add jobs_count_add jobs_dead : jobs.
Lemma jobs_read_cond a c : keeps_jobs (schedi_job_tool_epollsocket_read_cond a c).
Proof. unfold schedi_job_tool_epollsocket_read_cond. keep_jobs. Qed.
Lemma jobs_write_cond a c : keeps_jobs (schedi_job_tool_epollsocket_write_cond a c).
Proof. unfold schedi_job_tool_epollsocket_write_cond. keep_jobs. Qed.

(** *** Bytes and registrations *)

Lemma jobs_ctl e op fd ev p : keeps_jobs (epoll_ctl e op fd ev p).
Proof. apply jobs_call. Qed.
Lemma jobs_send fd bs : keeps_jobs (send fd bs).
Proof. unfold send. keep_jobs. Qed.
Lemma jobs_recv fd n : keeps_jobs (recv fd n).
Proof. unfold recv. keep_jobs. Qed.
#[local] Hint Resolve jobs_ctl jobs_send jobs_recv : jobs.
Lemma jobs_mod fd p ev : keeps_jobs (schedi_epoll_mod fd p ev).
Proof. unfold schedi_epoll_mod. keep_jobs. Qed.
Lemma jobs_del_read fd : keeps_jobs (schedi_epoll_del_read fd).
Proof. unfold schedi_epoll_del_read. keep_jobs. Qed.
#[local] Hint Resolve jobs_mod jobs_del_read : jobs.
Lemma jobs_del fd : keeps_jobs (schedi_epoll_del fd).
Proof. unfold schedi_epoll_del, schedi_epoll_del_write. keep_jobs. Qed.
Lemma jobs_add fd d ev : keeps_jobs (schedi_epoll_add fd d ev).
Proof. unfold schedi_epoll_add, epoll_add_fail. keep_jobs. Qed.
Lemma jobs_activator a : keeps_jobs (schedi_job_epollsocket_epoll_activator a).
Proof. unfold schedi_job_epollsocket_epoll_activator. keep_jobs. Qed.
Lemma jobs_buffer_out (field : epollsocket → list byte) a off n :
  keeps_jobs (buffer_out field a off n).
Proof. unfold buffer_out. keep_jobs. Qed.
Lemma jobs_write_in a off bs : keeps_jobs (write_buffer_in a off bs).
Proof. unfold write_buffer_in. keep_jobs. Qed.
Lemma jobs_read_in a off bs : keeps_jobs (read_buffer_in a off bs).
Proof. unfold read_buffer_in. keep_jobs. Qed.
#[local] Hint Resolve jobs_del jobs_add jobs_activator jobs_buffer_out jobs_write_in
  jobs_read_in : jobs.

(** *** What jobs call *)

Lemma jobs_write_buffer a data : keeps_jobs (schedi_job_epollsocket_write_buffer_data a data).
Proof. unfold schedi_job_epollsocket_write_buffer_data, store_write_head. keep_jobs. Qed.
#[local] Hint Resolve jobs_write_buffer : jobs.
Lemma jobs_write a data : keeps_jobs (schedi_job_epollsocket_write a data).
Proof. unfold schedi_job_epollsocket_write, write_rest. keep_jobs. Qed.
Lemma jobs_read a n : keeps_jobs (schedi_job_epollsocket_read a n).
Proof. unfold schedi_job_epollsocket_read, read_copy, store_read_tail. keep_jobs. Qed.
Lemma jobs_done_cas a b : keeps_jobs (done_cas a b).
Proof.
  unfold done_cas, schedi_job_epollsocket_done_cas_epollside,
    schedi_job_epollsocket_done_cas_jobside. keep_jobs.
Qed.
#[local] Hint Resolve jobs_done_cas : jobs.
Lemma jobs_done a b : keeps_jobs (schedi_job_epollsocket_done_ a b).
Proof. unfold schedi_job_epollsocket_done_, done_drop. keep_jobs. Qed.
#[local] Hint Resolve jobs_done : jobs.
Lemma jobs_epollisize a : keeps_jobs (schedi_job_epollsocket_epollisize a).
Proof.
  unfold schedi_job_epollsocket_epollisize, schedi_job_epollsocket_push_epoll,
    schedi_job_epollsocket_timer_push_epoll, fail_timeout_reset, fail_epoll_push. keep_jobs.
Qed.
#[local] Hint Resolve jobs_epollisize : jobs.
Lemma jobs_tool_epollsocket j fd rc wc sec :
  keeps_jobs (schedi_job_tool_epollsocket j fd rc wc sec).
Proof.
  unfold schedi_job_tool_epollsocket, new_socket_register, new_socket_fail. keep_jobs.
Qed.
Lemma jobs_tool_epoll j fd ev : keeps_jobs (schedi_job_tool_epoll j fd ev).
Proof. unfold schedi_job_tool_epoll, tool_epoll_register. keep_jobs. Qed.

(** *** What the epoll thread calls *)

Lemma jobs_write_return a : keeps_jobs (schedi_job_epollsocket_write_return a).
Proof. unfold schedi_job_epollsocket_write_return, store_write_tail. keep_jobs. Qed.
Lemma jobs_read_return a : keeps_jobs (schedi_job_epollsocket_read_return a).
Proof. unfold schedi_job_epollsocket_read_return, store_read_head. keep_jobs. Qed.
#[local] Hint Resolve jobs_write_return jobs_read_return : jobs.
Lemma jobs_return a ev : keeps_jobs (schedi_job_epollsocket_return a ev).
Proof. unfold schedi_job_epollsocket_return. keep_jobs. Qed.

Lemma jobs_spin i : keeps_jobs (on_sys (spin_access others i)).
Proof.
  apply jobs_sys. induction Hothers as [|act acts Hact Hacts IH]; intros s a s' Hs; cbn [spin_access];
    unfold mbind, M_bind; destruct (schedi_job_mark_access i s) as [bans s1| |] eqn:E; try done;
    pose proof (kn_access i s bans s1 Hs E) as Hs1; case_match; try done;
    try (intros [= _ <-]; exact Hs1).
  destruct (act s1) as [[] s2| |] eqn:E2; [|done..]. apply (IH Hacts). by eapply Hact.
Qed.
#[local] Hint Resolve jobs_spin jobs_return : jobs.
Lemma jobs_request_return req error :
  keeps_jobs (schedi_job_epoll_request_return others req error).
Proof. unfold schedi_job_epoll_request_return. keep_jobs. Qed.
#[local] Hint Resolve jobs_request_return : jobs.
Lemma jobs_release d a : keeps_jobs (release_socket d a).
Proof. unfold release_socket, schedi_epoll_del_socketcompletely. keep_jobs. Qed.
#[local] Hint Resolve jobs_release : jobs.
Lemma jobs_handlers ev :
  keeps_jobs (schedi_epoll_handle_read others ev) ∧
  keeps_jobs (schedi_epoll_handle_write others ev).
Proof.
  unfold schedi_epoll_handle_read, schedi_epoll_handle_write, handle_job, handle_socket,
    handle_timer, schedi_job_epollsocket_ready, schedi_job_epollsocket_timeout_cas.
  split; keep_jobs.
Qed.
End operations.
