(* ===== verification/EpollSafe.v ===== *)
(** * What the epoll thread may touch (src/src/epoll.c: the dispatch)

    The data pointers registered with the two epoll instances are raw pointers.  The
    invariant here says what they point to; the handlers keep it and never touch freed
    memory, for every batch of events that has at most one event per object. *)

From S2P Require Export EpollLoop.

Local Open Scope Z_scope.

(** ** What a data pointer points to *)

Definition request_wf (r : epoll_request) : Prop :=
  job_index (rq_owner r) ∧ rq_list r = rq_owner r.

Section invariant.
Context `{BuildConfig, JobAddress, KernelLaws}.

(** The descriptor by which a socket's data of a type is registered. *)
Definition socket_fd (ty : Z) (s : epollsocket) : Z :=
  if ty =? SCHEDI_EPOLL_DATA_SOCKET then sk_fd s else sk_to_timer_fd s.

(** [d] is epoll data of type [ty] for the object [t], registered for descriptor [f]. *)
Inductive live (h : gmap addr heap_object) (f : Z) (d t : addr) : Z → Prop :=
  | live_job r :
      h !! d = Some (HData (Data SCHEDI_EPOLL_DATA_JOB t)) → h !! t = Some (HRequest r) →
      request_wf r → f = rq_socketfd r → live h f d t SCHEDI_EPOLL_DATA_JOB
  | live_socket s ty :
      h !! d = Some (HData (Data ty t)) → h !! t = Some (HSocket s) →
      sock_wf s → sock_timed_out s = false → f = socket_fd ty s →
      ty = SCHEDI_EPOLL_DATA_SOCKET ∧ sk_data_ptr s = Some d ∨
      ty = SCHEDI_EPOLL_DATA_EPOLLSOCKTO ∧ ext_timeout = true → live h f d t ty.

Definition instance (w : world) (e : Z) : Prop := e = w_epfd_read w ∨ e = w_epfd_write w.

(** Whatever the two instances [W] watches may hand back is live; timers are in the read
    instance only. *)
Definition entries_ok (h : gmap addr heap_object) (W : Z → Z → option (Z * option addr)) (w : world) : Prop :=
  ∀ e f ev p, instance w e → W e f = Some (ev, p) →
    ∃ d t ty, p = Some d ∧ live h f d t ty ∧
      (e = w_epfd_write w → ty ≠ SCHEDI_EPOLL_DATA_EPOLLSOCKTO).

Definition epoll_ok (w : world) : Prop := entries_ok (w_heap w) (watched w) w.

Lemma live_data h f d t ty : live h f d t ty → h !! d = Some (HData (Data ty t)).
Proof. by intros []. Qed.

Lemma live_target h f d t ty x : live h f d t ty → h !! t ≠ Some (HData x).
Proof. intros []; congruence. Qed.

Lemma live_unique h f1 f2 d t1 t2 ty1 ty2 :
  live h f1 d t1 ty1 → live h f2 d t2 ty2 → f1 = f2 ∧ t1 = t2 ∧ ty1 = ty2.
Proof.
  intros Hl1 Hl2. pose proof (live_data _ _ _ _ _ Hl1) as Ed.
  rewrite (live_data _ _ _ _ _ Hl2) in Ed. injection Ed as -> ->. split; [|done].
  destruct Hl1, Hl2; simplify_eq; naive_solver.
Qed.

(** Other objects do not matter. *)
Lemma live_frame h h' f d t ty :
  live h f d t ty → h' !! d = h !! d → h' !! t = h !! t → live h' f d t ty.
Proof.
  intros [] Ed Et; [eapply live_job|eapply live_socket]; try done; by rewrite ?Ed, ?Et.
Qed.

(** Nor does what is not registered of a socket. *)
Definition reg_key (s : epollsocket) := (sk_fd s, sk_to_timer_fd s, sk_data_ptr s).

Lemma live_socket_changed h f d t ty a s s' :
  live h f d t ty → h !! a = Some (HSocket s) → reg_key s' = reg_key s →
  sock_wf s' → sock_timed_out s' = false → live (<[a := HSocket s']> h) f d t ty.
Proof.
  intros Hl Ha Hid Hwf Hto. assert (d ≠ a) as Hda.
  { intros ->. by rewrite (live_data _ _ _ _ _ Hl) in Ha. }
  destruct (decide (t = a)) as [->|Hta].
  - destruct Hl as [r _ Ht|s0 ty Hd Ht _ _ -> Hcase]; [congruence|].
    assert (s0 = s) as -> by congruence. injection Hid as Ef Et Ep.
    apply (live_socket _ _ _ _ s'); try done.
    + by rewrite lookup_insert_ne.
    + apply lookup_insert_eq.
    + unfold socket_fd. by rewrite Ef, Et.
    + by rewrite Ep.
  - apply (live_frame h); [done|by rewrite lookup_insert_ne..].
Qed.

Lemma identity_reg_key s s' : identity_of s' = identity_of s → reg_key s' = reg_key s.
Proof. unfold reg_key. by intros [= _ _ -> _ _ _ -> _ ->]. Qed.

(** Objects that are touched by nothing but [d] and [t] stay as they are. *)
Definition elsewhere (d t : addr) (h h' : gmap addr heap_object) : Prop :=
  ∀ x, x ≠ d → x ≠ t → h' !! x = h !! x.

Lemma live_elsewhere h h' f d t ty f' d' t' ty' :
  live h f d t ty → live h f' d' t' ty' → elsewhere d t h h' → t' ≠ t → live h' f' d' t' ty'.
Proof.
  intros Hl Hl' He Ht. pose proof (live_data _ _ _ _ _ Hl) as Ed.
  pose proof (live_data _ _ _ _ _ Hl') as Ed'.
  apply (live_frame h); [done|apply He|apply He]; [| | |done].
  - intros ->. rewrite Ed in Ed'. congruence.
  - intros ->. by apply (live_target _ _ _ _ _ _ Hl Ed').
  - intros ->. by apply (live_target _ _ _ _ _ _ Hl' Ed).
Qed.

(** ** Removing registrations *)

Lemma watched_put_heap h w : watched (put_heap h w) = watched w.
Proof. done. Qed.
Lemma kernel_step_fields w w' :
  kernel_step w w' → w_sys w' = w_sys w ∧ w_heap w' = w_heap w ∧
    w_epfd_read w' = w_epfd_read w ∧ w_epfd_write w' = w_epfd_write w.
Proof. by intros ->. Qed.
Lemma watched_put_sys s w : watched (put_sys s w) = watched w.
Proof. done. Qed.

Lemma del_half_done e fd w :
  ∃ w', (epoll_ctl e EPOLL_CTL_DEL fd 0 None ≫= λ _, mret ()) w = Done () w' ∧
    kernel_step w w' ∧
    ∀ e' f, watched w' e' f = if decide (e' = e ∧ f = fd) then None else watched w e' f.
Proof.
  destruct (epoll_ctl_done e EPOLL_CTL_DEL fd 0 None w) as (r & w' & Hrun & Hk & Hr).
  bind_by exact Hrun. exists w'. split; [done|]. split; [done|]. intros e' f.
  destruct Hr as [(_ & _ & _ & Hi)|(_ & Hn & Hi)]; rewrite Hi; [done|].
  case_decide as Hd; [|done]. destruct Hd as [-> ->]. by apply Hn.
Qed.

Lemma del_read_done fd w :
  ∃ w', schedi_epoll_del_read fd w = Done () w' ∧ kernel_step w w' ∧
    ∀ e f, watched w' e f =
      if decide (e = w_epfd_read w ∧ f = fd) then None else watched w e f.
Proof. unfold schedi_epoll_del_read. bind_by done. apply del_half_done. Qed.

Lemma del_done fd w :
  ∃ w', schedi_epoll_del fd w = Done () w' ∧ kernel_step w w' ∧
    ∀ e f, watched w' e f =
      if decide (instance w e ∧ f = fd) then None else watched w e f.
Proof.
  unfold schedi_epoll_del.
  destruct (del_read_done fd w) as (w1 & Hr1 & Hk1 & Hi1). bind_by exact Hr1.
  unfold schedi_epoll_del_write. bind_by done.
  destruct (del_half_done (w_epfd_write w1) fd w1) as (w2 & Hr2 & Hk2 & Hi2).
  exists w2. split; [exact Hr2|]. split; [by eapply kernel_step_trans|].
  intros e f. rewrite Hi2, Hi1, Hk1. unfold instance. cbn.
  repeat case_decide; naive_solver.
Qed.

(** The descriptors a socket is registered by. *)
Definition socket_watch (s : epollsocket) (w : world) (e f : Z) : Prop :=
  instance w e ∧ f = sk_fd s ∨
  ext_timeout = true ∧ e = w_epfd_read w ∧ f = sk_to_timer_fd s.

#[export] Instance socket_watch_dec s w e f : Decision (socket_watch s w e f).
Proof. unfold socket_watch, instance. apply _. Defined.

Lemma del_socketcompletely_done a s w :
  sock_at w a s →
  ∃ w', schedi_epoll_del_socketcompletely a w = Done () w' ∧ kernel_step w w' ∧
    ∀ e f, watched w' e f =
      if decide (socket_watch s w e f) then None else watched w e f.
Proof.
  intros Ha. unfold schedi_epoll_del_socketcompletely. bind_by (by apply sock_get_run).
  destruct (del_done (sk_fd s) w) as (w1 & Hr1 & Hk1 & Hi1). bind_by exact Hr1.
  assert (sock_at w1 a s) as Ha1 by (unfold sock_at; by rewrite Hk1).
  destruct ext_timeout eqn:Ex; cbn [when].
  - bind_by (by apply sock_get_run).
    destruct (del_read_done (sk_to_timer_fd s) w1) as (w2 & Hr2 & Hk2 & Hi2).
    exists w2. split; [exact Hr2|]. split; [by eapply kernel_step_trans|].
    intros e f. rewrite Hi2, Hi1, Hk1. cbn. unfold socket_watch in *.
    repeat case_decide; naive_solver.
  - exists w1. split; [done|]. split; [done|]. intros e f. rewrite Hi1.
    assert (ext_timeout ≠ true) as Hno by congruence.
    unfold socket_watch in *. repeat case_decide; naive_solver.
Qed.

Lemma entries_after_delete h h' W W' w w' d t f ty :
  entries_ok h W w → w_epfd_read w' = w_epfd_read w → w_epfd_write w' = w_epfd_write w →
  live h f d t ty → elsewhere d t h h' →
  (∀ e f', W' e f' = W e f' ∨ W' e f' = None) →
  (∀ e f' d' ty', instance w e → live h f' d' t ty' →
     (e = w_epfd_write w → ty' ≠ SCHEDI_EPOLL_DATA_EPOLLSOCKTO) → W' e f' = None) →
  entries_ok h' W' w'.
Proof.
  intros Hok Er Ew Hl He Hsub Hgone e f' ev p Hin HW.
  assert (instance w e) as Hin' by (unfold instance in *; by rewrite <-Er, <-Ew).
  destruct (Hsub e f') as [Heq|Heq]; [|congruence].
  rewrite Heq in HW. destruct (Hok e f' ev p Hin' HW) as (d' & t' & ty' & -> & Hl' & Hty).
  exists d', t', ty'. split; [done|]. rewrite Ew. split; [|done].
  eapply live_elsewhere; [exact Hl|exact Hl'|done|].
  intros ->. specialize (Hgone e f' d' ty' Hin' Hl' Hty). congruence.
Qed.

(** ** The handlers *)

(** What handling an event with data [d] of the object [t] leaves. *)
Definition handled (pend : list nat) (d t : addr) (w : world) (_ : unit) (w' : world)
    : Prop :=
  epoll_ok w' ∧ sys_ok pend (w_sys w') ∧ elsewhere d t (w_heap w) (w_heap w') ∧
  w_epfd_read w' = w_epfd_read w ∧ w_epfd_write w' = w_epfd_write w.

(** What other threads do meanwhile keeps the scheduler consistent. *)
Definition others_ok (pend : list nat) (others : list (M sys unit)) : Prop :=
  Forall (λ act, ∀ s, sys_ok pend s → wlp act (λ _ s', sys_ok pend s') s) others.

Lemma spin_access_safe pend others i s :
  sys_ok pend s → job_index i → others_ok pend others →
  wlp (spin_access others i) (λ _ s', sys_ok pend s') s.
Proof.
  intros Hs Hi Ho. revert s Hs. induction Ho as [|act others Hact Ho IH]; intros s Hs;
    cbn [spin_access];
    destruct (base_job _ _ (ok_base _ _ Hs) Hi) as (j & Hj & Hw);
    destruct (mark_done OpMarkAccess _ i j s eq_refl Hj Hw) as (r & w' & Hrun & Hw' & _);
    wlp_by exact Hrun;
    pose proof (with_job_ok pend i j (set_meta w' j) s Hs Hj Hw') as Hs1;
    (destruct (_ && _); [|by eapply wlp_done]); [done|].
  eapply wlp_bind; [by apply Hact|]. intros ? s'. apply IH.
Qed.

Lemma net_wlp {A} (m : M sys A) (Q : A → world → Prop) w :
  wlp m (λ a s, Q a (put_sys s w)) (w_sys w) → wlp (on_sys m) Q w.
Proof. unfold wlp, on_sys, zoom. by destruct (m (w_sys w)). Qed.

Lemma request_return_safe pend others t r error w :
  sys_ok pend (w_sys w) → others_ok pend others → req_at w t r → request_wf r →
  wlp (schedi_job_epoll_request_return others t error)
    (λ _ w', w' = put_sys (w_sys w') w ∧ sys_ok pend (w_sys w')) w.
Proof.
  intros Hs Ho Ht [Hi Hl]. unfold schedi_job_epoll_request_return.
  wlp_by (by apply req_get_run).
  eapply (wlp_bind _ _ (λ _ w', w' = put_sys (w_sys w') w ∧ sys_ok pend (w_sys w'))).
  { apply net_wlp. eapply wlp_mono; [by apply spin_access_safe|]. done. }
  intros bans w1 [Ew Hs1]. assert (req_at w1 t r) as Ht1 by (rewrite Ew; exact Ht).
  assert (∀ s, put_sys s w1 = put_sys s w) as Eput by (intros s; by rewrite Ew).
  destruct (negb (bans =? 0)); [by eapply wlp_done|].
  destruct (base_job _ _ (ok_base _ _ Hs1) Hi) as (j & Hj & Hw).
  wlp_by (by apply net_sys_run, job_get_run). wlp_by (by apply req_get_run).
  set (w2 := put_sys (w_sys w1) w1).
  destruct (negb _).
  { destruct (on_sys_mark OpUnmarkAccess _ _ pend w2 eq_refl Hs1 Hi) as (r2 & w3 & Hr & _).
    destruct (mark_done OpUnmarkAccess _ _ j (w_sys w2) eq_refl Hj Hw)
      as (r3 & x & Hr3 & Hx & _).
    wlp_by (by apply net_sys_run). eapply wlp_done; [done|].
    split; [exact (Eput _)|]. by eapply with_job_ok. }
  wlp_by (by apply req_get_run). rewrite Hl.
  wlp_by (by apply net_sys_run, on_list_run).
  set (j1 := set_epoll_list _ j). assert (sys_ok pend (with_job (rq_owner r) j1 (w_sys w2))) as Hs2
    by (by eapply with_job_ok).
  destruct (cas_update_ok pend (rq_owner r) _ 0 (-1) 0 false Hs2 Hi)
    as (r3 & s3 & Hr3 & Hs3 & _).
  wlp_by (by apply net_sys_run).
  destruct (base_job _ _ (ok_base _ _ Hs3) Hi) as (j3 & Hj3 & Hw3).
  destruct (mark_done OpUnmarkAccess _ _ j3 s3 eq_refl Hj3 Hw3) as (r4 & x & Hr4 & Hx & _).
  wlp_by (by apply net_sys_run). eapply wlp_done; [done|].
  split; [exact (Eput _)|]. by eapply with_job_ok.
Qed.

(** The event of a request: its descriptor is registered no more, request and data are
    freed. *)
Definition request_gone (d t : addr) (f : Z) (w w' : world) : Prop :=
  w_heap w' = delete d (delete t (w_heap w)) ∧
  w_epfd_read w' = w_epfd_read w ∧ w_epfd_write w' = w_epfd_write w ∧
  ∀ e f', watched w' e f' = if decide (instance w e ∧ f' = f) then None else watched w e f'.

Lemma handle_job_done pend others d t r events w :
  sys_ok pend (w_sys w) → others_ok pend others →
  w_heap w !! d = Some (HData (Data SCHEDI_EPOLL_DATA_JOB t)) → req_at w t r → request_wf r →
  wlp (handle_job others d events)
    (λ _ w', sys_ok pend (w_sys w') ∧ request_gone d t (rq_socketfd r) w w') w.
Proof.
  intros Hs Ho Hd Ht Hwf. unfold handle_job. wlp_by (unfold data_get, reads; by rewrite Hd).
  wlp_by (by apply req_get_run). cbn [ed_ptr].
  destruct (del_done (rq_socketfd r) w) as (w1 & Hr1 & Hk1 & Hi1). wlp_by exact Hr1.
  apply kernel_step_fields in Hk1 as (Es1 & Eh1 & Er1 & Ew1).
  eapply wlp_bind.
  { apply (request_return_safe pend others t r); [by rewrite Es1|done| |done].
    unfold req_at. by rewrite Eh1. }
  intros _ w2 [Ew2 Hs2]. assert (w_heap w2 = w_heap w) as Eh2 by (by rewrite Ew2, <-Eh1).
  assert (t ≠ d) as Htd by (unfold req_at in Ht; congruence).
  wlp_by (eapply free_run; rewrite Eh2; exact Ht).
  eapply wlp_done; [eapply free_run; cbn; rewrite Eh2, lookup_delete_ne by done; exact Hd|].
  assert (watched w2 = watched w1 ∧ w_epfd_read w2 = w_epfd_read w ∧
    w_epfd_write w2 = w_epfd_write w) as (Ei & Er2 & Ewr2) by (by rewrite Ew2).
  split; [done|]. unfold request_gone. cbn. rewrite Eh2. split_and!; [done..|].
  intros e f'. by rewrite !watched_put_heap, Ei.
Qed.

Lemma handle_job_safe pend others d t f events w :
  epoll_ok w → sys_ok pend (w_sys w) → others_ok pend others →
  live (w_heap w) f d t SCHEDI_EPOLL_DATA_JOB →
  wlp (handle_job others d events) (handled pend d t w) w.
Proof.
  intros Hok Hs Ho Hl. pose proof Hl as Hl'. inversion Hl' as [r Hd Ht Hwf Hf|]; subst;
    [|naive_solver].
  eapply wlp_mono; [by eapply handle_job_done|]. intros [] w' (Hs' & Eh & Er & Ew & Hi).
  assert (elsewhere d t (w_heap w) (w_heap w')) as He.
  { intros x Hx1 Hx2. by rewrite Eh, !lookup_delete_ne by done. }
  split; [|done].
  apply (entries_after_delete (w_heap w) _ (watched w) _ w _ d t (rq_socketfd r)
    SCHEDI_EPOLL_DATA_JOB); try done.
  - intros e f'. rewrite Hi. case_decide; auto.
  - intros e f' d' ty' Hin Hl2 _. rewrite Hi.
    rewrite decide_True; [done|]. split; [done|].
    inversion Hl2; unfold req_at in *; congruence.
Qed.

(** The heap after the epoll side released the socket [a] (now [s']) and its data [d]. *)
Definition released (d a : addr) (s' : epollsocket) (h h' : gmap addr heap_object) : Prop :=
  if sk_fall s' =? 1 then h' = delete a (delete d h)
  else ∃ x, word64 x ∧ sock_view_of x = sock_effect SDoneEpoll (sock_view_of (sk_htc s')) ∧
    h' = <[a := HSocket (set_fall (sk_fall s' - 1) (set_htc x s'))]> (delete d h).

Lemma released_elsewhere d a s' h h' : released d a s' h h' → elsewhere d a h h'.
Proof.
  unfold released. intros Hr x Hd Ha.
  destruct (sk_fall s' =? 1); [subst h'|destruct Hr as (? & _ & _ & ->)].
  - by rewrite !lookup_delete_ne by done.
  - by rewrite lookup_insert_ne, lookup_delete_ne by done.
Qed.

(** [h] is the heap before the handler, in which [a] was still the well-formed [s]. *)
Lemma release_socket_done pend d a s s' h f ty w :
  entries_ok h (watched w) w → h !! a = Some (HSocket s) → live h f d a ty →
  w_heap w = <[a := HSocket s']> h → identity_of s' = identity_of s →
  word64 (sk_htc s') → job_index (sk_job s') → sys_ok pend (w_sys w) →
  ∃ w', release_socket d a w = Done () w' ∧ epoll_ok w' ∧ sys_ok pend (w_sys w') ∧
    released d a s' h (w_heap w') ∧
    w_epfd_read w' = w_epfd_read w ∧ w_epfd_write w' = w_epfd_write w ∧
    ∀ e f, watched w' e f = if decide (socket_watch s w e f) then None else watched w e f.
Proof.
  intros Hok Ha Hl Eh Hid Hx Hj Hs. unfold release_socket.
  pose proof (live_data _ _ _ _ _ Hl) as Hd. assert (d ≠ a) as Hda by congruence.
  assert (sock_at w a s') as Ha' by (unfold sock_at; rewrite Eh; apply lookup_insert_eq).
  destruct (del_socketcompletely_done a s' w Ha') as (w1 & Hr1 & Hk1 & Hi1). bind_by exact Hr1.
  apply kernel_step_fields in Hk1 as (Es1 & Eh1 & Er1 & Ew1).
  bind_by (eapply free_run; rewrite Eh1, Eh, lookup_insert_ne by done; exact Hd).
  set (w2 := put_heap (delete d (w_heap w1)) w1).
  assert (w_heap w2 = <[a := HSocket s']> (delete d h)) as Eh2.
  { cbn. rewrite Eh1, Eh. by rewrite delete_insert_ne by done. }
  assert (sock_at w2 a s') as Ha2 by (unfold sock_at; rewrite Eh2; apply lookup_insert_eq).
  destruct (done_cas_done pend a s' true w2 Ha2) as (x & w3 & Hr3 & Hx3 & Hv3 & Hq3);
    [cbn; by rewrite Es1|done|done|].
  assert (sock_at w3 a (set_htc x s')) as Ha3 by (eapply quiet_sock; [done|apply sock_at_with]).
  destruct Hq3 as [Eh3 _ Er3 Ew3 Ei3 Hs3]. 
  change (w_heap w3 = <[a := HSocket (set_htc x s')]> (w_heap w2)) in Eh3.
  rewrite Eh2, insert_insert_eq in Eh3.
  set (W' := λ e f, if decide (socket_watch s w e f) then None else watched w e f).
  assert (∀ e f', watched w3 e f' = W' e f') as Hi3.
  { intros e f'. rewrite Ei3. unfold with_sock, w2. rewrite !watched_put_heap, Hi1.
    injection Hid as _ _ Ef _ _ _ _ _ Et. apply decide_ext.
    unfold socket_watch. by rewrite Ef, Et. }
  assert (∃ w', schedi_job_epollsocket_done_ a true w2 = Done
      (if sk_fall s' =? 1 then 0 else -1) w' ∧ released d a s' h (w_heap w') ∧
      w' = put_heap (w_heap w') w3) as (w' & Hr' & Hrel & Ew').
  { unfold schedi_job_epollsocket_done_. bind_by exact Hr3. rewrite (done_drop_run _ _ _ Ha3).
    change (sk_fall (set_htc x s')) with (sk_fall s'). unfold released.
    destruct (sk_fall s' =? 1); eexists; (split; [done|]); (split; [|done]); cbn; rewrite Eh3.
    - by rewrite delete_insert_eq.
    - exists x. by rewrite insert_insert_eq. }
  bind_by exact Hr'. exists w'. split; [done|].
  assert (watched w' = watched w3) as Ei' by (by rewrite Ew').
  assert (w_sys w' = w_sys w3 ∧ w_epfd_read w' = w_epfd_read w3 ∧
    w_epfd_write w' = w_epfd_write w3) as (Es' & Er' & Ewr') by (by rewrite Ew').
  cbn in Er3, Ew3. rewrite Er1 in Er3. rewrite Ew1 in Ew3.
  split; [|split; [by rewrite Es'|split; [done|]]]; cycle 1.
  { rewrite Er', Ewr'. split; [done|]. split; [done|]. intros e f'. by rewrite Ei'. }
  apply (entries_after_delete h _ (watched w) _ w _ d a f ty); try done.
  - by rewrite Er'.
  - by rewrite Ewr'.
  - by eapply released_elsewhere.
  - intros e f'. rewrite Ei', Hi3. unfold W'. case_decide; auto.
  - intros e f' d' ty' Hin Hl2 Hty. rewrite Ei', Hi3. unfold W'.
    rewrite decide_True; [done|]. inversion Hl2 as [|s0 ? Hd' Ht' _ _ Hf' Hcase]; [congruence|].
    assert (s0 = s) as -> by congruence. unfold socket_watch.
    destruct Hcase as [[-> _]|[-> Hext]]; [by left|]. right. split; [done|]. split; [|done].
    destruct Hin; [done|]. exfalso. by apply Hty.
Qed.

(** A call on a registered socket keeps the registrations. *)
Lemma entries_after_call pend a s s' io d w w' :
  epoll_ok w → sock_at w a s → live (w_heap w) (sk_fd s) d a SCHEDI_EPOLL_DATA_SOCKET →
  after pend a s s' io w w' → epoll_ok w'.
Proof.
  intros Hok Ha Hl [Eh _ Er Ew Hrw _ Hid Hwf Hto] e f ev p Hin HW.
  assert (∀ f d t ty, live (w_heap w) f d t ty → live (w_heap w') f d t ty) as Hkeep.
  { intros. rewrite Eh. eapply live_socket_changed; [done|done|by apply identity_reg_key|done..]. }
  assert (instance w e) as Hin' by (unfold instance in *; by rewrite <-Er, <-Ew).
  rewrite Ew. destruct (Hrw e f) as [Heq|(-> & _ & ev' & Heq)]; rewrite Heq in HW.
  - destruct (Hok e f ev p Hin' HW) as (d' & t' & ty' & -> & Hl' & Hty). exists d', t', ty'. auto.
  - injection HW as <- <-. exists d, a, SCHEDI_EPOLL_DATA_SOCKET. split; [|by eauto].
    inversion Hl as [|s0 ? _ Ha0 _ _ _ Hcase].
    assert (s0 = s) as -> by (unfold sock_at in Ha; congruence). naive_solver.
Qed.

Lemma quiet_epoll_ok pend w w' :
  epoll_ok w → quiet pend w w' → epoll_ok w'.
Proof.
  intros Hok [Eh _ Er Ew Ei _] e f ev p Hin HW. rewrite Eh, Ew. rewrite Ei in HW.
  apply (Hok e f ev p); [|done]. unfold instance in *. by rewrite <-Er, <-Ew.
Qed.

Lemma live_socket_usable pend f d a ty w :
  live (w_heap w) f d a ty → ty ≠ SCHEDI_EPOLL_DATA_JOB → sys_ok pend (w_sys w) →
  ∃ s, usable pend a s w ∧ f = socket_fd ty s.
Proof. intros [] Hty Hs; [done|]. exists s. by split. Qed.

(** The event of a socket: the call, and the release if it asked for it. *)
Lemma handle_socket_done pend d a s events w :
  epoll_ok w → usable pend a s w → live (w_heap w) (sk_fd s) d a SCHEDI_EPOLL_DATA_SOCKET →
  ∃ s' io w1 w', handle_socket d events w = Done () w' ∧ after pend a s s' io w w1 ∧
    epoll_ok w' ∧ sys_ok pend (w_sys w') ∧
    (w' = w1 ∨ released d a s' (w_heap w1) (w_heap w') ∧
       w_epfd_read w' = w_epfd_read w ∧ w_epfd_write w' = w_epfd_write w ∧
       ∀ e f, watched w' e f = if decide (socket_watch s' w1 e f) then None else watched w1 e f).
Proof.
  intros Hok Hu Hl. pose proof (us_at _ _ _ _ Hu) as Ha. pose proof (live_data _ _ _ _ _ Hl) as Hd.
  unfold handle_socket. bind_by (by unfold data_get, reads; rewrite Hd). cbn [ed_ptr].
  destruct (return_done pend a s events w Hu) as (r & s' & io & w1 & Hr1 & Haf & _).
  bind_by exact Hr1. pose proof (entries_after_call _ _ _ _ _ _ _ _ Hok Ha Hl Haf) as Hok1.
  pose proof (af_heap _ _ _ _ _ _ _ Haf) as Eh1. exists s', io, w1.
  assert (w_heap w1 !! a = Some (HSocket s')) as Ha1 by (rewrite Eh1; apply lookup_insert_eq).
  destruct (negb (r =? 0)); cbn [when]; [|exists w1; pose proof (af_sys _ _ _ _ _ _ _ Haf); by split_and!; auto].
  destruct (release_socket_done pend d a s' s' (w_heap w1) (sk_fd s) SCHEDI_EPOLL_DATA_SOCKET w1)
    as (w2 & Hr2 & Hok2 & Hs2 & Hrel & Er2 & Ew2 & Hi2); try done.
  - rewrite Eh1. eapply live_socket_changed; [done|done|apply identity_reg_key, Haf|apply Haf..].
  - by rewrite insert_id.
  - apply (af_wf _ _ _ _ _ _ _ Haf).
  - apply (af_wf _ _ _ _ _ _ _ Haf).
  - apply Haf.
  - exists w2. split_and!; try done. right. destruct Haf. split_and!; [done|congruence..|done].
Qed.

Lemma handle_socket_safe pend d a f events w :
  epoll_ok w → sys_ok pend (w_sys w) → live (w_heap w) f d a SCHEDI_EPOLL_DATA_SOCKET →
  ∃ w', handle_socket d events w = Done () w' ∧ handled pend d a w () w'.
Proof.
  intros Hok Hs Hl. destruct (live_socket_usable pend _ _ _ _ _ Hl) as (s & Hu & Hf);
    [done|done|]. assert (f = sk_fd s) as -> by done.
  destruct (handle_socket_done pend d a s events w Hok Hu Hl)
    as (s' & io & w1 & w' & Hrun & Haf & Hok' & Hs' & Hcase).
  exists w'. split; [done|]. split; [done|]. split; [done|].
  assert (elsewhere d a (w_heap w) (w_heap w1)) as He1.
  { intros x _ Hx. by rewrite (af_heap _ _ _ _ _ _ _ Haf), lookup_insert_ne. }
  destruct Hcase as [->|(Hrel & Er & Ew & _)]; [by destruct Haf|].
  split; [|done]. intros x Hx1 Hx2. rewrite (released_elsewhere _ _ _ _ _ Hrel x Hx1 Hx2).
  by apply He1.
Qed.

(** The word of a socket whose timer expired. *)
Definition expired (s s' : epollsocket) : Prop :=
  ∃ x, word64 x ∧ s' = set_htc x s ∧
    sock_view_of x = sock_effect STimeout (sock_view_of (sk_htc s)).

Lemma handle_timer_done pend d a f s w :
  epoll_ok w → sys_ok pend (w_sys w) → sock_at w a s →
  live (w_heap w) f d a SCHEDI_EPOLL_DATA_EPOLLSOCKTO →
  ∃ w', handle_timer d w = Done () w' ∧ epoll_ok w' ∧ sys_ok pend (w_sys w') ∧
    w_epfd_read w' = w_epfd_read w ∧ w_epfd_write w' = w_epfd_write w ∧
    if has (sk_htc s) SCHEDI_JOB_EPOLLSOCKET_READY
    then w_heap w' = w_heap w ∧ ∀ e f, watched w' e f = watched w e f
    else ∃ s', expired s s' ∧ released d a s' (w_heap w) (w_heap w') ∧
      ∀ e f, watched w' e f = if decide (socket_watch s w e f) then None else watched w e f.
Proof.
  intros Hok Hs Ha Hl. pose proof (live_data _ _ _ _ _ Hl) as Hd.
  inversion Hl as [|s0 ? _ Ha0 Hwf Hto _ Hcase]. assert (s0 = s) as -> by
    (unfold sock_at in Ha; congruence).
  destruct Hcase as [[? _]|[_ Hext]]; [done|].
  unfold handle_timer. bind_by (by unfold data_get, reads; rewrite Hd). cbn [ed_ptr].
  bind_by (unfold schedi_job_epollsocket_ready; bind_by (by apply sock_get_run); done).
  destruct (has (sk_htc s) SCHEDI_JOB_EPOLLSOCKET_READY).
  { destruct (timeout_reset_quiet a s pend w Ha Hs) as (r & w1 & Hr1 & Hq).
    bind_by exact Hr1. exists w1. split; [done|]. split; [by eapply quiet_epoll_ok|].
    destruct Hq. by split_and!. }
  destruct (cas_then_update_quiet STimeout a s pend w Ha Hs (wf_word _ Hwf) (wf_job _ Hwf) Hext I)
    as (b & w1 & Hr1 & _ & Hq).
  destruct (sock_op_refines_core STimeout (sk_htc s) Hext (wf_word _ Hwf) I) as [Hx [_ Hv]].
  set (s' := set_htc _ s) in Hq.
  bind_by (unfold schedi_job_epollsocket_timeout_cas; bind_by exact Hr1; done).
  destruct Hq as [Eh1 _ Er1 Ew1 Ei1 Hs1].
  assert (entries_ok (w_heap w) (watched w1) w1) as Hok1.
  { intros e f' ev p Hin HW. rewrite Ei1 in HW. unfold instance in Hin. rewrite Er1, Ew1 in *.
    by apply (Hok e f' ev p). }
  destruct (release_socket_done pend d a s s' (w_heap w) f SCHEDI_EPOLL_DATA_EPOLLSOCKTO w1 Hok1 Ha Hl)
    as (w2 & Hr2 & Hok2 & Hs2 & Hrel & Er2 & Ew2 & Hi2); try done; [apply Hwf|].
  exists w2. split; [exact Hr2|]. split; [done|]. split; [done|].
  split; [by rewrite Er2, Er1|]. split; [by rewrite Ew2, Ew1|]. exists s'.
  split; [by eexists|]. split; [done|]. intros e f'. rewrite Hi2, Ei1.
  apply decide_ext. unfold socket_watch, instance. by rewrite Er1, Ew1.
Qed.

Lemma handle_timer_safe pend d a f w :
  epoll_ok w → sys_ok pend (w_sys w) → live (w_heap w) f d a SCHEDI_EPOLL_DATA_EPOLLSOCKTO →
  ∃ w', handle_timer d w = Done () w' ∧ handled pend d a w () w'.
Proof.
  intros Hok Hs Hl. destruct (live_socket_usable pend _ _ _ _ _ Hl) as (s & Hu & Hf);
    [done|done|].
  destruct (handle_timer_done pend d a f s w Hok Hs (us_at _ _ _ _ Hu) Hl)
    as (w' & Hr & Hok' & Hs' & Er & Ew & Hcase).
  exists w'. split; [done|]. split_and!; try done.
  destruct (has _ _); [by destruct Hcase as [-> _]|].
  destruct Hcase as (s' & _ & Hrel & _). by eapply released_elsewhere.
Qed.

(** An event from the read instance, and one from the write instance. *)
Lemma handle_read_safe pend others d t f ty events w :
  epoll_ok w → sys_ok pend (w_sys w) → others_ok pend others → live (w_heap w) f d t ty →
  wlp (schedi_epoll_handle_read others (Event events (Some d))) (handled pend d t w) w.
Proof.
  intros Hok Hs Ho Hl. pose proof (live_data _ _ _ _ _ Hl) as Hd.
  cbn [schedi_epoll_handle_read ev_data ev_events].
  wlp_by (unfold data_get, reads; by rewrite Hd). cbn [ed_type].
  destruct Hl as [r _ Ht Hwf Hf|s ty _ Ht Hwf Hto Hf Hcase].
  - apply (handle_job_safe pend others d t f); try done. by eapply live_job.
  - destruct Hcase as [[-> Hp]|[-> Hext]]; rewrite ?Hext; cbn [Z.eqb andb].
    + destruct (handle_socket_safe pend d t f events w) as (w' & Hr & Hpost); try done.
      { eapply live_socket; eauto. }
      by eapply wlp_done.
    + destruct (handle_timer_safe pend d t f w) as (w' & Hr & Hpost); try done.
      { eapply live_socket; eauto. }
      by eapply wlp_done.
Qed.

Lemma handle_write_safe pend others d t f ty events w :
  epoll_ok w → sys_ok pend (w_sys w) → others_ok pend others → live (w_heap w) f d t ty →
  ty ≠ SCHEDI_EPOLL_DATA_EPOLLSOCKTO →
  wlp (schedi_epoll_handle_write others (Event events (Some d))) (handled pend d t w) w.
Proof.
  intros Hok Hs Ho Hl Hty. pose proof (handle_read_safe pend others d t f ty events w Hok Hs Ho Hl) as Hr.
  pose proof (live_data _ _ _ _ _ Hl) as Hd.
  cbn [schedi_epoll_handle_read schedi_epoll_handle_write ev_data ev_events] in *.
  wlp_by (unfold data_get, reads; by rewrite Hd). cbn [ed_type].
  unfold wlp in Hr |- *. erewrite bind_done in Hr by (unfold data_get, reads; by rewrite Hd).
  cbn beta in Hr. cbn [ed_type] in Hr. apply Z.eqb_neq in Hty.
  by rewrite Hty, andb_false_r in Hr.
Qed.

(** ** Batches *)

(** One of the two instances, with its handler. *)
Definition handler (others : list (M sys unit)) (write : bool) : epoll_event → M world unit :=
  if write then schedi_epoll_handle_write others else schedi_epoll_handle_read others.

(** An event for the object [t]. *)
Definition event_for (write : bool) (h : gmap addr heap_object) (ev : epoll_event) (t : addr)
    : Prop :=
  ∃ d f ty, ev_data ev = Some d ∧ live h f d t ty ∧
    (write = true → ty ≠ SCHEDI_EPOLL_DATA_EPOLLSOCKTO).

Lemma handler_safe pend others write ev t w :
  epoll_ok w → sys_ok pend (w_sys w) → others_ok pend others →
  event_for write (w_heap w) ev t →
  wlp (handler others write ev) (λ _ w', epoll_ok w' ∧ sys_ok pend (w_sys w') ∧
    w_epfd_read w' = w_epfd_read w ∧ w_epfd_write w' = w_epfd_write w ∧
    ∀ ev' t', t' ≠ t → event_for write (w_heap w) ev' t' → event_for write (w_heap w') ev' t') w.
Proof.
  intros Hok Hs Ho (d & f & ty & Ed & Hl & Hty). destruct ev as [events d0]. cbn in Ed. subst d0.
  assert (wlp (handler others write (Event events (Some d))) (handled pend d t w) w) as Hrun.
  { destruct write; cbn [handler]; [eapply handle_write_safe|eapply handle_read_safe]; eauto. }
  eapply wlp_mono; [exact Hrun|]. intros _ w' (Hok' & Hs' & He & Er & Ew). split_and!; try done.
  intros ev' t' Hne (d' & f' & ty' & Ed' & Hl' & Hty'). exists d', f', ty'.
  split; [done|]. split; [|done]. exact (live_elsewhere _ _ _ _ _ _ _ _ _ _ Hl Hl' He Hne).
Qed.

Lemma batch_safe pend others write evs ts w :
  epoll_ok w → sys_ok pend (w_sys w) → others_ok pend others →
  Forall2 (event_for write (w_heap w)) evs ts → NoDup ts →
  wlp (handle_all (handler others write) evs) (λ _ w', epoll_ok w' ∧ sys_ok pend (w_sys w') ∧
    w_epfd_read w' = w_epfd_read w ∧ w_epfd_write w' = w_epfd_write w) w.
Proof.
  intros Hok Hs Ho Hev Hnd. revert w Hok Hs Hev.
  revert ts Hnd. induction evs as [|ev evs IH]; intros ts Hnd w Hok Hs Hev; cbn [handle_all].
  { by eapply wlp_done. }
  apply Forall2_cons_inv_l in Hev as (t & ts' & Ht & Hts & ->).
  apply NoDup_cons in Hnd as [Hnt Hnd].
  eapply wlp_bind; [by eapply handler_safe|]. intros _ w1 (Hok1 & Hs1 & Er & Ew & Hkeep).
  eapply wlp_mono; [apply (IH ts' Hnd w1 Hok1 Hs1)|].
  - clear IH Hnd. induction Hts as [|ev' t' evs' ts'' Hev' Hts' IH']; constructor.
    + apply Hkeep; [|done]. intros ->. apply Hnt. left.
    + apply IH'. intros Hin. apply Hnt. by right.
  - cbn. intros _ w2. by rewrite Er, Ew.
Qed.

(** C23: a batch of events with at most one event per request and socket is handled without
    touching freed memory: the dispatch waits (a request whose job grants no access) or
    ends, with every registered data pointer pointing to live data of its type again and
    with the scheduler consistent. *)
Theorem dispatch_safe pend others write evs ts w :
  epoll_ok w → sys_ok pend (w_sys w) → others_ok pend others →
  Forall2 (event_for write (w_heap w)) evs ts → NoDup ts →
  handle_all (handler others write) evs w = Stuck ∨
  ∃ w', handle_all (handler others write) evs w = Done () w' ∧ epoll_ok w' ∧
    sys_ok pend (w_sys w').
Proof.
  intros Hok Hs Ho Hev Hnd. pose proof (batch_safe pend others write evs ts w Hok Hs Ho Hev Hnd) as Hb.
  unfold wlp in Hb. destruct (handle_all _ _ _) as [[] w'| |]; [|done|by left].
  right. exists w'. tauto.
Qed.

(** The timer of a READY socket that fires is re-armed and nothing else happens; else
    the socket is marked timed out, given up by epoll and READY, its registrations are
    removed, the timer's data is freed, and epoll's reference is dropped, which frees the
    socket if it was the last.  The data of the socket's other registration stays
    allocated: nothing points to it any more. *)
Theorem timer_event_spec pend others d a f s events w :
  epoll_ok w → sys_ok pend (w_sys w) → sock_at w a s →
  live (w_heap w) f d a SCHEDI_EPOLL_DATA_EPOLLSOCKTO →
  ∃ w', schedi_epoll_handle_read others (Event events (Some d)) w = Done () w' ∧
    epoll_ok w' ∧ sys_ok pend (w_sys w') ∧
    if has (sk_htc s) SCHEDI_JOB_EPOLLSOCKET_READY
    then w_heap w' = w_heap w ∧ ∀ e f, watched w' e f = watched w e f
    else ∃ s', expired s s' ∧ released d a s' (w_heap w) (w_heap w') ∧
      (∀ e f, watched w' e f = if decide (socket_watch s w e f) then None else watched w e f) ∧
      ∀ d', d' ≠ d → d' ≠ a → w_heap w' !! d' = w_heap w !! d'.
Proof.
  intros Hok Hs Ha Hl. destruct (handle_timer_done pend d a f s w Hok Hs Ha Hl)
    as (w' & Hr & Hok' & Hs' & _ & _ & Hcase).
  pose proof (live_data _ _ _ _ _ Hl) as Hd.
  exists w'. split.
  { cbn [schedi_epoll_handle_read ev_data ev_events].
    bind_by (by unfold data_get, reads; rewrite Hd). cbn [ed_type Z.eqb].
    inversion Hl as [|s0 ? _ _ _ _ _ Hc]. destruct Hc as [[? _]|[_ Hext]]; [done|].
    by rewrite Hext. }
  split; [done|]. split; [done|]. destruct (has _ _); [done|].
  destruct Hcase as (s' & Hx & Hrel & Hi). exists s'. split_and!; try done.
  by eapply released_elsewhere.
Qed.
End invariant.

(** ** Witnesses *)

Section witnesses.
#[local] Existing Instance script_kernel.
#[local] Existing Instance script_laws.
#[local] Existing Instance timeout_build.
#[local] Existing Instance contiguous_jobs.

(** A registered socket with its timer, and a request of the same job. *)
Definition socket_reg (fall : Z) : epollsocket :=
  set_fall fall (set_data_ptr (Some 8%nat) socket_zero).
Definition kernel_reg : script :=
  Script {[(3, 9) := (EPOLLIN, Some 8%nat); (4, 9) := (EPOLLOUT, Some 8%nat);
           (3, 10) := (EPOLLIN, Some 7%nat)]} (Some {[(3, 77) := (EPOLLIN, Some 9%nat)]}) [] [].
Definition heap_reg (fall : Z) : gmap addr heap_object :=
  {[5%nat := HSocket (socket_reg fall); 8%nat := HData (Data SCHEDI_EPOLL_DATA_SOCKET 5%nat);
    9%nat := HData (Data SCHEDI_EPOLL_DATA_EPOLLSOCKTO 5%nat);
    6%nat := HRequest (Request 10 0 0 0); 7%nat := HData (Data SCHEDI_EPOLL_DATA_JOB 6%nat)]}.
Definition world_reg (fall : Z) : world :=
  script_world kernel_reg (heap_reg fall) sys_waiting.

Lemma socket_reg_wf fall : sock_wf (socket_reg fall).
Proof. destruct (us_wf _ _ _ _ usable_zero). by split. Qed.

Lemma reg_socket fall : live (heap_reg fall) 9 8%nat 5%nat SCHEDI_EPOLL_DATA_SOCKET.
Proof.
  apply (live_socket _ _ _ _ (socket_reg fall)); try done; [apply socket_reg_wf|by left].
Qed.
Lemma reg_timer fall : live (heap_reg fall) 77 9%nat 5%nat SCHEDI_EPOLL_DATA_EPOLLSOCKTO.
Proof.
  apply (live_socket _ _ _ _ (socket_reg fall)); try done; [apply socket_reg_wf|by right].
Qed.
Lemma reg_request fall : live (heap_reg fall) 10 7%nat 6%nat SCHEDI_EPOLL_DATA_JOB.
Proof. apply (live_job _ _ _ _ (Request 10 0 0 0)); try done. split; [apply job_index_zero|done]. Qed.

Lemma world_reg_ok fall : epoll_ok (world_reg fall).
Proof.
  intros e f ev p Hin HW. unfold watched in HW. cbn in HW. unfold kernel_reg in HW.
  unfold script_interest in HW. cbn [t_watch t_timer] in HW. destruct (of_timer e f).
  { apply lookup_singleton_Some in HW as [[= <- <-] [= <- <-]].
    eexists _, _, _. split; [done|]. split; [apply reg_timer|done]. }
  repeat (apply lookup_insert_Some in HW as [[[= <- <-] [= <- <-]]|[_ HW]];
    [eexists _, _, _; split; [done|]; split;
      [first [apply reg_socket|apply reg_timer|apply reg_request]|done]|]).
  apply lookup_singleton_Some in HW as [[= <- <-] [= <- <-]].
  eexists _, _, _. split; [done|]. split; [apply reg_request|done].
Qed.

Lemma dispatch_safe_witness :
  let evs := [Event EPOLLIN (Some 8%nat); Event EPOLLIN (Some 7%nat)] in
  let run := handle_all (handler [] false) evs (world_reg 2) in
  (∃ w', run = Done () w') ∧
  (run = Stuck ∨ ∃ w', run = Done () w' ∧ epoll_ok w' ∧ sys_ok [] (w_sys w')).
Proof.
  intros evs run. split; [eexists; by vm_compute|].
  apply (dispatch_safe [] [] false evs [5%nat; 6%nat] (world_reg 2));
    [apply world_reg_ok|apply sys_waiting_ok|constructor| |].
  - repeat constructor; eexists _, _, _; (split; [done|]); (split; [|done]);
      [apply reg_socket|apply reg_request].
  - apply (bool_decide_unpack _). by vm_compute.
Defined.

Lemma timer_event_spec_witness :
  ∃ w', schedi_epoll_handle_read [] (Event EPOLLIN (Some 9%nat)) (world_reg 2) = Done () w' ∧
    epoll_ok w' ∧ sys_ok [] (w_sys w') ∧
    ∃ s', expired (socket_reg 2) s' ∧ released 9%nat 5%nat s' (heap_reg 2) (w_heap w') ∧
      (∀ e f, watched w' e f = if decide (socket_watch (socket_reg 2) (world_reg 2) e f)
         then None else watched (world_reg 2) e f) ∧
      ∀ d', d' ≠ 9%nat → d' ≠ 5%nat → w_heap w' !! d' = heap_reg 2 !! d'.
Proof.
  apply (timer_event_spec [] [] 9%nat 5%nat 77 (socket_reg 2) EPOLLIN (world_reg 2));
    [apply world_reg_ok|apply sys_waiting_ok|done|apply reg_timer].
Defined.
End witnesses.
