(* ===== verification/EpollRequest.v ===== *)
(** * A request from registration to return (src/src/jobs.c and epoll.c)

    [schedi_job_tool_epoll] and the event it waits for, together: what the job made is
    taken back, on the heap, in the epoll instances and in the job's counts. *)

From Stdlib Require Import Strings.Byte.
From S2P Require Export EpollSafe.

Local Open Scope Z_scope.

Section request.
Context `{BuildConfig, JobAddress, KernelLaws}.

(** The event of a request that its job still waits for. *)
Lemma request_event_done pend others write d t f r j events w :
  w_heap w !! d = Some (HData (Data SCHEDI_EPOLL_DATA_JOB t)) → req_at w t r →
  rq_socketfd r = f → sys_ok pend (w_sys w) → request_wf r →
  job_at (w_sys w) (rq_owner r) j → gen j = rq_job_gen r →
  op_guard OpMarkAccess (view_of (meta_flag j)) = true → 1 <= v_wait (view_of (meta_flag j)) →
  let error := has events (Z.lor EPOLLERR EPOLLHUP) in
  ∃ w' j', handler others write (Event events (Some d)) w = Done () w' ∧
    w_heap w' = delete d (delete t (w_heap w)) ∧ sys_ok pend (w_sys w') ∧
    same_elsewhere (rq_owner r) (w_sys w) (w_sys w') ∧
    moved_counts (rq_owner r) (set_epoll_list (bump_return error (epoll_list j)) j) j' 0 (-1)
      (w_sys w) (w_sys w') ∧
    ∀ e f', watched w' e f' = if decide (instance w e ∧ f' = f) then None else watched w e f'.
Proof.
  intros Hd Ht Hf Hs [Hi Hl] Hj Hg Hacc Hw error. subst f.
  destruct (del_done (rq_socketfd r) w) as (w1 & Hr1 & Hk1 & Hi1).
  pose proof (kernel_step_fields _ _ Hk1) as (Es1 & Eh1 & _ & _).
  destruct (request_return_done pend others t r j error w1)
    as (w2 & j' & Hr2 & Ew2 & Hs2 & He & Hm); rewrite ?Es1; try done.
  { unfold req_at. by rewrite Eh1. }
  rewrite Es1 in He, Hm. assert (w_heap w2 = w_heap w) as Eh2 by (by rewrite Ew2).
  assert (t ≠ d) as Htd by (unfold req_at in Ht; congruence).
  set (w3 := put_heap (delete d (delete t (w_heap w))) w2).
  assert (handle_job others d events w = Done () w3) as Hrun.
  { unfold handle_job. bind_by (by unfold data_get, reads; rewrite Hd). cbn [ed_ptr].
    bind_by (by apply req_get_run). bind_by exact Hr1. bind_by exact Hr2.
    bind_by (eapply free_run; rewrite Eh2; exact Ht).
    erewrite free_run by (cbn; rewrite Eh2, lookup_delete_ne by done; exact Hd).
    unfold w3. by rewrite Eh2. }
  exists w3, j'. split.
  { destruct write; cbn [handler schedi_epoll_handle_read schedi_epoll_handle_write ev_data
      ev_events]; bind_by (by unfold data_get, reads; rewrite Hd); exact Hrun. }
  split_and!; try done. intros e f'. rewrite <-Hi1. unfold w3. rewrite watched_put_heap.
  by rewrite Ew2.
Qed.

(** The event of a request (same generation of the job, accessible, requests
    outstanding) undoes the request: its descriptor is removed from both instances, the
    request and its data are freed, it counts as returned or as failed by the event's
    error bits, [waiting_count] goes down by one and, if that completes the job's
    readiness set, the job becomes READY and is cached. *)
Theorem request_event_spec pend others write d t f r j events w :
  w_heap w !! d = Some (HData (Data SCHEDI_EPOLL_DATA_JOB t)) → req_at w t r →
  rq_socketfd r = f → sys_ok pend (w_sys w) → request_wf r →
  job_at (w_sys w) (rq_owner r) j → gen j = rq_job_gen r →
  op_guard OpMarkAccess (view_of (meta_flag j)) = true → 1 <= v_wait (view_of (meta_flag j)) →
  let error := has events (Z.lor EPOLLERR EPOLLHUP) in
  ∃ w' j', handler others write (Event events (Some d)) w = Done () w' ∧
    w_heap w' = delete d (delete t (w_heap w)) ∧ sys_ok pend (w_sys w') ∧
    same_elsewhere (rq_owner r) (w_sys w) (w_sys w') ∧
    moved_counts (rq_owner r) (set_epoll_list (bump_return error (epoll_list j)) j) j' 0 (-1)
      (w_sys w) (w_sys w') ∧
    ∀ e f', watched w' e f' = if decide (instance w e ∧ f' = f) then None else watched w e f'.
Proof. apply request_event_done. Qed.

(** C22: a request whose descriptor was not registered before, and its event, are a round
    trip: heap, registrations and the job's [waiting_count] are what they were before the
    request; what remains is one more in [total_req] and in [ret_count] (or [err_count]). *)
Theorem request_round_trip pend others write i j fd events revents w w1 e mask d :
  mallocs_succeed → 0 <= w_epfd_read w → w_epfd_read w ≠ w_epfd_write w →
  sys_ok pend (w_sys w) → job_index i → job_at (w_sys w) i j →
  op_guard OpMarkAccess (view_of (meta_flag j)) = true →
  (∀ e, instance w e → watched w e fd = None) →
  schedi_job_tool_epoll i fd events w = Done 0 w1 →
  instance w e → watched w1 e fd = Some (mask, Some d) →
  let error := has revents (Z.lor EPOLLERR EPOLLHUP) in
  ∃ w2 j2, handler others write (Event revents (Some d)) w1 = Done () w2 ∧
    w_heap w2 = w_heap w ∧ (∀ e f, watched w2 e f = watched w e f) ∧
    sys_ok pend (w_sys w2) ∧ same_elsewhere i (w_sys w) (w_sys w2) ∧ job_at (w_sys w2) i j2 ∧
    epoll_list j2 = bump_return error (bump_total (epoll_list j)) ∧
    v_wait (view_of (meta_flag j2)) = v_wait (view_of (meta_flag j)).
Proof.
  intros Hm Hrd Hne Hs Hi Hj Hacc Hun Hrun He Hw error.
  assert (v_unstable (view_of (meta_flag j)) || v_wlldestroy (view_of (meta_flag j)) = false)
    as Hban by (by apply andb_true_iff in Hacc as [?%negb_true_iff _]).
  destruct (tool_epoll_done pend i j fd events w Hm Hrd Hne Hs Hi Hj Hban)
    as (r & w1' & j1 & Hrun' & Hs1 & He1 & Hin1 & Hj1 & Hcore & Hcase).
  rewrite Hrun in Hrun'. injection Hrun' as <- <-.
  destruct Hcase as [(_ & req & data & Hreq & Hdata & Hrd' & Eh1 & Hi1 & Hw1 & _ & Hacc1)|
    [[[? _]|?] _]]; [|done..].
  assert (d = data) as ->.
  { rewrite Hi1 in Hw. unfold registered in Hw. specialize (Hun e He).
    repeat case_decide; congruence. }
  assert (1 <= v_wait (view_of (meta_flag j1))) as Hpos.
  { rewrite Hw1. pose proof (field_get_range (meta_flag j) SCHEDI_JOB_METAFLAG_WAIT_SHIFT 4
      ltac:(lia)). cbn [view_of v_wait]. unfold SCHEDI_JOB_METAFLAG_GETWAIT. lia. }
  destruct (request_event_done pend others write data req fd (Request fd i (gen j) i) j1
    revents w1) as (w2 & j2 & Hrun2 & Eh2 & Hs2 & He2 & Hmv & Hi2); try done.
  { rewrite Eh1. apply lookup_insert_eq. }
  { unfold req_at. rewrite Eh1, lookup_insert_ne by done. apply lookup_insert_eq. }
  { by injection Hcore. }
  { by rewrite Hacc1. }
  destruct (moved_not_banned _ _ _ _ _ _ _ Hmv) as [_ Hw2]. cbn [meta_flag set_epoll_list] in Hw2.
  destruct Hmv as (Hj2 & Hcore2 & _).
  exists w2, j2. split; [done|]. split.
  { rewrite Eh2, Eh1, delete_insert_ne, delete_insert_eq, delete_insert_eq by done.
    rewrite (delete_id (w_heap w) req) by done. by apply delete_id. }
  split; [|split; [done|split; [by eapply same_elsewhere_trans|split; [done|split; [|lia]]]]].
  - intros e' f. rewrite Hi2, Hi1. unfold registered.
    assert (instance w1 e' ↔ instance w e') as Hinst.
    { unfold instance. by destruct Hin1 as [-> ->]. }
    destruct (decide (instance w1 e' ∧ f = fd)) as [[Hin ->]|Hno].
    + symmetry. by apply Hun, Hinst.
    + rewrite !decide_False; [done|..]; intros (-> & -> & _); apply Hno;
        (split; [|done]); apply Hinst; [by right|by left].
  - injection Hcore2 as _ _ -> _ _ _ _ _ _ _ _. injection Hcore as _ _ -> _ _ _ _ _ _ _ _. done.
Qed.
End request.

(** ** Witnesses *)

Section witnesses.
#[local] Existing Instance script_kernel.
#[local] Existing Instance script_laws.
#[local] Existing Instance timeout_build.
#[local] Existing Instance contiguous_jobs.

Lemma request_event_spec_witness :
  let w := world_reg 2 in
  ∃ w' j', handler [] false (Event EPOLLIN (Some 7%nat)) w = Done () w' ∧
    w_heap w' = delete 7%nat (delete 6%nat (w_heap w)) ∧ sys_ok [] (w_sys w') ∧
    same_elsewhere 0 (w_sys w) (w_sys w') ∧
    moved_counts 0 (set_epoll_list (bump_return false (epoll_list job_waiting)) job_waiting) j'
      0 (-1) (w_sys w) (w_sys w') ∧
    ∀ e f', watched w' e f' = if decide (instance w e ∧ f' = 10) then None else watched w e f'.
Proof.
  intros w. apply (request_event_spec [] [] false 7%nat 6%nat 10 (Request 10 0 0 0) job_waiting
    EPOLLIN w); [done|done|done|apply sys_waiting_ok|by split; [apply job_index_zero|]|..];
    by vm_compute.
Defined.

(** A job without requests makes one for descriptor 9. *)
Definition world_empty : world := script_world (Script ∅ None [] []) ∅ sys_one.
Definition world_asked : world :=
  final_of world_empty (schedi_job_tool_epoll 0 9 EPOLLIN world_empty).

Lemma request_round_trip_witness :
  ∃ w2 j2, handler [] false (Event EPOLLIN (Some 1%nat)) world_asked = Done () w2 ∧
    w_heap w2 = w_heap world_empty ∧ (∀ e f, watched w2 e f = watched world_empty e f) ∧
    sys_ok [] (w_sys w2) ∧ same_elsewhere 0 (w_sys world_empty) (w_sys w2) ∧
    job_at (w_sys w2) 0 j2 ∧
    epoll_list j2 = bump_return false (bump_total (epoll_list job_one)) ∧
    v_wait (view_of (meta_flag j2)) = v_wait (view_of (meta_flag job_one)).
Proof.
  apply (request_round_trip [] [] false 0 job_one 9 EPOLLIN EPOLLIN world_empty world_asked 3
    EPOLLIN 1%nat); [done|done|done|apply sys_one_ok|apply job_index_zero|apply sys_one_job|..].
  - by vm_compute.
  - intros e _. change (script_interest (Script ∅ None [] []) e 9 = None).
    unfold script_interest. by destruct (of_timer e 9).
  - unfold world_asked. generalize (run_final (schedi_job_tool_epoll 0 9 EPOLLIN) world_empty 0).
    intros Hrun. apply Hrun. by vm_compute.
  - by left.
  - by vm_compute.
Defined.
End witnesses.
