(* ===== verification/SockReg.v ===== *)
(** * Registering sockets (src/src/jobs.c: creation and renewal)

    [epollisize] registers a socket and its timer with the epoll instances, all or
    nothing; [schedi_job_tool_epollsocket] makes a socket with it, and
    [schedi_job_epollsocket_epollagain] gives a timed-out socket back to epoll. *)

From Stdlib Require Import Strings.Byte.
From S2P Require Export EpollSafe.

Local Open Scope Z_scope.

Section registration.
Context `{BuildConfig, JobAddress, KernelLaws}.

(** Only heap and registrations changed. *)
Definition net_frame (w w' : world) : Prop :=
  w_sys w' = w_sys w ∧ w_io w' = w_io w ∧ same_instances w w'.

Lemma net_frame_refl w : net_frame w w.
Proof. done. Qed.
Lemma net_frame_trans w1 w2 w3 : net_frame w1 w2 → net_frame w2 w3 → net_frame w1 w3.
Proof. intros (? & ? & [? ?]) (? & ? & [? ?]). split_and!; [congruence..|]. split; congruence. Qed.
Lemma kernel_frame w w' : kernel_step w w' → net_frame w w'.
Proof. by intros ->. Qed.

(** The heap but for data of the socket [a] that nothing points to any more. *)
Definition leaks (a : addr) (h h' : gmap addr heap_object) : Prop :=
  ∀ x, x ≠ a → h' !! x = h !! x ∨
    h !! x = None ∧ ∃ ty, h' !! x = Some (HData (Data ty a)).

Lemma leaks_refl a h h' : (∀ x, x ≠ a → h' !! x = h !! x) → leaks a h h'.
Proof. intros Hh x Hx. left. by apply Hh. Qed.

Lemma set_data_ptr_id s : set_data_ptr (sk_data_ptr s) s = s.
Proof. by destruct s. Qed.

Definition unregistered (s : epollsocket) (w : world) : Prop :=
  ∀ e f, socket_watch s w e f → watched w e f = None.

(** The registrations of a socket with data [d], and [dt] for its timer. *)
Definition socket_entries (s : epollsocket) (d : addr) (dt : option addr) (w : world) (e f : Z)
    : option (Z * option addr) :=
  if decide (e = w_epfd_read w ∧ f = sk_fd s) then Some (Z.lor EPOLLIN EPOLLONESHOT, Some d)
  else if decide (e = w_epfd_write w ∧ f = sk_fd s) then
    Some (Z.lor EPOLLOUT EPOLLONESHOT, Some d)
  else match dt with
       | Some dt =>
           if decide (e = w_epfd_read w ∧ f = sk_to_timer_fd s) then Some (EPOLLIN, Some dt)
           else watched w e f
       | None => watched w e f
       end.

Lemma push_epoll_done a s w :
  mallocs_succeed → 0 <= w_epfd_read w → w_epfd_read w ≠ w_epfd_write w → sock_at w a s →
  ∃ r w' d, schedi_job_epollsocket_push_epoll a w = Done r w' ∧ net_frame w w' ∧
    w_heap w !! d = None ∧
    (r = 0 ∧
       w_heap w' = <[a := HSocket (set_data_ptr (Some d) s)]>
         (<[d := HData (Data SCHEDI_EPOLL_DATA_SOCKET a)]> (w_heap w)) ∧
       (∀ e f, watched w' e f = socket_entries s d None w e f) ∨
     r = -1 ∧ w_heap w' = <[a := HSocket (set_data_ptr (Some d) s)]> (w_heap w) ∧
       ∀ e f, watched w' e f = watched w e f).
Proof.
  intros Hm Hrd Hne Ha. unfold schedi_job_epollsocket_push_epoll.
  destruct (malloc_run (HData (Data SCHEDI_EPOLL_DATA_SOCKET a)) w Hm)
    as (d & k & Hr1 & Hd & Hk).
  bind_by exact Hr1. assert (d ≠ a) as Hda by (unfold sock_at in Ha; congruence).
  set (w1 := put_heap _ _).
  assert (sock_at w1 a s) as Ha1 by (unfold sock_at; cbn; by rewrite lookup_insert_ne).
  bind_by (by apply sock_put_run). set (s' := set_data_ptr (Some d) s).
  bind_by (by apply sock_get_run, sock_at_with).
  set (w2 := with_sock a s' w1).
  assert (w_heap w2 !! d = Some (HData (Data SCHEDI_EPOLL_DATA_SOCKET a))) as Hd2.
  { cbn. rewrite lookup_insert_ne by done. apply lookup_insert_eq. }
  destruct (epoll_add_done (sk_fd s) d _ (Z.lor (Z.lor EPOLLIN EPOLLOUT) EPOLLONESHOT) w2 Hd2
    Hrd Hne) as (r & w3 & Hr3 & Hpost).
  exists r, w3, d. split; [exact Hr3|].
  destruct Hpost as [(-> & Hks & Hi)|(-> & Hks & Hi)].
  - split; [by rewrite Hks|]. split; [done|]. left. split; [done|]. split; [by rewrite Hks|].
    intros e f. rewrite Hi. unfold registered, socket_entries.
    change (watched w2 e f) with (interest k e f). rewrite Hk.
    repeat case_decide; naive_solver.
  - split; [by rewrite Hks|]. split; [done|]. right. split; [done|]. split.
    + rewrite Hks. cbn. rewrite delete_insert_ne, delete_insert_eq by done.
      by rewrite (delete_id (w_heap w)).
    + intros e f. rewrite Hi. apply Hk.
Qed.

Lemma timer_push_done a s w :
  mallocs_succeed → 0 <= w_epfd_read w → w_epfd_read w ≠ w_epfd_write w → sock_at w a s →
  0 <= sk_to_timer_fd s →
  ∃ r w', schedi_job_epollsocket_timer_push_epoll a w = Done r w' ∧ net_frame w w' ∧
    (r = 0 ∧ (∃ dt, w_heap w !! dt = None ∧
       w_heap w' = <[dt := HData (Data SCHEDI_EPOLL_DATA_EPOLLSOCKTO a)]> (w_heap w) ∧
       ∀ e f, watched w' e f = if decide (e = w_epfd_read w ∧ f = sk_to_timer_fd s)
         then Some (EPOLLIN, Some dt) else watched w e f) ∨
     r = -1 ∧ w_heap w' = w_heap w ∧ ∀ e f, watched w' e f = watched w e f).
Proof.
  intros Hm Hrd Hne Ha Hfd. unfold schedi_job_epollsocket_timer_push_epoll.
  bind_by (by apply sock_get_run). replace (sk_to_timer_fd s <? 0) with false by lia.
  destruct (malloc_run (HData (Data SCHEDI_EPOLL_DATA_EPOLLSOCKTO a)) w Hm)
    as (d & k & Hr1 & Hd & Hk).
  bind_by exact Hr1. set (w1 := put_heap _ _).
  destruct (epoll_add_done (sk_to_timer_fd s) d _ EPOLLIN w1 (lookup_insert_eq _ _ _) Hrd Hne)
    as (r & w2 & Hr2 & Hpost). bind_by exact Hr2.
  destruct Hpost as [(-> & Hks & Hi)|(-> & Hks & Hi)]; cbn [Z.ltb Z.compare].
  - exists 0, w2. split; [done|]. split; [by rewrite Hks|]. left. split; [done|]. exists d.
    split; [done|]. split; [by rewrite Hks|]. intros e f. rewrite Hi. unfold registered.
    change (watched w1 e f) with (interest k e f). rewrite Hk.
    repeat case_decide; naive_solver.
  - exists (-1), w2. split; [done|]. split; [by rewrite Hks|]. right. split; [done|].
    split; [rewrite Hks; cbn; by rewrite delete_insert_eq, delete_id|].
    intros e f. rewrite Hi. apply Hk.
Qed.

Lemma settime_run s (sec : Z) w :
  ∃ r k, call (sys_timerfd_settime (sk_to_timer_fd s) sec) w = Done r (put_kernel k w) ∧
    ∀ e f, interest k e f = watched w e f.
Proof. rewrite call_run. eexists _, _. split; [done|]. intros e f. apply law_settime. Qed.

(** The failure labels remove what may have been registered. *)
Lemma fail_epoll_push_done a s w :
  sock_at w a s →
  ∃ w', fail_epoll_push a w = Done (-1) w' ∧ kernel_step w w' ∧
    ∀ e f, watched w' e f =
      if decide (ext_timeout = true ∧ e = w_epfd_read w ∧ f = sk_to_timer_fd s) then None
      else watched w e f.
Proof.
  intros Ha. unfold fail_epoll_push. destruct ext_timeout; cbn [when].
  - destruct (del_read_done (sk_to_timer_fd s) w) as (w1 & Hr & Hk & Hi).
    bind_by (bind_by (by apply sock_get_run); exact Hr). exists w1. split; [done|].
    split; [done|]. intros e f. rewrite Hi. repeat case_decide; naive_solver.
  - bind_by done. exists w. split; [done|]. split; [apply kernel_step_refl|]. intros e f.
    by rewrite decide_False by naive_solver.
Qed.

Lemma fail_timeout_reset_done a s w :
  sock_at w a s →
  ∃ w', fail_timeout_reset a w = Done (-1) w' ∧ kernel_step w w' ∧
    ∀ e f, watched w' e f = if decide (socket_watch s w e f) then None else watched w e f.
Proof.
  intros Ha. unfold fail_timeout_reset. bind_by (by apply sock_get_run).
  destruct (del_done (sk_fd s) w) as (w1 & Hr1 & Hk1 & Hi1). bind_by exact Hr1.
  assert (sock_at w1 a s) as Ha1 by (unfold sock_at; by rewrite Hk1).
  destruct (fail_epoll_push_done a s w1 Ha1) as (w2 & Hr2 & Hk2 & Hi2).
  exists w2. split; [exact Hr2|]. split; [by eapply kernel_step_trans|].
  intros e f. rewrite Hi2, Hi1, Hk1. cbn [w_epfd_read put_kernel].
  destruct (decide (socket_watch s w e f)) as [[?|?]|Hno].
  - rewrite (decide_True (P := instance w e ∧ f = sk_fd s)) by done. by destruct (decide _).
  - by rewrite decide_True.
  - rewrite !decide_False; [done|..]; intros Hin; apply Hno; first [by left|by right].
Qed.

(** What a socket's timer adds: nothing in a build without timers. *)
Definition timer_added (a : addr) (s : epollsocket) (dt : option addr) (w w1 : world) : Prop :=
  match dt with
  | Some dt => ext_timeout = true ∧ w_heap w !! dt = None ∧
      w_heap w1 = <[dt := HData (Data SCHEDI_EPOLL_DATA_EPOLLSOCKTO a)]> (w_heap w) ∧
      ∀ e f, watched w1 e f = if decide (e = w_epfd_read w ∧ f = sk_to_timer_fd s)
        then Some (EPOLLIN, Some dt) else watched w e f
  | None => ext_timeout = false ∧ w_heap w1 = w_heap w ∧ ∀ e f, watched w1 e f = watched w e f
  end.

(** A socket with all its registrations, all of them new. *)
Definition newly_registered (a : addr) (s : epollsocket) (w w' : world) : Prop :=
  ∃ d dt, w_heap w !! d = None ∧
    w_heap w' !! a = Some (HSocket (set_data_ptr (Some d) s)) ∧
    w_heap w' !! d = Some (HData (Data SCHEDI_EPOLL_DATA_SOCKET a)) ∧
    match dt with
    | Some dt => ext_timeout = true ∧ w_heap w !! dt = None ∧ dt ≠ d ∧
        w_heap w' !! dt = Some (HData (Data SCHEDI_EPOLL_DATA_EPOLLSOCKTO a))
    | None => ext_timeout = false
    end ∧
    (∀ x, x ≠ a → x ≠ d → Some x ≠ dt → w_heap w' !! x = w_heap w !! x) ∧
    ∀ e f, watched w' e f = socket_entries s d dt w e f.

(** A registration that failed leaves nothing behind but unused data. *)
Definition not_registered (a : addr) (s : epollsocket) (w w' : world) : Prop :=
  (∃ p, w_heap w' !! a = Some (HSocket (set_data_ptr p s))) ∧
  leaks a (w_heap w) (w_heap w') ∧ ∀ e f, watched w' e f = watched w e f.

Definition push_stage (a : addr) : M world Z :=
  r ← schedi_job_epollsocket_push_epoll a;
  if negb (r =? 0) then fail_epoll_push a
  else
    r ← (if ext_timeout then schedi_job_epollsocket_timeout_reset a else mret 0);
    if negb (r =? 0) then fail_timeout_reset a else mret 0.

Lemma timer_added_leaks a s dt w w1 d o :
  timer_added a s dt w w1 → sock_at w a s → w_heap w1 !! d = None →
  leaks a (w_heap w) (<[a := o]> (w_heap w1)) ∧
  leaks a (w_heap w) (<[a := o]> (<[d := HData (Data SCHEDI_EPOLL_DATA_SOCKET a)]> (w_heap w1))).
Proof.
  intros Ht Ha Hd. assert (leaks a (w_heap w) (w_heap w1)) as Hl.
  { unfold timer_added in Ht. destruct dt as [dt|].
    - destruct Ht as (_ & Hdt & -> & _). intros x Hx. destruct (decide (x = dt)) as [->|].
      + right. split; [done|]. eexists. apply lookup_insert_eq.
      + left. by rewrite lookup_insert_ne.
    - destruct Ht as (_ & -> & _). by apply leaks_refl. }
  split; intros x Hx; rewrite lookup_insert_ne by done; [by apply Hl|].
  destruct (decide (x = d)) as [->|]; [|rewrite lookup_insert_ne by done; by apply Hl].
  right. rewrite lookup_insert_eq. split; [|by eexists].
  destruct (Hl d Hx) as [Heq|[? _]]; [by rewrite <-Heq|done].
Qed.

Lemma timer_added_at a s dt w w1 : timer_added a s dt w w1 → sock_at w a s → sock_at w1 a s.
Proof.
  unfold timer_added, sock_at. intros Ht Ha. destruct dt as [dt|].
  - destruct Ht as (_ & Hdt & -> & _). rewrite lookup_insert_ne; [done|congruence].
  - by destruct Ht as (_ & -> & _).
Qed.

(** Registrations that were undone. *)
Lemma undone a s dt w w1 w' :
  unregistered s w → timer_added a s dt w w1 →
  (∀ e f, watched w' e f = watched w e f ∨ watched w' e f = watched w1 e f ∨
     watched w' e f = None ∧ socket_watch s w e f) →
  (∀ e f, ext_timeout = true → e = w_epfd_read w → f = sk_to_timer_fd s → watched w' e f = None) →
  ∀ e f, watched w' e f = watched w e f.
Proof.
  intros Hun Ht Hw Htm e f. destruct (Hw e f) as [?|[Heq|[Heq Hs]]]; [done| |].
  - rewrite Heq. unfold timer_added in Ht. destruct dt as [dt|].
    + destruct Ht as (Hext & _ & _ & Hi). rewrite Hi. case_decide as Hd; [|done].
      destruct Hd as [-> ->]. specialize (Htm _ _ Hext eq_refl eq_refl).
      rewrite Heq, Hi, decide_True in Htm by done. done.
    + by destruct Ht as (_ & _ & Hi).
  - rewrite Heq. symmetry. by apply Hun.
Qed.

(** The three ends of [push_stage], after the socket's data [d] was registered ([w2]) or not. *)
Lemma push_failed a s dt w w1 w2 d :
  sock_at w a s → unregistered s w → net_frame w w2 → timer_added a s dt w w1 →
  w_heap w1 !! d = None →
  w_heap w2 = <[a := HSocket (set_data_ptr (Some d) s)]> (w_heap w1) →
  (∀ e f, watched w2 e f = watched w1 e f) →
  ∃ w', fail_epoll_push a w2 = Done (-1) w' ∧ net_frame w w' ∧ not_registered a s w w'.
Proof.
  intros Ha Hun Hf Ht Hd Eh2 Hi2. set (s' := set_data_ptr (Some d) s) in *.
  destruct (timer_added_leaks a s dt w w1 d (HSocket s') Ht Ha Hd) as [Hlk _].
  assert (sock_at w2 a s') as Ha2 by (unfold sock_at; rewrite Eh2; apply lookup_insert_eq).
  destruct (fail_epoll_push_done a s' w2 Ha2) as (w3 & Hr3 & Hk3 & Hi3).
  exists w3. split; [done|]. split; [by eapply net_frame_trans, kernel_frame|].
  apply kernel_step_fields in Hk3 as (_ & Eh3 & _). destruct Hf as (_ & _ & [Er2 _]).
  split; [exists (Some d); by rewrite Eh3|]. split; [by rewrite Eh3, Eh2|].
  apply (undone a s dt w w1); try done; intros e f; rewrite Hi3, Er2; intros.
  - destruct (decide (ext_timeout = true ∧ e = w_epfd_read w ∧ f = sk_to_timer_fd s'))
      as [Hc|Hc]; [right; right; split; [done|by right]|]. right. left. by rewrite Hi2.
  - by rewrite decide_True.
Qed.

Lemma reset_failed a s dt w w1 w2 d :
  sock_at w a s → unregistered s w → net_frame w w1 → net_frame w w2 →
  timer_added a s dt w w1 → w_heap w1 !! d = None →
  w_heap w2 = <[a := HSocket (set_data_ptr (Some d) s)]>
    (<[d := HData (Data SCHEDI_EPOLL_DATA_SOCKET a)]> (w_heap w1)) →
  (∀ e f, watched w2 e f = socket_entries s d None w1 e f) →
  ∃ w', fail_timeout_reset a w2 = Done (-1) w' ∧ net_frame w w' ∧ not_registered a s w w'.
Proof.
  intros Ha Hun Hf1 Hf2 Ht Hd Eh2 Hi2. set (s' := set_data_ptr (Some d) s) in *.
  destruct (timer_added_leaks a s dt w w1 d (HSocket s') Ht Ha Hd) as [_ Hlk].
  assert (sock_at w2 a s') as Ha2 by (unfold sock_at; rewrite Eh2; apply lookup_insert_eq).
  destruct (fail_timeout_reset_done a s' w2 Ha2) as (w3 & Hr3 & Hk3 & Hi3).
  exists w3. split; [done|]. split; [by eapply net_frame_trans, kernel_frame|].
  apply kernel_step_fields in Hk3 as (_ & Eh3 & _).
  destruct Hf1 as (_ & _ & [Er1 Ew1]), Hf2 as (_ & _ & [Er2 Ew2]).
  assert (∀ e f, socket_watch s' w2 e f ↔ socket_watch s w e f) as Hsw.
  { intros e f. unfold socket_watch, instance. by rewrite Er2, Ew2. }
  split; [exists (Some d); by rewrite Eh3|]. split; [by rewrite Eh3, Eh2|].
  apply (undone a s dt w w1); try done; intros e f; rewrite Hi3; intros.
  - destruct (decide (socket_watch s' w2 e f)) as [Hc|Hc];
      [right; right; split; [done|]; by apply Hsw|]. right. left.
    rewrite Hi2. unfold socket_entries. rewrite Er1, Ew1.
    rewrite !decide_False; [done|..]; intros [-> ->]; apply Hc, Hsw; left;
      (split; [|done]); [by right|by left].
  - rewrite decide_True; [done|]. apply Hsw. by right.
Qed.

Lemma push_succeeded a s dt w w1 w2 d :
  sock_at w a s → net_frame w w1 → timer_added a s dt w w1 → w_heap w1 !! d = None →
  w_heap w2 = <[a := HSocket (set_data_ptr (Some d) s)]>
    (<[d := HData (Data SCHEDI_EPOLL_DATA_SOCKET a)]> (w_heap w1)) →
  (∀ e f, watched w2 e f = socket_entries s d None w1 e f) →
  newly_registered a s w w2.
Proof.
  intros Ha (_ & _ & [Er Ew]) Ht Hd Eh2 Hi2.
  pose proof (timer_added_at _ _ _ _ _ Ht Ha) as Ha1. unfold sock_at in Ha, Ha1.
  assert (d ≠ a) as Hda by congruence. exists d, dt. rewrite Eh2.
  unfold timer_added in Ht. destruct dt as [dt|].
  - destruct Ht as (Hext & Hdt & Eh1 & Hi1). rewrite Eh1 in Hd |- *.
    apply lookup_insert_None in Hd as [Hd Hne].
    assert (dt ≠ a) as Hdta by congruence.
    split; [done|]. split; [apply lookup_insert_eq|].
    split; [by simplify_map_eq|].
    split; [split_and!; try done; by simplify_map_eq|].
    split; [intros x Hx1 Hx2 Hx3; rewrite !lookup_insert_ne by congruence; done|].
    intros e f. rewrite Hi2. unfold socket_entries. by rewrite Er, Ew, Hi1.
  - destruct Ht as (Hext & Eh1 & Hi1). rewrite Eh1 in Hd |- *.
    split; [done|]. split; [apply lookup_insert_eq|].
    split; [by simplify_map_eq|]. split; [done|].
    split; [intros x Hx1 Hx2 _; by rewrite !lookup_insert_ne by congruence|].
    intros e f. rewrite Hi2. unfold socket_entries. by rewrite Er, Ew, Hi1.
Qed.

Lemma push_stage_done a s dt w w1 :
  mallocs_succeed → 0 <= w_epfd_read w → w_epfd_read w ≠ w_epfd_write w → sock_at w a s →
  unregistered s w → net_frame w w1 → timer_added a s dt w w1 →
  ∃ r w', push_stage a w1 = Done r w' ∧ net_frame w w' ∧
    (r = 0 ∧ newly_registered a s w w' ∨ r = -1 ∧ not_registered a s w w').
Proof.
  intros Hm Hrd Hne Ha Hun Hf Ht. pose proof Hf as (_ & _ & [Er1 Ew1]).
  destruct (push_epoll_done a s w1 Hm ltac:(by rewrite Er1) ltac:(by rewrite Er1, Ew1)
    (timer_added_at _ _ _ _ _ Ht Ha)) as (r & w2 & d & Hr2 & Hf2 & Hd & Hcase).
  pose proof (net_frame_trans _ _ _ Hf Hf2) as Hf02.
  unfold push_stage. bind_by exact Hr2.
  destruct Hcase as [(-> & Eh2 & Hi2)|(-> & Eh2 & Hi2)]; cbn [Z.eqb negb]; cycle 1.
  { destruct (push_failed a s dt w w1 w2 d Ha Hun Hf02 Ht Hd Eh2 Hi2) as (w' & Hr & Hf' & Hp).
    exists (-1), w'. auto. }
  assert (sock_at w2 a (set_data_ptr (Some d) s)) as Ha2
    by (unfold sock_at; rewrite Eh2; apply lookup_insert_eq).
  assert (∃ r k, (if ext_timeout then schedi_job_epollsocket_timeout_reset a else mret 0) w2 =
    Done r (put_kernel k w2) ∧ ∀ e f, interest k e f = watched w2 e f) as (r & k & Hr & Hk).
  { destruct ext_timeout; [|exists 0, (w_kernel w2); by rewrite put_kernel_id].
    unfold schedi_job_epollsocket_timeout_reset. do 2 bind_by (by apply sock_get_run).
    apply (settime_run (set_data_ptr (Some d) s)). }
  bind_by exact Hr. set (w2' := put_kernel k w2).
  assert (∀ e f, watched w2' e f = socket_entries s d None w1 e f) as Hi2'
    by (intros e f; rewrite <-Hi2; apply Hk).
  destruct (negb (r =? 0)).
  - destruct (reset_failed a s dt w w1 w2' d Ha Hun Hf Hf02 Ht Hd Eh2 Hi2')
      as (w' & Hr' & Hf' & Hp). exists (-1), w'. auto.
  - exists 0, w2'. split; [done|]. split; [done|]. left. split; [done|].
    by apply (push_succeeded a s dt w w1 w2' d).
Qed.

Lemma epollisize_done a s w :
  mallocs_succeed → 0 <= w_epfd_read w → w_epfd_read w ≠ w_epfd_write w → sock_at w a s →
  (ext_timeout = true → 0 <= sk_to_timer_fd s) → unregistered s w →
  ∃ r w', schedi_job_epollsocket_epollisize a w = Done r w' ∧ net_frame w w' ∧
    (r = 0 ∧ newly_registered a s w w' ∨ r = -1 ∧ not_registered a s w w').
Proof.
  intros Hm Hrd Hne Ha Htm Hun. unfold schedi_job_epollsocket_epollisize.
  assert (∀ w', w_heap w' = w_heap w → (∀ e f, watched w' e f = watched w e f) →
    not_registered a s w w') as Hsame.
  { intros w' Eh Hi. rewrite <-(set_data_ptr_id s) in Ha at 1.
    split; [exists (sk_data_ptr s); by rewrite Eh|]. split; [|done].
    rewrite Eh. by apply leaks_refl. }
  destruct ext_timeout eqn:Hext; cycle 1.
  { bind_by done. cbn [Z.eqb negb]. bind_by done. cbn [Z.eqb negb].
    destruct (push_stage_done a s None w w Hm Hrd Hne Ha Hun (net_frame_refl w)) as (r & w' & Hr & Hp);
      [done|]. unfold push_stage in Hr. rewrite Hext in Hr. eauto. }
  destruct (settime_run s 0 w) as (r1 & k & Hr1 & Hk). set (w1 := put_kernel k w) in *.
  bind_by (unfold schedi_job_epollsocket_timeout_stop; bind_by (by apply sock_get_run); exact Hr1).
  destruct (negb (r1 =? 0)).
  { destruct (fail_epoll_push_done a s w1 Ha) as (w2 & Hr2 & Hk2 & Hi2).
    apply kernel_step_fields in Hk2 as Hf2. destruct Hf2 as (_ & Eh2 & _).
    exists (-1), w2. split; [done|]. split; [by eapply net_frame_trans, kernel_frame|].
    right. split; [done|]. apply Hsame; [done|]. intros e f. rewrite Hi2, Hext.
    destruct (decide _) as [Hc|_]; [|apply Hk]. symmetry. apply Hun. right. by rewrite Hext. }
  destruct (timer_push_done a s w1 Hm Hrd Hne Ha (Htm eq_refl)) as (r2 & w2 & Hr2 & Hf2 & Hcase).
  bind_by exact Hr2. assert (net_frame w w2) as Hf02 by exact Hf2.
  destruct Hcase as [(-> & dt & Hdt & Eh2 & Hi2)|(-> & Eh2 & Hi2)]; cbn [Z.eqb negb].
  - destruct (push_stage_done a s (Some dt) w w2 Hm Hrd Hne Ha Hun Hf02)
      as (r & w' & Hr & Hp).
    { split_and!; try done. intros e f. rewrite Hi2.
      change (watched w1 e f) with (interest k e f). by rewrite Hk. }
    unfold push_stage in Hr. rewrite Hext in Hr. eauto.
  - exists (-1), w2. split; [done|]. split; [done|]. right. split; [done|].
    apply Hsame; [done|]. intros e f. rewrite Hi2. apply Hk.
Qed.

(** Registering a socket that has no registration (no [malloc] failing) registers it in
    both instances, and its timer in the read instance, or nothing at all: it returns 0
    with one new piece of data for each, or -1 with the registrations as they were; a
    failure may leave data allocated that nothing points to. *)
Theorem schedi_job_epollsocket_epollisize_spec a s w :
  mallocs_succeed → 0 <= w_epfd_read w → w_epfd_read w ≠ w_epfd_write w → sock_at w a s →
  (ext_timeout = true → 0 <= sk_to_timer_fd s) → unregistered s w →
  ∃ r w', schedi_job_epollsocket_epollisize a w = Done r w' ∧ net_frame w w' ∧
    (r = 0 ∧ newly_registered a s w w' ∨ r = -1 ∧ not_registered a s w w').
Proof. apply epollisize_done. Qed.

(** The same, seen from an earlier world in which only the socket [a] was different. *)
Lemma newly_registered_from a s w w0 w' :
  (∀ x, x ≠ a → w_heap w0 !! x = w_heap w !! x) → is_Some (w_heap w0 !! a) → (∀ e f, watched w0 e f = watched w e f) → same_instances w w0 →
  newly_registered a s w0 w' → newly_registered a s w w'.
Proof.
  intros Hh [o0 Ho0] Hi [Er Ew] (d & dt & Hd & Ha & Hd' & Hdt & Hx & Hw).
  assert (d ≠ a) as Hda by congruence. exists d, dt.
  split; [by rewrite <-Hh|]. split; [done|]. split; [done|]. split; [|split].
  - destruct dt as [dt|]; [|done]. destruct Hdt as (? & Hdt & ? & ?).
    split_and!; [done| |done|done]. rewrite <-Hh; [done|congruence].
  - intros x Hxa Hxd Hxt. rewrite Hx by done. by apply Hh.
  - intros e f. rewrite Hw. unfold socket_entries. by rewrite Er, Ew, Hi.
Qed.

Lemma leaks_from a h h0 h' :
  (∀ x, x ≠ a → h0 !! x = h !! x) → leaks a h0 h' → leaks a h h'.
Proof. intros Hh Hl x Hx. rewrite <-Hh by done. by apply Hl. Qed.

(** ** Giving a socket back to epoll *)

Lemma untimeout_done pend a s w :
  ext_timeout = true → sock_at w a s → sys_ok pend (w_sys w) → word64 (sk_htc s) →
  job_index (sk_job s) →
  let v := sock_view_of (sk_htc s) in
  if k_epolldid v then
    ∃ x w', schedi_job_epollsocket_untimeout a w = Done 0 w' ∧ word64 x ∧
      sock_view_of x = sock_effect SUntimeout v ∧
      quiet pend (with_sock a (set_htc x s) w) w'
  else schedi_job_epollsocket_untimeout a w = Done (-1) w.
Proof.
  intros Hext Ha Hs Hx Hj v. unfold schedi_job_epollsocket_untimeout.
  destruct (cas_then_update_quiet SUntimeout a s pend w Ha Hs Hx Hj Hext I)
    as (b & w' & Hrun & Hb & Hq).
  destruct (sock_op_refines_core SUntimeout (sk_htc s) Hext Hx I) as [Hx' Hv].
  cbn [sock_guard] in Hv, Hb. fold v in Hv, Hb. destruct (k_epolldid v) eqn:Hd.
  - bind_by exact Hrun. subst b. eexists _, w'. split; [done|]. split; [exact Hx'|].
    split; [apply Hv|exact Hq].
  - unfold cas_then_update. cbn [sock_body] in Hv.
    bind_by (bind_by (by apply sock_cas_run); rewrite Hv; cbn [fst snd];
      by rewrite set_htc_id, with_sock_same). done.
Qed.

(** C25: renewing a socket that timed out (given up by epoll, no registration, no [malloc]
    failing; in a build with timeouts) either returns 0 - the flags TIMEOUT and EPOLLDID
    are gone and READY recomputed, epoll has its reference and its registrations again -
    or returns -1 with the socket given up again, its references as before, and nothing
    registered.  A socket epoll did not give up is left alone with -1. *)
Theorem schedi_job_epollsocket_epollagain_spec pend a s w :
  ext_timeout = true → mallocs_succeed → 0 <= w_epfd_read w → w_epfd_read w ≠ w_epfd_write w →
  sock_at w a s → sys_ok pend (w_sys w) → word64 (sk_htc s) → job_index (sk_job s) →
  0 <= sk_to_timer_fd s → unregistered s w → 1 <= sk_fall s →
  let v := sock_view_of (sk_htc s) in
  if k_epolldid v then
    ∃ r x w', schedi_job_epollsocket_epollagain a w = Done r w' ∧ word64 x ∧
      sys_ok pend (w_sys w') ∧
      (r = 0 ∧ sock_view_of x = sock_effect SUntimeout v ∧
         newly_registered a (set_fall (sk_fall s + 1) (set_htc x s)) w w' ∨
       r = -1 ∧ sock_view_of x = sock_effect SDoneEpoll (sock_effect SUntimeout v) ∧
         not_registered a (set_htc x s) w w')
  else schedi_job_epollsocket_epollagain a w = Done (-1) w.
Proof.
  intros Hext Hm Hrd Hne Ha Hs Hx Hj Htm Hun Hfall v. unfold schedi_job_epollsocket_epollagain.
  rewrite Hext. pose proof (untimeout_done pend a s w Hext Ha Hs Hx Hj) as Hu. cbv zeta in Hu.
  fold v in Hu. destruct (k_epolldid v); [|by bind_by exact Hu].
  destruct Hu as (x & w1 & Hr1 & Hx1 & Hv1 & Hq). bind_by exact Hr1. cbn [Z.eqb negb].
  set (s1 := set_htc x s) in *.
  assert (sock_at w1 a s1) as Ha1 by (eapply quiet_sock; [done|apply sock_at_with]).
  bind_by (by apply sock_get_run). bind_by (by apply sock_put_run).
  set (s2 := set_fall (sk_fall s1 + 1) s1). set (w2 := with_sock a s2 w1).
  assert (sock_at w2 a s2) as Ha2 by apply sock_at_with.
  destruct Hq as [Eh1 _ Er1 Ew1 Ei1 Hs1]. cbn in Eh1, Er1, Ew1.
  assert (∀ y, y ≠ a → w_heap w2 !! y = w_heap w !! y) as Hh2.
  { intros y Hy. cbn. rewrite Eh1. by rewrite !lookup_insert_ne by done. }
  assert (∀ e f, watched w2 e f = watched w e f) as Hi2 by exact Ei1.
  destruct (epollisize_done a s2 w2) as (r & w3 & Hr3 & Hf3 & Hcase); try done.
  { cbn. by rewrite Er1. } { cbn. by rewrite Er1, Ew1. }
  { intros e f Hsw. rewrite Hi2. apply Hun. unfold socket_watch, instance in *. cbn in Hsw.
    by rewrite Er1, Ew1 in Hsw. }
  assert (same_instances w w2) as Hin by done.
  bind_by exact Hr3. destruct Hf3 as (Es3 & _ & _).
  destruct Hcase as [[-> Hnew]|[-> Hnot]]; cbn [Z.eqb negb].
  - exists 0, x, w3. split; [done|]. split; [done|]. split; [by rewrite Es3|]. left.
    split; [done|]. split; [done|].
    apply (newly_registered_from a s2 w w2); try done; by eexists.
  - destruct Hnot as ([p Hp] & Hl & Hi3).
    destruct (done_cas_done pend a (set_data_ptr p s2) true w3 Hp) as (y & w4 & Hr4 & Hy & Hvy & Hq4);
      [by rewrite Es3|done|done|].
    assert (sock_at w4 a (set_htc y (set_data_ptr p s2))) as Ha4
      by (eapply quiet_sock; [done|apply sock_at_with]).
    bind_by (unfold schedi_job_epollsocket_done_; bind_by exact Hr4;
      rewrite (done_drop_run _ _ _ Ha4); cbn [sk_fall set_htc set_data_ptr s2 set_fall];
      replace (sk_fall s1 + 1 =? 1) with false by (cbn; lia); done).
    eexists (-1), y, _. split; [done|]. split; [done|]. split; [apply Hq4|]. right.
    split; [done|]. split; [rewrite Hvy; cbn [sk_htc set_data_ptr s2 set_fall s1 set_htc];
      by rewrite Hv1|].
    destruct Hq4 as [Eh4 _ _ _ Ei4 _]. split; [|split].
    + exists p. cbn. rewrite lookup_insert_eq. do 2 f_equal. unfold set_fall, set_data_ptr, set_htc.
      cbn. f_equal. lia.
    + apply (leaks_from _ _ (w_heap w2)); [done|]. intros z Hz. cbn.
      rewrite lookup_insert_ne, Eh4 by done. cbn. rewrite lookup_insert_ne by done. by apply Hl.
    + intros e f. rewrite <-Hi2, <-Hi3. apply Ei4.
Qed.

(** C26: a socket that times out without being READY and is renewed has the state it had:
    counts, flags and READY, and its job's count is as before. *)
Theorem timeout_round_trip w :
  ext_timeout = true → word64 w →
  let v := sock_view_of w in
  k_timeout v = false → k_epolldid v = false → k_ready v = spec_ready v →
  let '(w', d) := sock_run [STimeout; SDoneEpoll; SUntimeout] w in
  sock_view_of w' = v ∧ d = 0.
Proof.
  intros Hext Hw v Hto Hdid Hready.
  pose proof (sock_op_refines_core STimeout w Hext Hw I) as [Hw1 [E1 Hv1]].
  destruct (rmw (sock_body STimeout) w) as [r1 w1] eqn:R1. cbn [fst snd] in Hw1, E1, Hv1.
  pose proof (sock_op_refines_core SDoneEpoll w1 eq_refl Hw1 I) as [Hw2 [E2 Hv2]].
  destruct (rmw (sock_body SDoneEpoll) w1) as [r2 w2] eqn:R2. cbn [fst snd] in Hw2, E2, Hv2.
  pose proof (sock_op_refines_core SUntimeout w2 Hext Hw2 I) as [Hw3 Hr3].
  destruct (rmw (sock_body SUntimeout) w2) as [r3 w3] eqn:R3. cbn [fst snd] in Hw3, Hr3.
  rewrite Hv2, Hv1 in Hr3. cbn [sock_guard sock_effect k_epolldid] in Hr3.
  destruct Hr3 as [E3 Hv3].
  assert (sock_view_of w3 = v) as Hv.
  { rewrite Hv3. fold v. clear -Hto Hdid Hready. clearbody v. destruct v. cbn in *. subst.
    unfold recomputed, with_ready, spec_ready in *. cbn in *. by rewrite Hready. }
  cbn [sock_run]. rewrite R1, R2, R3. subst r1 r2 r3.
  split; [done|]. cbn [ready_delta].
  destruct (has_sock_flags w) as (_ & _ & _ & _ & F & _).
  destruct (has_sock_flags w3) as (_ & _ & _ & _ & F3 & _).
  rewrite F, F3, Hv. fold v. lia.
Qed.

(** ** Making a socket *)

(** The job after an update of its [available_sockets]. *)
Definition job_counts (pend : list nat) (i : nat) (j j' : schedi_job) (d : Z) (s s' : sys)
    : Prop :=
  sys_ok pend s' ∧ same_elsewhere i s s' ∧ job_at s' i j' ∧ job_core j' = job_core j ∧
  v_avsock (view_of (meta_flag j')) = v_avsock (view_of (meta_flag j)) + d ∧
  v_unstable (view_of (meta_flag j')) || v_wlldestroy (view_of (meta_flag j')) =
    v_unstable (view_of (meta_flag j)) || v_wlldestroy (view_of (meta_flag j)).

Lemma job_counts_refl pend i j s : sys_ok pend s → job_at s i j → job_counts pend i j j 0 s s.
Proof. intros Hs Hj. by split_and!; [|split_and!|..|rewrite Z.add_0_r|]. Qed.

Lemma job_counts_trans pend i j1 j2 j3 d1 d2 s1 s2 s3 :
  job_counts pend i j1 j2 d1 s1 s2 → job_counts pend i j2 j3 d2 s2 s3 →
  job_counts pend i j1 j3 (d1 + d2) s1 s3.
Proof.
  intros (_ & He1 & _ & Hc1 & Ha1 & Hb1) (Hs & He2 & Hj & Hc2 & Ha2 & Hb2).
  split_and!; try done; [by eapply same_elsewhere_trans|congruence|lia|congruence].
Qed.

Lemma when_update_done pend i j ready d w :
  sys_ok pend (w_sys w) → job_index i → job_at (w_sys w) i j →
  v_unstable (view_of (meta_flag j)) || v_wlldestroy (view_of (meta_flag j)) = false →
  (ready = true → in_count (v_avsock (view_of (meta_flag j)) + d) = true) →
  ∃ s' j', when ready (on_sys (schedi_job_meta_flag_cas_update i d 0 0 0 0 false)
      ≫= λ _, mret ()) w = Done () (put_sys s' w) ∧
    job_counts pend i j j' (if ready then d else 0) (w_sys w) s'.
Proof.
  intros Hs Hi Hj Hban Hc. destruct ready; cbn [when]; cycle 1.
  { exists (w_sys w), j. split; [by destruct w|]. by apply job_counts_refl. }
  destruct (counted_update pend i j (w_sys w) d 0 Hs Hi Hj Hban) as (r & s' & Hr & Hs' & He & Hcase).
  bind_by (by apply net_sys_run). rewrite (Hc eq_refl) in Hcase.
  assert (in_count (v_wait (view_of (meta_flag j)) + 0) = true) as Hw.
  { apply in_count_spec. rewrite Z.add_0_r. cbn [view_of v_wait].
    pose proof (field_get_range (meta_flag j) SCHEDI_JOB_METAFLAG_WAIT_SHIFT 4 ltac:(lia)).
    unfold SCHEDI_JOB_METAFLAG_GETWAIT. lia. }
  rewrite Hw in Hcase. destruct Hcase as [_ [j' Hm]].
  exists s', j'. split; [done|]. pose proof (moved_not_banned _ _ _ _ _ _ _ Hm) as [Hb _].
  destruct Hm as (Hj' & Hcore & b & Hv & _). split_and!; try done. by rewrite Hv.
Qed.

Lemma new_socket_fail_done pend i j ready a o w :
  sys_ok pend (w_sys w) → job_index i → job_at (w_sys w) i j →
  v_unstable (view_of (meta_flag j)) || v_wlldestroy (view_of (meta_flag j)) = false →
  (ready = true → in_count (v_avsock (view_of (meta_flag j)) + -1) = true) →
  w_heap w !! a = Some o →
  ∃ s' j', new_socket_fail i ready a w =
      Done None (put_heap (delete a (w_heap w)) (put_sys s' w)) ∧
    job_counts pend i j j' (if ready then -1 else 0) (w_sys w) s'.
Proof.
  intros Hs Hi Hj Hban Hc Ha. unfold new_socket_fail.
  destruct (when_update_done pend i j ready (-1) w Hs Hi Hj Hban Hc) as (s' & j' & Hr & Hjc).
  bind_by exact Hr. bind_by (by eapply free_run). by exists s', j'.
Qed.

Lemma new_socket_register_done pend i j ready t a s w :
  mallocs_succeed → 0 <= w_epfd_read w → w_epfd_read w ≠ w_epfd_write w → sock_at w a s →
  (ext_timeout = true → 0 <= sk_to_timer_fd s) → unregistered s w →
  (ext_timeout = true → ∀ e f, e = t ∨ f = t → watched w e f = None) →
  sys_ok pend (w_sys w) → job_index i → job_at (w_sys w) i j →
  v_unstable (view_of (meta_flag j)) || v_wlldestroy (view_of (meta_flag j)) = false →
  (ready = true → in_count (v_avsock (view_of (meta_flag j)) + -1) = true) →
  ∃ o w', new_socket_register i ready t a w = Done o w' ∧ same_instances w w' ∧
    match o with
    | Some a' => a' = a ∧ newly_registered a s w w' ∧ w_sys w' = w_sys w
    | None => leaks a (w_heap w) (w_heap w') ∧ w_heap w' !! a = None ∧
        (∀ e f, watched w' e f = watched w e f) ∧
        ∃ j', job_counts pend i j j' (if ready then -1 else 0) (w_sys w) (w_sys w')
    end.
Proof.
  intros Hm Hrd Hne Ha Htm Hun Hfresh Hs Hi Hj Hban Hc. unfold new_socket_register.
  destruct (epollisize_done a s w Hm Hrd Hne Ha Htm Hun) as (r & w1 & Hr1 & (Es & _ & Hin) & Hcase).
  bind_by exact Hr1. destruct Hcase as [[-> Hnew]|[-> ([p Hp] & Hl & Hi1)]]; cbn [Z.eqb negb].
  { by exists (Some a), w1. }
  assert (∃ k, when ext_timeout (call (sys_close t) ≫= λ _, mret ()) w1 =
      Done () (put_kernel k w1) ∧ ∀ e f, interest k e f = watched w1 e f) as (k & Hr2 & Hk).
  { destruct ext_timeout; cbn [when]; [|exists (w_kernel w1); by rewrite put_kernel_id].
    eexists. split; [by bind_by (by rewrite call_run)|]. intros e f.
    destruct (law_close t (w_kernel w1) e f) as [Hk|[Hef Hk]]; [done|].
    rewrite Hk, Hi1. symmetry. by apply Hfresh. }
  bind_by exact Hr2. rewrite <-Es in Hs, Hj |- *.
  destruct (new_socket_fail_done pend i j ready a _ (put_kernel k w1) Hs Hi Hj Hban Hc Hp)
    as (s' & j' & Hr3 & Hjc).
  eexists None, _. split; [exact Hr3|]. split; [exact Hin|].
  split; [|split; [apply lookup_delete_eq|split]].
  - intros x Hx. cbn. rewrite lookup_delete_ne by done. by apply Hl.
  - intros e f. rewrite watched_put_heap, watched_put_sys, <-Hi1. apply Hk.
  - by exists j'.
Qed.

(** The timer's descriptor, and the socket that has it. *)
Lemma timer_create_done a s sec w :
  sock_at w a s →
  ∃ t k, (if ext_timeout then call sys_timerfd_create else mret 0) w = Done t (put_kernel k w) ∧
    (∀ e f, interest k e f = watched w e f) ∧
    (ext_timeout = true → t = -1 ∨
       0 <= t ∧ ∀ e f, e = t ∨ f = t → watched w e f = None) ∧
    let s' := if ext_timeout then set_timer sec t s else s in
    when ext_timeout (sock_put (set_timer sec t) a) (put_kernel k w) =
      Done () (with_sock a s' (put_kernel k w)).
Proof.
  intros Ha. destruct ext_timeout; cbn [when]; cycle 1.
  { exists 0, (w_kernel w). rewrite put_kernel_id, with_sock_same by done. done. }
  rewrite call_run. destruct (sys_timerfd_create (w_kernel w)) as [t k] eqn:E.
  destruct (law_timer_create _ _ _ E) as [Hk Ht]. exists t, k. cbn [fst snd].
  split; [done|]. split; [done|]. split; [done|]. by apply sock_put_run.
Qed.

(** The parts of a new socket that its maker chooses. *)
Definition made_for (i : nat) (g fd rc wc : Z) (s : epollsocket) : Prop :=
  sk_job s = i ∧ sk_gen s = g ∧ sk_fd s = fd ∧ sk_read_cond s = rc ∧ sk_write_cond s = wc ∧
  sk_fall s = 2 ∧ sk_htc s = initial_htc rc wc.

Lemma with_timer_made (b : bool) i g fd rc wc sec t mem :
  job_index i → length mem = 2048%nat →
  let s := new_socket i g fd rc wc mem in
  let s' := if b then set_timer sec t s else s in
  made_for i g fd rc wc s' ∧ sock_wf s'.
Proof.
  intros Hi Hm s s'. split; [by destruct b|].
  pose proof (new_socket_wf i g fd rc wc mem Hi Hm) as Hwf. fold s in Hwf.
  destruct b; [|done]. destruct Hwf. by split.
Qed.

Lemma tool_epollsocket_done pend i j fd rc wc sec w :
  mallocs_succeed → 0 <= w_epfd_read w → w_epfd_read w ≠ w_epfd_write w →
  sys_ok pend (w_sys w) → job_index i → job_at (w_sys w) i j →
  v_unstable (view_of (meta_flag j)) || v_wlldestroy (view_of (meta_flag j)) = false →
  v_avsock (view_of (meta_flag j)) < 15 → (∀ e, instance w e → watched w e fd = None) →
  let ready := has (initial_htc rc wc) SCHEDI_JOB_EPOLLSOCKET_READY in
  ∃ o w' j', schedi_job_tool_epollsocket i fd rc wc sec w = Done o w' ∧ same_instances w w' ∧
    match o with
    | Some a => (∃ s, w_heap w !! a = None ∧ made_for i (gen j) fd rc wc s ∧ sock_wf s ∧
          newly_registered a s w w') ∧
        job_counts pend i j j' (if ready then 1 else 0) (w_sys w) (w_sys w')
    | None => (∃ a, w_heap w !! a = None ∧ w_heap w' !! a = None ∧ leaks a (w_heap w) (w_heap w')) ∧
        (∀ e f, watched w' e f = watched w e f) ∧
        job_counts pend i j j' 0 (w_sys w) (w_sys w')
    end.
Proof.
  intros Hm Hrd Hne Hs Hi Hj Hban Hroom Hun ready. unfold schedi_job_tool_epollsocket.
  pose proof (field_get_range (meta_flag j) SCHEDI_JOB_METAFLAG_AVSOCK_SHIFT 4 ltac:(lia)) as Hrange.
  change (field_get _ _ _) with (v_avsock (view_of (meta_flag j))) in Hrange.
  bind_by (by erewrite net_sys_run by (by apply job_get_run)).
  replace (put_sys (w_sys w) w) with w by by destruct w.
  bind_by done. set (mem := fresh_bytes (w_kernel w)). set (s0 := new_socket _ _ _ _ _ _).
  destruct (malloc_run (HSocket s0) w Hm) as (a & k1 & Hr1 & Hfa & Hk1). bind_by exact Hr1.
  cbv zeta. fold ready. set (w1 := put_heap _ _).
  destruct (when_update_done pend i j ready 1 w1 Hs Hi Hj Hban) as (s2 & j2 & Hr2 & Hjc).
  { intros _. apply in_count_spec. lia. }
  bind_by exact Hr2. set (w2 := put_sys s2 w1).
  assert (sock_at w2 a s0) as Ha2 by apply lookup_insert_eq.
  destruct (timer_create_done a s0 sec w2 Ha2) as (t & k3 & Hr3 & Hk3 & Ht & Hput).
  bind_by exact Hr3. bind_by exact Hput.
  pose proof (with_timer_made ext_timeout i (gen j) fd rc wc sec t mem Hi (law_fresh _)) as [Hmade Hwf].
  fold s0 in Hmade, Hwf. set (s3 := if ext_timeout then set_timer sec t s0 else s0) in *.
  set (w3 := with_sock a s3 (put_kernel k3 w2)).
  assert (sock_at w3 a s3) as Ha3 by apply sock_at_with.
  assert (∀ e f, watched w3 e f = watched w e f) as Hi3.
  { intros e f. change (watched w3 e f) with (interest k3 e f). rewrite Hk3. apply Hk1. }
  assert (∀ x, x ≠ a → w_heap w3 !! x = w_heap w !! x) as Hh3.
  { intros x Hx. cbn. by rewrite !lookup_insert_ne by done. }
  pose proof Hjc as (Hs2 & _ & Hj2 & _ & Hav2 & Hban2). rewrite Hban in Hban2.
  assert (ready = true → in_count (v_avsock (view_of (meta_flag j2)) + -1) = true) as Hc2.
  { intros ->. apply in_count_spec. lia. }
  assert ((if ready then 1 else 0) + (if ready then -1 else 0) = 0) as Hsum by by destruct ready.
  destruct (ext_timeout && (t =? -1)) eqn:Hbad.
  - destruct (new_socket_fail_done pend i j2 ready a (HSocket s3) w3 Hs2 Hi Hj2 Hban2 Hc2 Ha3)
      as (s4 & j4 & Hr4 & Hjc4).
    eexists None, _, j4. split; [exact Hr4|]. split; [done|]. split; [|split; [exact Hi3|]].
    + exists a. split; [done|]. split; [apply lookup_delete_eq|]. apply leaks_refl. intros x Hx. cbn.
      rewrite lookup_delete_ne by done. by apply Hh3.
    + rewrite <-Hsum. by eapply job_counts_trans.
  - destruct (new_socket_register_done pend i j2 ready t a s3 w3) as (o & w4 & Hr4 & Hin & Hcase); try done.
    { intros Hext. unfold s3. rewrite Hext in Hbad |- *. destruct (Ht Hext) as [->|[? _]]; done. }
    { intros e f [[Hin ->]|(Hext & -> & ->)]; rewrite Hi3.
      - destruct Hmade as (_ & _ & -> & _). by apply Hun.
      - unfold s3. rewrite Hext in Hbad |- *. destruct (Ht Hext) as [->|[_ Hf]]; [done|].
        rewrite <-Hk1. apply Hf. by right. }
    { intros Hext e f Hef. rewrite Hi3. rewrite Hext in Hbad.
      destruct (Ht Hext) as [->|[_ Hf]]; [done|]. rewrite <-Hk1. by apply Hf. }
    destruct o as [a'|].
    + destruct Hcase as (-> & Hnew & Es4). exists (Some a), w4, j2. split; [exact Hr4|]. split; [exact Hin|].
      split; [|by rewrite Es4]. exists s3. split_and!; try done.
      by apply (newly_registered_from a s3 w w3).
    + destruct Hcase as (Hl & Hna & Hi4 & j4 & Hjc4). exists None, w4, j4. split; [exact Hr4|]. split; [exact Hin|].
      split; [exists a; split_and!; [done|done|by apply (leaks_from _ _ (w_heap w3))]|].
      split; [intros e f; by rewrite Hi4|]. rewrite <-Hsum. by eapply job_counts_trans.
Qed.

(** C24: making a socket (job neither UNSTABLE nor WLLDESTROY and with room in its count,
    descriptor not registered, no [malloc] failing) either gives a well-formed socket with
    two references and empty buffers, registered in both instances and with its timer, and
    counted in the job's [available_sockets] if it is READY from the start; or gives NULL,
    with the socket freed, nothing registered and the count as it was. *)
Theorem schedi_job_tool_epollsocket_spec pend i j fd rc wc sec w :
  mallocs_succeed → 0 <= w_epfd_read w → w_epfd_read w ≠ w_epfd_write w →
  sys_ok pend (w_sys w) → job_index i → job_at (w_sys w) i j →
  v_unstable (view_of (meta_flag j)) || v_wlldestroy (view_of (meta_flag j)) = false →
  v_avsock (view_of (meta_flag j)) < 15 → (∀ e, instance w e → watched w e fd = None) →
  let ready := has (initial_htc rc wc) SCHEDI_JOB_EPOLLSOCKET_READY in
  ∃ o w' j', schedi_job_tool_epollsocket i fd rc wc sec w = Done o w' ∧ same_instances w w' ∧
    match o with
    | Some a => (∃ s, w_heap w !! a = None ∧ made_for i (gen j) fd rc wc s ∧ sock_wf s ∧
          newly_registered a s w w') ∧
        job_counts pend i j j' (if ready then 1 else 0) (w_sys w) (w_sys w')
    | None => (∃ a, w_heap w !! a = None ∧ w_heap w' !! a = None ∧ leaks a (w_heap w) (w_heap w')) ∧
        (∀ e f, watched w' e f = watched w e f) ∧
        job_counts pend i j j' 0 (w_sys w) (w_sys w')
    end.
Proof. apply tool_epollsocket_done. Qed.
End registration.

(** ** Witnesses *)

Section witnesses.
#[local] Existing Instance script_kernel.
#[local] Existing Instance script_laws.
#[local] Existing Instance timeout_build.
#[local] Existing Instance contiguous_jobs.

(** An unregistered socket on a kernel that has its timer. *)
Definition kernel_timer : script := Script ∅ (Some ∅) [] [].
Definition world_bare (s : epollsocket) : world :=
  script_world kernel_timer {[5%nat := HSocket s]} sys_one.
Definition socket_expired : epollsocket :=
  set_fall 1 (set_htc (sock_run [STimeout; SDoneEpoll] (initial_htc 1 1)).1 socket_zero).

Lemma bare_unregistered s s' : unregistered s (world_bare s').
Proof.
  intros e f _. change (script_interest kernel_timer e f = None). unfold script_interest.
  by destruct (of_timer e f).
Qed.

Lemma schedi_job_epollsocket_epollisize_spec_witness :
  ∃ r w', schedi_job_epollsocket_epollisize 5%nat (world_bare socket_zero) = Done r w' ∧
    net_frame (world_bare socket_zero) w' ∧
    (r = 0 ∧ newly_registered 5%nat socket_zero (world_bare socket_zero) w' ∨
     r = -1 ∧ not_registered 5%nat socket_zero (world_bare socket_zero) w').
Proof.
  apply (schedi_job_epollsocket_epollisize_spec 5%nat socket_zero); try done.
  apply bare_unregistered.
Defined.

Lemma schedi_job_epollsocket_epollagain_spec_witness :
  ∃ r x w', schedi_job_epollsocket_epollagain 5%nat (world_bare socket_expired) = Done r w' ∧
    word64 x ∧ sys_ok [] (w_sys w') ∧
    (r = 0 ∧ sock_view_of x = sock_effect SUntimeout (sock_view_of (sk_htc socket_expired)) ∧
       newly_registered 5%nat (set_fall 2 (set_htc x socket_expired)) (world_bare socket_expired) w' ∨
     r = -1 ∧ sock_view_of x =
         sock_effect SDoneEpoll (sock_effect SUntimeout (sock_view_of (sk_htc socket_expired))) ∧
       not_registered 5%nat (set_htc x socket_expired) (world_bare socket_expired) w').
Proof.
  apply (schedi_job_epollsocket_epollagain_spec [] 5%nat socket_expired (world_bare socket_expired));
    first [done|apply job_index_zero|apply bare_unregistered|apply sys_one_ok|by vm_compute].
Defined.

Lemma timeout_round_trip_witness :
  let w := initial_htc 1 1 in
  let '(w', d) := sock_run [STimeout; SDoneEpoll; SUntimeout] w in
  sock_view_of w' = sock_view_of w ∧ d = 0.
Proof. intros w. apply (timeout_round_trip w); by vm_compute. Defined.

Lemma schedi_job_tool_epollsocket_spec_witness :
  let w := script_world (Script ∅ None [] []) ∅ sys_one in
  result_of (schedi_job_tool_epollsocket 0 9 1 1 30 w) = Some (Some 0%nat) ∧
  ∃ o w' j', schedi_job_tool_epollsocket 0 9 1 1 30 w = Done o w' ∧ same_instances w w' ∧
    match o with
    | Some a => (∃ s, w_heap w !! a = None ∧ made_for 0 (gen job_one) 9 1 1 s ∧ sock_wf s ∧
          newly_registered a s w w') ∧
        job_counts [] 0 job_one j' 0 (w_sys w) (w_sys w')
    | None => (∃ a, w_heap w !! a = None ∧ w_heap w' !! a = None ∧ leaks a (w_heap w) (w_heap w')) ∧
        (∀ e f, watched w' e f = watched w e f) ∧
        job_counts [] 0 job_one j' 0 (w_sys w) (w_sys w')
    end.
Proof.
  intros w. split; [by vm_compute|].
  assert (has (initial_htc 1 1) SCHEDI_JOB_EPOLLSOCKET_READY = false) as Hnot by by vm_compute.
  pose proof (schedi_job_tool_epollsocket_spec [] 0 job_one 9 1 1 30 w) as Hspec.
  cbv zeta in Hspec. rewrite Hnot in Hspec.
  apply Hspec; try first [done|apply job_index_zero|apply sys_one_job|apply sys_one_ok|by vm_compute].
  intros e _. change (script_interest (Script ∅ None [] []) e 9 = None).
  unfold script_interest. by destruct (of_timer e 9).
Defined.
End witnesses.
