(* ===== verification/EpollRun.v ===== *)
(** * Running the epoll thread (src/src/epoll.c: drains, loop, start and stop)

    Whole batches and the loop around them keep the invariant of EpollSafe.v where no
    batch can hold two events of one object; with socket timeouts the read instance
    breaks that, and the two concrete batches at the end show what happens then. *)

From Stdlib Require Import Strings.Byte.
From S2P Require Export EpollSafe.

Local Open Scope Z_scope.

(** Documented behaviour: [epoll_wait] hands back at most one event per registered
    descriptor, with its data pointer; like the other calls of the thread it changes no
    registration but for masks of one-shot entries.  A [write] of 8 bytes to an eventfd makes
    it readable, and [poll] does not block while a descriptor it was given is readable. *)
Class EventLaws `{EventKernel} : Prop := {
  law_wait e m k evs k' : sys_epoll_wait e m k = (evs, k') →
    (∃ fds, NoDup fds ∧
       Forall2 (λ f ev, ∃ mask, interest k e f = Some (mask, ev_data ev)) fds evs) ∧
    ∀ e' f, snd <$> interest k' e' f = snd <$> interest k e' f;
  law_poll a b c k e f : interest (sys_poll a b c k).2 e f = interest k e f;
  law_poll_woken wake rd wr k :
    wake_pending k wake = true → is_Some (sys_poll wake rd wr k).1;
  law_wake_watch fd k e f : interest (sys_write_wake fd k).2 e f = interest k e f;
  law_write_wake fd k :
    (sys_write_wake fd k).1 = 8 → wake_pending (sys_write_wake fd k).2 fd = true;
  law_read_wake fd k e f : interest (sys_read_wake fd k).2 e f = interest k e f;
}.

Section run.
Context `{BuildConfig, JobAddress, EventKernel, !KernelLaws, !EventLaws}.

Definition net_ok (pend : list nat) (w : world) : Prop := epoll_ok w ∧ sys_ok pend (w_sys w).

(** The descriptor of an instance. *)
Definition instance_fd (write : bool) (w : world) : Z :=
  if write then w_epfd_write w else w_epfd_read w.

Lemma epoll_ok_data w k :
  (∀ e f, snd <$> interest k e f = snd <$> watched w e f) →
  epoll_ok w → epoll_ok (put_kernel k w).
Proof.
  intros Hd Hok e f ev p Hin HW. specialize (Hd e f).
  change (watched (put_kernel k w) e f) with (interest k e f) in HW. rewrite HW in Hd.
  destruct (watched w e f) as [[ev0 p0]|] eqn:E0; [|done]. injection Hd as ->.
  by apply (Hok e f ev0 p0).
Qed.

(** Events of different descriptors are for different objects unless one is a timer. *)
Lemma live_distinct h f1 d1 f2 d2 t ty1 ty2 :
  live h f1 d1 t ty1 → live h f2 d2 t ty2 →
  ty1 ≠ SCHEDI_EPOLL_DATA_EPOLLSOCKTO → ty2 ≠ SCHEDI_EPOLL_DATA_EPOLLSOCKTO → f1 = f2.
Proof.
  intros [r1 _ Ht1 _ ->|s1 ty1' _ Ht1 _ _ -> Hc1] [r2 _ Ht2 _ ->|s2 ty2' _ Ht2 _ _ -> Hc2] Hn1 Hn2;
    try congruence.
  assert (s1 = s2) as -> by congruence. naive_solver.
Qed.

Lemma batch_targets write h W w e fds evs :
  entries_ok h W w → e = instance_fd write w → write = true ∨ ext_timeout = false →
  NoDup fds → Forall2 (λ f ev, ∃ mask, W e f = Some (mask, ev_data ev)) fds evs →
  ∃ ts, Forall2 (event_for write h) evs ts ∧ NoDup ts ∧
    Forall (λ t, ∃ f d ty, f ∈ fds ∧ live h f d t ty ∧ ty ≠ SCHEDI_EPOLL_DATA_EPOLLSOCKTO) ts.
Proof.
  intros Hok He Hw Hnd Hev. induction Hev as [|f ev fds evs [mask HW] Hev IH].
  { exists []. repeat constructor. }
  apply NoDup_cons in Hnd as [Hf Hnd]. destruct (IH Hnd) as (ts & Hts & Hndt & Hall).
  assert (instance w e) as Hin by (rewrite He; unfold instance, instance_fd; destruct write; auto).
  destruct (Hok e f mask (ev_data ev) Hin HW) as (d & t & ty & Ed & Hl & Hty).
  assert (ty ≠ SCHEDI_EPOLL_DATA_EPOLLSOCKTO) as Hno.
  { destruct Hw as [->|Hext]; [by apply Hty|]. intros ->.
    inversion Hl as [|? ? _ _ _ _ _ Hcase]; destruct Hcase as [[? _]|[_ ?]]; [done|congruence]. }
  exists (t :: ts). split; [constructor; [by exists d, f, ty|done]|]. split.
  - apply NoDup_cons. split; [|done]. intros Hint.
    rewrite Forall_forall in Hall. destruct (Hall t Hint) as (f' & d' & ty' & Hf' & Hl' & Hno').
    by rewrite (live_distinct _ _ _ _ _ _ _ _ Hl Hl' Hno Hno') in Hf.
  - constructor; [by exists f, d, ty; split; [left|]|].
    eapply Forall_impl; [done|]. cbn. intros t' (f' & d' & ty' & Hf' & Hrest).
    exists f', d', ty'. by split; [right|].
Qed.

Lemma drain_safe_done pend others write fuel w :
  net_ok pend w → others_ok pend others → write = true ∨ ext_timeout = false →
  wlp (drain (handler others write) fuel (instance_fd write w)) (λ _ w', net_ok pend w' ∧
    w_epfd_read w' = w_epfd_read w ∧ w_epfd_write w' = w_epfd_write w) w.
Proof.
  intros Hok Ho Hw. revert w Hok. induction fuel as [|fuel IH]; intros w [Hok Hs]; [done|].
  cbn [drain]. unfold wlp, mbind, M_bind. unfold call at 1.
  destruct (sys_epoll_wait (instance_fd write w) MAX_EVENTS (w_kernel w)) as [evs k] eqn:E.
  destruct (law_wait _ _ _ _ _ E) as [(fds & Hnd & Hev) Hk].
  pose proof (epoll_ok_data w k Hk Hok) as Hok1. set (w1 := put_kernel k w) in *.
  destruct (batch_targets write (w_heap w) (watched w) w _ fds evs Hok eq_refl Hw Hnd Hev)
    as (ts & Hts & Hndt & _).
  destruct evs as [|ev evs]; [done|].
  pose proof (batch_safe pend others write (ev :: evs) ts w1 Hok1 Hs Ho Hts Hndt) as Hb.
  unfold wlp in Hb. destruct (handle_all (handler others write) (ev :: evs) w1) as [[] w2| |];
    [|done|done]. destruct Hb as (Hok2 & Hs2 & Er & Ew).
  assert (instance_fd write w2 = instance_fd write w) as Ei
    by (unfold instance_fd; rewrite Er, Ew; done).
  specialize (IH w2 (conj Hok2 Hs2)). rewrite Ei in IH. unfold wlp in IH.
  destruct (drain _ _ _ w2); [|done|done]. by rewrite Er, Ew in IH.
Qed.

(** ** The loop *)

Definition thread_ok (pend : list nat) (t : epoll_thread) : Prop := net_ok pend (t_world t).

(** What other threads do while the loop waits keeps the invariants. *)
Definition meanwhile_ok (pend : list nat) (acts : list (M epoll_thread unit)) : Prop :=
  Forall (λ act, ∀ t, thread_ok pend t → wlp act (λ _ t', thread_ok pend t') t) acts.

Lemma thread_call_run {A} (f : kernel → A * kernel) t :
  thread_call f t =
    Done (f (w_kernel (t_world t))).1
      (put_world (put_kernel (f (w_kernel (t_world t))).2 (t_world t)) t).
Proof. unfold thread_call, in_world, zoom. by rewrite call_run. Qed.

Lemma in_world_wlp {A} (m : M world A) (Q : A → epoll_thread → Prop) t :
  wlp m (λ a w, Q a (put_world w t)) (t_world t) → wlp (in_world m) Q t.
Proof. unfold wlp, in_world, zoom. by destruct (m (t_world t)). Qed.

Lemma net_ok_kernel pend w k :
  (∀ e f, interest k e f = watched w e f) → net_ok pend w → net_ok pend (put_kernel k w).
Proof. intros Hi [Hok Hs]. split; [|done]. apply epoll_ok_data; [|done]. intros e f. by rewrite Hi. Qed.

(** The parts of the thread's state the loop's body leaves alone. *)
Definition same_fds (t t' : epoll_thread) : Prop :=
  w_epfd_read (t_world t') = w_epfd_read (t_world t) ∧
  w_epfd_write (t_world t') = w_epfd_write (t_world t).

Lemma drain_wake_safe pend fuel fd t :
  thread_ok pend t →
  wlp (drain_wake fuel fd) (λ _ t', thread_ok pend t' ∧ same_fds t t') t.
Proof.
  revert t. induction fuel as [|fuel IH]; intros t Hok; [done|]. cbn [drain_wake].
  wlp_by (by rewrite thread_call_run). set (t1 := put_world _ t).
  assert (thread_ok pend t1) as Hok1.
  { apply net_ok_kernel; [|done]. intros e f. apply law_read_wake. }
  destruct (sys_read_wake fd _).1; [|by eapply wlp_done].
  eapply wlp_mono; [by apply IH|]. done.
Qed.

Lemma drain_in_thread pend others write fuel t :
  ext_timeout = false → others_ok pend others → thread_ok pend t →
  wlp (in_world (drain (handler others write) fuel (instance_fd write (t_world t))))
    (λ _ t', thread_ok pend t' ∧ same_fds t t') t.
Proof.
  intros Hext Ho Hok. apply in_world_wlp.
  eapply wlp_mono; [apply drain_safe_done; [done|done|by right]|]. done.
Qed.

Lemma after_poll_safe pend others fuel t r again :
  ext_timeout = false → others_ok pend others → thread_ok pend t →
  (∀ t', thread_ok pend t' → wlp again (λ _ t', thread_ok pend t') t') →
  wlp (after_poll others fuel r again) (λ _ t', thread_ok pend t') t.
Proof.
  intros Hext Ho Hok Hagain. unfold after_poll. wlp_by done.
  destruct (negb _); [by eapply wlp_done|].
  destruct r as [p0 p1 p2| |]; [|by apply Hagain|by eapply wlp_done].
  eapply (wlp_bind _ _ (λ _, thread_ok pend)).
  { apply wlp_when; [|done]. intros _. wlp_by done.
    eapply wlp_mono; [by apply drain_wake_safe|]. by intros _ t' [? _]. }
  intros _ t3 Hok3. eapply (wlp_bind _ _ (λ _, thread_ok pend)).
  { apply wlp_when; [|done]. intros _. wlp_by done.
    eapply wlp_mono; [by apply (drain_in_thread pend others false)|]. by intros _ t' [? _]. }
  intros _ t4 Hok4. eapply (wlp_bind _ _ (λ _, thread_ok pend)); [|intros _ t5; apply Hagain].
  apply wlp_when; [|done]. intros _. wlp_by done.
  eapply wlp_mono; [by apply (drain_in_thread pend others true)|]. by intros _ t' [? _].
Qed.

Lemma loop_head_safe pend body t :
  thread_ok pend t → (∀ pfd, wlp (body pfd) (λ _, thread_ok pend) t) →
  wlp (loop_head body) (λ _, thread_ok pend) t.
Proof.
  intros Hok Hb. unfold loop_head. wlp_by done. destruct (negb _); [by eapply wlp_done|].
  do 3 wlp_by done. apply Hb.
Qed.

Lemma poll_wait_safe pend others fuel acts t pfd :
  ext_timeout = false → others_ok pend others → meanwhile_ok pend acts → thread_ok pend t →
  wlp (poll_wait others fuel acts pfd) (λ _, thread_ok pend) t.
Proof.
  intros Hext Ho Hacts. revert t pfd. induction Hacts as [|act acts Hact Hacts IH];
    intros t pfd Hok; cbn [poll_wait]; [done|].
  eapply wlp_bind; [by apply Hact|]. intros ? t1 Hok1. cbn beta.
  wlp_by (by rewrite thread_call_run). set (t2 := put_world _ t1).
  assert (thread_ok pend t2) as Hok2.
  { apply net_ok_kernel; [|done]. intros e f. apply law_poll. }
  destruct (sys_poll _ _ _ _).1 as [r|]; [|by apply IH].
  apply after_poll_safe; [done..|]. intros t3 Hok3. apply loop_head_safe; [done|].
  intros pfd'. by apply IH.
Qed.

Lemma poll_loop_safe pend others fuel acts t :
  ext_timeout = false → others_ok pend others → meanwhile_ok pend acts → thread_ok pend t →
  wlp (poll_loop others fuel acts) (λ _ t', thread_ok pend t') t.
Proof.
  intros Hext Ho Hacts Hok. apply loop_head_safe; [done|]. intros pfd. by apply poll_wait_safe.
Qed.

(** ** Starting and stopping *)

(** The loop does nothing once the thread was told to stop. *)
Lemma loop_stopped others fuel acts t :
  epoll_stop t ≠ 0 → schedi_epoll_loop others fuel acts t = Done 0 t.
Proof.
  intros Hs. unfold schedi_epoll_loop. bind_by done. by rewrite (proj2 (Z.eqb_neq _ _) Hs).
Qed.

Lemma when_call_run {A} (b : bool) (f : kernel → A * kernel) t :
  ∃ k, when b (thread_call f ≫= λ _, mret ()) t = Done () (put_world (put_kernel k (t_world t)) t).
Proof.
  destruct b; cbn [when].
  - eexists. by bind_by (by rewrite thread_call_run).
  - exists (w_kernel (t_world t)). by destruct t as [[] ? ? ? ?].
Qed.

(** Everything of the network but the instances' descriptors and the kernel. *)
Definition same_net (t t' : epoll_thread) : Prop :=
  w_sys (t_world t') = w_sys (t_world t) ∧ w_heap (t_world t') = w_heap (t_world t) ∧
  w_io (t_world t') = w_io (t_world t).

Definition fds_closed (t : epoll_thread) : Prop :=
  w_epfd_read (t_world t) = -1 ∧ w_epfd_write (t_world t) = -1 ∧ epoll_wakefd t = -1.

(** The descriptors are closed when the loop ends, whatever ended it. *)
Lemma epoll_loop_safe_done pend others fuel acts t :
  ext_timeout = false → others_ok pend others → meanwhile_ok pend acts → thread_ok pend t →
  wlp (schedi_epoll_loop others fuel acts)
    (λ r t', sys_ok pend (w_sys (t_world t')) ∧ (r = 0 ∨ r = -1) ∧ (t' = t ∨ fds_closed t')) t.
Proof.
  intros Hext Ho Hacts Hok. pose proof Hok as [_ Hs]. unfold schedi_epoll_loop. wlp_by done.
  destruct (negb _); [eapply wlp_done; [done|]; auto|]. wlp_by done. wlp_by done.
  destruct (_ || _); [eapply wlp_done; [done|]; auto|].
  eapply wlp_bind; [by apply poll_loop_safe|]. intros err t1 [_ Hs1]. cbn beta.
  do 3 wlp_by done. do 3 wlp_by (by rewrite thread_call_run). wlp_by done.
  eapply wlp_done; [done|]. split; [done|]. split; [|by right]. destruct err; auto.
Qed.

(** C8: in a build without socket timeouts the epoll thread never touches freed memory,
    whatever the descriptors, the other threads and the kernel do within the invariants:
    the loop waits (for events or for access to a job) or returns 0 or -1, having closed
    its descriptors if it had entered, with the scheduler consistent. *)
Theorem epoll_loop_safe pend others fuel acts t :
  ext_timeout = false → others_ok pend others → meanwhile_ok pend acts → thread_ok pend t →
  schedi_epoll_loop others fuel acts t = Stuck ∨
  ∃ r t', schedi_epoll_loop others fuel acts t = Done r t' ∧
    sys_ok pend (w_sys (t_world t')) ∧ (r = 0 ∨ r = -1) ∧ (t' = t ∨ fds_closed t').
Proof.
  intros Hext Ho Hacts Hok.
  pose proof (epoll_loop_safe_done pend others fuel acts t Hext Ho Hacts Hok) as Hw.
  unfold wlp in Hw. destruct (schedi_epoll_loop others fuel acts t) as [r t'| |]; [|done|by left].
  right. by exists r, t'.
Qed.

(** What the others do while one [poll] blocks: each time it looks there is nothing. *)
Inductive blocks (pfd : Z * Z * Z) : list (M epoll_thread unit) → epoll_thread → epoll_thread → Prop :=
  | Blocks_nil t : blocks pfd [] t t
  | Blocks_cons act acts t t1 k t' :
      act t = Done () t1 → sys_poll pfd.1.1 pfd.1.2 pfd.2 (w_kernel (t_world t1)) = (None, k) →
      blocks pfd acts (put_world (put_kernel k (t_world t1)) t1) t' →
      blocks pfd (act :: acts) t t'.

Lemma blocked_wait others fuel pfd before acts t t' :
  blocks pfd before t t' →
  poll_wait others fuel (before ++ acts) pfd t = poll_wait others fuel acts pfd t'.
Proof.
  intros Hb. induction Hb as [|act before t t1 k t' Hact Hp _ IH]; [done|].
  cbn [app poll_wait]. bind_by exact Hact. bind_by (by rewrite thread_call_run). by rewrite Hp.
Qed.

(** The request keeps the invariants, so it is one of the things others may do. *)
Lemma stop_request_safe pend t :
  thread_ok pend t → wlp stop_request (λ _ t', thread_ok pend t') t.
Proof.
  intros Hok. unfold stop_request. wlp_by done. wlp_by done.
  apply wlp_when; [|done]. intros _. wlp_by (by rewrite thread_call_run).
  eapply wlp_done; [done|]. apply net_ok_kernel; [|exact Hok]. intros e f. apply law_wake_watch.
Qed.

(** The wake descriptor can be written. *)
Definition can_wake (t : epoll_thread) : Prop :=
  0 <= epoll_wakefd t ∧ (sys_write_wake (epoll_wakefd t) (w_kernel (t_world t))).1 = 8.

Lemma stop_request_done t :
  can_wake t → ∃ k, stop_request t = Done () (set_stop 1 (put_world (put_kernel k (t_world t)) t)) ∧
    wake_pending k (epoll_wakefd t) = true.
Proof.
  intros [Hfd Hw]. unfold stop_request. bind_by done. bind_by done. cbn [epoll_wakefd set_stop].
  rewrite (proj2 (Z.leb_le _ _) Hfd). cbn [when].
  eexists. split; [by bind_by (by rewrite thread_call_run)|]. by apply law_write_wake.
Qed.

(** A blocked [poll] that the stop reaches. *)
Lemma stopped_wait others fuel acts t rd wr :
  can_wake t →
  ∃ k, poll_wait others fuel (stop_request :: acts) (epoll_wakefd t, rd, wr) t =
    Done false (set_stop 1 (put_world (put_kernel k (t_world t)) t)).
Proof.
  intros Hw. destruct (stop_request_done t Hw) as (k & Hrun & Hp). cbn [poll_wait].
  bind_by exact Hrun. bind_by (by rewrite thread_call_run). cbn [fst snd].
  destruct (law_poll_woken (epoll_wakefd t) rd wr k Hp) as [r Hr]. cbn [t_world put_world set_stop
    put_kernel w_kernel]. rewrite Hr. unfold after_poll. bind_by done. by eexists.
Qed.

(** C39: the stop reaches a loop that waits.  While [poll] blocks, whatever the others have
    done until then, the stop request of [schedi_epoll_thread_deinit] - the flag and the
    write to the wake descriptor - ends the loop: [poll] returns, no further event is
    handled, the three descriptors are closed, and the loop returns 0. *)
Theorem stop_ends_loop others fuel before acts t t1 :
  epoll_stop t = 0 → 0 <= w_epfd_read (t_world t) → 0 <= w_epfd_write (t_world t) →
  blocks (epoll_wakefd t, w_epfd_read (t_world t), w_epfd_write (t_world t)) before t t1 →
  epoll_wakefd t1 = epoll_wakefd t → can_wake t1 →
  ∃ t', schedi_epoll_loop others fuel (before ++ stop_request :: acts) t = Done 0 t' ∧
    same_net t1 t' ∧ fds_closed t' ∧ epoll_stop t' = 1.
Proof.
  intros H0s Hrd Hwr Hb Hwk Hw. unfold schedi_epoll_loop.
  bind_by done. rewrite H0s. cbn [Z.eqb negb]. bind_by done. bind_by done.
  replace (_ || _) with false by lia.
  assert (∃ k, poll_loop others fuel (before ++ stop_request :: acts) t =
    Done false (set_stop 1 (put_world (put_kernel k (t_world t1)) t1))) as [k Hrun].
  { unfold poll_loop, loop_head. bind_by done. rewrite H0s. cbn [Z.eqb negb].
    do 3 bind_by done. rewrite (blocked_wait _ _ _ _ _ _ _ Hb), <-Hwk.
    by apply stopped_wait. }
  bind_by exact Hrun. do 3 bind_by done. do 3 bind_by (by rewrite thread_call_run).
  bind_by done. eexists. split; [done|]. done.
Qed.

(** The flag alone does not reach it: without the write the loop stays blocked. *)
Lemma flag_alone_blocks others fuel t :
  epoll_stop t = 0 → 0 <= w_epfd_read (t_world t) → 0 <= w_epfd_write (t_world t) →
  (sys_poll (epoll_wakefd t) (w_epfd_read (t_world t)) (w_epfd_write (t_world t))
    (w_kernel (t_world t))).1 = None →
  schedi_epoll_loop others fuel [modify (set_stop 1)] t = Stuck.
Proof.
  intros H0s Hrd Hwr Hp. unfold schedi_epoll_loop.
  bind_by done. rewrite H0s. cbn [Z.eqb negb]. bind_by done. bind_by done.
  replace (_ || _) with false by lia.
  assert (poll_loop others fuel [modify (set_stop 1)] t = Stuck) as Hrun.
  { unfold poll_loop, loop_head. bind_by done. rewrite H0s. cbn [Z.eqb negb].
    do 3 bind_by done. cbn [poll_wait]. bind_by done. bind_by (by rewrite thread_call_run).
    cbn [fst snd t_world set_stop]. by rewrite Hp. }
  unfold mbind, M_bind. by rewrite Hrun.
Qed.

(** The thread's control variables. *)
Definition control (t : epoll_thread) := (epoll_thread_lock t, epoll_thread_running t, epoll_stop t).

Definition fds_open (t : epoll_thread) : Prop :=
  0 <= w_epfd_read (t_world t) ∧ 0 <= w_epfd_write (t_world t) ∧ 0 <= epoll_wakefd t.

Lemma init_fds_done t :
  ∃ r t', schedi_epoll_init_fds t = Done r t' ∧ same_net t t' ∧ control t' = control t ∧
    (0 <= w_epfd_read (t_world t) → r = 0 ∧ t' = t) ∧
    (w_epfd_read (t_world t) < 0 →
       r = 0 ∧ fds_open t' ∨ r = -1 ∧ w_epfd_read (t_world t') < 0).
Proof.
  unfold schedi_epoll_init_fds. bind_by done. destruct (Z.leb_spec 0 (w_epfd_read (t_world t))).
  { exists 0, t. split_and!; try done. lia. }
  do 2 bind_by done. bind_by (by rewrite thread_call_run).
  destruct (Z.ltb_spec (sys_epoll_create1 (w_kernel (t_world t))).1 0).
  { bind_by done. eexists _, _. split; [done|]. split_and!; try done; [lia|]. by right. }
  bind_by (by rewrite thread_call_run). case_match eqn:Ewr.
  { bind_by (by rewrite thread_call_run). bind_by done. eexists _, _. split; [done|].
    split_and!; try done; [lia|]. by right. }
  bind_by (by rewrite thread_call_run). case_match eqn:Ewk.
  { do 2 bind_by (by rewrite thread_call_run). bind_by done. eexists _, _. split; [done|].
    split_and!; try done; [lia|]. by right. }
  bind_by done. eexists _, _. split; [done|]. split_and!; try done; [lia|]. left.
  apply Z.ltb_ge in Ewr, Ewk. by split_and!.
Qed.

Lemma init_done t :
  epoll_thread_lock t = false →
  ∃ r t', schedi_epoll_thread_init t = Done r t' ∧ same_net t t' ∧
    epoll_thread_lock t' = false ∧ epoll_stop t' = epoll_stop t ∧
    if negb (epoll_thread_running t =? 0) then r = 0 ∧ t' = t
    else r = 0 ∧ epoll_thread_running t' = 1 ∧ 0 <= w_epfd_read (t_world t') ∨
      r = -1 ∧ epoll_thread_running t' = 0.
Proof.
  intros Hl. unfold schedi_epoll_thread_init.
  bind_by (unfold lock_thread, pthread_mutex_lock; by rewrite Hl). bind_by done.
  cbn [epoll_thread_running set_thread_lock].
  destruct (Z.eqb_spec (epoll_thread_running t) 0) as [Hr0|Hr0]; cbn [negb]; cycle 1.
  { bind_by done. eexists _, _. split; [done|]. destruct t as [w wk l r s]. cbn in *.
    subst l. by split_and!. }
  set (t0 := set_thread_lock true t).
  destruct (init_fds_done t0) as (r & t1 & Hr1 & Hn & Hc & Hopen & Hneg). bind_by exact Hr1.
  assert (epoll_thread_lock t1 = true ∧ epoll_thread_running t1 = 0 ∧
    epoll_stop t1 = epoll_stop t) as (Hl1 & Hrun1 & Hst1).
  { injection Hc as -> -> ->. done. }
  assert (∀ k, unlock_thread (put_world (put_kernel k (t_world t1)) t1) =
    Done () (set_thread_lock false (put_world (put_kernel k (t_world t1)) t1))) as Hunlock.
  { intros k. unfold unlock_thread, pthread_mutex_unlock. cbn. by rewrite Hl1. }
  assert (put_world (put_kernel (w_kernel (t_world t1)) (t_world t1)) t1 = t1) as Hid
    by (by destruct t1 as [[] ? ? ? ?]).
  assert (r = 0 ∧ 0 <= w_epfd_read (t_world t1) ∨ r = -1) as Hr.
  { destruct (Z.lt_ge_cases (w_epfd_read (t_world t0)) 0) as [Hlt|Hge].
    - destruct (Hneg Hlt) as [(-> & Ho & _)|[-> _]]; auto.
    - destruct (Hopen Hge) as [-> ->]; auto. }
  destruct Hr as [[-> Hfd]| ->]; cbn [Z.ltb Z.compare].
  - bind_by (by rewrite thread_call_run). destruct (negb _).
    + bind_by (apply Hunlock). eexists _, _. split; [done|]. by split_and!; try right.
    + bind_by done. unfold unlock_thread, pthread_mutex_unlock, set_running. cbn. rewrite Hl1.
      eexists _, _. split; [done|]. by split_and!; try left.
  - rewrite <-Hid. bind_by (apply Hunlock). eexists _, _. split; [done|].
    by split_and!; try right.
Qed.

(** Starting the epoll thread: while one runs, the call does nothing and returns 0;
    else it returns 0 with the instances open and the thread running, or -1 with no thread
    running.  The lock is free again, no heap object, job or byte is touched, and the stop
    flag is left as it was. *)
Theorem schedi_epoll_thread_init_spec t :
  epoll_thread_lock t = false →
  ∃ r t', schedi_epoll_thread_init t = Done r t' ∧ same_net t t' ∧
    epoll_thread_lock t' = false ∧ epoll_stop t' = epoll_stop t ∧
    if negb (epoll_thread_running t =? 0) then r = 0 ∧ t' = t
    else r = 0 ∧ epoll_thread_running t' = 1 ∧ 0 <= w_epfd_read (t_world t') ∨
      r = -1 ∧ epoll_thread_running t' = 0.
Proof. apply init_done. Qed.

(** What the thread does until it ends, once it is told to stop: from the head of its loop
    or from a [poll] that blocks. *)
Definition ends (exit : M epoll_thread unit) : Prop :=
  ∀ t, epoll_stop t ≠ 0 → wake_pending (w_kernel (t_world t)) (epoll_wakefd t) = true →
    ∃ t', exit t = Done () t' ∧ control t' = control t.

Lemma loop_ends others fuel acts :
  ends (schedi_epoll_loop others fuel acts ≫= λ _, mret ()).
Proof. intros t Hs _. exists t. split; [|done]. by bind_by (by apply loop_stopped). Qed.

(** The rest of a blocked [poll]; [wake] is the descriptor the thread passed to it. *)
Lemma wait_ends others fuel acts wake rd wr t :
  epoll_wakefd t = wake → epoll_stop t ≠ 0 →
  wake_pending (w_kernel (t_world t)) (epoll_wakefd t) = true →
  ∃ t', (poll_wait others fuel (mret () :: acts) (wake, rd, wr) ≫= λ _, mret ()) t = Done () t' ∧
    control t' = control t.
Proof.
  intros <- Hs Hp. destruct (law_poll_woken (epoll_wakefd t) rd wr _ Hp) as [r Hr].
  assert (∃ k, poll_wait others fuel (mret () :: acts) (epoll_wakefd t, rd, wr) t =
    Done false (put_world (put_kernel k (t_world t)) t)) as [k Hrun].
  { cbn [poll_wait]. bind_by done. bind_by (by rewrite thread_call_run). cbn [fst snd].
    rewrite Hr. unfold after_poll. bind_by done. cbn [epoll_stop put_world].
    rewrite (proj2 (Z.eqb_neq _ _) Hs). by eexists. }
  eexists. split; [by bind_by exact Hrun|done].
Qed.

Lemma thread_deinit_done exit t :
  epoll_thread_lock t = false → ends exit → can_wake t →
  ∃ r t', schedi_epoll_thread_deinit exit t = Done r t' ∧ epoll_thread_lock t' = false ∧
    epoll_thread_running t' = 0 ∧
    epoll_stop t' = if epoll_thread_running t =? 0 then epoll_stop t else 1.
Proof.
  intros Hl Hexit Hw. unfold schedi_epoll_thread_deinit.
  bind_by (unfold lock_thread, pthread_mutex_lock; by rewrite Hl). bind_by done.
  cbn [epoll_thread_running set_thread_lock].
  destruct (Z.eqb_spec (epoll_thread_running t) 0) as [Hr|Hr].
  { bind_by done. by eexists _, _. }
  set (t1 := set_thread_lock true t).
  destruct (stop_request_done t1 Hw) as (k & Hrun & Hp). bind_by exact Hrun.
  destruct (Hexit (set_stop 1 (put_world (put_kernel k (t_world t1)) t1)) ltac:(done) Hp)
    as (t3 & He & Hc). bind_by exact He. injection Hc as Hl3 Hr3 Hs3.
  bind_by (by rewrite thread_call_run). bind_by done.
  bind_by (unfold unlock_thread, pthread_mutex_unlock; cbn; by rewrite Hl3).
  eexists _, _. split; [done|]. by split_and!.
Qed.

(** Stopping the epoll thread, whose wake descriptor can be written, returns once the
    thread ends on the request: afterwards no thread runs, the lock is free and the stop
    flag is set; without a running thread the call changes nothing of these. *)
Theorem schedi_epoll_thread_deinit_spec exit t :
  epoll_thread_lock t = false → ends exit → can_wake t →
  ∃ r t', schedi_epoll_thread_deinit exit t = Done r t' ∧ epoll_thread_lock t' = false ∧
    epoll_thread_running t' = 0 ∧
    epoll_stop t' = if epoll_thread_running t =? 0 then epoll_stop t else 1.
Proof. apply thread_deinit_done. Qed.

(** A thread that was stopped can not be started again: the stop flag stays set, so
    after a stop and a start (which may well report success) the loop of the new thread
    returns 0 at once and no event is ever handled. *)
Theorem restarted_loop_exits exit t r0 t0 r1 t1 others fuel acts :
  epoll_thread_lock t = false → epoll_thread_running t ≠ 0 → ends exit → can_wake t →
  schedi_epoll_thread_deinit exit t = Done r0 t0 →
  schedi_epoll_thread_init t0 = Done r1 t1 →
  schedi_epoll_loop others fuel acts t1 = Done 0 t1.
Proof.
  intros Hl Hr He Hw Hd Hi.
  destruct (thread_deinit_done exit t Hl He Hw) as (r & t' & Hd' & Hl' & _ & Hs').
  assert (t' = t0) as -> by congruence. rewrite (proj2 (Z.eqb_neq _ _) Hr) in Hs'.
  destruct (init_done t0 Hl') as (r2 & t2 & Hi2 & _ & _ & Hs2 & _).
  assert (t2 = t1) as -> by congruence. apply loop_stopped. by rewrite Hs2, Hs'.
Qed.
End run.

(** ** Witnesses *)

Section witnesses.
#[local] Existing Instance script_kernel.
#[local] Existing Instance script_laws.
#[local] Existing Instance contiguous_jobs.

(** A kernel on which descriptor 9 is ready whenever an instance watches it for
    something. *)
Definition script_wait (e : Z) (m : nat) (k : script) : list epoll_event * script :=
  match script_interest k e 9 with
  | Some (mask, p) =>
      if mask =? 0 then ([], k) else ([Event mask p], script_put e 9 (Some (0, p)) k)
  | None => ([], k)
  end.

(** Whether an instance is readable, that is whether an event is due. *)
Definition script_due (e : Z) (k : script) : bool :=
  match script_interest k e 9 with Some (mask, _) => negb (mask =? 0) | None => false end.

#[local] Instance script_events : EventKernel := {|
  sys_epoll_wait := script_wait;
  sys_poll _ rd wr k :=
    (if t_wake k || script_due rd k || script_due wr k
     then Some (Polled (t_wake k) (script_due rd k) (script_due wr k)) else None, k);
  sys_read_wake _ k := (t_wake k, script_woken false k);
  sys_write_wake _ k := (8, script_woken true k);
  wake_pending k _ := t_wake k;
  sys_epoll_create1 k := (3, k);
  sys_eventfd k := (5, k);
  pthread_create k := (0, k);
  pthread_join k := (0, k);
|}.

#[local] Instance script_event_laws : EventLaws.
Proof.
  split; cycle 1.
  { done. }
  { intros wake rd wr k Hk. cbn in *. rewrite Hk. by eexists. }
  { done. }
  { done. }
  { done. }
  intros e m k evs k' E. cbn in E. unfold script_wait in E.
  pose proof (script_known_some e 9 k) as Hs.
  destruct (script_interest k e 9) as [[mask p]|] eqn:Ew; [destruct (mask =? 0)|];
    injection E as <- <-.
  1,3: split; [exists []; split; constructor|done].
  split.
  - exists [9]. split; [apply NoDup_singleton|]. constructor; [|constructor]. by exists mask.
  - intros e' f. cbn. rewrite script_put_interest by by apply Hs.
    case_decide as Hd; [|done]. destruct Hd as [-> ->]. by rewrite Ew.
Qed.

(** A thread that starts with a request for descriptor 9 registered. *)
Definition thread_on (w : world) : epoll_thread := Thread w 5 false 1 0.
Definition world_request : world :=
  script_world (Script {[(3, 9) := (EPOLLIN, Some 7%nat)]} None [] [])
    {[6%nat := HRequest (Request 9 0 0 0); 7%nat := HData (Data SCHEDI_EPOLL_DATA_JOB 6%nat)]}
    sys_waiting.

Definition plain_build : BuildConfig := {| lockless_readyjob := false; ext_timeout := false |}.

Section plain.
#[local] Existing Instance plain_build.

Lemma world_request_ok : net_ok [] world_request.
Proof.
  split; [|apply sys_waiting_ok]. intros e f ev p Hin HW.
  unfold watched in HW. cbn in HW. unfold script_interest in HW. cbn [t_watch t_timer] in HW.
  destruct (of_timer e f); [done|]. apply lookup_singleton_Some in HW as [[= <- <-] [= <- <-]].
  exists 7%nat, 6%nat, SCHEDI_EPOLL_DATA_JOB. split; [done|]. split; [|done].
  apply (live_job _ _ _ _ (Request 9 0 0 0)); try done. split; [apply job_index_zero|done].
Qed.

Lemma epoll_loop_safe_witness :
  let acts := [mret (); stop_request] in
  let t := thread_on world_request in
  let run := schedi_epoll_loop [] 3 acts t in
  (∃ t', run = Done 0 t' ∧ w_heap (t_world t') = ∅) ∧
  (run = Stuck ∨ ∃ r t', run = Done r t' ∧ sys_ok [] (w_sys (t_world t')) ∧
    (r = 0 ∨ r = -1) ∧ (t' = t ∨ fds_closed t')).
Proof.
  intros acts t run. split.
  { exists (final_of t run). split; [apply run_final; by vm_compute|by vm_compute]. }
  apply (epoll_loop_safe [] [] 3 acts t); [done|constructor| |].
  - constructor; [done|]. constructor; [|constructor]. intros t0. apply stop_request_safe.
  - apply world_request_ok.
Defined.

(** Nothing is due: the others act once in vain, then comes the stop. *)
Lemma stop_ends_loop_witness :
  let t := thread_on (script_world (Script ∅ None [] []) ∅ sys_one) in
  schedi_epoll_loop [] 0 [modify (set_stop 1)] t = Stuck ∧
  ∃ t', schedi_epoll_loop [] 0 ([mret ()] ++ [stop_request]) t = Done 0 t' ∧
    same_net t t' ∧ fds_closed t' ∧ epoll_stop t' = 1.
Proof.
  intros t. split; [by apply flag_alone_blocks|].
  apply (stop_ends_loop [] 0 [mret ()] [] t t); try done.
  apply (Blocks_cons _ (mret ()) [] t t (w_kernel (t_world t)) t); [done|done|].
  apply Blocks_nil.
Defined.

Lemma schedi_epoll_thread_init_spec_witness :
  let t := Thread (World sys_one ∅ (-1) (-1) (Script ∅ None [] []) []) (-1) false 0 0 in
  ∃ r t', schedi_epoll_thread_init t = Done r t' ∧ same_net t t' ∧
    epoll_thread_lock t' = false ∧ epoll_stop t' = 0 ∧
    (r = 0 ∧ epoll_thread_running t' = 1 ∧ 0 <= w_epfd_read (t_world t') ∨
     r = -1 ∧ epoll_thread_running t' = 0).
Proof. intros t. by apply (schedi_epoll_thread_init_spec t). Defined.

Lemma schedi_epoll_thread_deinit_spec_witness :
  let t := thread_on world_request in
  let exit := schedi_epoll_loop [] 0 [] ≫= λ _, mret () in
  ∃ r t', schedi_epoll_thread_deinit exit t = Done r t' ∧ epoll_thread_lock t' = false ∧
    epoll_thread_running t' = 0 ∧ epoll_stop t' = 1.
Proof.
  intros t exit. apply (schedi_epoll_thread_deinit_spec exit t); [done| |done]. apply loop_ends.
Defined.

(** A thread that was stopped, and started again. *)
Definition loop_rest : M epoll_thread unit := schedi_epoll_loop [] 0 [] ≫= λ _, mret ().
Definition thread_stopped : epoll_thread :=
  final_of (thread_on world_request)
    (schedi_epoll_thread_deinit loop_rest (thread_on world_request)).
Definition thread_restarted : epoll_thread :=
  final_of thread_stopped (schedi_epoll_thread_init thread_stopped).

Lemma restarted_loop_exits_witness :
  schedi_epoll_thread_init thread_stopped = Done 0 thread_restarted ∧
  epoll_thread_running thread_restarted = 1 ∧
  schedi_epoll_loop [] 3 [] thread_restarted = Done 0 thread_restarted.
Proof.
  split; [apply run_final; by vm_compute|]. split; [by vm_compute|].
  apply (restarted_loop_exits loop_rest (thread_on world_request) 0 thread_stopped 0
    thread_restarted [] 3 []).
  - by vm_compute.
  - by vm_compute.
  - apply loop_ends.
  - by vm_compute.
  - apply run_final. by vm_compute.
  - apply run_final. by vm_compute.
Defined.
End plain.

(** ** Two events of one socket in one batch *)

#[local] Existing Instance timeout_build.

(** The read instance hands back the socket's hang-up and its expired timer together.
    Nothing in the kernel's interface rules that out. *)
Definition hang_up : epoll_event := Event EPOLLHUP (Some 8%nat).
Definition expiry : epoll_event := Event EPOLLIN (Some 9%nat).

(** With socket timeouts one batch can hold a socket's own event and its timer's, and
    the handlers do not expect that.  If the timer comes first, epoll's reference is
    dropped twice: the socket of a job that still holds it is freed and the job's next
    call is a use after free.  If it comes second and the job had already given the
    socket up, the timer's handler itself uses the freed socket. *)
Theorem same_batch_use_after_free :
  (sk_fall (socket_reg 2) = 2 ∧
   ∃ w', handle_all (schedi_epoll_handle_read []) [expiry; hang_up] (world_reg 2) = Done () w' ∧
     w_heap w' !! 5%nat = None ∧ schedi_job_epollsocket_done 5%nat w' = Undef) ∧
  handle_all (schedi_epoll_handle_read []) [hang_up; expiry] (world_reg 1) = Undef.
Proof.
  split; [|apply run_undefined; by vm_compute]. split; [done|].
  exists (final_of (world_reg 2) (handle_all (schedi_epoll_handle_read []) [expiry; hang_up]
    (world_reg 2))).
  split; [apply run_final; by vm_compute|]. split; [by vm_compute|].
  apply run_undefined. by vm_compute.
Qed.
End witnesses.
