(* ===== verification/NetSafe.v ===== *)
(** * Jobs and the epoll thread together (src/src/jobs.c, src/src/epoll.c)

    A socket has two users: the job that made it, until it calls
    [schedi_job_epollsocket_done], and the epoll thread, as long as the socket is
    registered.  The invariant here ties the reference count to the two, and says that
    the descriptor of a socket is registered with the socket's own data or not at all.
    Handlers keep it, and what keeps it for a job's call is in the last part; NetRun
    puts them in any order.  The build is one without socket timeouts. *)

From Stdlib Require Import Strings.Byte.
From S2P Require Export SockReg EpollRun.

Local Open Scope Z_scope.

Section references.
Context `{BuildConfig, JobAddress, EventKernel, !KernelLaws, !EventLaws}.

(** An instance may hand back data that leads to the object [a]. *)
Definition points (w : world) (a : addr) : Prop :=
  ∃ e f ev d ty, instance w e ∧ watched w e f = Some (ev, Some d) ∧ live (w_heap w) f d a ty.

Record sound_socket (s : epollsocket) : Prop := {
  ss_wf : sock_wf s;
  ss_live : sock_timed_out s = false;
}.

(** [held] are the sockets that jobs hold. *)
Record refs_ok (held : list addr) (w : world) : Prop := {
  rf_nodup : NoDup held;
  rf_held a : a ∈ held → ∃ s, sock_at w a s ∧ sound_socket s ∧
    (sk_fall s = 2 ∧ points w a ∨ sk_fall s = 1 ∧ ¬ points w a);
  rf_own a s e ev p : a ∈ held → sock_at w a s → instance w e →
    watched w e (sk_fd s) = Some (ev, p) → p = sk_data_ptr s;
  rf_alone a s : a ∉ held → sock_at w a s → points w a ∧ sk_fall s = 1;
  rf_single e1 e2 f ev1 ev2 p1 p2 : instance w e1 → instance w e2 →
    watched w e1 f = Some (ev1, p1) → watched w e2 f = Some (ev2, p2) → p1 = p2;
}.

Record net_sound (pend : list nat) (held : list addr) (w : world) : Prop := {
  ns_epoll : epoll_ok w;
  ns_sys : sys_ok pend (w_sys w);
  ns_refs : refs_ok held w;
}.

(** ** Steps that concern one object *)

(** No new data pointer appears. *)
Definition shrinks (w w' : world) : Prop := ∀ e f ev p, instance w e →
  watched w' e f = Some (ev, p) → ∃ ev0, watched w e f = Some (ev0, p).

(** A step that concerns the object [t], its data [d] and its descriptor [f]. *)
Record concerns (d t : addr) (f : Z) (w w' : world) : Prop := {
  cn_inst : same_instances w w';
  cn_shrinks : shrinks w w';
  cn_others e f' : instance w e → f' ≠ f → snd <$> watched w' e f' = snd <$> watched w e f';
  cn_heap : elsewhere d t (w_heap w) (w_heap w');
  cn_data : w_heap w' !! d = None ∨ w_heap w' !! d = w_heap w !! d;
  cn_object x : w_heap w' !! t ≠ Some (HData x);
}.

Lemma instance_same w w' e : same_instances w w' → instance w' e → instance w e.
Proof. unfold instance. by intros [-> ->]. Qed.

(** What leads to another object led to it before. *)
Lemma points_before d t f ty w w' x :
  epoll_ok w → live (w_heap w) f d t ty → concerns d t f w w' → x ≠ t →
  points w' x → points w x.
Proof.
  intros Hok Hl [Hin Hsh _ He Hd Ht] Hx (e & f' & ev & d' & ty' & Hi & HW & Hl').
  pose proof (instance_same _ _ _ Hin Hi) as Hi'.
  destruct (Hsh e f' ev (Some d') Hi' HW) as [ev0 HW0].
  destruct (Hok e f' ev0 (Some d') Hi' HW0) as (d0 & t0 & ty0 & [= <-] & Hl0 & _).
  exists e, f', ev0, d', ty0. split; [done|]. split; [done|].
  pose proof (live_data _ _ _ _ _ Hl') as Ed'. pose proof (live_data _ _ _ _ _ Hl0) as Ed0.
  assert (w_heap w' !! d' = w_heap w !! d') as Ed.
  { destruct (decide (d' = d)) as [->|Hdd]; [destruct Hd as [Hd|Hd]; [congruence|done]|].
    apply He; [done|]. intros ->. by apply (Ht _ Ed'). }
  rewrite Ed, Ed0 in Ed'. injection Ed' as -> ->. done.
Qed.

(** An event of the write or of the read instance that is due: its data is registered. *)
Definition due (write : bool) (w : world) (ev : epoll_event) (t : addr) : Prop :=
  ∃ f ev0 d ty, ev_data ev = Some d ∧
    watched w (instance_fd write w) f = Some (ev0, Some d) ∧ live (w_heap w) f d t ty.

Lemma instance_of write w : instance w (instance_fd write w).
Proof. destruct write; [by right|by left]. Qed.

(** Other events stay due. *)
Lemma due_after held write d t f ty ev0 e w w' ev x :
  refs_ok held w → live (w_heap w) f d t ty → instance w e → watched w e f = Some (ev0, Some d) →
  concerns d t f w w' → x ≠ t → due write w ev x → due write w' ev x.
Proof.
  intros Hr Hl Hi HW [[Er Ew] _ Hother He _ _] Hx (f' & ev' & d' & ty' & Ed & HW' & Hl').
  assert (instance_fd write w' = instance_fd write w) as Ei
    by (unfold instance_fd; by rewrite Er, Ew).
  assert (f' ≠ f) as Hf.
  { intros ->. assert (Some d' = Some d) as [= ->].
    { eapply (rf_single _ _ Hr _ e f); [apply instance_of|done|done|done]. }
    pose proof (live_unique _ _ _ _ _ _ _ _ Hl Hl') as (_ & ? & _). congruence. }
  specialize (Hother _ f' (instance_of write w) Hf). rewrite HW' in Hother.
  destruct (watched w' (instance_fd write w) f') as [[ev1 p1]|] eqn:E1; [|done].
  injection Hother as ->. exists f', ev1, d', ty'. rewrite Ei. split; [done|]. split; [done|].
  exact (live_elsewhere _ _ _ _ _ _ _ _ _ _ Hl Hl' He Hx).
Qed.

Lemma points_after held d t f ty ev0 e w w' x :
  refs_ok held w → live (w_heap w) f d t ty → instance w e → watched w e f = Some (ev0, Some d) →
  concerns d t f w w' → x ≠ t → points w x → points w' x.
Proof.
  intros Hr Hl Hi HW Hcn Hx (e' & f' & ev & d' & ty' & Hi' & HW' & Hl').
  assert (∃ write, e' = instance_fd write w) as [write ->]
    by (destruct Hi' as [->| ->]; [by exists false|by exists true]).
  destruct (due_after held write d t f ty ev0 e w w' (Event 0 (Some d')) x Hr Hl Hi HW Hcn Hx)
    as (f2 & ev2 & d2 & ty2 & [= <-] & HW2 & Hl2); [by exists f', ev, d', ty'|].
  exists (instance_fd write w'), f2, ev2, d', ty2. split; [apply instance_of|done].
Qed.

(** The object itself afterwards: what a held socket and one only epoll has must be. *)
Definition settled (held : list addr) (t : addr) (w w' : world) : Prop :=
  (t ∈ held → ∃ s s', sock_at w t s ∧ sock_at w' t s' ∧ sound_socket s' ∧
     sk_fd s' = sk_fd s ∧ sk_data_ptr s' = sk_data_ptr s ∧
     (sk_fall s' = 2 ∧ points w' t ∨ sk_fall s' = 1 ∧ ¬ points w' t)) ∧
  (t ∉ held → ∀ s', sock_at w' t s' → points w' t ∧ sk_fall s' = 1).

Lemma concerns_refs held d t f ty ev0 e w w' :
  epoll_ok w → refs_ok held w → live (w_heap w) f d t ty → instance w e →
  watched w e f = Some (ev0, Some d) → concerns d t f w w' →
  settled held t w w' → refs_ok held w'.
Proof.
  intros Hok Hr Hl Hie HWe Hcn [Hin Hout]. pose proof Hcn as [Hi Hsh _ He Hd Ht].
  assert (∀ x, x ≠ t → points w' x ↔ points w x) as Hpts
    by (split; [by eapply points_before|by eapply points_after]).
  destruct Hr as [Hnd Hh Ho Ha Hsg].
  assert (∀ a s, a ≠ t → sock_at w' a s ↔ sock_at w a s) as Hsock.
  { intros a s Hat. unfold sock_at. destruct (decide (a = d)) as [->|Had].
    - rewrite (live_data _ _ _ _ _ Hl) in Hd |- *. by destruct Hd as [->| ->].
    - by rewrite He. }
  split; [done|..].
  - intros a Hah. destruct (decide (a = t)) as [->|Hat].
    { destruct (Hin Hah) as (s & s' & _ & ? & ? & _ & _ & ?). by exists s'. }
    destruct (Hh a Hah) as (s & Hs & Hsound & Hf). exists s.
    split; [by apply Hsock|]. split; [done|]. by rewrite Hpts.
  - intros a s' e0 ev p Hah Hs' Hi' HW. pose proof (instance_same _ _ _ Hi Hi') as Hi0.
    destruct (Hsh e0 _ ev p Hi0 HW) as [ev1 HW0]. destruct (decide (a = t)) as [->|Hat].
    + destruct (Hin Hah) as (s & s2 & Hs & Hs2 & _ & Efd & Edp & _).
      assert (s2 = s') as -> by (unfold sock_at in *; congruence).
      rewrite Edp. rewrite Efd in HW0. by eapply Ho.
    + eapply Ho; [done|by apply Hsock|done|done].
  - intros a s' Hah Hs'. destruct (decide (a = t)) as [->|Hat]; [by apply Hout|].
    rewrite Hpts by done. apply (Ha a s' Hah). by apply Hsock.
  - intros e1 e2 f' ev1 ev2 p1 p2 Hi1 Hi2 HW1 HW2.
    apply (instance_same _ _ _ Hi) in Hi1, Hi2.
    destruct (Hsh _ _ _ _ Hi1 HW1) as [? ?]. destruct (Hsh _ _ _ _ Hi2 HW2) as [? ?].
    by eapply (Hsg e1 e2).
Qed.

(** ** The epoll thread *)

(** What a handler does to the object of a registered event. *)
Definition handler_step (held : list addr) (pend : list nat) (d t : addr) (f : Z) (w w' : world)
    : Prop := net_sound pend held w' ∧ concerns d t f w w'.

Lemma removed_concerns d t f w w1 w' :
  same_instances w w1 → shrinks w w1 →
  (∀ e f', instance w e → f' ≠ f → snd <$> watched w1 e f' = snd <$> watched w e f') →
  same_instances w1 w' →
  (∀ e f', watched w' e f' = watched w1 e f' ∨ f' = f ∧ watched w' e f' = None) →
  elsewhere d t (w_heap w) (w_heap w') →
  (w_heap w' !! d = None ∨ w_heap w' !! d = w_heap w !! d) →
  (∀ x, w_heap w' !! t ≠ Some (HData x)) → concerns d t f w w'.
Proof.
  intros [Er Ew] Hsh Hother [Er' Ew'] Hrem He Hd Ht. split; try done.
  - split; congruence.
  - intros e f' ev p Hi HW. destruct (Hrem e f') as [E|[_ E]]; [|congruence]. rewrite E in HW.
    by apply (Hsh e f' ev p).
  - intros e f' Hi Hf. destruct (Hrem e f') as [->|[? _]]; [by apply Hother|done].
Qed.

Lemma shrinks_refl w : shrinks w w.
Proof. intros e f ev p _ HW. by exists ev. Qed.

Lemma request_step held pend others d t r ev e events w :
  net_sound pend held w → others_ok pend others →
  live (w_heap w) (rq_socketfd r) d t SCHEDI_EPOLL_DATA_JOB → req_at w t r → request_wf r →
  instance w e → watched w e (rq_socketfd r) = Some (ev, Some d) →
  wlp (handle_job others d events)
    (λ _ w', handler_step held pend d t (rq_socketfd r) w w') w.
Proof.
  intros [Hok Hs Hr] Ho Hl Ht Hwf Hi HW. pose proof (live_data _ _ _ _ _ Hl) as Hd.
  pose proof (handle_job_safe pend others d t _ events w Hok Hs Ho Hl) as Hsafe.
  pose proof (handle_job_done pend others d t r events w Hs Ho Hd Ht Hwf) as Hdone.
  unfold wlp in *. destruct (handle_job others d events w) as [[] w'| |]; [|done|done].
  destruct Hsafe as (Hok' & Hs' & He & Er & Ew). destruct Hdone as (_ & Eh & _ & _ & Hi').
  assert (t ≠ d) as Htd by (unfold req_at in Ht; congruence).
  assert (w_heap w' !! t = None) as Hgone.
  { rewrite Eh, lookup_delete_ne by done. apply lookup_delete_eq. }
  assert (concerns d t (rq_socketfd r) w w') as Hcn.
  { apply (removed_concerns d t _ w w w'); try done.
    - apply shrinks_refl.
    - intros e' f'. rewrite Hi'. case_decide as Hc; [right|by left]. by destruct Hc.
    - left. rewrite Eh. apply lookup_delete_eq.
    - intros x. congruence. }
  split; [|done]. split; [done|done|].
  apply (concerns_refs held d t _ _ ev e w w' Hok Hr Hl Hi HW Hcn). split.
  - intros Hin. destruct (rf_held _ _ Hr t Hin) as (s & Hs0 & _).
    unfold sock_at, req_at in *. congruence.
  - intros _ s' Hs0. unfold sock_at in Hs0. congruence.
Qed.

(** A call on a socket whose descriptor is registered with nothing but its own data. *)
Lemma after_shrinks pend a s s' io w w1 :
  (∀ e ev p, instance w e → watched w e (sk_fd s) = Some (ev, p) → p = sk_data_ptr s) →
  after pend a s s' io w w1 →
  same_instances w w1 ∧ shrinks w w1 ∧
  ∀ e f, instance w e → snd <$> watched w1 e f = snd <$> watched w e f.
Proof.
  intros Hown [_ _ Er Ew Hrw _ _ _ _]. split; [done|].
  assert (∀ e f, instance w e → snd <$> watched w1 e f = snd <$> watched w e f) as Hsame.
  { intros e f Hi. destruct (Hrw e f) as [->|(-> & [[ev0 p0] E0] & ev' & ->)]; [done|].
    rewrite E0. cbn. f_equal. symmetry. by eapply Hown. }
  split; [|done]. intros e f ev p Hi HW. specialize (Hsame e f Hi). rewrite HW in Hsame.
  destruct (watched w e f) as [[ev0 p0]|]; [|done]. injection Hsame as ->. by exists ev0.
Qed.

(** A call touched the socket [a] and left its registrations as they were. *)
Record touched (pend : list nat) (a : addr) (s s' : epollsocket) (w w' : world) : Prop := {
  to_heap : w_heap w' = <[a := HSocket s']> (w_heap w);
  to_inst : same_instances w w';
  to_watch e f : instance w e → snd <$> watched w' e f = snd <$> watched w e f;
  to_sys : sys_ok pend (w_sys w');
  to_key : reg_key s' = reg_key s;
  to_sound : sound_socket s';
}.

Lemma touched_points pend a s s' w w' x :
  epoll_ok w → sock_at w a s → touched pend a s s' w w' →
  epoll_ok w' ∧ (points w' x ↔ points w x).
Proof.
  intros Hok Ha [Eh Hin Hw Hs Hk [Hwf Hto]].
  assert (∀ f d t ty, live (w_heap w) f d t ty → live (w_heap w') f d t ty) as Hlive
    by (intros; rewrite Eh; by eapply live_socket_changed).
  assert (∀ e f ev p, instance w' e → watched w' e f = Some (ev, p) →
    ∃ ev0 d t ty, p = Some d ∧ instance w e ∧ watched w e f = Some (ev0, Some d) ∧
      live (w_heap w) f d t ty ∧ (e = w_epfd_write w → ty ≠ SCHEDI_EPOLL_DATA_EPOLLSOCKTO)) as Hback.
  { intros e f ev p Hi HW. apply (instance_same _ _ _ Hin) in Hi. specialize (Hw e f Hi).
    rewrite HW in Hw. destruct (watched w e f) as [[ev0 p0]|] eqn:E0; [|done].
    injection Hw as ->. destruct (Hok e f ev0 p0 Hi E0) as (d & t & ty & -> & Hl & Hty).
    by exists ev0, d, t, ty. }
  split; [|split].
  - intros e f ev p Hi HW. destruct (Hback e f ev p Hi HW) as (ev0 & d & t & ty & -> & _ & _ & Hl & Hty).
    exists d, t, ty. split; [done|]. split; [by apply Hlive|]. by destruct Hin as [_ ->].
  - intros (e & f & ev & d & ty & Hi & HW & Hl).
    destruct (Hback e f ev _ Hi HW) as (ev0 & d0 & t & ty0 & [= <-] & Hi0 & HW0 & Hl0 & _).
    destruct (live_unique _ _ _ _ _ _ _ _ Hl (Hlive _ _ _ _ Hl0)) as (_ & -> & _).
    by exists e, f, ev0, d, ty0.
  - intros (e & f & ev & d & ty & Hi & HW & Hl). specialize (Hw e f Hi). rewrite HW in Hw.
    destruct (watched w' e f) as [[ev1 p1]|] eqn:E1; [|done]. injection Hw as ->.
    exists e, f, ev1, d, ty. destruct Hin as [Er Ew]. unfold instance in *. rewrite Er, Ew. auto.
Qed.

Lemma after_touched pend a s s' io w w1 :
  (∀ e ev p, instance w e → watched w e (sk_fd s) = Some (ev, p) → p = sk_data_ptr s) →
  after pend a s s' io w w1 → touched pend a s s' w w1.
Proof.
  intros Hown Haf. destruct (after_shrinks pend a s s' io w w1 Hown Haf) as (Hin & _ & Hw).
  destruct Haf. split; try done. by apply identity_reg_key.
Qed.

(** A new word with the counts as they were, for a socket with maybe new conditions. *)
Lemma recounted_sound s rc wc x y :
  sound_socket s → counts_are x (set_conds rc wc s) (sock_count s) (sock_avail s) →
  sound_socket (set_fall y (set_htc x (set_conds rc wc s))).
Proof.
  intros [Hwf _] (Hx & Ec & Ea & Hto & Hfl). set (s' := set_fall y _).
  assert (sock_count s' = sock_count s) as Ec'.
  { unfold sock_count at 1. cbn [s' sk_htc set_htc set_fall]. by rewrite Ec, Nat2Z.id. }
  assert (sock_avail s' = sock_avail s) as Ea'.
  { unfold sock_avail at 1. cbn [s' sk_htc set_htc set_fall]. by rewrite Ea, Nat2Z.id. }
  split; [|exact Hto]. destruct Hwf. split; unfold flags_are in *; rewrite ?Ec', ?Ea'; done.
Qed.

Lemma set_conds_id s : set_conds (sk_read_cond s) (sk_write_cond s) s = s.
Proof. by destruct s. Qed.

(** The word after a release says the same about the buffers. *)
Lemma released_sound side s x y :
  sound_socket s → word64 x →
  sock_view_of x = sock_effect (done_op side) (sock_view_of (sk_htc s)) →
  sound_socket (set_fall y (set_htc x s)).
Proof.
  intros [Hwf Hto] Hx Hv. pose proof Hto as Hto'. unfold sock_timed_out in Hto'.
  rewrite timed_out_of in Hto'.
  assert (counts_are x s (sock_count s) (sock_avail s)) as Hc.
  { apply (counts_are_view _ _ _ _ _ Hx Hv); destruct side;
      cbn [sock_effect done_op k_count k_avail k_timeout k_read_ready k_write_ready];
      rewrite ?k_count_of, ?k_avail_of, ?count_of_nat, ?avail_of_nat;
      first [done|by apply wf_read_flag|by apply wf_write_flag]. }
  rewrite <-(set_conds_id s) in Hc |- * at 1.
  by apply recounted_sound.
Qed.

(** In a build without timeouts a socket is registered by its own descriptor alone. *)
Lemma points_by_fd w a s :
  ext_timeout = false → sock_at w a s → points w a →
  ∃ e ev p, instance w e ∧ watched w e (sk_fd s) = Some (ev, p).
Proof.
  intros Hext Ha (e & f & ev & d & ty & Hi & HW & Hl). exists e, ev, (Some d).
  split; [done|]. inversion Hl as [r _ Ht|s0 ? _ Ht _ _ Hf Hcase]; unfold sock_at in *; [congruence|].
  assert (s0 = s) as -> by congruence. destruct Hcase as [[-> _]|[_ ?]]; [|congruence].
  rewrite <-HW. by f_equal.
Qed.

Lemma live_socket_key w a s f d ty :
  ext_timeout = false → sock_at w a s → live (w_heap w) f d a ty →
  f = sk_fd s ∧ ty = SCHEDI_EPOLL_DATA_SOCKET ∧ sk_data_ptr s = Some d.
Proof.
  intros Hext Ha Hl. inversion Hl as [r _ Ht|s0 ? _ Ht _ _ Hf Hcase]; unfold sock_at in *; [congruence|].
  assert (s0 = s) as -> by congruence. destruct Hcase as [[-> ?]|[_ ?]]; [done|congruence].
Qed.

(** The release of the epoll side's reference, after a call left [s'] and the world [w1]. *)
Lemma release_concerns held d a s s' w w1 w' :
  ext_timeout = false → same_instances w w1 → shrinks w w1 →
  (∀ e f, instance w e → snd <$> watched w1 e f = snd <$> watched w e f) →
  d ≠ a → w_heap w1 = <[a := HSocket s']> (w_heap w) → sock_at w a s →
  sk_fd s' = sk_fd s → sk_data_ptr s' = sk_data_ptr s → sound_socket s' →
  (a ∈ held → sk_fall s' = 2) → (a ∉ held → sk_fall s' = 1) →
  released d a s' (w_heap w1) (w_heap w') → same_instances w1 w' →
  (∀ e f, watched w' e f = if decide (socket_watch s' w1 e f) then None else watched w1 e f) →
  concerns d a (sk_fd s) w w' ∧ settled held a w w'.
Proof.
  intros Hext Hin1 Hsh1 Hsame1 Hda Eh1 Ha Efd Edp Hsound Hheld Hfree Hrel Hin' Hi'.
  assert (∀ e f, instance w1 e → f = sk_fd s → watched w' e f = None) as Hgone.
  { intros e f Hi ->. rewrite Hi', decide_True; [done|]. left. by rewrite Efd. }
  assert (¬ (∃ s2, sock_at w' a s2 ∧ sk_fd s2 = sk_fd s ∧ points w' a)) as Hnp.
  { intros (s2 & Hs2 & Ef & Hp). destruct (points_by_fd w' a s2 Hext Hs2 Hp) as (e & ev & p & Hi & HW).
    rewrite Ef, Hgone in HW; [done| |done]. by apply (instance_same _ w'). }
  pose proof (released_elsewhere _ _ _ _ _ Hrel) as He.
  assert (w_heap w' !! d = None ∧
    (w_heap w' !! a = None ∧ sk_fall s' = 1 ∨ ∃ x, word64 x ∧
      sock_view_of x = sock_effect (done_op true) (sock_view_of (sk_htc s')) ∧ sk_fall s' ≠ 1 ∧
      sock_at w' a (set_fall (sk_fall s' - 1) (set_htc x s')))) as [Hd' Ha'].
  { unfold released in Hrel. destruct (Z.eqb_spec (sk_fall s') 1).
    - rewrite Hrel, lookup_delete_ne, lookup_delete_eq by done. split; [done|]. left.
      by rewrite lookup_delete_eq.
    - destruct Hrel as (x & Hx & Hv & E). unfold sock_at. rewrite E.
      rewrite lookup_insert_ne, lookup_delete_eq by done. split; [done|]. right. exists x.
      split_and!; try done. apply lookup_insert_eq. }
  split.
  - apply (removed_concerns d a _ w w1 w'); try done.
    + intros e f Hi _. by apply Hsame1.
    + intros e f. rewrite Hi'. case_decide as Hc; [right|by left]. split; [|done].
      destruct Hc as [[_ ->]|[? _]]; [done|congruence].
    + intros x Hx1 Hx2. rewrite He by done. by rewrite Eh1, lookup_insert_ne.
    + by left.
    + intros x. destruct Ha' as [[-> _]|(? & _ & _ & _ & ->)]; done.
  - split; intros Hin.
    + specialize (Hheld Hin). destruct Ha' as [[_ ?]|(x & Hx & Hv & _ & Hs2)]; [lia|].
      exists s, (set_fall (sk_fall s' - 1) (set_htc x s')). split_and!; try done.
      * by apply (released_sound true).
      * right. split; [cbn; lia|]. intros Hp. apply Hnp. by eexists.
    + intros s2 Hs2. destruct Ha' as [[E _]|(? & _ & _ & ? & _)]; [unfold sock_at in *; congruence|].
      by specialize (Hfree Hin).
Qed.

Lemma socket_step held pend d a s ev e events w :
  net_sound pend held w → sock_at w a s → ext_timeout = false →
  live (w_heap w) (sk_fd s) d a SCHEDI_EPOLL_DATA_SOCKET →
  instance w e → watched w e (sk_fd s) = Some (ev, Some d) →
  ∃ w', handle_socket d events w = Done () w' ∧ handler_step held pend d a (sk_fd s) w w'.
Proof.
  intros [Hok Hs Hr] Ha Hext Hl Hi HW.
  destruct (live_socket_key w a s _ d _ Hext Ha Hl) as (_ & _ & Hdp).
  assert (points w a) as Hp by (by exists e, (sk_fd s), ev, d, SCHEDI_EPOLL_DATA_SOCKET).
  destruct (live_socket_usable pend _ _ _ _ _ Hl) as (s0 & Hu & _); [done|done|].
  assert (s0 = s) as -> by (pose proof (us_at _ _ _ _ Hu); unfold sock_at in *; congruence).
  destruct (handle_socket_done pend d a s events w Hok Hu Hl)
    as (s' & io & w1 & w' & Hrun & Haf & Hok' & Hs' & Hcase).
  exists w'. split; [done|].
  assert (∀ e' ev' p, instance w e' → watched w e' (sk_fd s) = Some (ev', p) → p = sk_data_ptr s) as Hown
    by (intros e' ev' p Hi' HW'; rewrite Hdp; by eapply (rf_single _ _ Hr e' e)).
  pose proof (after_touched pend a s s' io w w1 Hown Haf) as Ht.
  destruct (after_shrinks pend a s s' io w w1) as (Hin1 & Hsh1 & Hsame1); [|done|].
  { exact Hown. }
  pose proof (af_same _ _ _ _ _ _ _ Haf) as Hid. injection Hid as _ _ Efd _ _ Efl Edp _ _.
  pose proof (af_heap _ _ _ _ _ _ _ Haf) as Eh1.
  assert (sound_socket s') as Hsound by (split; apply Haf).
  assert (d ≠ a) as Hda.
  { pose proof (live_data _ _ _ _ _ Hl). unfold sock_at in Ha. congruence. }
  assert (a ∈ held → sk_fall s' = 2) as Hheld.
  { intros Hin. destruct (rf_held _ _ Hr a Hin) as (s2 & Hs2 & _ & Hf).
    assert (s2 = s) as -> by (unfold sock_at in *; congruence). rewrite Efl.
    by destruct Hf as [[? _]|[_ []]]. }
  assert (a ∉ held → sk_fall s' = 1) as Hfree.
  { intros Hin. rewrite Efl. by apply (rf_alone _ _ Hr a). }
  assert (concerns d a (sk_fd s) w w' ∧ settled held a w w') as [Hcn Hset].
  { destruct Hcase as [->|(Hrel & Er & Ew & Hi')].
    - assert (sock_at w1 a s') as Ha1 by (unfold sock_at; rewrite Eh1; apply lookup_insert_eq).
      pose proof (proj2 (proj2 (touched_points pend a s s' w w1 a Hok Ha Ht)) Hp) as Hp1.
      split; [split|split]; try done.
      + intros e' f' Hi' _. by apply Hsame1.
      + intros x _ Hx. by rewrite Eh1, lookup_insert_ne.
      + right. by rewrite Eh1, lookup_insert_ne.
      + intros x. unfold sock_at in Ha1. congruence.
      + intros Hin. exists s, s'. split_and!; auto.
      + intros Hin s2 Hs2. assert (s2 = s') as -> by (unfold sock_at in *; congruence). auto.
    - eapply release_concerns; try done. destruct Hin1. split; congruence. }
  split; [|done]. split; [done|done|].
  exact (concerns_refs held d a _ _ ev e w w' Hok Hr Hl Hi HW Hcn Hset).
Qed.

Lemma handler_keeps held pend others write ev t w :
  net_sound pend held w → others_ok pend others → ext_timeout = false → due write w ev t →
  wlp (handler others write ev) (λ _ w', net_sound pend held w' ∧ same_instances w w' ∧
    ∀ ev' x, x ≠ t → due write w ev' x → due write w' ev' x) w.
Proof.
  intros Hsound Ho Hext (f & ev0 & d & ty & Ed & HW & Hl). destruct ev as [events d0].
  cbn in Ed. subst d0. pose proof (instance_of write w) as Hi.
  pose proof (live_data _ _ _ _ _ Hl) as Hd.
  assert (∀ w', handler_step held pend d t f w w' → net_sound pend held w' ∧ same_instances w w' ∧
    ∀ ev' x, x ≠ t → due write w ev' x → due write w' ev' x) as Hpost.
  { intros w' [Hs' Hcn]. split; [done|]. split; [apply Hcn|]. intros ev' x Hx.
    by apply (due_after held write d t f ty ev0 _ w w' ev' x (ns_refs _ _ _ Hsound) Hl Hi HW Hcn). }
  inversion Hl as [r _ Ht Hwf Hf|s ty' _ Ht Hwf Hto Hf Hcase]; subst.
  - pose proof (request_step held pend others d t r ev0 _ events w Hsound Ho Hl Ht Hwf Hi HW) as Hrun.
    assert (wlp (handle_job others d events) (λ _ w', net_sound pend held w' ∧ same_instances w w' ∧
      ∀ ev' x, x ≠ t → due write w ev' x → due write w' ev' x) w) as Hjob
      by (eapply wlp_mono; [exact Hrun|intros []; exact Hpost]).
    destruct write; cbn [handler schedi_epoll_handle_write schedi_epoll_handle_read ev_data ev_events];
      wlp_by (unfold data_get, reads; by rewrite Hd); exact Hjob.
  - destruct (live_socket_key w t s _ d ty Hext Ht Hl) as (Ef & -> & _). rewrite Ef in HW, Hl.
    destruct (socket_step held pend d t s ev0 _ events w Hsound Ht Hext Hl Hi HW)
      as (w' & Hrun & Hstep). rewrite <-Ef in Hstep. apply Hpost in Hstep.
    destruct write; cbn [handler schedi_epoll_handle_write schedi_epoll_handle_read ev_data ev_events];
      wlp_by (unfold data_get, reads; by rewrite Hd); by eapply wlp_done.
Qed.

Lemma net_sound_data pend held w k :
  (∀ e f, snd <$> interest k e f = snd <$> watched w e f) →
  net_sound pend held w → net_sound pend held (put_kernel k w).
Proof.
  intros Hd [Hok Hs [Hnd Hh Hown Ha Hsg]].
  assert (∀ e f ev p, watched (put_kernel k w) e f = Some (ev, p) →
    ∃ ev0, watched w e f = Some (ev0, p)) as Hback.
  { intros e f ev p HW. specialize (Hd e f). change (interest k e f) with (watched (put_kernel k w) e f) in Hd.
    rewrite HW in Hd. destruct (watched w e f) as [[ev0 p0]|]; [|done]. injection Hd as ->.
    by exists ev0. }
  assert (∀ a, points (put_kernel k w) a ↔ points w a) as Hp.
  { intros a. split; intros (e & f & ev & d & ty & Hi & HW & Hl).
    - destruct (Hback _ _ _ _ HW) as [ev0 HW0]. by exists e, f, ev0, d, ty.
    - specialize (Hd e f). rewrite HW in Hd.
      destruct (interest k e f) as [[ev1 p1]|] eqn:E; [|done]. injection Hd as ->.
      by exists e, f, ev1, d, ty. }
  split; [by apply epoll_ok_data|done|]. split; [done| | | |].
  - intros a Hin. destruct (Hh a Hin) as (s & Hs0 & Hsd & Hf). exists s. by rewrite Hp.
  - intros a s e ev p Hin Hs0 Hi HW. destruct (Hback _ _ _ _ HW). by eapply Hown.
  - intros a s. rewrite Hp. apply Ha.
  - intros e1 e2 f ev1 ev2 p1 p2 Hi1 Hi2 HW1 HW2.
    destruct (Hback _ _ _ _ HW1), (Hback _ _ _ _ HW2). by eapply (Hsg e1 e2).
Qed.

(** What [epoll_wait] hands back is due. *)
Lemma due_events write w k fds evs ts :
  epoll_ok w → (∀ e f, snd <$> interest k e f = snd <$> watched w e f) →
  Forall2 (λ f ev, ∃ mask, watched w (instance_fd write w) f = Some (mask, ev_data ev)) fds evs →
  Forall2 (event_for write (w_heap w)) evs ts → Forall2 (due write (put_kernel k w)) evs ts.
Proof.
  intros Hok Hk Hfds. revert ts. induction Hfds as [|f ev fds evs [mask HW] _ IH]; intros ts Hts.
  { inversion Hts. constructor. }
  apply Forall2_cons_inv_l in Hts as (t & ts' & (d & f' & ty & Ed & Hl & _) & Hts & ->).
  constructor; [|by apply IH].
  destruct (Hok _ _ _ _ (instance_of write w) HW) as (d' & t' & ty' & Ed' & Hl' & _).
  assert (d' = d) as -> by congruence.
  destruct (live_unique _ _ _ _ _ _ _ _ Hl Hl') as (-> & -> & ->).
  specialize (Hk (instance_fd write w) f). rewrite HW, Ed in Hk.
  destruct (interest k (instance_fd write w) f) as [[ev1 p1]|] eqn:E1; [|done].
  injection Hk as ->. by exists f, ev1, d, ty'.
Qed.

(** ** The jobs *)

(** The socket stays with its job, or is left to epoll. *)
Lemma touched_sound held held' pend a s s' w w' :
  net_sound pend held w → a ∈ held → sock_at w a s → touched pend a s s' w w' →
  NoDup held' → (∀ x, x ≠ a → x ∈ held' ↔ x ∈ held) →
  (a ∈ held' → sk_fall s' = sk_fall s) → (a ∉ held' → sk_fall s' = 1 ∧ points w a) →
  net_sound pend held' w'.
Proof.
  intros [Hok _ [_ Hh Hown Ha Hsg]] Hin Has Ht Hnd Hothers Hstay Hleave.
  destruct (touched_points pend a s s' w w' a Hok Has Ht) as [Hok' _].
  assert (∀ x, points w' x ↔ points w x) as Hp by (intros x; by eapply touched_points).
  destruct Ht as [Eh Hi Hw Hs Hk Hsound]. split; [done..|].
  assert (∀ x t, x ≠ a → sock_at w' x t ↔ sock_at w x t) as Hsock.
  { intros x t Hx. unfold sock_at. by rewrite Eh, lookup_insert_ne. }
  assert (sock_at w' a s') as Has' by (unfold sock_at; rewrite Eh; apply lookup_insert_eq).
  injection Hk as Efd _ Edp.
  split; [done| | | |].
  - intros x Hx. destruct (decide (x = a)) as [->|Hne].
    + destruct (Hh a Hin) as (t & Hxt & _ & Hf). assert (t = s) as -> by (unfold sock_at in *; congruence).
      exists s'. by rewrite Hstay, Hp.
    + destruct (Hh x) as (t & Hxt & Hst & Hf); [by apply Hothers|]. exists t. by rewrite Hsock, Hp.
  - intros x t e ev p Hx Hxt Hi' HW. apply (instance_same _ _ _ Hi) in Hi'.
    specialize (Hw e (sk_fd t) Hi'). rewrite HW in Hw.
    destruct (watched w e (sk_fd t)) as [[ev0 p0]|] eqn:E0; [|done]. injection Hw as ->.
    destruct (decide (x = a)) as [->|Hne].
    + assert (t = s') as -> by (unfold sock_at in *; congruence). rewrite Edp. rewrite Efd in E0.
      by eapply Hown.
    + eapply Hown; [by apply Hothers|by apply Hsock|done|done].
  - intros x t Hx Hxt. rewrite Hp. destruct (decide (x = a)) as [->|Hne].
    + assert (t = s') as -> by (unfold sock_at in *; congruence). by destruct (Hleave Hx).
    + apply (Ha x t); [by rewrite <-Hothers|by apply Hsock].
  - intros e1 e2 f ev1 ev2 p1 p2 Hi1 Hi2 HW1 HW2. apply (instance_same _ _ _ Hi) in Hi1, Hi2.
    pose proof (Hw e1 f Hi1) as E1. pose proof (Hw e2 f Hi2) as E2. rewrite HW1 in E1. rewrite HW2 in E2.
    destruct (watched w e1 f) as [[? q1]|] eqn:F1; [|done].
    destruct (watched w e2 f) as [[? q2]|] eqn:F2; [|done].
    injection E1 as ->. injection E2 as ->. by eapply (Hsg e1 e2).
Qed.
End references.
