(* ===== verification/NetRun.v ===== *)
(** * Jobs' calls and events of the epoll thread, in any order (src/src/jobs.c, src/src/epoll.c)

    The calls a job makes on its sockets - transfers, new conditions, the release - and
    the making of sockets and requests keep the invariant of NetSafe; so does every
    sequence of them with batches of events and steps of the scheduler between them. *)

From Stdlib Require Import Strings.Byte.
From S2P Require Export NetSafe.

Local Open Scope Z_scope.

Section jobs_calls.
Context `{BuildConfig, JobAddress, EventKernel, !KernelLaws, !EventLaws}.

(** ** Events stay due *)

(** A call in between batch and handler: what was due is still due. *)
Definition keeps_due (w w' : world) : Prop :=
  same_instances w w' ∧ ∀ write ev x, due write w ev x → due write w' ev x.

Lemma keeps_due_by w w' :
  same_instances w w' →
  (∀ e f ev d t ty, instance w e → watched w e f = Some (ev, Some d) → live (w_heap w) f d t ty →
    live (w_heap w') f d t ty ∧ ∃ ev', watched w' e f = Some (ev', Some d)) →
  keeps_due w w'.
Proof.
  intros Hin Hk. split; [done|]. intros write ev x (f & ev0 & d & ty & Ed & HW & Hl).
  destruct (Hk _ f ev0 d x ty (instance_of write w) HW Hl) as [Hl' [ev' HW']].
  exists f, ev', d, ty. split; [done|]. split; [|done].
  destruct Hin as [Er Ew]. unfold instance_fd in *. by rewrite Er, Ew.
Qed.

Lemma keeps_due_trans w1 w2 w3 : keeps_due w1 w2 → keeps_due w2 w3 → keeps_due w1 w3.
Proof.
  intros [[Er Ew] Hk] [[Er' Ew'] Hk']. split; [split; congruence|]. auto.
Qed.

Lemma same_data w w' :
  (∀ e f, instance w e → snd <$> watched w' e f = snd <$> watched w e f) →
  ∀ e f ev p, instance w e → watched w e f = Some (ev, p) → ∃ ev', watched w' e f = Some (ev', p).
Proof.
  intros Hs e f ev p Hi HW. specialize (Hs e f Hi). rewrite HW in Hs.
  destruct (watched w' e f) as [[ev' p']|]; [|done]. injection Hs as ->. by exists ev'.
Qed.

Lemma touched_keeps_due pend a s s' w w' :
  sock_at w a s → touched pend a s s' w w' → keeps_due w w'.
Proof.
  intros Ha [Eh Hin Hw _ Hk [Hwf Hto]]. apply keeps_due_by; [done|].
  intros e f ev d t ty Hi HW Hl. split; [|by eapply same_data].
  rewrite Eh. by eapply live_socket_changed.
Qed.

(** A step of the scheduler. *)
Lemma put_sys_sound pend pend' held s' w :
  net_sound pend held w → sys_ok pend' s' →
  net_sound pend' held (put_sys s' w) ∧ keeps_due w (put_sys s' w).
Proof.
  intros [Hok _ [Hnd Hh Hown Ha Hsg]] Hs'. split; [split; [exact Hok|done|by split]|].
  split; [done|]. intros write ev x Hd. exact Hd.
Qed.

(** ** Sockets that a job holds *)

Lemma held_usable pend held a w :
  net_sound pend held w → a ∈ held → ∃ s, usable pend a s w ∧
    ∀ e ev p, instance w e → watched w e (sk_fd s) = Some (ev, p) → p = sk_data_ptr s.
Proof.
  intros [_ Hs Hr] Hin. destruct (rf_held _ _ Hr a Hin) as (s & Ha & [Hwf Hto] & _).
  exists s. split; [by split|]. intros e ev p Hi HW. by eapply (rf_own _ _ Hr a s e).
Qed.

Lemma touched_held pend held a s s' w w' :
  net_sound pend held w → a ∈ held → sock_at w a s → touched pend a s s' w w' →
  sk_fall s' = sk_fall s → net_sound pend held w'.
Proof.
  intros Hn Hin Ha Ht Hf. apply (touched_sound held held pend a s s' w w'); try done.
  apply Hn.
Qed.

(** What a job's call keeps. *)
Definition call_keeps {A} (pend : list nat) (held : list addr) (m : M world A) (w : world) : Prop :=
  ∃ r w', m w = Done r w' ∧ net_sound pend held w' ∧ keeps_due w w'.

Lemma after_keeps {A} pend held a s s' io (m : M world A) r w w' :
  net_sound pend held w → a ∈ held → usable pend a s w →
  (∀ e ev p, instance w e → watched w e (sk_fd s) = Some (ev, p) → p = sk_data_ptr s) →
  m w = Done r w' → after pend a s s' io w w' → call_keeps pend held m w.
Proof.
  intros Hn Hin Hu Hown Hrun Haf. exists r, w'. split; [done|].
  pose proof (after_touched pend a s s' io w w' Hown Haf) as Ht.
  split; [|by eapply touched_keeps_due; [apply Hu|]].
  apply (touched_held pend held a s s' w w' Hn Hin); [apply Hu|done|].
  pose proof (af_same _ _ _ _ _ _ _ Haf) as Hid. by injection Hid.
Qed.

Lemma read_keeps pend held a n w :
  net_sound pend held w → a ∈ held → call_keeps pend held (schedi_job_epollsocket_read a n) w.
Proof.
  intros Hn Hin. destruct (held_usable pend held a w Hn Hin) as (s & Hu & Hown).
  destruct (read_done pend a s n w Hu) as (s' & w' & Hrun & Haf & _). by eapply after_keeps.
Qed.

Lemma write_keeps pend held a data w :
  net_sound pend held w → a ∈ held → call_keeps pend held (schedi_job_epollsocket_write a data) w.
Proof.
  intros Hn Hin. destruct (held_usable pend held a w Hn Hin) as (s & Hu & Hown).
  destruct (write_done pend a s data w Hu) as (r & s' & io & w' & Hrun & Haf & _).
  by eapply after_keeps.
Qed.

Lemma quiet_touched pend a s s' w w0 w' :
  w_heap w0 = <[a := HSocket s']> (w_heap w) → w_epfd_read w0 = w_epfd_read w →
  w_epfd_write w0 = w_epfd_write w → watched w0 = watched w → quiet pend w0 w' →
  reg_key s' = reg_key s → sound_socket s' → touched pend a s s' w w'.
Proof.
  intros Eh Er Ew Ei [Eh' _ Er' Ew' Ei' Hs'] Hk Hsd. split; try done; [congruence| |].
  - split; congruence.
  - intros e f _. by rewrite Ei', Ei.
Qed.

(** New conditions: the two flags and READY follow. *)
Lemma recond_keeps pend held a s rc wc x w w' (m : M world unit) :
  net_sound pend held w → a ∈ held → usable pend a s w →
  m w = Done () w' → counts_are x (set_conds rc wc s) (sock_count s) (sock_avail s) →
  quiet pend (with_sock a (set_htc x (set_conds rc wc s)) w) w' → call_keeps pend held m w.
Proof.
  intros Hn Hin [Ha Hs Hwf Hto] Hrun Hx Hq. exists (), w'. split; [done|].
  pose proof (recounted_sound s rc wc x (sk_fall s) ltac:(by split) Hx) as Hsd.
  assert (touched pend a s (set_htc x (set_conds rc wc s)) w w') as Ht
    by (eapply (quiet_touched pend a s _ w); [..|exact Hq| |exact Hsd]; done).
  split; [by eapply touched_held|by eapply touched_keeps_due].
Qed.

Lemma read_cond_keeps pend held a rc w :
  net_sound pend held w → a ∈ held →
  call_keeps pend held (schedi_job_tool_epollsocket_read_cond a rc) w.
Proof.
  intros Hn Hin. destruct (held_usable pend held a w Hn Hin) as (s & Hu & _).
  pose proof Hu as [Ha Hs Hwf Hto]. set (s1 := set_conds rc (sk_write_cond s) s).
  destruct (count_add_quiet a s1 0 false (sock_count s) pend (with_sock a s1 w))
    as (x & w' & Hrun & Hx & Hq);
    [apply sock_at_with|done|apply Hwf|apply Hwf|by apply (wf_write_flag s)|done|apply Z.add_0_r
    |apply Hwf|].
  rewrite with_sock_twice in Hq. eapply recond_keeps; [done|done|exact Hu| |exact Hx|exact Hq].
  unfold schedi_job_tool_epollsocket_read_cond. by bind_by (by apply sock_put_run).
Qed.

Lemma write_cond_keeps pend held a wc w :
  net_sound pend held w → a ∈ held →
  call_keeps pend held (schedi_job_tool_epollsocket_write_cond a wc) w.
Proof.
  intros Hn Hin. destruct (held_usable pend held a w Hn Hin) as (s & Hu & _).
  pose proof Hu as [Ha Hs Hwf Hto]. set (s1 := set_conds (sk_read_cond s) wc s).
  destruct (avail_add_quiet a s1 0 false (sock_avail s) pend (with_sock a s1 w))
    as (x & w' & Hrun & Hx & Hq);
    [apply sock_at_with|done|apply Hwf|apply Hwf|by apply (wf_read_flag s)|done|apply Z.add_0_r
    |apply Hwf|].
  rewrite with_sock_twice in Hq. eapply recond_keeps; [done|done|exact Hu| |exact Hx|exact Hq].
  unfold schedi_job_tool_epollsocket_write_cond. by bind_by (by apply sock_put_run).
Qed.

(** ** The release *)

Definition without (a : addr) (held : list addr) : list addr := filter (λ x, x ≠ a) held.

Lemma elem_of_without a x held : x ∈ without a held ↔ x ≠ a ∧ x ∈ held.
Proof. unfold without. by rewrite list_elem_of_filter. Qed.

(** An object nothing leads to can be freed. *)
Lemma freed_live a s w e f ev d t ty :
  sock_at w a s → ¬ points w a → instance w e → watched w e f = Some (ev, Some d) →
  live (w_heap w) f d t ty → live (delete a (w_heap w)) f d t ty.
Proof.
  intros Ha Hnp Hi HW Hl. apply (live_frame (w_heap w)); [done|apply lookup_delete_ne..].
  - intros <-. pose proof (live_data _ _ _ _ _ Hl). unfold sock_at in Ha. congruence.
  - intros <-. apply Hnp. by exists e, f, ev, d, ty.
Qed.

Lemma freed_sound pend held a s w :
  net_sound pend held w → sock_at w a s → ¬ points w a →
  net_sound pend (without a held) (put_heap (delete a (w_heap w)) w).
Proof.
  intros [Hok Hs [Hnd Hh Hown Ha Hsg]] Has Hnp. set (w' := put_heap _ w).
  assert (∀ e f ev d t ty, instance w e → watched w e f = Some (ev, Some d) →
    live (w_heap w) f d t ty → live (w_heap w') f d t ty) as Hlive
    by (intros; by eapply freed_live).
  assert (∀ e f ev p, instance w e → watched w e f = Some (ev, p) → ∃ d t ty, p = Some d ∧
    live (w_heap w) f d t ty ∧ live (w_heap w') f d t ty ∧
    (e = w_epfd_write w → ty ≠ SCHEDI_EPOLL_DATA_EPOLLSOCKTO)) as Hback.
  { intros e f ev p Hi HW. destruct (Hok e f ev p Hi HW) as (d & t & ty & -> & Hl & Hty).
    exists d, t, ty. split_and!; try done. by eapply Hlive. }
  assert (∀ x, points w' x ↔ points w x) as Hp.
  { intros x. split; intros (e & f & ev & d & ty & Hi & HW & Hl).
    - destruct (Hback e f ev _ Hi HW) as (d' & t & ty' & [= <-] & Hl0 & Hl' & _).
      destruct (live_unique _ _ _ _ _ _ _ _ Hl Hl') as (_ & -> & _). by exists e, f, ev, d, ty'.
    - exists e, f, ev, d, ty. split_and!; try done. by eapply Hlive. }
  assert (∀ x t, sock_at w' x t ↔ x ≠ a ∧ sock_at w x t) as Hsock.
  { intros x t. unfold sock_at. cbn. rewrite lookup_delete_Some. naive_solver. }
  split; [|done|split; [by apply NoDup_filter| | | |exact Hsg]].
  - intros e f ev p Hi HW. destruct (Hback e f ev p Hi HW) as (d & t & ty & -> & _ & Hl & Hty).
    by exists d, t, ty.
  - intros x [Hx Hin]%elem_of_without. destruct (Hh x Hin) as (t & Hxt & Hst & Hf).
    exists t. by rewrite Hsock, Hp.
  - intros x t e ev p [Hx Hin]%elem_of_without [_ Hxt]%Hsock Hi HW. by eapply (Hown x t e).
  - intros x t Hx [Hne Hxt]%Hsock. rewrite Hp. apply (Ha x t); [|done].
    intros Hin. by apply Hx, elem_of_without.
Qed.

Lemma release_keeps pend held a w :
  net_sound pend held w → a ∈ held →
  ∃ r w', schedi_job_epollsocket_done a w = Done r w' ∧ net_sound pend (without a held) w' ∧
    keeps_due w w'.
Proof.
  intros Hn Hin. destruct (rf_held _ _ (ns_refs _ _ _ Hn) a Hin) as (s & Ha & Hsd & Hf).
  pose proof Hsd as [Hwf Hto]. pose proof (ns_sys _ _ _ Hn) as Hs.
  destruct (done_cas_done pend a s false w Ha Hs (wf_word _ Hwf) (wf_job _ Hwf))
    as (x & w1 & Hrun & Hx & Hv & Hq).
  pose proof (released_sound false s x (sk_fall s) Hsd Hx Hv) as Hsd1.
  set (s1 := set_htc x s) in *.
  assert (touched pend a s s1 w w1) as Ht by (eapply (quiet_touched pend a s s1 w); [..|exact Hq| |exact Hsd1]; done).
  assert (sock_at w1 a s1) as Ha1 by (eapply quiet_sock; [exact Hq|apply sock_at_with]).
  unfold schedi_job_epollsocket_done, schedi_job_epollsocket_done_.
  pose proof (done_drop_run a s1 w1 Ha1) as Hdrop. change (sk_fall s1) with (sk_fall s) in Hdrop.
  destruct (touched_points pend a s s1 w w1 a (ns_epoll _ _ _ Hn) Ha Ht) as [_ Hp].
  destruct Hf as [[Hf Hpt]|[Hf Hnp]]; rewrite Hf in Hdrop; cbn [Z.eqb Pos.eqb] in Hdrop.
  - eexists (-1), _. split; [bind_by exact Hrun; exact Hdrop|].
    assert (touched pend a s (set_fall 1 s1) w (with_sock a (set_fall 1 s1) w1)) as Ht2.
    { destruct Ht as [Eh Hi Hw Hs' Hk _]. split; try done.
      - cbn. rewrite Eh. apply insert_insert_eq.
      - by apply (released_sound false s x 1). }
    split; [|by eapply touched_keeps_due].
    apply (touched_sound held (without a held) pend a s (set_fall 1 s1) w _ Hn Hin Ha Ht2).
    + apply NoDup_filter, Hn.
    + intros y Hy. rewrite elem_of_without. naive_solver.
    + rewrite elem_of_without. naive_solver.
    + done.
  - eexists 0, _. split; [bind_by exact Hrun; exact Hdrop|]. rewrite <-Hp in Hnp.
    split; [by eapply freed_sound; [eapply touched_held| |]|].
    eapply keeps_due_trans; [by eapply touched_keeps_due|]. apply keeps_due_by; [done|].
    intros e f ev d t ty Hi HW Hl. split; [by eapply freed_live|by exists ev].
Qed.

(** ** New sockets and requests *)

(** A descriptor epoll does not watch and no held socket has. *)
Definition unused (held : list addr) (fd : Z) (w : world) : Prop :=
  (∀ e, instance w e → watched w e fd = None) ∧
  ∀ a s, a ∈ held → sock_at w a s → sk_fd s ≠ fd.

(** There are new objects; the only new registrations are of [fd], with data [d] of the new
    object [t]. *)
Record extends (pend : list nat) (fd : Z) (d t : addr) (w w' : world) : Prop := {
  ex_heap x o : w_heap w !! x = Some o → w_heap w' !! x = Some o;
  ex_inst : same_instances w w';
  ex_sys : sys_ok pend (w_sys w');
  ex_others e f : instance w e → f ≠ fd → watched w' e f = watched w e f;
  ex_new e ev p : instance w e → watched w' e fd = Some (ev, p) → p = Some d ∧
    ∃ ty, live (w_heap w') fd d t ty ∧ ty ≠ SCHEDI_EPOLL_DATA_EPOLLSOCKTO;
  ex_sock x s : x ≠ t → sock_at w' x s → sock_at w x s;
  ex_fresh : w_heap w !! t = None;
}.

(** The new socket goes to the job, a request to nobody. *)
Definition taken (held held' : list addr) (fd : Z) (d t : addr) (w' : world) : Prop :=
  held' = held ∧ (∀ s, ¬ sock_at w' t s) ∨
  held' = t :: held ∧ points w' t ∧ ∃ s, sock_at w' t s ∧ sound_socket s ∧ sk_fd s = fd ∧
    sk_data_ptr s = Some d ∧ sk_fall s = 2.

Lemma extends_old pend fd d t w w' f d' t' ty :
  extends pend fd d t w w' → live (w_heap w) f d' t' ty → live (w_heap w') f d' t' ty ∧ t' ≠ t.
Proof.
  intros Hx Hl. pose proof (ex_heap _ _ _ _ _ _ Hx) as Hh.
  split; [|intros ->; pose proof (ex_fresh _ _ _ _ _ _ Hx); destruct Hl; congruence].
  pose proof (live_data _ _ _ _ _ Hl) as Ed.
  apply (live_frame (w_heap w)); [done|by rewrite Ed; apply Hh|].
  destruct Hl as [r _ Ht|s ? _ Ht]; by rewrite Ht; apply Hh.
Qed.

Lemma extends_keeps_due pend held fd d t w w' :
  unused held fd w → extends pend fd d t w w' → keeps_due w w'.
Proof.
  intros Hun Hx. apply keeps_due_by; [apply Hx|]. intros e f ev d' t' ty Hi HW Hl.
  split; [by eapply extends_old|]. exists ev.
  rewrite (ex_others _ _ _ _ _ _ Hx); [done|done|]. intros ->. by rewrite (proj1 Hun e Hi) in HW.
Qed.

Lemma extends_entry pend held fd d t w w' e f ev p :
  epoll_ok w → unused held fd w → extends pend fd d t w w' → instance w e →
  watched w' e f = Some (ev, p) →
  ∃ d' t' ty, p = Some d' ∧ live (w_heap w') f d' t' ty ∧
    (e = w_epfd_write w → ty ≠ SCHEDI_EPOLL_DATA_EPOLLSOCKTO) ∧
    (f ≠ fd ∧ watched w e f = Some (ev, p) ∧ live (w_heap w) f d' t' ty ∧ t' ≠ t ∨
     f = fd ∧ d' = d ∧ t' = t).
Proof.
  intros Hok _ Hx Hi HW. destruct (decide (f = fd)) as [->|Hf].
  - destruct (ex_new _ _ _ _ _ _ Hx e ev p Hi HW) as (-> & ty & Hl & Hty).
    exists d, t, ty. split_and!; try done. by right.
  - rewrite (ex_others _ _ _ _ _ _ Hx) in HW by done.
    destruct (Hok e f ev p Hi HW) as (d' & t' & ty & -> & Hl & Hty).
    destruct (extends_old _ _ _ _ _ _ _ _ _ _ Hx Hl). exists d', t', ty.
    split_and!; try done. by left.
Qed.

Lemma extends_points pend held fd d t w w' x :
  epoll_ok w → unused held fd w → extends pend fd d t w w' → x ≠ t → points w' x ↔ points w x.
Proof.
  intros Hok Hun Hx Hne. pose proof (ex_inst _ _ _ _ _ _ Hx) as Hin.
  split; intros (e & f & ev & d' & ty & Hi & HW & Hl).
  - pose proof (instance_same _ _ _ Hin Hi) as Hi0.
    destruct (extends_entry pend held fd d t w w' e f ev _ Hok Hun Hx Hi0 HW)
      as (d0 & t0 & ty0 & [= <-] & Hl0 & _ & Hcase).
    destruct (live_unique _ _ _ _ _ _ _ _ Hl Hl0) as (_ & <- & _).
    destruct Hcase as [(_ & HW0 & Hlw & _)|(_ & _ & ?)]; [|done]. by exists e, f, ev, d', ty0.
  - assert (f ≠ fd) as Hf by (intros ->; by rewrite (proj1 Hun e Hi) in HW).
    exists e, f, ev, d', ty. split.
    { destruct Hin as [Er Ew]. unfold instance in *. by rewrite Er, Ew. }
    split; [by rewrite (ex_others _ _ _ _ _ _ Hx)|]. by eapply extends_old.
Qed.

Lemma extended_sound pend held held' fd d t w w' :
  net_sound pend held w → unused held fd w → extends pend fd d t w w' →
  taken held held' fd d t w' → net_sound pend held' w' ∧ keeps_due w w'.
Proof.
  intros Hn Hun Hx Htk. split; [|by eapply extends_keeps_due]. revert Hn Hun Hx Htk.
  intros [Hok _ [Hnd Hh Hown Ha Hsg]] Hun Hx Htk.
  pose proof (ex_inst _ _ _ _ _ _ Hx) as Hin. pose proof (ex_fresh _ _ _ _ _ _ Hx) as Hfr.
  assert (∀ x, x ≠ t → points w' x ↔ points w x) as Hp by (intros; by eapply extends_points).
  assert (∀ x s, x ≠ t → sock_at w' x s ↔ sock_at w x s) as Hsock.
  { intros x s Hne. split; [by apply Hx|]. apply (ex_heap _ _ _ _ _ _ Hx). }
  assert (t ∉ held) as Hth.
  { intros Hth. destruct (Hh t Hth) as (s & Hs & _). unfold sock_at in Hs. congruence. }
  assert (∀ x, x ≠ t → x ∈ held' ↔ x ∈ held) as Hheld.
  { intros x Hne. destruct Htk as [[-> _]|[-> _]]; [done|]. rewrite elem_of_cons. naive_solver. }
  assert (∀ e f ev p, instance w' e → watched w' e f = Some (ev, p) → instance w e ∧
    if decide (f = fd) then p = Some d else watched w e f = Some (ev, p)) as Hback.
  { intros e f ev p Hi HW. pose proof (instance_same _ _ _ Hin Hi) as Hi0. split; [done|].
    destruct (extends_entry pend held fd d t w w' e f ev p Hok Hun Hx Hi0 HW)
      as (d0 & t0 & ty0 & -> & _ & _ & [(? & ? & _)|(-> & -> & _)]); by case_decide. }
  split; [|apply Hx|split].
  - intros e f ev p Hi HW. pose proof (instance_same _ _ _ Hin Hi) as Hi0.
    destruct (extends_entry pend held fd d t w w' e f ev p Hok Hun Hx Hi0 HW)
      as (d0 & t0 & ty0 & -> & Hl & Hty & _). exists d0, t0, ty0. split; [done|]. split; [done|].
    by destruct Hin as [_ ->].
  - destruct Htk as [[-> _]|[-> _]]; [done|]. by apply NoDup_cons.
  - intros x Hxh. destruct (decide (x = t)) as [->|Hne].
    + destruct Htk as [[-> _]|(-> & Hpt & s & Hs & Hsd & _ & _ & Hf)]; [done|].
      exists s. split_and!; try done. by left.
    + destruct (Hh x) as (s & Hs & Hsd & Hf); [by apply Hheld|]. exists s.
      by rewrite Hsock, Hp.
  - intros x s e ev p Hxh Hxs Hi HW. destruct (Hback e _ ev p Hi HW) as [Hi0 Hc].
    destruct (decide (x = t)) as [->|Hne].
    + destruct Htk as [[-> _]|(-> & _ & s2 & Hs & _ & Hfd & Hd & _)]; [done|].
      assert (s2 = s) as -> by (unfold sock_at in *; congruence). rewrite decide_True in Hc by done.
      congruence.
    + apply Hsock in Hxs; [|done]. apply Hheld in Hxh; [|done].
      rewrite decide_False in Hc by by eapply Hun. by eapply Hown.
  - intros x s Hxh Hxs. destruct (decide (x = t)) as [->|Hne].
    + destruct Htk as [[_ Hno]|[-> _]]; [by destruct (Hno s)|]. destruct Hxh. left.
    + rewrite Hp by done. apply (Ha x s); [by rewrite <-Hheld|by apply Hsock].
  - intros e1 e2 f ev1 ev2 p1 p2 Hi1 Hi2 HW1 HW2.
    destruct (Hback e1 f ev1 p1 Hi1 HW1) as [Hj1 H1']. destruct (Hback e2 f ev2 p2 Hi2 HW2) as [Hj2 H2'].
    case_decide; [congruence|]. by eapply (Hsg e1 e2).
Qed.

(** The job [i] may get sockets and requests. *)
Definition accepts (i : nat) (s : sys) : Prop :=
  job_index i ∧ ∃ j, job_at s i j ∧
    v_unstable (view_of (meta_flag j)) || v_wlldestroy (view_of (meta_flag j)) = false ∧
    v_avsock (view_of (meta_flag j)) < 15.

Definition hold (o : option addr) (held : list addr) : list addr :=
  match o with Some a => a :: held | None => held end.

Lemma registered_extends pend a s fd w w' :
  ext_timeout = false → sys_ok pend (w_sys w') → same_instances w w' → w_heap w !! a = None →
  sock_wf s → sk_fd s = fd → newly_registered a s w w' →
  ∃ d, extends pend fd d a w w' ∧ points w' a ∧ sock_at w' a (set_data_ptr (Some d) s).
Proof.
  intros Hext Hs Hin Hfr Hwf Hfd (d & dt & Hd & Ha & Hd' & Hdt & Hh & Hi).
  destruct dt as [dt|]; [destruct Hdt; congruence|]. exists d.
  assert (d ≠ a) as Hda by congruence.
  assert (live (w_heap w') fd d a SCHEDI_EPOLL_DATA_SOCKET) as Hl.
  { apply (live_socket _ _ _ _ (set_data_ptr (Some d) s)); try done.
    - by destruct Hwf.
    - unfold sock_timed_out, timed_out. by rewrite Hext.
    - by left. }
  assert (∀ e, instance w e → ∃ ev, watched w' e fd = Some (ev, Some d)) as Hnew.
  { intros e [->| ->]; rewrite Hi; unfold socket_entries; repeat case_decide; naive_solver. }
  split; [split|split]; try done.
  - intros x o Hx. rewrite Hh; [done|congruence..].
  - intros e f _ Hf. rewrite Hi. unfold socket_entries. by rewrite !decide_False by naive_solver.
  - intros e ev p He HW. destruct (Hnew e He) as [ev' HW']. split; [congruence|].
    by exists SCHEDI_EPOLL_DATA_SOCKET.
  - intros x s' Hx Hs'. unfold sock_at in *. rewrite <-Hh; [done|done| |done]. congruence.
  - destruct (Hnew (w_epfd_read w)) as [ev HW]; [by left|].
    exists (w_epfd_read w), fd, ev, d, SCHEDI_EPOLL_DATA_SOCKET. split; [|done].
    left. by destruct Hin as [-> _].
Qed.

Lemma leaked_extends pend fd a w w' :
  sys_ok pend (w_sys w') → same_instances w w' → w_heap w !! a = None → w_heap w' !! a = None →
  leaks a (w_heap w) (w_heap w') → (∀ e f, watched w' e f = watched w e f) →
  (∀ e, instance w e → watched w e fd = None) → extends pend fd a a w w'.
Proof.
  intros Hs Hin Hfr Hgone Hlk Hi Hun. split; try done.
  - intros x o Hx. destruct (decide (x = a)) as [->|Hne]; [congruence|].
    destruct (Hlk x Hne) as [->|[? _]]; [done|congruence].
  - intros e ev p He. by rewrite Hi, Hun.
  - intros x s Hne Hx. unfold sock_at in *. destruct (Hlk x Hne) as [<-|(_ & ty & ?)]; [done|].
    congruence.
Qed.

Lemma new_socket_keeps pend held i fd rc wc sec w :
  mallocs_succeed → ext_timeout = false → 0 <= w_epfd_read w → w_epfd_read w ≠ w_epfd_write w →
  net_sound pend held w → accepts i (w_sys w) → unused held fd w →
  ∃ o w', schedi_job_tool_epollsocket i fd rc wc sec w = Done o w' ∧
    net_sound pend (hold o held) w' ∧ keeps_due w w'.
Proof.
  intros Hm Hext Hrd Hne Hn (Hi & j & Hj & Hban & Hroom) Hun. pose proof (ns_sys _ _ _ Hn) as Hs.
  destruct (tool_epollsocket_done pend i j fd rc wc sec w Hm Hrd Hne Hs Hi Hj Hban Hroom (proj1 Hun))
    as (o & w' & j' & Hrun & Hin & Hcase).
  exists o, w'. split; [done|]. destruct o as [a|]; cbn [hold].
  - destruct Hcase as [(s & Hfr & Hmade & Hwf & Hnew) (Hs' & _)].
    pose proof Hmade as (_ & _ & Hfd & _ & _ & Hfall & _).
    destruct (registered_extends pend a s fd w w') as (d & Hx & Hp & Ha); try done.
    apply (extended_sound pend held _ fd d a w w' Hn Hun Hx). right. split; [done|].
    split; [done|]. exists (set_data_ptr (Some d) s). split_and!; try done. split.
    + by destruct Hwf.
    + unfold sock_timed_out, timed_out. by rewrite Hext.
  - destruct Hcase as [(a & Hfr & Hgone & Hlk) [Hw (Hs' & _)]].
    apply (extended_sound pend held held fd a a w w' Hn Hun).
    + apply leaked_extends; try done. apply Hun.
    + left. split; [done|]. intros s Ha. unfold sock_at in Ha. congruence.
Qed.

Lemma new_request_keeps pend held i fd events w :
  mallocs_succeed → 0 <= w_epfd_read w → w_epfd_read w ≠ w_epfd_write w →
  net_sound pend held w → accepts i (w_sys w) → unused held fd w →
  call_keeps pend held (schedi_job_tool_epoll i fd events) w.
Proof.
  intros Hm Hrd Hne Hn (Hi & j & Hj & Hban & _) Hun. pose proof (ns_sys _ _ _ Hn) as Hs.
  destruct (tool_epoll_done pend i j fd events w Hm Hrd Hne Hs Hi Hj Hban)
    as (r & w' & j' & Hrun & Hs' & _ & Hin & _ & _ & Hcase).
  exists r, w'. split; [done|].
  destruct Hcase as [(_ & t & d & Ht & Hd & Htd & Hh & Hw & _)|(_ & Hh & Hw & _)].
  - assert (w_heap w' !! t = Some (HRequest (Request fd i (gen j) i))) as Ht'
      by (rewrite Hh; by simplify_map_eq).
    assert (w_heap w' !! d = Some (HData (Data SCHEDI_EPOLL_DATA_JOB t))) as Hd'
      by (rewrite Hh; apply lookup_insert_eq).
    apply (extended_sound pend held held fd d t w w' Hn Hun); [split; try done|left; split; [done|]].
    + intros x o Hx. rewrite Hh, !lookup_insert_ne by congruence. done.
    + intros e f _ Hf. rewrite Hw. unfold registered. by rewrite !decide_False by naive_solver.
    + intros e ev p He. rewrite Hw. unfold registered. rewrite (proj1 Hun e He).
      intros HW. assert (p = Some d) as -> by (repeat case_decide; congruence). split; [done|].
      exists SCHEDI_EPOLL_DATA_JOB. split; [|done]. by eapply live_job.
    + intros x s Hx Hxs. unfold sock_at in *. rewrite Hh in Hxs.
      rewrite lookup_insert_Some, lookup_insert_Some in Hxs. naive_solver.
    + intros s Hs2. unfold sock_at in Hs2. congruence.
  - set (a := fresh (dom (w_heap w))).
    assert (w_heap w !! a = None) as Ha by (apply not_elem_of_dom, is_fresh).
    apply (extended_sound pend held held fd a a w w' Hn Hun).
    + apply leaked_extends; rewrite ?Hh; try done; [by apply leaks_refl|apply Hun].
    + left. split; [done|]. intros s Hs2. unfold sock_at in Hs2. congruence.
Qed.
End jobs_calls.

(** ** Everything in any order *)

Section machine.
Context `{BuildConfig, JobAddress, EventKernel}.

(** The sockets jobs hold; which instance epoll polled last and the events of that poll
    that still have to be handled; the world. *)
Record network : Type := Network {
  n_held : list addr;
  n_write : bool;
  n_pending : list epoll_event;
  n_world : world;
}.
Definition set_net_held x n := Network x (n_write n) (n_pending n) (n_world n).
Definition set_net_world x n := Network (n_held n) (n_write n) (n_pending n) x.
Definition set_net_polled b evs n := Network (n_held n) b evs (n_world n).

(** Jobs read, write, set conditions, release sockets, make sockets and requests; the epoll
    thread polls an instance and handles an event; another thread runs on the scheduler. *)
Inductive net_move : Type :=
  | JRead (a : addr) (n : nat)
  | JWrite (a : addr) (data : list byte)
  | JReadCond (a : addr) (cond : Z)
  | JWriteCond (a : addr) (cond : Z)
  | JDone (a : addr)
  | JSocket (i : nat) (fd read_cond write_cond timeout_sec : Z)
  | JRequest (i : nat) (fd events : Z)
  | EWait (write : bool)
  | EHandle
  | Other (k : nat).

Definition job_accepts (i : nat) (s : sys) : bool :=
  match s_jobs s !! i with
  | Some j => negb (v_unstable (view_of (meta_flag j)) || v_wlldestroy (view_of (meta_flag j))) &&
      (v_avsock (view_of (meta_flag j)) <? 15)
  | None => false
  end.
Definition has_fd (fd : Z) (w : world) (a : addr) : bool :=
  match w_heap w !! a with Some (HSocket s) => sk_fd s =? fd | _ => false end.
Definition fd_unused (held : list addr) (fd : Z) (w : world) : bool :=
  bool_decide (watched w (w_epfd_read w) fd = None) &&
  bool_decide (watched w (w_epfd_write w) fd = None) &&
  negb (existsb (has_fd fd w) held).

Definition on_net {A} : M world A → M network A := zoom n_world set_net_world.

Context (others : list (M sys unit)).

Definition net_act (m : net_move) : M network unit :=
  match m with
  | JRead a n => on_net (schedi_job_epollsocket_read a n) ≫= λ _, mret ()
  | JWrite a data => on_net (schedi_job_epollsocket_write a data) ≫= λ _, mret ()
  | JReadCond a c => on_net (schedi_job_tool_epollsocket_read_cond a c)
  | JWriteCond a c => on_net (schedi_job_tool_epollsocket_write_cond a c)
  | JDone a =>
      on_net (schedi_job_epollsocket_done a) ≫= λ _,
      modify (λ n, set_net_held (without a (n_held n)) n)
  | JSocket i fd rc wc sec =>
      o ← on_net (schedi_job_tool_epollsocket i fd rc wc sec);
      modify (λ n, set_net_held (hold o (n_held n)) n)
  | JRequest i fd events => on_net (schedi_job_tool_epoll i fd events) ≫= λ _, mret ()
  | EWait write =>
      e ← gets (λ n, instance_fd write (n_world n));
      evs ← on_net (call (sys_epoll_wait e MAX_EVENTS));
      modify (set_net_polled write evs)
  | EHandle =>
      n ← gets (λ n, n);
      match n_pending n with
      | [] => mret ()
      | ev :: evs =>
          on_net (handler others (n_write n) ev) ≫= λ _,
          modify (λ n', set_net_polled (n_write n) evs n')
      end
  | Other k =>
      act ← reads (λ _, others !! k); on_net (on_sys act)
  end.

Fixpoint net_steps (ms : list net_move) : M network unit :=
  match ms with
  | [] => mret ()
  | m :: ms => net_act m ≫= λ _, net_steps ms
  end.

(** What the clients of the library have to respect: a job uses the sockets it holds; it
    makes sockets and requests while it takes them, for descriptors that are not registered
    and not those of a socket it holds.  Epoll polls when it has handled the last poll's
    events, as the drains do; the other threads are those there are. *)
Definition allowed (m : net_move) (n : network) : bool :=
  match m with
  | JRead a _ | JWrite a _ | JReadCond a _ | JWriteCond a _ | JDone a =>
      bool_decide (a ∈ n_held n)
  | JSocket i fd _ _ _ | JRequest i fd _ =>
      job_accepts i (w_sys (n_world n)) && fd_unused (n_held n) fd (n_world n)
  | EWait _ => match n_pending n with [] => true | _ => false end
  | EHandle => true
  | Other k => bool_decide (k < length others)%nat
  end.

(** Every move of the run is allowed where it happens. *)
Fixpoint obeys (ms : list net_move) (n : network) : bool :=
  match ms with
  | [] => true
  | m :: ms =>
      allowed m n && match net_act m n with Done _ n' => obeys ms n' | _ => true end
  end.
End machine.

Section safety.
Context `{BuildConfig, JobAddress, EventKernel, !KernelLaws, !EventLaws}.

Record network_ok (pend : list nat) (n : network) : Prop := {
  no_sound : net_sound pend (n_held n) (n_world n);
  no_read : 0 <= w_epfd_read (n_world n);
  no_distinct : w_epfd_read (n_world n) ≠ w_epfd_write (n_world n);
  no_due : ∃ ts, NoDup ts ∧ Forall2 (due (n_write n) (n_world n)) (n_pending n) ts;
}.

Lemma network_moved pend pend' held' n w' :
  network_ok pend n → net_sound pend' held' w' → keeps_due (n_world n) w' →
  network_ok pend' (set_net_held held' (set_net_world w' n)).
Proof.
  intros [_ Hrd Hne (ts & Hnd & Hts)] Hs [[Er Ew] Hk].
  split; cbn; [done|by rewrite Er|by rewrite Er, Ew|]. exists ts. split; [done|].
  eapply Forall2_impl; [done|]. intros. by apply Hk.
Qed.

Lemma sys_network pend pend' s' n :
  network_ok pend n → sys_ok pend' s' →
  network_ok pend' (set_net_world (put_sys s' (n_world n)) n).
Proof.
  intros Hn Hs'.
  destruct (put_sys_sound pend pend' (n_held n) s' (n_world n) (no_sound _ _ Hn) Hs').
  by apply (network_moved pend pend' (n_held n) n (put_sys s' (n_world n))).
Qed.

Lemma net_of_run {A} (m : M world A) r w' n :
  m (n_world n) = Done r w' → on_net m n = Done r (set_net_world w' n).
Proof. apply zoom_done. Qed.

Lemma net_of_wlp {A} (m : M world A) (Q : A → network → Prop) n :
  wlp m (λ a w, Q a (set_net_world w n)) (n_world n) → wlp (on_net m) Q n.
Proof. unfold wlp, on_net, zoom. by destruct (m (n_world n)). Qed.

Lemma set_net_held_id n w' : set_net_held (n_held n) (set_net_world w' n) = set_net_world w' n.
Proof. done. Qed.

Lemma call_network {A} pend (m : M world A) (k : A → M network unit) n :
  network_ok pend n → call_keeps pend (n_held n) m (n_world n) → (∀ r n', k r n' = Done () n') →
  ∃ n', (on_net m ≫= k) n = Done () n' ∧ network_ok pend n'.
Proof.
  intros Hn (r & w' & Hrun & Hs & Hd) Hk. bind_by (by apply net_of_run). eexists.
  split; [apply Hk|]. rewrite <-set_net_held_id. by eapply network_moved.
Qed.

Lemma call_network_unit pend (m : M world unit) n :
  network_ok pend n → call_keeps pend (n_held n) m (n_world n) →
  ∃ n', on_net m n = Done () n' ∧ network_ok pend n'.
Proof.
  intros Hn ([] & w' & Hrun & Hs & Hd). eexists. split; [by apply net_of_run|].
  rewrite <-set_net_held_id. by eapply network_moved.
Qed.

Lemma job_accepts_spec pend i s : sys_ok pend s → job_accepts i s = true → accepts i s.
Proof.
  unfold job_accepts. intros Hs Ha. destruct (s_jobs s !! i) as [j|] eqn:Hj; [|done].
  apply andb_true_iff in Ha as [Hb Hc]. apply Z.ltb_lt in Hc.
  split; [by eapply job_index_at|]. exists j. split; [done|]. by apply negb_true_iff in Hb.
Qed.

Lemma fd_unused_spec held fd w : fd_unused held fd w = true → unused held fd w.
Proof.
  unfold fd_unused. rewrite !andb_true_iff, !bool_decide_eq_true, negb_true_iff.
  intros [[Hr Hw] Hheld]. split; [by intros e [->| ->]|]. intros a s Hin Ha Hfd.
  apply not_true_iff_false in Hheld. apply Hheld, existsb_exists. exists a.
  split; [by apply list_elem_of_In|]. unfold has_fd. unfold sock_at in Ha. rewrite Ha.
  by apply Z.eqb_eq.
Qed.

Lemma data_keeps_due w k :
  (∀ e f, snd <$> interest k e f = snd <$> watched w e f) → keeps_due w (put_kernel k w).
Proof.
  intros Hk. apply keeps_due_by; [done|]. intros e f ev d t ty Hi HW Hl. split; [done|].
  by apply (same_data w (put_kernel k w) (λ e f _, Hk e f) e f ev).
Qed.

Lemma wait_network pend others write n :
  network_ok pend n → ext_timeout = false → n_pending n = [] →
  ∃ n', net_act others (EWait write) n = Done () n' ∧ network_ok pend n'.
Proof.
  intros [Hs Hrd Hne _] Hext _. cbn [net_act]. bind_by done.
  bind_by (by apply net_of_run; rewrite call_run).
  destruct (sys_epoll_wait (instance_fd write (n_world n)) MAX_EVENTS (w_kernel (n_world n)))
    as [evs k] eqn:E.
  destruct (law_wait _ _ _ _ _ E) as [(fds & Hnd & Hev) Hk].
  destruct (batch_targets write (w_heap (n_world n)) (watched (n_world n)) (n_world n) _ fds evs
    (ns_epoll _ _ _ Hs) eq_refl (or_intror Hext) Hnd Hev) as (ts & Hts & Hndt & _).
  eexists. split; [done|]. split; cbn; [by apply net_sound_data|done|done|].
  exists ts. split; [done|]. by eapply due_events; [apply Hs| | |].
Qed.

Lemma handle_network pend others n :
  network_ok pend n → others_ok pend others → ext_timeout = false →
  wlp (net_act others EHandle) (λ _, network_ok pend) n.
Proof.
  intros Hn Ho Hext. pose proof Hn as [Hs Hrd Hne (ts & Hnd & Hts)]. cbn [net_act]. wlp_by done.
  destruct (n_pending n) as [|ev evs] eqn:Ep; [by eapply wlp_done|].
  apply Forall2_cons_inv_l in Hts as (t & ts' & Ht & Hts & ->).
  apply NoDup_cons in Hnd as [Hnt Hnd].
  apply wlp_bind with (λ _ n', n_held n' = n_held n ∧ net_sound pend (n_held n) (n_world n') ∧
    same_instances (n_world n) (n_world n') ∧
    ∀ ev' x, x ≠ t → due (n_write n) (n_world n) ev' x → due (n_write n) (n_world n') ev' x).
  { apply net_of_wlp. eapply wlp_mono; [by apply (handler_keeps (n_held n) pend others (n_write n) ev t)|].
    done. }
  intros _ n' (Eh & Hs' & [Er Ew] & Hk). eapply wlp_done; [done|].
  split; cbn; [by rewrite Eh|by rewrite Er|by rewrite Er, Ew|]. exists ts'. split; [done|].
  clear Ep Hnd Hn. induction Hts as [|ev' x evs' ts'' Hx _ IH]; constructor.
  - apply Hk; [|done]. intros ->. apply Hnt. left.
  - apply IH. intros Hin. apply Hnt. by right.
Qed.

Lemma other_network pend (act : M sys unit) n :
  network_ok pend n → (∀ s, sys_ok pend s → wlp act (λ _ s', sys_ok pend s') s) →
  wlp (on_net (on_sys act)) (λ _, network_ok pend) n.
Proof.
  intros Hn Ha. apply net_of_wlp, net_wlp. eapply wlp_mono; [apply Ha, Hn|].
  intros [] s' Hs'.
  by apply (sys_network pend pend).
Qed.

(** Calls and polls return. *)
Definition quick (m : net_move) : bool :=
  match m with EHandle | Other _ => false | _ => true end.

Lemma quick_network pend others m n :
  mallocs_succeed → ext_timeout = false → network_ok pend n → allowed others m n = true →
  quick m = true → ∃ n', net_act others m n = Done () n' ∧ network_ok pend n'.
Proof.
  intros Hm Hext Hn Ha Hq. pose proof Hn as [Hs Hrd Hne _]. pose proof (ns_sys _ _ _ Hs) as Hsys.
  destruct m; try done; cbn [allowed] in Ha; cbn [net_act];
    try (apply bool_decide_eq_true in Ha);
    try (apply andb_true_iff in Ha as [Hacc Hun]; apply (job_accepts_spec pend) in Hacc; [|done];
         apply fd_unused_spec in Hun).
  - apply call_network; [done|by apply read_keeps|done].
  - apply call_network; [done|by apply write_keeps|done].
  - by apply call_network_unit, read_cond_keeps.
  - by apply call_network_unit, write_cond_keeps.
  - destruct (release_keeps pend (n_held n) a (n_world n) Hs Ha) as (r & w' & Hrun & Hs' & Hd).
    bind_by (by apply net_of_run). eexists. split; [done|]. by eapply network_moved.
  - destruct (new_socket_keeps pend (n_held n) i fd read_cond write_cond timeout_sec (n_world n))
      as (o & w' & Hrun & Hs' & Hd); try done.
    bind_by (by apply net_of_run). eexists. split; [done|]. by eapply network_moved.
  - apply call_network; [done|by apply new_request_keeps|done].
  - apply (wait_network pend others); [done|done|by destruct (n_pending n)].
Qed.

Lemma step_network pend others m n :
  mallocs_succeed → ext_timeout = false → others_ok pend others → network_ok pend n →
  allowed others m n = true → wlp (net_act others m) (λ _, network_ok pend) n.
Proof.
  intros Hm Hext Ho Hn Ha. destruct (quick m) eqn:Hq.
  { destruct (quick_network pend others m n) as (n' & Hrun & Hn'); try done.
    by eapply wlp_done. }
  destruct m as [| | | | | | | | |k]; try done.
  - by apply handle_network.
  - cbn [allowed net_act] in *. apply bool_decide_eq_true, lookup_lt_is_Some in Ha as [act Ek].
    wlp_by (by unfold reads; rewrite Ek).
    apply other_network; [done|]. by eapply (Forall_lookup_1 _ _ _ _ Ho).
Qed.

(** C7: in a build without socket timeouts (no [malloc] failing), from a consistent state
    any sequence of jobs' calls (each on a socket the job holds; new ones for descriptors
    not in use), polls of epoll, handled events - calls and events between a poll and its
    last handler included - and steps of other threads is free of undefined behaviour, and
    the state is consistent afterwards: every registration leads to a live object, every
    socket a job holds is allocated and sound, and every socket on the heap is held by a
    job or registered, so that it is freed by the last of the two and not before. *)
Theorem network_memory_safe pend others ms n :
  mallocs_succeed → ext_timeout = false → others_ok pend others → network_ok pend n →
  obeys others ms n = true →
  wlp (net_steps others ms) (λ _, network_ok pend) n.
Proof.
  intros Hm Hext Ho. revert n. induction ms as [|m ms IH]; intros n Hn Hob; cbn [net_steps];
    [by eapply wlp_done|]. cbn [obeys] in Hob. apply andb_true_iff in Hob as [Ha Hob].
  pose proof (step_network pend others m n Hm Hext Ho Hn Ha) as Hstep.
  unfold wlp, mbind, M_bind in *. destruct (net_act others m n) as [[] n1| |]; [|done..].
  by apply IH.
Qed.
End safety.

(** ** Witness *)

Section witness.
#[local] Existing Instance script_kernel.
#[local] Existing Instance script_laws.
#[local] Existing Instance script_events.
#[local] Existing Instance script_event_laws.
#[local] Existing Instance plain_build.
#[local] Existing Instance contiguous_jobs.

(** Nothing is open yet; the peer of descriptor 9 will send three bytes. *)
Definition network_idle : network :=
  Network [] false []
    (script_world (Script ∅ None [] [Got ["a"%byte; "b"%byte; "c"%byte]]) ∅ sys_one).

Lemma network_idle_ok : network_ok [] network_idle.
Proof.
  assert (∀ e f, watched (n_world network_idle) e f = None) as Hnone.
  { intros e f. change (script_interest (Script ∅ None [] []) e f = None).
    unfold script_interest. by destruct (of_timer e f). }
  split; [split|done|done|exists []; split; constructor].
  - intros e f ev p _ HW. by rewrite Hnone in HW.
  - apply sys_one_ok.
  - split; [constructor|..]; try by intros a ?%elem_of_nil.
    + by intros a s e ev p ?%elem_of_nil.
    + intros a s _ Ha. unfold sock_at in Ha. cbn in Ha. by rewrite lookup_empty in Ha.
    + intros e1 e2 f ev1 ev2 p1 p2 _ _ HW. by rewrite Hnone in HW.
Qed.

(** The job makes a socket for 9; epoll polls it and receives, between which the job
    writes; the job reads two bytes and leaves the socket to epoll. *)
Definition network_run : list net_move :=
  [JSocket 0 9 1 1 30; EWait false; JWrite 0%nat ["x"%byte]; EHandle; JRead 0%nat 2; JDone 0%nat;
   EWait true; EHandle].

Lemma network_memory_safe_witness :
  let run := net_steps [] network_run network_idle in
  (∃ n', run = Done () n' ∧ n_held n' = [] ∧
    (sk_fall <$> match w_heap (n_world n') !! 0%nat with Some (HSocket s) => Some s | _ => None end) =
      Some 1) ∧
  wlp (net_steps [] network_run) (λ _, network_ok []) network_idle.
Proof.
  intros run. split.
  { exists (final_of network_idle run). split; [apply run_final; by vm_compute|by vm_compute]. }
  apply (network_memory_safe [] [] network_run network_idle);
    [done|done|constructor|apply network_idle_ok|by vm_compute].
Defined.

(** The condition on descriptors is needed.  A socket keeps its [data_ptr] when the epoll
    thread gives the socket up and frees the data; if the descriptor is registered again
    while the job still holds the socket, a buffered write on the old one registers the
    freed data for it, and the next event of the descriptor is a use after free.  The run
    breaks the condition with its fourth move only. *)
Definition network_reuse : list net_move :=
  [JSocket 0 9 1 1 30; EWait false; EHandle; JSocket 0 9 1 1 30; JWrite 0%nat ["x"%byte];
   EWait false; EHandle].
Definition network_closed : network :=
  Network [] false [] (script_world (Script ∅ None [] [Got []]) ∅ sys_one).

Theorem reused_descriptor_use_after_free :
  obeys [] (take 3 network_reuse) network_closed = true ∧
  obeys [] (take 4 network_reuse) network_closed = false ∧
  (∃ n', net_steps [] (take 6 network_reuse) network_closed = Done () n') ∧
  net_steps [] network_reuse network_closed = Undef.
Proof.
  split; [by vm_compute|]. split; [by vm_compute|]. split; [|apply run_undefined; by vm_compute].
  exists (final_of network_closed (net_steps [] (take 6 network_reuse) network_closed)).
  apply run_final. by vm_compute.
Qed.
End witness.
