(* ===== verification/Whole.v ===== *)
(** * The whole library at work (worker.c, epoll.c and jobs.c together)

    Any number of workers run jobs whose functions call the socket and request operations
    of jobs.c, while the epoll thread polls and handles events and clients make requests of
    their own.  The invariants of the two halves, [orderly] (WorkerPool.v) for jobs and
    workers and [network_ok] (NetRun.v) for sockets, requests and registrations, hold
    together in every interleaving. *)

From Stdlib Require Import Strings.Byte.
From S2P Require Export WorkerTurns NetJobs NetRun.

Local Open Scope Z_scope.

(** ** The network code keeps jobs in their places *)

Lemma on_meta_index {R} (body : Z → attempt Z R) O P s i r s' :
  orderly O P s → on_meta body i s = Done r s' → job_index i.
Proof.
  intros Hs Hrun. unfold on_meta in Hrun. destruct (s_jobs s !! i) as [j|] eqn:E.
  - by eapply orderly_index.
  - exfalso. revert Hrun. unfold mbind, M_bind, job_get, reads. by rewrite E.
Qed.

#[export] Instance orderly_kept `{BuildConfig, JobAddress} O P : kept_by_network (orderly O P).
Proof.
  split.
  - intros i s r s' Hs Hrun.
    destruct (mark_orderly OpMarkAccess _ O P s i eq_refl Hs) as (r1 & s1 & Hrun1 & Hs1 & _);
      [by eapply on_meta_index|done|]. congruence.
  - intros i s r s' Hs Hrun.
    destruct (mark_orderly OpUnmarkAccess _ O P s i eq_refl Hs) as (r1 & s1 & Hrun1 & Hs1 & _);
      [by eapply on_meta_index|done|]. congruence.
  - intros i sd wd s r s' Hs Hrun. assert (job_index i) as Hi.
    { revert Hrun. unfold schedi_job_meta_flag_cas_update, mbind, M_bind, job_get, reads.
      destruct (s_jobs s !! i) as [j|] eqn:E; [|done]. intros _. by eapply orderly_index. }
    destruct (cas_update_orderly O P s i sd wd 0 Hs Hi) as (r1 & s1 & Hrun1 & Hs1 & _). congruence.
  - intros f i s s' Hs Hrun. destruct (s_jobs s !! i) as [j|] eqn:E.
    + destruct (put_orderly (λ j, set_epoll_list (f (epoll_list j)) j) i j O P s Hs E)
        as [Hrun1 Hs1]; [done|done|by left|]. unfold on_list in Hrun. congruence.
    + exfalso. revert Hrun. unfold on_list, job_put, updates. by rewrite E.
Qed.

(** ** The machine *)

Section machine.
Context `{BuildConfig, JobAddress, EventKernel}.

Record system : Type := System { y_team : list wpc; y_net : network }.
Definition set_team x y := System x (y_net y).
Definition set_net x y := System (y_team y) x.

(** What other threads do while a request's return waits for access; the calls a job makes
    besides those of the network code; the requests of clients. *)
Variables (others : list (M sys unit)) (job_call : nat → nat → M sys unit)
  (client : nat → M sys unit).

(** A worker does its next piece, in which it may find that it was told to stop; the
    function of the job that a worker runs calls the network code, calls the rest of the
    library, or returns; the epoll thread polls an instance or handles an event; a client
    makes a request. *)
Inductive system_move : Type :=
  | Piece (k : nat) (stop : bool)
  | NetCall (k : nat) (m : net_move)
  | JobCall (k c : nat)
  | Return (k : nat) (ret : Z)
  | Poll (write : bool)
  | Handle
  | Client (r : nat).

(** The job whose function worker [k] is in. *)
Definition running (k : nat) (y : system) : option nat :=
  match y_team y !! k with Some (Started i) => Some i | _ => None end.
Definition is_call (m : net_move) : bool :=
  match m with EWait _ | EHandle | Other _ => false | _ => true end.

Definition to_net {A} : M network A → M system A := zoom y_net set_net.
Definition to_sys {A} (m : M sys A) : M system A := to_net (on_net (on_sys m)).
Definition set_worker (k : nat) (p : wpc) : M system unit :=
  modify (λ y, set_team (<[k := p]> (y_team y)) y).

(** A job's function is any sequence of calls, then a return. *)
Definition worker_piece (k : nat) (stop : bool) : M system unit :=
  p ← reads (λ y, y_team y !! k);
  match p with
  | Started _ => stuck
  | _ => p' ← to_sys (act (λ _ _, mret 0) stop p); set_worker k p'
  end.

Definition system_act (m : system_move) : M system unit :=
  match m with
  | Piece k stop => worker_piece k stop
  | NetCall k m => _ ← reads (running k); to_net (net_act others m)
  | JobCall k c => i ← reads (running k); to_sys (job_call c i)
  | Return k ret => i ← reads (running k); set_worker k (Returned i ret)
  | Poll write => to_net (net_act others (EWait write))
  | Handle => to_net (net_act others EHandle)
  | Client r => to_sys (client r)
  end.

Fixpoint system_run (ms : list system_move) : M system unit :=
  match ms with
  | [] => mret ()
  | m :: ms => system_act m ≫= λ _, system_run ms
  end.

(** What a run has to respect: pieces are of workers between two functions, calls and
    returns of workers in one, and the calls of the network code are allowed
    ([allowed], NetRun.v): on sockets that jobs hold, and new ones for descriptors not in
    use and jobs that take them; epoll polls when it has handled the last events. *)
Definition may (m : system_move) (y : system) : bool :=
  match m with
  | Piece k _ => match y_team y !! k with None | Some (Started _) => false | _ => true end
  | NetCall k m =>
      bool_decide (is_Some (running k y)) && is_call m && allowed others m (y_net y)
  | JobCall k _ | Return k _ => bool_decide (is_Some (running k y))
  | Poll write => allowed others (EWait write) (y_net y)
  | Handle | Client _ => true
  end.
Fixpoint system_obeys (ms : list system_move) (y : system) : bool :=
  match ms with
  | [] => true
  | m :: ms =>
      may m y && match system_act m y with Done _ y' => system_obeys ms y' | _ => true end
  end.
End machine.

(** ** Its invariant *)

Section safety.
Context `{BuildConfig, JobAddress, EventKernel, !KernelLaws, !EventLaws}.
Variables (others : list (M sys unit)) (job_call : nat → nat → M sys unit)
  (client : nat → M sys unit).

(** Jobs in their places, sockets and registrations sound, with one destroy queue. *)
Definition system_ok (y : system) : Prop := ∃ P,
  orderly (held_jobs (y_team y)) P (w_sys (n_world (y_net y))) ∧ network_ok P (y_net y).

Definition others_keep (others : list (M sys unit)) : Prop :=
  (∀ P, others_ok P others) ∧
  ∀ O P, Forall (λ act, ∀ s s', orderly O P s → act s = Done () s' → orderly O P s') others.
Definition calls_orderly : Prop := ∀ c i O P s, orderly (i :: O) P s →
  ∃ s' P', job_call c i s = Done () s' ∧ orderly (i :: O) P' s'.

Lemma to_sys_run {A} (m : M sys A) y a s' :
  m (w_sys (n_world (y_net y))) = Done a s' →
  to_sys m y = Done a (set_net (set_net_world (put_sys s' (n_world (y_net y))) (y_net y)) y).
Proof.
  intros Hm. unfold to_sys, to_net. apply zoom_done, (zoom_done n_world set_net_world).
  by apply (zoom_done w_sys put_sys).
Qed.

(** A network step changes jobs only in the ways the network code does. *)
Lemma net_act_orderly O P m n n' :
  others_keep others → orderly O P (w_sys (n_world n)) → net_act others m n = Done () n' →
  orderly O P (w_sys (n_world n')).
Proof.
  intros [_ Ho] Hs. specialize (Ho O P).
  assert (∀ {A} (c : M world A) (k : A → M network unit),
    triple (jobs_ok (orderly O P)) c (jobs_ok (orderly O P)) any →
    (∀ a x x', k a x = Done () x' → n_world x' = n_world x) →
    (on_net c ≫= k) n = Done () n' → orderly O P (w_sys (n_world n'))) as Hcall.
  { intros A c k Hc Hk. unfold on_net, zoom, mbind, M_bind.
    destruct (c (n_world n)) as [a w'| |] eqn:E; [|done..]. intros E2.
    rewrite (Hk _ _ _ E2). cbn. by eapply Hc. }
  assert (∀ (c : M world unit), triple (jobs_ok (orderly O P)) c (jobs_ok (orderly O P)) any →
    on_net c n = Done () n' → orderly O P (w_sys (n_world n'))) as Hunit.
  { intros c Hc. unfold on_net, zoom. destruct (c (n_world n)) as [[] w'| |] eqn:E; [|done..].
    intros [= <-]. cbn. by eapply Hc. }
  destruct m; cbn [net_act].
  - apply Hcall; [apply jobs_read, _|by intros ? ? ? [= <-]].
  - apply Hcall; [apply jobs_write, _|by intros ? ? ? [= <-]].
  - apply Hunit, jobs_read_cond, _.
  - apply Hunit, jobs_write_cond, _.
  - apply Hcall; [apply jobs_done, _|by intros ? ? ? [= <-]].
  - apply Hcall; [apply jobs_tool_epollsocket, _|by intros ? ? ? [= <-]].
  - apply Hcall; [apply jobs_tool_epoll, _|by intros ? ? ? [= <-]].
  - apply (Hcall _ (call _)); [apply jobs_call|by intros ? ? ? [= <-]].
  - change ((match n_pending n with
      | [] => mret ()
      | ev :: evs => on_net (handler others (n_write n) ev) ≫= λ _,
          modify (λ n', set_net_polled (n_write n) evs n')
      end) n = Done () n' → orderly O P (w_sys (n_world n'))).
    destruct (n_pending n) as [|ev evs]; [by intros [= <-]|].
    apply Hcall; [|by intros ? ? ? [= <-]].
    unfold handler. destruct (n_write n); by apply (jobs_handlers _ others Ho).
  - destruct (others !! k) as [act|] eqn:Ek; [|by unfold mbind, M_bind, reads].
    change (on_net (on_sys act) n = Done () n' → orderly O P (w_sys (n_world n'))).
    apply Hunit, jobs_sys. intros s [] s'. by apply (Forall_lookup_1 _ _ _ _ Ho Ek).
Qed.

Hypothesis Hmalloc : mallocs_succeed.
Hypothesis Hext : ext_timeout = false.
Hypothesis Hothers : others_keep others.
Hypothesis Hcalls : calls_orderly.
Hypothesis Hclient : client_orderly client.

(** A step on the network. *)
Lemma network_step_ok m y :
  system_ok y → allowed others m (y_net y) = true →
  wlp (to_net (net_act others m)) (λ _, system_ok) y ∧
  (quick m = true → ∃ y', to_net (net_act others m) y = Done () y').
Proof.
  intros (P & Hs & Hn) Ha. unfold to_net, zoom, wlp. split.
  - pose proof (step_network P others m _ Hmalloc Hext (proj1 Hothers P) Hn Ha) as Hw.
    unfold wlp in Hw. destruct (net_act others m (y_net y)) as [[] n'| |] eqn:E; [|done..].
    exists P. split; [by eapply net_act_orderly|done].
  - intros Hq. destruct (quick_network P others m _ Hmalloc Hext Hn Ha Hq) as (n' & -> & _).
    by eexists.
Qed.

(** A step on the scheduler, after which worker [k], if there is one to note, is at [p]. *)
Lemma sys_step_ok {A} (m : M sys A) y P O' P' a s' :
  network_ok P (y_net y) → m (w_sys (n_world (y_net y))) = Done a s' → orderly O' P' s' →
  ∃ y', to_sys m y = Done a y' ∧ y_team y' = y_team y ∧
    orderly O' P' (w_sys (n_world (y_net y'))) ∧ network_ok P' (y_net y').
Proof.
  intros Hn Hrun Hs'. eexists. split; [by apply to_sys_run|]. split; [done|]. split; [done|].
  cbn [y_net set_net]. eapply sys_network; [done|apply Hs'].
Qed.

Lemma running_spec k y i : running k y = Some i → y_team y !! k = Some (Started i).
Proof. unfold running. destruct (y_team y !! k) as [[]|]; try done. by intros [= ->]. Qed.

(** The places, seen from worker [k]. *)
Lemma held_by k p ws P s :
  ws !! k = Some p → orderly (held_jobs ws) P s →
  orderly (holding p (held_jobs (delete k ws))) P s.
Proof. intros Hk. apply orderly_perm, (held_at _ _ _ Hk). Qed.
Lemma held_back k p p' ws P s :
  ws !! k = Some p → orderly (holding p' (held_jobs (delete k ws))) P s →
  orderly (held_jobs (<[k := p']> ws)) P s.
Proof.
  intros Hk Hs. assert (<[k := p']> ws !! k = Some p') as Hk'.
  { apply list_lookup_insert_eq. by eapply lookup_lt_Some. }
  eapply orderly_perm; [symmetry; apply (held_at _ _ _ Hk')|]. by rewrite delete_insert_same.
Qed.

Lemma piece_ok k stop y :
  system_ok y → may others (Piece k stop) y = true →
  ∃ y', worker_piece k stop y = Done () y' ∧ system_ok y'.
Proof.
  intros (P & Hs & Hn) Hm. cbn [may] in Hm. destruct (y_team y !! k) as [p|] eqn:Hk; [|done].
  unfold worker_piece. bind_by (by unfold reads; rewrite Hk).
  assert (∃ y', (p' ← to_sys (act (λ _ _, mret 0) stop p); set_worker k p') y = Done () y' ∧
    system_ok y') as Hact; [|by destruct p].
  destruct (act_orderly (λ _ _, mret 0) stop p (held_jobs (delete k (y_team y))) P
    (w_sys (n_world (y_net y)))) as (p' & s' & P' & Hrun & Hs').
  { intros f i O Q s Hq. by exists 0, s, Q. }
  { by eapply held_by. }
  destruct (sys_step_ok _ y P _ P' p' s' Hn Hrun Hs') as (y' & Hrun' & Ht & Hs2 & Hn2).
  bind_by exact Hrun'. eexists. split; [done|]. exists P'. split; [|done].
  cbn [y_team set_team y_net]. rewrite Ht. by eapply held_back.
Qed.

(** Moves that return whatever else happens. *)
Definition returns (m : system_move) : bool := match m with Handle => false | _ => true end.

(** A step that keeps the invariant, and whether it is known to return. *)
Definition step_ok (b : bool) (a : M system unit) (y : system) : Prop :=
  wlp a (λ _, system_ok) y ∧ (b = true → ∃ y', a y = Done () y').

Lemma step_ok_done b a y : (∃ y', a y = Done () y' ∧ system_ok y') → step_ok b a y.
Proof. intros (y' & Ha & Hy'). split; [by eapply wlp_done|by exists y']. Qed.

Lemma run_spec k y :
  bool_decide (is_Some (running k y)) = true →
  ∃ i, reads (running k) y = Done i y ∧ y_team y !! k = Some (Started i).
Proof.
  intros [i Hi]%bool_decide_eq_true. exists i. split; [unfold reads; by rewrite Hi|].
  by apply running_spec.
Qed.

Lemma system_step_ok m y :
  system_ok y → may others m y = true →
  step_ok (returns m) (system_act others job_call client m) y.
Proof.
  intros Hy Hm. pose proof Hy as (P & Hs & Hn).
  destruct m as [k stop|k m|k c|k ret|write| |r]; cbn [system_act returns].
  - by apply step_ok_done, piece_ok.
  - cbn [may] in Hm. apply andb_true_iff in Hm as [[Hk Hc]%andb_true_iff Ha].
    destruct (run_spec k y Hk) as (i & Hi & _). unfold step_ok, wlp. rewrite (bind_done _ _ _ _ _ Hi).
    destruct (network_step_ok m y Hy Ha) as [Hw Hq]. split; [exact Hw|]. intros _.
    apply Hq. by destruct m.
  - destruct (run_spec k y Hm) as (i & Hi & Hk). apply step_ok_done. bind_by exact Hi.
    destruct (Hcalls c i _ _ _ (held_by _ _ _ _ _ Hk Hs)) as (s' & P' & Hrun & Hs').
    destruct (sys_step_ok _ y P _ P' () s' Hn Hrun Hs') as (y' & Hrun' & Ht & Hs2 & Hn2).
    exists y'. split; [done|]. exists P'. split; [|done]. rewrite Ht.
    eapply orderly_perm; [symmetry; by apply held_at|exact Hs2].
  - destruct (run_spec k y Hm) as (i & Hi & Hk). apply step_ok_done. bind_by exact Hi.
    eexists. split; [done|]. exists P. split; [|done].
    eapply held_back; [done|]. exact (held_by _ _ _ _ _ Hk Hs).
  - destruct (network_step_ok (EWait write) y Hy Hm) as [Hw Hq]. split; [exact Hw|].
    intros _. by apply Hq.
  - destruct (network_step_ok EHandle y Hy eq_refl) as [Hw _]. by split.
  - destruct (Hclient r _ _ _ Hs) as (s' & P' & Hrun & Hs').
    destruct (sys_step_ok _ y P _ P' () s' Hn Hrun Hs') as (y' & Hrun' & Ht & Hs2 & Hn2).
    apply step_ok_done. exists y'. split; [done|]. exists P'. by rewrite Ht.
Qed.

Lemma system_run_ok ms : ∀ y,
  system_ok y → system_obeys others job_call client ms y = true →
  step_ok (forallb returns ms) (system_run others job_call client ms) y.
Proof.
  induction ms as [|m ms IH]; intros y Hy Hob; cbn [system_run forallb].
  { apply step_ok_done. by exists y. }
  cbn [system_obeys] in Hob. apply andb_true_iff in Hob as [Hm Hob].
  destruct (system_step_ok m y Hy Hm) as [Hw Hq]. unfold wlp in Hw. split.
  - unfold wlp, mbind, M_bind. destruct (system_act _ _ _ m y) as [[] y1| |]; [|done..].
    by apply IH.
  - intros [Hm' Hms]%andb_true_iff. destruct (Hq Hm') as (y1 & Hrun).
    rewrite Hrun in Hw, Hob. destruct (IH y1 Hw Hob) as [_ Hq']. destruct (Hq' Hms) as (y2 & Hrun2).
    exists y2. by bind_by exact Hrun.
Qed.

(** What the invariant says about the parts: every job a worker holds is in use, held by no
    other worker, not in the ready cache and not being destroyed; every socket a job holds
    is allocated and sound; whatever epoll may hand back is allocated. *)
Record consistent (y : system) : Prop := {
  cs_alone k l p q i : y_team y !! k = Some p → y_team y !! l = Some q →
    held p = Some i → held q = Some i → k = l;
  cs_job k p i : y_team y !! k = Some p → held p = Some i →
    let s := w_sys (n_world (y_net y)) in
    ∃ j, job_at s i j ∧ (i ∉ free_of s) ∧ (i ∉ somes (s_cache s)) ∧
      v_unstable (view_of (meta_flag j)) || v_wlldestroy (view_of (meta_flag j)) = false;
  cs_socket a : a ∈ n_held (y_net y) →
    ∃ s, sock_at (n_world (y_net y)) a s ∧ sock_wf s ∧ 1 <= sk_fall s;
  cs_registered e f ev p : instance (n_world (y_net y)) e →
    watched (n_world (y_net y)) e f = Some (ev, p) →
    ∃ d o, p = Some d ∧ w_heap (n_world (y_net y)) !! d = Some o;
}.

Lemma system_ok_consistent y : system_ok y → consistent y.
Proof.
  intros (P & Hs & [[Hep _ [_ Hheld _ _ _]] _ _ _]). split.
  - intros k l p q i. apply held_distinct, Hs.
  - intros k p i Hk Hi. pose proof (held_by _ _ _ _ _ Hk Hs) as Hs1.
    unfold holding in Hs1. rewrite Hi in Hs1. cbn [owned_by] in Hs1.
    destruct (owned_slot i _ _ _ Hs1) as (j & ? & _ & ? & _ & _ & ? & _ & _ & ?). by exists j.
  - intros a Ha. destruct (Hheld a Ha) as (s & ? & [] & Hf). exists s.
    split; [done|]. split; [done|]. destruct Hf as [[-> _]|[-> _]]; lia.
  - intros e f ev p He HW. destruct (Hep e f ev p He HW) as (d & t & ty & -> & Hl & _).
    exists d. rewrite (live_data _ _ _ _ _ Hl). by eexists.
Qed.

(** C4: the library as a whole, for clients that keep to its rules.  The conditions: a build
    without socket timeouts, no [malloc] failing, and calls of jobs, of clients and of the
    threads that run while a request waits that are orderly (they return and leave the
    scheduler consistent, as the library's own calls do); jobs use only sockets they hold,
    and make sockets and requests only for descriptors that are neither registered nor
    those of a held socket, on jobs that are not being torn down and count at most 14
    available sockets ([system_obeys]).  Then, from a consistent state, with any number of
    workers, some of which may be told to stop, jobs' functions, the epoll thread and
    clients interleaved in any order, nothing is undefined, and the state is consistent
    afterwards.  Everything returns, too, but for an event that waits for access to its job. *)
Theorem system_safe ms y :
  system_ok y → system_obeys others job_call client ms y = true →
  wlp (system_run others job_call client ms) (λ _, consistent) y ∧
  (forallb returns ms = true → ∃ y', system_run others job_call client ms y = Done () y').
Proof.
  intros Hy Hob. destruct (system_run_ok ms y Hy Hob) as [Hw Hq]. split; [|exact Hq].
  eapply wlp_mono; [exact Hw|]. intros [] y' Hy'. by apply system_ok_consistent.
Qed.
End safety.

(** ** A run *)

Section run.
#[local] Existing Instance script_kernel.
#[local] Existing Instance script_laws.
#[local] Existing Instance script_events.
#[local] Existing Instance script_event_laws.
#[local] Existing Instance plain_build.
#[local] Existing Instance contiguous_jobs.

(** Two workers wait; no job exists, and the peer of descriptor 9 will send three bytes. *)
Definition system_idle : system :=
  System [AtTop; AtTop] (Network [] false []
    (script_world (Script ∅ None [] [Got ["a"%byte; "b"%byte; "c"%byte]]) ∅ sys_init)).

Lemma system_idle_ok : system_ok system_idle.
Proof.
  exists []. split; [exact start_orderly|].
  apply (sys_network [] [] sys_init network_idle network_idle_ok), start_orderly.
Qed.

(** The calls of the job: it may ask for one available socket. *)
Definition job_asks (c i : nat) : M sys unit :=
  schedi_job_required_available_socket i (Z.of_nat c).
Definition client_spawns (r : nat) : M sys unit := spawn (Z.of_nat r) 1 None.

Lemma job_asks_orderly : calls_orderly job_asks.
Proof.
  intros c i O P s Hs. destruct (owned_slot _ _ _ _ Hs) as (j & _ & Hi & _).
  destruct (required_sockets_orderly i (Z.of_nat c) _ _ _ Hs Hi) as (s' & Hrun & Hs').
  by exists s', P.
Qed.
Lemma client_spawns_orderly : client_orderly client_spawns.
Proof.
  intros r O P s Hs. destruct (spawn_orderly (Z.of_nat r) 1 None _ _ _ Hs) as (s' & Hrun & Hs').
  by exists s', P.
Qed.

(** A client creates a job; worker 0 runs it: it makes a socket for 9, asks for an
    available socket and returns, so that it waits.  Epoll receives the bytes, which makes
    it READY; worker 1 picks it up, and it reads, leaves the socket and ends. *)
Definition system_moves : list system_move :=
  [Client 0; Piece 0 false; Piece 0 false; Piece 1 false; Piece 1 false; Piece 0 false;
   NetCall 0 (JSocket 0 9 1 1 30); JobCall 0 1; Return 0 1; Piece 0 false; Piece 0 false;
   Piece 0 false; Poll false; Piece 1 false; Handle; Piece 1 false; Piece 1 false; Piece 1 false;
   Piece 1 false; Piece 1 false; NetCall 1 (JRead 0%nat 2); NetCall 1 (JDone 0%nat);
   Return 1 (-1); Piece 1 true; Piece 1 true; Piece 1 true; Piece 1 true; Piece 0 true].

Lemma system_safe_witness :
  wlp (system_run [] job_asks client_spawns system_moves) (λ _, consistent) system_idle ∧
  (forallb returns system_moves = true →
    ∃ y', system_run [] job_asks client_spawns system_moves system_idle = Done () y').
Proof.
  apply (system_safe [] job_asks client_spawns).
  - done.
  - done.
  - split; [intros P; constructor|intros O P; constructor].
  - exact job_asks_orderly.
  - exact client_spawns_orderly.
  - exact system_idle_ok.
  - by vm_compute.
Defined.

(** The event made the job READY again, worker 1 ran it, and it read what epoll received. *)
Lemma system_moves_end :
  let after n := final_of system_idle
    (system_run [] job_asks client_spawns (take n system_moves) system_idle) in
  y_team (after 12%nat) = [AtTop; AtSecondLook] ∧
  somes (s_cache (w_sys (n_world (y_net (after 14%nat))))) = [] ∧
  somes (s_cache (w_sys (n_world (y_net (after 15%nat))))) = [0%nat] ∧
  y_team (after 20%nat) = [AtTop; Started 0] ∧
  n_held (y_net (after 22%nat)) = [] ∧ y_team (after 28%nat) = [Left; Left].
Proof. vm_compute. by split_and!. Qed.
End run.
