(* ===== verification/Programs.v ===== *)
(** * Programs on top of the library (src/examples: initialization.c, avjobs.c, ajob.c)

    A program has memory of its own besides the library's state; its job functions work on
    both.  Workers run it in the pieces of WorkerTurns, in an order given by a list of
    worker numbers.  initialization.c is followed for every answer of the thread library;
    avjobs.c is run from [main]'s first call to its last; for ajob.c the number of runs of its job is computed for every input. *)

From S2P Require Export WorkerTurns Start Completion.

Local Open Scope Z_scope.

(** ** Programs *)

Record prog (U : Type) : Type := Prog { p_user : U; p_lib : wsys }.
Arguments Prog {_} _ _.
Arguments p_user {_} _.
Arguments p_lib {_} _.

Section programs.
Context `{BuildConfig, JobAddress} {U : Type}.

Definition set_user (u : U) (p : prog U) := Prog u (p_lib p).
Definition set_lib w (p : prog U) := Prog (p_user p) w.

Definition on_lib {A} : M wsys A → M (prog U) A := zoom p_lib set_lib.
Definition on_jobs {A} (m : M sys A) : M (prog U) A := on_lib (on_sys m).
Definition on_user {A} : M U A → M (prog U) A := zoom p_user set_user.

Variable code : nat → nat → M (prog U) Z.

(** [ctx->shutdown] of worker [k]. *)
Definition stopping (k : nat) : M wsys bool :=
  stop ← worker_get shutdown k; mret (negb (stop =? 0)).

(** Worker [k]'s piece: the job's function is the program's, the rest is the library's. *)
Definition piece (k : nat) (p : wpc) : M (prog U) wpc :=
  match p with
  | Started i =>
      f ← on_jobs (job_get run i);
      ret ← code f i;
      mret (Returned i ret)
  | _ => stop ← on_lib (stopping k); on_jobs (act (λ _ _, stuck) stop p)
  end.

(** The workers take their turns as [order] says. *)
Fixpoint work (order : list nat) (team : list wpc) : M (prog U) (list wpc) :=
  match order with
  | [] => mret team
  | k :: order =>
      match team !! k with
      | None => undef
      | Some p => p' ← piece k p; work order (<[k := p']> team)
      end
  end.

(** [indicator->...] of a new job, and the job set going; a failed [schedi_job_create] is not
    noticed and dereferences NULL. *)
Definition new_indicator (k : nat) : M sys unit :=
  modify (λ s, set_indicators (<[k := Indicator false false 0]> (s_indicators s)) s) ≫= λ _,
  on_indicator k schedi_completion_indicator_init.
End programs.

(** ** initialization.c *)

(** [main]; the codes are what the thread library answers. *)
Definition initialization_main `{BuildConfig} (cond_code mutex_code lock_code : Z)
    (create_code join_code : nat → Z) : M wsys Z :=
  r ← on_sys (schedi_job_init cond_code mutex_code lock_code);
  if negb (r =? 0) then mret 1
  else
    r ← schedi_worker_init (create_answer create_code) 16;
    if negb (r =? 0) then mret 2
    else
      on_sys (on_cache schedi_wake_all_job_waiters) ≫= λ _,
      r ← schedi_worker_deinit (join_answer join_code);
      if negb (r =? 0) then mret 3
      else
        r ← on_sys (schedi_job_deinit cond_code mutex_code lock_code);
        mret (if negb (r =? 0) then 4 else 0).

(** Static storage of the two files. *)
Definition wsys_static : wsys := WSys sys_static (replicate SCHEDI_MAX_WORKERS (Worker 0 0 0)) 0.

Lemma wake_all_run `{BuildConfig} w : s_readyjob_mutex (w_sys w) = false →
  ∃ r w', on_sys (on_cache schedi_wake_all_job_waiters) w = Done r w' ∧
    workers w' = workers w ∧ worker_count w' = worker_count w ∧
    w_sys w' = put_cache (set_wakeups (s_wakeups (w_sys w) + broadcast_wakeups)
                 (cache_of (w_sys w))) (w_sys w).
Proof.
  destruct w as [[jobs secs lk fl ca jc rc mx wk q ind tr] ws cnt]. cbn. intros ->.
  unfold broadcast_wakeups, schedi_wake_all_job_waiters.
  destruct lockless_readyjob; cbn; eexists _, _; (split; [reflexivity|]); split_and!;
    rewrite ?Nat.add_0_r, ?Nat.add_1_r; done.
Qed.

(** When the mutexes can be made and threads joined, [main] ends: with 0, all workers
    stopped and the job system as [schedi_job_init] left it (but for the wake-ups sent); or
    with 2 at the first worker that the thread library refuses, the ones before it running. *)
Theorem initialization_main_spec `{BuildConfig} create_code join_code :
  (∀ j, join_code j = 0) →
  ∃ r w' k, initialization_main 0 0 0 create_code join_code wsys_static = Done r w' ∧
    (k <= 16)%nat ∧ (∀ j, (j < k)%nat → create_code j = 0) ∧
    s_jobs (w_sys w') = s_jobs sys_init ∧ s_readyjob_mutex (w_sys w') = false ∧
    if decide (k = 16)%nat then r = 0 ∧ worker_count w' = 0 ∧
      ∀ j, (j < 16)%nat → worker_at w' j (Worker (Z.of_nat j) 1 1)
    else r = 2 ∧ create_code k ≠ 0 ∧ worker_count w' = Z.of_nat k.
Proof.
  intros Hj. set (w0 := set_wsys sys_init wsys_static).
  assert (on_sys (schedi_job_init 0 0 0) wsys_static = Done 0 w0) as Hinit.
  { apply on_sys_run. unfold schedi_job_init. destruct lockless_readyjob; reflexivity. }
  destruct (init_loop_done create_code 16 0 w0) as (r & w1 & k & Hrun & Hk & Hcnt & Hz & Hres);
    [by cbn; lia|by cbn; lia|by cbn; lia|].
  assert (schedi_worker_init (create_answer create_code) 16 w0 = Done r w1) as Hrun' by exact Hrun.
  unfold initialization_main. bind_by exact Hinit. cbn [Z.eqb negb]. bind_by exact Hrun'.
  destruct (decide (k = 16)%nat) as [->|Hne].
  - destruct Hres as [-> (Hin & _ & Hlen & Hsys)]. cbn [Z.eqb negb].
    destruct (wake_all_run w1) as (r2 & w2 & Hrun2 & Hws & Hc2 & Hs2); [by rewrite Hsys|].
    bind_by exact Hrun2. rewrite Hsys in Hs2.
    destruct (deinit_done join_code w2 16) as (w3 & Hrun3 & Hc3 & Hw3 & Hs3); try done;
      [by rewrite Hc2, Hcnt|by rewrite Hws, Hlen; cbn; lia|by rewrite Hs2|].
    bind_by exact Hrun3. cbn [Z.eqb negb]. bind_by (by apply on_sys_run).
    assert (or_error (if lockless_readyjob then 0 else or_error (or_error 0 0) 0) 0 = 0) as ->
      by (by destruct lockless_readyjob).
    eexists _, _, 16%nat. split; [done|]. split; [lia|]. split; [intros; apply Hz; lia|].
    cbn [set_wsys w_sys worker_count]. rewrite Hs3, Hs2.
    split; [done|]. split; [done|]. rewrite decide_True by done. split; [done|]. split; [done|].
    intros j Hlt. specialize (Hin j ltac:(lia)). unfold worker_at in Hin. rewrite <-Hws in Hin.
    specialize (Hw3 j _ Hin). by rewrite decide_True in Hw3 by done.
  - destruct Hres as (-> & Hnz & w2 & (_ & _ & _ & Hsys) & ->). rewrite Nat.add_0_l in Hnz |- *.
    destruct (Z.eqb_spec (create_code k) 0) as [|_]; [done|]. cbn [negb].
    eexists _, _, k. split; [done|]. split; [done|]. split; [intros; apply Hz; lia|].
    change (w_sys (with_worker k _ w2)) with (w_sys w2). rewrite Hsys. split; [done|]. split; [done|].
    rewrite decide_False by done. split; [done|]. split; [done|]. exact Hcnt.
Qed.

(** ** avjobs.c *)

Section avjobs.
Context `{BuildConfig, JobAddress}.

Definition LEAF_COUNT : nat := 2.

(** [struct parent_ctx] with the contexts of the leaves in it; what a job's context points
    to: 0 is the parent's, [k + 1] that of leaf [k]. *)
Record parent_ctx : Type := ParentCtx {
  leaves : list (option nat);
  leaf_values : list Z;
  sum : Z;
  seen : Z;
}.
Definition set_leaf k i c := ParentCtx (<[k := i]> (leaves c)) (leaf_values c) (sum c) (seen c).
Definition set_value k v c := ParentCtx (leaves c) (<[k := v]> (leaf_values c)) (sum c) (seen c).
Definition set_sum x c := ParentCtx (leaves c) (leaf_values c) x (seen c).
Definition set_seen n c := ParentCtx (leaves c) (leaf_values c) (sum c) n.

Definition fn_leaf : nat := 1.
Definition fn_parent : nat := 2.

(** A leaf's [ctx->value], by the context pointer. *)
Definition leaf_get (ctx : Z) : M parent_ctx Z :=
  reads (λ c, if ctx <? 1 then None else leaf_values c !! Z.to_nat (ctx - 1)).
Definition leaf_put (ctx v : Z) : M parent_ctx unit :=
  modify (set_value (Z.to_nat (ctx - 1)) v).

Definition leaf_func (i : nat) : M (prog parent_ctx) Z :=
  ctx ← on_jobs (job_get context i);
  ph ← on_jobs (job_get phase i);
  if ph =? 0 then
    v ← on_user (leaf_get ctx);
    v ← on_user (int_math (v + 10));
    on_user (leaf_put ctx v) ≫= λ _,
    on_jobs (job_put (set_phase 1) i) ≫= λ _, mret 1
  else if ph =? 1 then
    v ← on_user (leaf_get ctx);
    v ← on_user (int_math (v * 2));
    on_user (leaf_put ctx v) ≫= λ _,
    on_jobs (job_put (set_phase 2) i) ≫= λ _, mret 1
  else mret (-1).

Fixpoint create_leaves (job : nat) (n k : nat) : M (prog parent_ctx) unit :=
  match n with
  | O => mret ()
  | S n =>
      on_user (modify (set_value k ((Z.of_nat k + 1) * 5))) ≫= λ _,
      leaf ← on_jobs (schedi_job_create (Z.of_nat k + 1) fn_leaf None);
      on_user (modify (set_leaf k leaf)) ≫= λ _,
      match leaf with
      | None => undef
      | Some l => on_jobs (schedi_job_tool_job job l) ≫= λ _, create_leaves job n (S k)
      end
  end.
Fixpoint start_leaves (n k : nat) : M (prog parent_ctx) unit :=
  match n with
  | O => mret ()
  | S n =>
      leaf ← on_user (reads (λ c, mjoin (leaves c !! k)));
      on_jobs (schedi_job_setready leaf) ≫= λ _, start_leaves n (S k)
  end.
Fixpoint gather_leaves (n k : nat) : M (prog parent_ctx) unit :=
  match n with
  | O => mret ()
  | S n =>
      leaf ← on_user (reads (λ c, mjoin (leaves c !! k)));
      ctx ← on_jobs (job_get context leaf);
      v ← on_user (leaf_get ctx);
      x ← on_user (gets sum);
      x ← on_user (int_math (x + v));
      on_user (modify (set_sum x)) ≫= λ _,
      y ← on_user (gets seen);
      y ← on_user (int_math (y + 1));
      on_user (modify (set_seen y)) ≫= λ _, gather_leaves n (S k)
  end.

Definition parent_func (i : nat) : M (prog parent_ctx) Z :=
  ph ← on_jobs (job_get phase i);
  if ph =? 0 then
    create_leaves i LEAF_COUNT 0 ≫= λ _,
    on_jobs (schedi_job_required_available_jobs i (Z.of_nat LEAF_COUNT)) ≫= λ _,
    start_leaves LEAF_COUNT 0 ≫= λ _,
    on_jobs (job_put (set_phase 1) i) ≫= λ _, mret 1
  else if ph =? 1 then gather_leaves LEAF_COUNT 0 ≫= λ _, mret (-1)
  else mret (-1).

Definition avjobs_code (f i : nat) : M (prog parent_ctx) Z :=
  if (f =? fn_leaf)%nat then leaf_func i
  else if (f =? fn_parent)%nat then parent_func i else undef.

(** [main]; [parent_indicator] is indicator 0, and [order] is what the workers do before
    [main] waits. *)
Definition avjobs_main (order : list nat) : M (prog parent_ctx) Z :=
  r ← on_jobs (schedi_job_init 0 0 0);
  if negb (r =? 0) then mret 1
  else
    r ← on_lib (schedi_worker_init (λ _, mret 0) 4);
    if negb (r =? 0) then mret 2
    else
      on_user (modify (λ _, ParentCtx [None; None] [0; 0] 0 0)) ≫= λ _,
      parent ← on_jobs (schedi_job_create 0 fn_parent None);
      match parent with
      | None => mret 3
      | Some p =>
          on_jobs (new_indicator 0) ≫= λ _,
          on_jobs (job_put (set_indicator (Some 0%nat)) p) ≫= λ _,
          on_jobs (schedi_job_setready p) ≫= λ _,
          work avjobs_code order (replicate 4 AtTop) ≫= λ _,
          on_jobs (on_indicator 0 (schedi_job_completion_wait stuck)) ≫= λ _,
          r ← on_lib (schedi_worker_deinit (λ _, mret 0));
          if negb (r =? 0) then mret 4
          else
            r ← on_jobs (schedi_job_deinit 0 0 0);
            mret (if negb (r =? 0) then 5 else 0)
      end.
End avjobs.

(** ** ajob.c *)

Section ajob.
Context `{BuildConfig, JobAddress}.

Record custom_job_context : Type := Custom { inp : Z; result : Z; runs : Z }.
Definition set_result x c := Custom (inp c) x (runs c).
Definition set_runs x c := Custom (inp c) (result c) x.

(** [GetContext]: [malloc]ed memory, of which only [inp] is set. *)
Definition GetContext (x : Z) (garbage : custom_job_context) : custom_job_context :=
  Custom x (result garbage) (runs garbage).

Definition ajob_func (i : nat) : M (prog custom_job_context) Z :=
  on_user (modify (λ c, set_runs (u32 (runs c + 1)) c)) ≫= λ _,
  ph ← on_jobs (job_get phase i);
  if ph =? 0 then
    x ← on_user (gets inp);
    r ← on_user (int_math (Z.rem x 7 + Z.rem x 5 + Z.rem x 3));
    on_user (modify (set_result r)) ≫= λ _,
    on_jobs (job_put (set_phase 1) i) ≫= λ _, mret 1
  else if ph =? 1 then
    r ← on_user (gets result);
    r ← on_user (int_math (r + 1));
    on_user (modify (set_result r)) ≫= λ _,
    mret (if Z.rem r 625 =? 0 then -1 else 1)
  else mret 1.

(** The calls until the function returns a negative value; their number. *)
Fixpoint calls (fuel : nat) (i : nat) : M (prog custom_job_context) nat :=
  match fuel with
  | O => stuck
  | S fuel =>
      r ← ajob_func i;
      if r <? 0 then mret 1%nat else n ← calls fuel i; mret (S n)
  end.

(** [main] up to its [return 0], with 16 workers that do [order] before it waits. *)
Definition ajob_main (order : list nat) (garbage : custom_job_context)
    : M (prog custom_job_context) Z :=
  r ← on_jobs (schedi_job_init 0 0 0);
  if negb (r =? 0) then mret 1
  else
    on_user (modify (λ _, GetContext 6 garbage)) ≫= λ _,
    job ← on_jobs (schedi_job_create 0 1 None);
    match job with
    | None => undef
    | Some i =>
        on_jobs (new_indicator 0) ≫= λ _,
        on_jobs (job_put (set_indicator (Some 0%nat)) i) ≫= λ _,
        on_jobs (schedi_job_setready i) ≫= λ _,
        r ← on_lib (schedi_worker_init (λ _, mret 0) 16);
        if negb (r =? 0) then mret 2
        else
          work (λ _, ajob_func) order (replicate 16 AtTop) ≫= λ _,
          on_jobs (on_indicator 0 (schedi_job_completion_wait stuck)) ≫= λ _,
          on_jobs (on_cache schedi_wake_all_job_waiters) ≫= λ _, mret 0
    end.

(** *** How often the job runs *)

Lemma on_jobs_run {U A} (m : M sys A) (p : prog U) a s :
  m (w_sys (p_lib p)) = Done a s →
  on_jobs m p = Done a (set_lib (set_wsys s (p_lib p)) p).
Proof. intros E. apply zoom_done. by apply zoom_done. Qed.

Lemma on_user_run {U A} (m : M U A) (p : prog U) a u :
  m (p_user p) = Done a u → on_user m p = Done a (set_user u p).
Proof. apply (zoom_done p_user set_user). Qed.
Lemma same_lib {U} (p : prog U) : set_lib (set_wsys (w_sys (p_lib p)) (p_lib p)) p = p.
Proof. by destruct p as [u []]. Qed.

Lemma u32_add_twice a n : u32 (u32 (a + 1) + Z.of_nat n) = u32 (a + Z.of_nat (S n)).
Proof. unfold u32. rewrite Zplus_mod_idemp_l. f_equal. lia. Qed.

(** A run in phase 1. *)
Lemma ajob_step i j u w :
  job_at (w_sys w) i j → phase j = 1 → - 2 ^ 31 <= result u + 1 < 2 ^ 31 →
  ajob_func i (Prog u w) =
    Done (if Z.rem (result u + 1) 625 =? 0 then -1 else 1)
      (Prog (Custom (inp u) (result u + 1) (u32 (runs u + 1))) w).
Proof.
  intros Hj Hph Hr. unfold ajob_func. bind_by done.
  bind_by (apply on_jobs_run, job_get_run; exact Hj). rewrite same_lib, Hph. cbn [Z.eqb Pos.eqb].
  bind_by done. bind_by (by apply on_user_run, int_math_run). by bind_by done.
Qed.

Lemma calls_phase_one n : ∀ i j u w,
  job_at (w_sys w) i j → phase j = 1 → - 2 ^ 31 <= result u → result u + Z.of_nat n < 2 ^ 31 →
  (1 <= n)%nat → Z.rem (result u + Z.of_nat n) 625 = 0 →
  (∀ k, 1 <= k < Z.of_nat n → Z.rem (result u + k) 625 ≠ 0) →
  ∀ fuel, (n <= fuel)%nat →
  calls fuel i (Prog u w) =
    Done n (Prog (Custom (inp u) (result u + Z.of_nat n) (u32 (runs u + Z.of_nat n))) w).
Proof.
  induction n as [|n IH]; intros i j u w Hj Hph Hlo Hhi Hn Hz Hnz fuel Hf; [lia|].
  destruct fuel as [|fuel]; [lia|]. cbn [calls]. bind_by (by apply (ajob_step i j); [| |lia]).
  destruct (decide (n = 0)%nat) as [->|Hn0].
  - change (Z.of_nat 1) with 1 in *. by rewrite Hz.
  - specialize (Hnz 1 ltac:(lia)) as H1. apply Z.eqb_neq in H1. rewrite H1. cbn [Z.ltb Z.compare].
    assert (result u + 1 + Z.of_nat n = result u + Z.of_nat (S n)) as E by lia.
    rewrite (bind_done _ _ _ _ _ (IH i j
      (Custom (inp u) (result u + 1) (u32 (runs u + 1))) w Hj Hph ltac:(cbn; lia) ltac:(cbn; lia) ltac:(lia)
      ltac:(cbn; by rewrite E) ltac:(intros k Hk; cbn; rewrite <-Z.add_assoc; apply Hnz; lia)
      fuel ltac:(lia))).
    cbn [result inp runs]. rewrite E, u32_add_twice. done.
Qed.

(** The value phase 0 leaves, and the runs of phase 1 after it. *)
Definition first_result (x : Z) : Z := Z.rem x 7 + Z.rem x 5 + Z.rem x 3.
Definition later_runs (x : Z) : nat :=
  Z.to_nat (if first_result x <? 0 then - first_result x else 625 - first_result x).

Lemma first_result_range x : -12 <= first_result x <= 12.
Proof.
  unfold first_result.
  pose proof (Z.rem_bound_abs x 7). pose proof (Z.rem_bound_abs x 5).
  pose proof (Z.rem_bound_abs x 3). lia.
Qed.

Lemma first_multiple x : let r := first_result x in let n := later_runs x in
  (1 <= n)%nat ∧ (n <= 625)%nat ∧ Z.rem (r + Z.of_nat n) 625 = 0 ∧
  ∀ k, 1 <= k < Z.of_nat n → Z.rem (r + k) 625 ≠ 0.
Proof.
  intros r n. pose proof (first_result_range x) as Hr. fold r in Hr. unfold n, later_runs.
  fold r. destruct (Z.ltb_spec r 0).
  - rewrite Z2Nat.id by lia. split; [lia|]. split; [lia|].
    replace (r + - r) with 0 by lia. split; [done|]. intros k Hk.
    rewrite <-(Z.opp_involutive (r + k)), Z.rem_opp_l', Z.rem_small by lia. lia.
  - rewrite Z2Nat.id by lia. split; [lia|]. split; [lia|].
    replace (r + (625 - r)) with 625 by lia. split; [done|]. intros k Hk.
    rewrite Z.rem_small by lia. lia.
Qed.

(** However the context's memory was, and whatever its input: the job, run again and again,
    completes, after at most 626 runs, with a multiple of 625, having counted its runs. *)
Theorem ajob_terminates i j x garbage w fuel :
  job_at (w_sys w) i j → phase j = 0 → (626 <= fuel)%nat →
  ∃ n w', calls fuel i (Prog (GetContext x garbage) w) =
      Done n (Prog (Custom x (first_result x + Z.of_nat (n - 1)) (u32 (runs garbage + Z.of_nat n))) w') ∧
    (2 <= n <= 626)%nat ∧ Z.rem (first_result x + Z.of_nat (n - 1)) 625 = 0 ∧
    w' = set_wsys (with_job i (set_phase 1 j) (w_sys w)) w.
Proof.
  intros Hj Hph Hf. destruct (first_multiple x) as (Hn & Hle & Hz & Hnz).
  pose proof (first_result_range x) as Hr. destruct fuel as [|fuel]; [lia|].
  set (w' := set_wsys (with_job i (set_phase 1 j) (w_sys w)) w).
  set (u1 := Custom x (first_result x) (u32 (runs garbage + 1))).
  assert (ajob_func i (Prog (GetContext x garbage) w) = Done 1 (Prog u1 w')) as Hfirst.
  { unfold ajob_func. bind_by done. bind_by (apply on_jobs_run, job_get_run; exact Hj).
    rewrite same_lib, Hph. cbn [Z.eqb]. bind_by done.
    bind_by (apply on_user_run, int_math_run; change (- 2 ^ 31 <= first_result x < 2 ^ 31); lia). bind_by done.
    by bind_by (apply on_jobs_run, job_put_run; exact Hj). }
  exists (S (later_runs x)), w'. cbn [calls]. rewrite (bind_done _ _ _ _ _ Hfirst).
  cbn [Z.ltb Z.compare]. replace (S (later_runs x) - 1)%nat with (later_runs x) by lia.
  rewrite (bind_done _ _ _ _ _ (calls_phase_one (later_runs x) i (set_phase 1 j) u1 w'
    ltac:(by eapply job_at_with) eq_refl ltac:(cbn; lia) ltac:(cbn; lia) Hn Hz Hnz fuel ltac:(lia))).
  split; [|split; [lia|done]]. cbn [u1 inp result runs]. by rewrite u32_add_twice.
Qed.
End ajob.

Section run.
#[local] Existing Instance default_build.
#[local] Existing Instance contiguous_jobs.

Definition avjobs_start : prog parent_ctx :=
  Prog (ParentCtx [] [] 0 0) wsys_static.
Definition round_robin (n : nat) : list nat := concat (replicate n [0; 1; 2; 3]%nat).

Definition avjobs_run (n : nat) : outcome (prog parent_ctx) Z := avjobs_main (round_robin n) avjobs_start.

(** Run by its four workers in turn, the program ends with 0; the parent has seen both leaves
    and their sum is 70. *)
Theorem avjobs_passes : ∃ p, avjobs_run 30 = Done 0 p ∧ sum (p_user p) = 70 ∧ seen (p_user p) = 2.
Proof.
  exists (final_of avjobs_start (avjobs_run 30)). split; [|by vm_compute].
  apply (run_final (avjobs_main (round_robin 30)) avjobs_start 0). by vm_compute.
Qed.

Lemma ajob_terminates_witness :
  ∃ n w', calls 626 0 (Prog (GetContext (-8) (Custom 0 41 7)) (set_wsys sys_one wsys_init)) =
      Done n (Prog (Custom (-8) (first_result (-8) + Z.of_nat (n - 1)) (u32 (7 + Z.of_nat n))) w') ∧
    (2 <= n <= 626)%nat ∧ Z.rem (first_result (-8) + Z.of_nat (n - 1)) 625 = 0 ∧
    w' = set_wsys (with_job 0 (set_phase 1 job_one) (w_sys (set_wsys sys_one wsys_init)))
           (set_wsys sys_one wsys_init).
Proof.
  apply (ajob_terminates 0 job_one (-8) (Custom 0 41 7) (set_wsys sys_one wsys_init) 626).
  - exact sys_one_job.
  - reflexivity.
  - lia.
Defined.

(** With the input of [main] that is 619 runs, here all by worker 3; the result is 625.
    [runs] was never initialised, so it counts from whatever the memory held. *)
Definition ajob_start : prog custom_job_context :=
  Prog (Custom 0 0 0) wsys_static.
Definition ajob_run (garbage : Z) : outcome (prog custom_job_context) Z :=
  ajob_main (replicate (7 * 619) 3%nat) (Custom 0 0 garbage) ajob_start.

Theorem ajob_ends : ∃ p, ajob_run 1000 = Done 0 p ∧ result (p_user p) = 625 ∧ runs (p_user p) = 1619.
Proof.
  exists (final_of ajob_start (ajob_run 1000)). split; [|by vm_compute].
  apply (run_final (ajob_main (replicate (7 * 619) 3%nat) (Custom 0 0 1000)) ajob_start 0).
  by vm_compute.
Qed.

(** ** A slot's last indicator *)

(** [schedi_job_create] leaves the completion indicator of the slot's last job in place: a
    job that nobody asked an indicator for indicates the one of the job before it, which may
    be gone. *)
Definition reuse : M sys (option nat) :=
  first ← schedi_job_create 0 1 None;
  match first with
  | None => undef
  | Some i =>
      new_indicator 7 ≫= λ _, job_put (set_indicator (Some 7%nat)) i ≫= λ _,
      after_run i (-1) ≫= λ _, between_jobs ≫= λ _,
      on_indicator 7 schedi_completion_indicator_destroy ≫= λ _,
      schedi_job_create 0 2 None
  end.

Theorem reused_slot_keeps_indicator :
  ∃ s, reuse sys_init = Done (Some 0%nat) s ∧
    (completion_indicator <$> s_jobs s !! 0%nat) = Some (Some 7%nat) ∧
    (broadcasts <$> s_indicators s !! 7%nat) = Some 1%nat ∧
    ∃ s', after_run 0 (-1) s = Done () s' ∧ (broadcasts <$> s_indicators s' !! 7%nat) = Some 2%nat.
Proof.
  exists (final_of sys_init (reuse sys_init)).
  split; [apply (run_final reuse sys_init); by vm_compute|].
  split; [by vm_compute|]. split; [by vm_compute|].
  exists (final_of sys_init (after_run 0 (-1) (final_of sys_init (reuse sys_init)))).
  split; [|by vm_compute].
  set (s := final_of sys_init (reuse sys_init)).
  assert (result_of (after_run 0 (-1) s) = Some ()) as Hr by (by vm_compute).
  destruct (after_run 0 (-1) s) as [[] s'| |]; [done|done|done].
Qed.
End run.
