(* ===== verification/Parallel.v ===== *)
(** * A loop split over jobs (src/examples/aparalleljob.c, aparalleljob_mono.c)

    The example fills two vectors and multiplies them, in one loop or by jobs that each
    take a range of the indices.  [main]'s table of ranges covers every index, and running
    the jobs one after another, in any order, gives what the one loop gives.  Neighbouring
    ranges share an index, so two jobs that run at once can multiply an element twice. *)

From S2P Require Export Programs.

Local Open Scope Z_scope.

Section parallel.
Context {V : Type} (RANDOM_VECTOR : V) (DotProduct : V → V → V).

(** [VECTOR_COUNT] and [PARALLEL_JOB_COUNT] of aparalleljob_parameters.h. *)
Variables VECTOR_COUNT PARALLEL_JOB_COUNT : Z.

(** The global arrays: [start_end], [vecs] and [params]. *)
Record arrays : Type := Arrays {
  start_end : list (Z * Z);
  vecs : list V;
  params : list V;
}.
Definition set_start_end x a := Arrays x (vecs a) (params a).
Definition set_vecs x a := Arrays (start_end a) x (params a).
Definition set_params x a := Arrays (start_end a) (vecs a) x.

(** An access out of the array is undefined. *)
Definition at_index {A} (l : list A) (i : Z) : option A :=
  if i <? 0 then None else l !! Z.to_nat i.
Definition put_index {A} (i : Z) (x : A) (l : list A) : option (list A) :=
  match at_index l i with Some _ => Some (<[Z.to_nat i := x]> l) | None => None end.

Definition get_range (i : Z) : M arrays (Z * Z) := reads (λ a, at_index (start_end a) i).
Definition put_range (i : Z) (r : Z * Z) : M arrays unit :=
  updates (λ a, (λ l, set_start_end l a) <$> put_index i r (start_end a)).
Definition put_vec (i : Z) (v : V) : M arrays unit :=
  updates (λ a, (λ l, set_vecs l a) <$> put_index i v (vecs a)).
Definition put_param (i : Z) (v : V) : M arrays unit :=
  updates (λ a, (λ l, set_params l a) <$> put_index i v (params a)).

(** The accesses of one turn of the loop. *)
Inductive access : Type := StoreVec (i : Z) | StoreParam (i : Z) | Multiply (i : Z).

Definition do_access (x : access) : M arrays unit :=
  match x with
  | StoreVec i => put_vec i RANDOM_VECTOR
  | StoreParam i => put_param i RANDOM_VECTOR
  | Multiply i =>
      v ← reads (λ a, at_index (vecs a) i);
      p ← reads (λ a, at_index (params a) i);
      put_vec i (DotProduct v p)
  end.
Fixpoint do_accesses (xs : list access) : M arrays unit :=
  match xs with
  | [] => mret ()
  | x :: xs => do_access x ≫= λ _, do_accesses xs
  end.

Definition loop_body (i : Z) : list access := [StoreVec i; StoreParam i; Multiply i].

(** [job_func] with the index of its context: [i] is unsigned, and so is the comparison. *)
Fixpoint job_loop (fuel : nat) (i last : Z) : M arrays unit :=
  match fuel with
  | O => stuck
  | S fuel =>
      if i <=? u32 last then
        do_accesses (loop_body i) ≫= λ _, job_loop fuel (u32 (i + 1)) last
      else mret ()
  end.
Definition job_func (fuel : nat) (proc_indice : Z) : M arrays Z :=
  '(first, last) ← get_range proc_indice;
  job_loop fuel (u32 first) last ≫= λ _, mret (-1).

(** [main]'s table. *)
Fixpoint range_loop (n : nat) (i : Z) : M arrays unit :=
  match n with
  | O => mret ()
  | S n =>
      '(_, e) ← get_range (i - 1);
      '(_, e0) ← get_range 0;
      put_range i (e, s32 (u32 e0 * (i + 1))) ≫= λ _, range_loop n (i + 1)
  end.
Definition make_ranges : M arrays unit :=
  put_range 0 (0, Z.quot VECTOR_COUNT PARALLEL_JOB_COUNT) ≫= λ _,
  range_loop (Z.to_nat (PARALLEL_JOB_COUNT - 2)) 1 ≫= λ _,
  '(_, e) ← get_range (PARALLEL_JOB_COUNT - 2);
  put_range (PARALLEL_JOB_COUNT - 1) (e, VECTOR_COUNT - 1).

(** aparalleljob_mono.c. *)
Fixpoint mono_loop (n : nat) (i : Z) : M arrays unit :=
  match n with
  | O => mret ()
  | S n => do_accesses (loop_body i) ≫= λ _, mono_loop n (i + 1)
  end.
Definition mono_main : M arrays Z := mono_loop (Z.to_nat VECTOR_COUNT) 0 ≫= λ _, mret 0.

(** The jobs one after another, in the order [order]. *)
Fixpoint run_jobs (fuel : nat) (order : list Z) : M arrays unit :=
  match order with
  | [] => mret ()
  | k :: order => job_func fuel k ≫= λ _, run_jobs fuel order
  end.

(** Global arrays are zeroed; [zero] is a vector of zeros. *)
Definition arrays_zero (zero : V) : arrays :=
  Arrays (replicate (Z.to_nat PARALLEL_JOB_COUNT) (0, 0))
    (replicate (Z.to_nat VECTOR_COUNT) zero) (replicate (Z.to_nat VECTOR_COUNT) zero).

(** ** The table *)

Lemma at_index_in {A} (l : list A) i :
  0 <= i < Z.of_nat (length l) → ∃ x, at_index l i = Some x ∧ l !! Z.to_nat i = Some x.
Proof.
  intros Hi. destruct (lookup_lt_is_Some_2 l (Z.to_nat i)) as [x Hx]; [lia|]. exists x.
  unfold at_index. by replace (i <? 0) with false by lia.
Qed.

Lemma put_index_in {A} (l : list A) i x :
  0 <= i < Z.of_nat (length l) → put_index i x l = Some (<[Z.to_nat i := x]> l).
Proof.
  intros Hi. unfold put_index. by destruct (at_index_in l i Hi) as (y & -> & _).
Qed.

(** Hypotheses on the parameters: at least two jobs, an element for each, [int]s. *)
Definition parameters_ok : Prop :=
  2 <= PARALLEL_JOB_COUNT <= VECTOR_COUNT ∧ VECTOR_COUNT < 2 ^ 31.

Definition share : Z := VECTOR_COUNT / PARALLEL_JOB_COUNT.
(** The range of job [i]. *)
Definition range_of (i : Z) : Z * Z :=
  (share * i, if i =? PARALLEL_JOB_COUNT - 1 then VECTOR_COUNT - 1 else share * (i + 1)).

Lemma share_ok : parameters_ok →
  1 <= share ∧ share * PARALLEL_JOB_COUNT <= VECTOR_COUNT ∧
  Z.quot VECTOR_COUNT PARALLEL_JOB_COUNT = share.
Proof.
  intros [Hp Hv]. unfold share. split_and!.
  - apply Z.div_le_lower_bound; lia.
  - pose proof (Z.mul_div_le VECTOR_COUNT PARALLEL_JOB_COUNT). lia.
  - apply Z.quot_div_nonneg; lia.
Qed.

(** The first [n] entries are the ranges. *)
Definition ranges_upto (n : Z) (a : arrays) : Prop :=
  Z.of_nat (length (start_end a)) = PARALLEL_JOB_COUNT ∧
  ∀ i, 0 <= i < n → at_index (start_end a) i = Some (range_of i).

Lemma get_range_run n i a :
  ranges_upto n a → 0 <= i < n → get_range i a = Done (range_of i) a.
Proof. intros [_ Hr] Hi. unfold get_range, reads. by rewrite Hr. Qed.

Lemma range_of_inner i : i ≠ PARALLEL_JOB_COUNT - 1 → range_of i = (share * i, share * (i + 1)).
Proof. intros Hi. unfold range_of. by replace (i =? _) with false by lia. Qed.

Lemma put_range_upto n a r :
  ranges_upto n a → 0 <= n < PARALLEL_JOB_COUNT → r = range_of n →
  ∃ a', put_range n r a = Done () a' ∧ ranges_upto (n + 1) a' ∧ vecs a' = vecs a ∧
    params a' = params a.
Proof.
  intros [Hl Hr] Hn ->. eexists. unfold put_range, updates. rewrite put_index_in by lia.
  split; [done|]. split; [split|done].
  - cbn. by rewrite length_insert.
  - intros i Hi. unfold at_index. replace (i <? 0) with false by lia. cbn.
    destruct (decide (i = n)) as [->|Hne]; [apply list_lookup_insert_eq; lia|].
    rewrite list_lookup_insert_ne by lia. specialize (Hr i ltac:(lia)). unfold at_index in Hr.
    by replace (i <? 0) with false in Hr by lia.
Qed.

Lemma range_loop_done k n a :
  parameters_ok → ranges_upto n a → 1 <= n → n + Z.of_nat k = PARALLEL_JOB_COUNT - 1 →
  ∃ a', range_loop k n a = Done () a' ∧ ranges_upto (PARALLEL_JOB_COUNT - 1) a' ∧
    vecs a' = vecs a ∧ params a' = params a.
Proof.
  intros Hp. revert n a. induction k as [|k IH]; intros n a Hr Hn Hk; cbn [range_loop].
  { exists a. split; [done|]. by replace (PARALLEL_JOB_COUNT - 1) with n by lia. }
  destruct (share_ok Hp) as (Hs1 & Hs2 & _). destruct Hp as [Hp Hv].
  bind_by (apply (get_range_run n); [done|lia]). rewrite range_of_inner by lia.
  bind_by (apply (get_range_run n); [done|lia]). rewrite range_of_inner by lia.
  cbn beta iota.
  assert (share * (n + 1) <= share * PARALLEL_JOB_COUNT) by (apply Z.mul_le_mono_nonneg_l; lia).
  assert (share * 1 <= share * (n + 1)) by (apply Z.mul_le_mono_nonneg_l; lia).
  destruct (put_range_upto n a (share * (n - 1 + 1), s32 (u32 (share * (0 + 1)) * (n + 1))) Hr)
    as (a1 & Hrun & Hr1 & E1 & E2); [lia| |].
  { rewrite range_of_inner by lia. f_equal; [f_equal; lia|].
    replace (share * (0 + 1)) with share by lia. unfold s32, u32.
    rewrite (Z.mod_small share), (Z.mod_small (share * _)) by lia.
    replace (_ <? _) with true by lia. done. }
  bind_by exact Hrun. destruct (IH (n + 1) a1 Hr1) as (a2 & Hrun2 & Hr2 & E3 & E4); [lia|lia|].
  exists a2. split; [done|]. split; [done|]. split; congruence.
Qed.

Lemma make_ranges_done a :
  parameters_ok → Z.of_nat (length (start_end a)) = PARALLEL_JOB_COUNT →
  ∃ a', make_ranges a = Done () a' ∧ ranges_upto PARALLEL_JOB_COUNT a' ∧ vecs a' = vecs a ∧
    params a' = params a.
Proof.
  intros Hp Hl. pose proof Hp as [Hjobs _]. destruct (share_ok Hp) as (Hs1 & Hs2 & Hq).
  unfold make_ranges. rewrite Hq.
  destruct (put_range_upto 0 a (0, share)) as (a1 & Hrun1 & Hr1 & E1 & E2); [split; [done|lia]|lia| |].
  { rewrite range_of_inner by lia. f_equal; lia. }
  bind_by exact Hrun1.
  destruct (range_loop_done (Z.to_nat (PARALLEL_JOB_COUNT - 2)) 1 a1 Hp Hr1)
    as (a2 & Hrun2 & Hr2 & E3 & E4); [lia|lia|].
  bind_by exact Hrun2.
  bind_by (apply (get_range_run (PARALLEL_JOB_COUNT - 1)); [done|lia]).
  rewrite range_of_inner by lia. cbn beta iota.
  destruct (put_range_upto (PARALLEL_JOB_COUNT - 1) a2
    (share * (PARALLEL_JOB_COUNT - 2 + 1), VECTOR_COUNT - 1) Hr2) as (a3 & Hrun3 & Hr3 & E5 & E6); [lia| |].
  { unfold range_of. rewrite Z.eqb_refl. f_equal. f_equal. lia. }
  exists a3. split; [exact Hrun3|]. rewrite Z.sub_add in Hr3. split; [done|]. split; congruence.
Qed.

(** ** The loops *)

(** The arrays have their length, and the elements [X] their final values. *)
Definition good (X : Z → Prop) (a : arrays) : Prop :=
  Z.of_nat (length (vecs a)) = VECTOR_COUNT ∧ Z.of_nat (length (params a)) = VECTOR_COUNT ∧
  ∀ i, X i → 0 <= i < VECTOR_COUNT →
    vecs a !! Z.to_nat i = Some (DotProduct RANDOM_VECTOR RANDOM_VECTOR) ∧
    params a !! Z.to_nat i = Some RANDOM_VECTOR.

Lemma good_ext X Y a : (∀ i, Y i → X i) → good X a → good Y a.
Proof. intros HXY (Hv & Hp & Hx). split; [done|]. split; [done|]. auto. Qed.

(** [m] finishes the elements [X]. *)
Definition finishes {A} (X : Z → Prop) (m : M arrays A) (r : A) : Prop := ∀ Y a, good Y a →
  ∃ a', m a = Done r a' ∧ good (λ i, X i ∨ Y i) a' ∧ start_end a' = start_end a.

Lemma at_index_insert {A} (l : list A) i x :
  0 <= i < Z.of_nat (length l) → at_index (<[Z.to_nat i := x]> l) i = Some x.
Proof.
  intros Hi. unfold at_index. replace (i <? 0) with false by lia.
  apply list_lookup_insert_eq. lia.
Qed.

Lemma store_vec_run i a : 0 <= i < Z.of_nat (length (vecs a)) →
  do_access (StoreVec i) a = Done () (set_vecs (<[Z.to_nat i := RANDOM_VECTOR]> (vecs a)) a).
Proof. intros Hi. cbn. unfold put_vec, updates. by rewrite put_index_in. Qed.
Lemma store_param_run i a : 0 <= i < Z.of_nat (length (params a)) →
  do_access (StoreParam i) a = Done () (set_params (<[Z.to_nat i := RANDOM_VECTOR]> (params a)) a).
Proof. intros Hi. cbn. unfold put_param, updates. by rewrite put_index_in. Qed.
Lemma multiply_run i v p a : at_index (vecs a) i = Some v → at_index (params a) i = Some p →
  do_access (Multiply i) a =
    Done () (set_vecs (<[Z.to_nat i := DotProduct v p]> (vecs a)) a).
Proof.
  intros Hv Hp. cbn. bind_by (unfold reads; by rewrite Hv). bind_by (unfold reads; by rewrite Hp).
  unfold put_vec, updates, put_index. by rewrite Hv.
Qed.

Lemma body_finishes i :
  0 <= i < VECTOR_COUNT → finishes (λ k, k = i) (do_accesses (loop_body i)) ().
Proof.
  intros Hi Y a (Hv & Hp & HY). cbn [do_accesses loop_body].
  bind_by (apply store_vec_run; lia). bind_by (apply store_param_run; cbn; lia).
  bind_by (apply (multiply_run i RANDOM_VECTOR RANDOM_VECTOR); cbn; apply at_index_insert; lia).
  eexists. split; [done|]. split; [|done]. split; [|split]; cbn; rewrite ?length_insert; [done|done|].
  intros k Hk Hr. destruct (decide (k = i)) as [->|Hne].
  - rewrite !list_lookup_insert_eq; rewrite ?length_insert; [done|lia..].
  - rewrite !list_lookup_insert_ne by lia. destruct Hk as [?|Hk]; [done|]. by apply HY.
Qed.

Lemma finishes_seq {A B} X1 X2 (m : M arrays A) (k : A → M arrays B) r1 r2 :
  finishes X1 m r1 → finishes X2 (k r1) r2 → finishes (λ i, X1 i ∨ X2 i) (m ≫= k) r2.
Proof.
  intros Hm Hk Y a Ha. destruct (Hm Y a Ha) as (a1 & Hrun1 & Ha1 & E1).
  destruct (Hk _ a1 Ha1) as (a2 & Hrun2 & Ha2 & E2). exists a2.
  split; [by bind_by exact Hrun1|]. split; [|congruence].
  eapply good_ext; [|exact Ha2]. naive_solver.
Qed.
Lemma finishes_ret {A} (r : A) : finishes (λ _, False) (mret r) r.
Proof.
  intros Y a Ha. exists a. split; [done|]. split; [|done]. eapply good_ext; [|exact Ha]. naive_solver.
Qed.
Lemma finishes_ext {A} X X' (m : M arrays A) r :
  (∀ i, X' i → X i) → finishes X m r → finishes X' m r.
Proof.
  intros HX Hm Y a Ha. destruct (Hm Y a Ha) as (a' & ? & Ha' & ?). exists a'. split; [done|].
  split; [|done]. eapply good_ext; [|exact Ha']. naive_solver.
Qed.

Lemma mono_finishes n i :
  0 <= i → i + Z.of_nat n <= VECTOR_COUNT →
  finishes (λ k, i <= k < i + Z.of_nat n) (mono_loop n i) ().
Proof.
  revert i. induction n as [|n IH]; intros i Hi Hn; cbn [mono_loop].
  - eapply finishes_ext; [|apply finishes_ret]. cbn. lia.
  - eapply finishes_ext; [|eapply finishes_seq; [apply body_finishes; lia|apply (IH (i + 1)); lia]].
    cbn. lia.
Qed.

Lemma job_finishes fuel i last :
  0 <= i → 0 <= last < VECTOR_COUNT → VECTOR_COUNT < 2 ^ 31 → (Z.to_nat (last + 1 - i) < fuel)%nat →
  finishes (λ k, i <= k <= last) (job_loop fuel i last) ().
Proof.
  intros Hi Hlast Hv. revert i Hi. induction fuel as [|fuel IH]; intros i Hi Hf; [lia|].
  cbn [job_loop]. unfold u32 at 1. rewrite (Z.mod_small last) by lia.
  destruct (Z.leb_spec i last).
  - unfold u32. rewrite Z.mod_small by lia.
    eapply finishes_ext; [|eapply finishes_seq; [apply body_finishes; lia|apply (IH (i + 1)); lia]].
    cbn. lia.
  - eapply finishes_ext; [|apply finishes_ret]. cbn. lia.
Qed.

(** ** All jobs *)

Lemma range_bounds k : parameters_ok → 0 <= k < PARALLEL_JOB_COUNT →
  0 <= (range_of k).1 ∧ 0 <= (range_of k).2 < VECTOR_COUNT ∧ (range_of k).1 < VECTOR_COUNT.
Proof.
  intros Hp Hk. destruct (share_ok Hp) as (Hs1 & Hs2 & _). destruct Hp as [Hp Hv].
  assert (share * k <= share * (PARALLEL_JOB_COUNT - 1)) by (apply Z.mul_le_mono_nonneg_l; lia).
  assert (0 <= share * k) by nia.
  unfold range_of. cbn [fst snd]. destruct (Z.eqb_spec k (PARALLEL_JOB_COUNT - 1)); [lia|].
  assert (share * (k + 1) <= share * (PARALLEL_JOB_COUNT - 1)) by (apply Z.mul_le_mono_nonneg_l; lia).
  lia.
Qed.

Lemma ranges_cover i : parameters_ok → 0 <= i < VECTOR_COUNT →
  ∃ k, 0 <= k < PARALLEL_JOB_COUNT ∧ (range_of k).1 <= i <= (range_of k).2.
Proof.
  intros Hp Hi. destruct (share_ok Hp) as (Hs1 & Hs2 & _). destruct Hp as [Hp Hv].
  exists (Z.min (i / share) (PARALLEL_JOB_COUNT - 1)). pose proof (Z.div_pos i share).
  split; [lia|]. pose proof (Z.mul_div_le i share). pose proof (Z.mul_succ_div_gt i share).
  unfold range_of. cbn [fst snd]. destruct (Z.leb_spec (PARALLEL_JOB_COUNT - 1) (i / share)).
  - rewrite Z.min_r by lia. rewrite Z.eqb_refl. nia.
  - rewrite Z.min_l by lia. replace (_ =? _) with false by lia. nia.
Qed.

(** Some job of [order] has the element. *)
Definition in_jobs (order : list Z) (i : Z) : Prop :=
  ∃ k, k ∈ order ∧ (range_of k).1 <= i <= (range_of k).2.

Lemma run_jobs_done order Y a :
  parameters_ok → Forall (λ k, 0 <= k < PARALLEL_JOB_COUNT) order →
  ranges_upto PARALLEL_JOB_COUNT a → good Y a →
  ∃ a', run_jobs (S (Z.to_nat VECTOR_COUNT)) order a = Done () a' ∧
    good (λ i, in_jobs order i ∨ Y i) a'.
Proof.
  intros Hp Ho. revert Y a. induction Ho as [|k order Hk Ho IH]; intros Y a Hr Ha; cbn [run_jobs].
  { exists a. split; [done|]. eapply good_ext; [|exact Ha].
    intros i [(k & Hk & _)|?]; [by apply elem_of_nil in Hk|done]. }
  destruct (range_bounds k Hp Hk) as (H1 & H2 & H3). pose proof (proj2 Hp) as Hv.
  destruct (job_finishes (S (Z.to_nat VECTOR_COUNT)) (range_of k).1 (range_of k).2 H1 H2 Hv)
    with (Y := Y) (a := a) as (a1 & Hrun1 & Ha1 & E1); [lia|done|].
  bind_by (unfold job_func; bind_by (by apply (get_range_run PARALLEL_JOB_COUNT));
    rewrite (surjective_pairing (range_of k)); unfold u32; rewrite Z.mod_small by lia;
    by bind_by exact Hrun1).
  destruct (IH (λ i, (range_of k).1 <= i <= (range_of k).2 ∨ Y i) a1) as (a2 & Hrun2 & Ha2); [by unfold ranges_upto; rewrite E1|exact Ha1|].
  exists a2. split; [done|]. eapply good_ext; [|exact Ha2].
  intros i [(k' & [->|Hk']%elem_of_cons & Hi)|?]; [by right; left|left; by exists k'|by right; right].
Qed.

Lemma good_all a1 a2 :
  good (λ i, 0 <= i < VECTOR_COUNT) a1 → good (λ i, 0 <= i < VECTOR_COUNT) a2 →
  vecs a1 = vecs a2 ∧ params a1 = params a2.
Proof.
  intros (Hv1 & Hp1 & H1) (Hv2 & Hp2 & H2).
  split; apply list_eq_same_length with (n := Z.to_nat VECTOR_COUNT); try lia;
    intros k x y Hk Hx Hy; specialize (H1 (Z.of_nat k) ltac:(lia) ltac:(lia)) as [? ?];
    specialize (H2 (Z.of_nat k) ltac:(lia) ltac:(lia)) as [? ?];
    rewrite Nat2Z.id in *; congruence.
Qed.

(** C35: with [main]'s table the jobs of the parallel example, run one after another in any
    order in which each of them occurs, stay within the arrays, end, and leave the arrays as
    the single loop of aparalleljob_mono.c does, whatever the vectors and their product. *)
Theorem parallel_matches_mono zero order :
  parameters_ok → (∀ k, k ∈ order ↔ 0 <= k < PARALLEL_JOB_COUNT) →
  ∃ a a1 a2, make_ranges (arrays_zero zero) = Done () a ∧
    run_jobs (S (Z.to_nat VECTOR_COUNT)) order a = Done () a1 ∧
    mono_main (arrays_zero zero) = Done 0 a2 ∧ vecs a1 = vecs a2 ∧ params a1 = params a2.
Proof.
  intros Hp Ho. pose proof Hp as [Hj Hv].
  assert (good (λ _, False) (arrays_zero zero)) as H0.
  { split; [|split; [|done]]; cbn; rewrite length_replicate; lia. }
  destruct (make_ranges_done (arrays_zero zero) Hp) as (a & Hrun & Hr & E1 & E2);
    [cbn; rewrite length_replicate; lia|].
  assert (good (λ _, False) a) as Ha by (unfold good; by rewrite E1, E2).
  destruct (run_jobs_done order (λ _, False) a Hp) as (a1 & Hrun1 & Ha1); [|exact Hr|exact Ha|].
  { apply Forall_forall. intros k. apply Ho. }
  destruct (finishes_seq _ _ _ (λ _, mret 0) _ 0 (mono_finishes (Z.to_nat VECTOR_COUNT) 0 ltac:(lia) ltac:(lia))
    (finishes_ret 0) _ _ H0) as (a2 & Hrun2 & Ha2 & _).
  exists a, a1, a2. split; [done|]. split; [done|]. split; [exact Hrun2|]. apply good_all.
  - eapply good_ext; [|exact Ha1]. intros i Hi. left.
    destruct (ranges_cover i Hp Hi) as (k & Hk & Hin). exists k. by rewrite Ho.
  - eapply good_ext; [|exact Ha2]. intros i Hi. left. left. lia.
Qed.
End parallel.

(** ** [main] *)

Section main.
Context `{BuildConfig, JobAddress} {V : Type} (RANDOM_VECTOR : V) (DotProduct : V → V → V).
Variables VECTOR_COUNT PARALLEL_JOB_COUNT : Z.

(** The context of a job is the number of its range. *)
Definition parallel_code (fuel : nat) (f i : nat) : M (prog arrays) Z :=
  proc_indice ← on_jobs (job_get context i);
  on_user (job_func RANDOM_VECTOR DotProduct fuel proc_indice).

Fixpoint launch_jobs (n k : nat) : M (prog (arrays (V := V))) unit :=
  match n with
  | O => mret ()
  | S n =>
      job ← on_jobs (schedi_job_create (Z.of_nat k) 1 None);
      on_jobs (new_indicator k) ≫= λ _,
      match job with
      | None => undef
      | Some i =>
          on_jobs (job_put (set_indicator (Some k)) i) ≫= λ _,
          on_jobs (schedi_job_setready i) ≫= λ _, launch_jobs n (S k)
      end
  end.
Fixpoint wait_jobs (n k : nat) : M (prog (arrays (V := V))) unit :=
  match n with
  | O => mret ()
  | S n => on_jobs (on_indicator k (schedi_job_completion_wait stuck)) ≫= λ _, wait_jobs n (S k)
  end.

(** [main] up to its [return 0]; the workers do [order] before it waits. *)
Definition parallel_main (fuel : nat) (threads : Z) (order : list nat) : M (prog arrays) Z :=
  on_user (make_ranges VECTOR_COUNT PARALLEL_JOB_COUNT) ≫= λ _,
  r ← on_jobs (schedi_job_init 0 0 0);
  if negb (r =? 0) then mret 1
  else
    launch_jobs (Z.to_nat PARALLEL_JOB_COUNT) 0 ≫= λ _,
    r ← on_lib (schedi_worker_init (λ _, mret 0) threads);
    if negb (r =? 0) then mret 2
    else
      work (parallel_code fuel) order (replicate (Z.to_nat threads) AtTop) ≫= λ _,
      wait_jobs (Z.to_nat PARALLEL_JOB_COUNT) 0 ≫= λ _, mret 0.
End main.

(** ** Witnesses and a run *)

#[local] Existing Instance default_build.
#[local] Existing Instance contiguous_jobs.

(** Four elements and two jobs; vectors are numbers, multiplied as such. *)
Definition small_order : list Z := [1; 0].

Lemma parallel_matches_mono_witness :
  ∃ a a1 a2, make_ranges 4 2 (arrays_zero 4 2 0) = Done () a ∧
    run_jobs 3 Z.mul (S (Z.to_nat 4)) small_order a = Done () a1 ∧
    mono_main 3 Z.mul 4 (arrays_zero 4 2 0) = Done 0 a2 ∧ vecs a1 = vecs a2 ∧
    params a1 = params a2.
Proof.
  apply (parallel_matches_mono 3 Z.mul 4 2 0 small_order).
  - split; lia.
  - intros k. unfold small_order. rewrite !elem_of_cons, elem_of_nil. lia.
Defined.

(** The parameters of the example are fine. *)
Lemma example_parameters_ok : parameters_ok 130000000 32.
Proof. split; lia. Qed.

(** Neighbours share the last index of the one, which is the first of the other: with two
    jobs on four elements the ranges are 0 to 2 and 2 to 3.  When both jobs run at once the
    element is multiplied twice. *)
Definition job_accesses (r : Z * Z) : list access := concat (loop_body <$> seqZ r.1 (r.2 + 1 - r.1)).

Theorem shared_element_is_multiplied_twice :
  ∃ xs a, merge (job_accesses (0, 2)) (job_accesses (2, 3)) xs ∧
    start_end (final_of (arrays_zero 4 2 0) (make_ranges 4 2 (arrays_zero 4 2 0))) = [(0, 2); (2, 3)] ∧
    do_accesses 3 Z.mul xs (arrays_zero 4 2 0) = Done () a ∧ vecs a = [9; 9; 27; 9] ∧
    vecs (final_of (arrays_zero 4 2 0) (mono_main 3 Z.mul 4 (arrays_zero 4 2 0))) = [9; 9; 9; 9].
Proof.
  exists (loop_body 0 ++ loop_body 1 ++
    [StoreVec 2; StoreVec 2; StoreParam 2; StoreParam 2; Multiply 2; Multiply 2] ++ loop_body 3).
  eexists. split; [|split; [|split; [|split]]]; try (vm_compute; reflexivity).
  cbn. repeat constructor.
Qed.

(** With three jobs on seven elements and two workers, [main] ends with the arrays of the one
    loop. *)
Definition small_start : prog arrays :=
  Prog (arrays_zero 7 3 0) wsys_static.
Definition small_run : outcome (prog arrays) Z :=
  parallel_main 3 Z.mul 7 3 8 2 (concat (replicate 16 [0; 1]%nat)) small_start.

Theorem parallel_main_ends :
  ∃ p, small_run = Done 0 p ∧
    vecs (p_user p) = vecs (final_of (arrays_zero 7 3 0) (mono_main 3 Z.mul 7 (arrays_zero 7 3 0))).
Proof.
  exists (final_of small_start small_run). split; [|by vm_compute].
  apply (run_final (parallel_main 3 Z.mul 7 3 8 2 (concat (replicate 16 [0; 1]%nat))) small_start 0).
  by vm_compute.
Qed.
