(* ===== verification/SocketPrograms.v ===== *)
(** * Jobs that use sockets (src/examples/epollsocket_test.c, epollsocket.c, onetimesocket.c)

    The job functions of the examples, as clients of the network code: they keep its
    invariant, the echo job sends back what it reads, and what goes wrong when the making
    of a server fails. *)

From Stdlib Require Import Strings.Byte.
From S2P Require Export SocketHelpers NetRun.
From stdpp Require Import strings.

Local Open Scope Z_scope.

Section programs.
Context `{BuildConfig, JobAddress, Kernel}.

(** The job's context and the rest. *)
Record net_prog (U : Type) : Type := NetProg { np_user : U; np_world : world }.
#[global] Arguments NetProg {_} _ _.
#[global] Arguments np_user {_} _.
#[global] Arguments np_world {_} _.

Definition set_np_user {U} (u : U) (p : net_prog U) := NetProg u (np_world p).
Definition set_np_world {U} w (p : net_prog U) := NetProg (np_user p) w.
Definition in_net {U A} : M world A → M (net_prog U) A := zoom np_world set_np_world.
Definition in_ctx {U A} : M U A → M (net_prog U) A := zoom np_user set_np_user.
Definition in_jobs {U A} (m : M sys A) : M (net_prog U) A := in_net (on_sys m).

(** [htc & SCHEDI_JOB_EPOLLSOCKET_DEAD]. *)
Definition is_dead (a : addr) : M world bool :=
  w ← sock_get sk_htc a; mret (has w SCHEDI_JOB_EPOLLSOCKET_DEAD).

(** ** epollsocket_test.c: the echo job *)

Record echo_ctx : Type := Echo { e_fd : Z; e_socket : option addr }.

(** The socket pointer, which is not tested for NULL. *)
Definition echo_socket : M (net_prog echo_ctx) addr := in_ctx (reads e_socket).

Definition echo_func (i : nat) : M (net_prog echo_ctx) Z :=
  ph ← in_jobs (job_get phase i);
  if ph =? 0 then
    fd ← in_ctx (gets e_fd);
    socket ← in_net (schedi_job_tool_epollsocket i fd 1 0 3);
    in_ctx (modify (λ c, Echo (e_fd c) socket)) ≫= λ _,
    in_jobs (schedi_job_required_available_socket i 1) ≫= λ _,
    in_jobs (job_put (set_phase 1) i) ≫= λ _, mret 1
  else if ph =? 1 then
    a ← echo_socket;
    data ← in_net (schedi_job_epollsocket_read a 255);
    if (0 <? length data)%nat then
      a ← echo_socket;
      in_net (schedi_job_epollsocket_write a data) ≫= λ _,
      in_jobs (job_put (set_phase 2) i) ≫= λ _, mret 1
    else
      a ← echo_socket;
      dead ← in_net (is_dead a);
      mret (if dead : bool then -1 else 1)
  else if ph =? 2 then
    a ← echo_socket;
    dead ← in_net (is_dead a);
    mret (if dead : bool then -1 else 1)
  else mret (-1).

Definition echo_dtor : M (net_prog echo_ctx) unit :=
  a ← echo_socket;
  in_net (schedi_job_epollsocket_done a) ≫= λ _,
  fd ← in_ctx (gets e_fd);
  in_net (call (sys_close fd)) ≫= λ _, mret ().

(** ** epollsocket.c: the reading job *)

Record reader_ctx : Type := Reader { r_fd : Z; r_socket : option addr; r_exit : bool }.

(** [schedi_job_epollsocket_done(ctx->socket); ctx->exit = true; return 1;] *)
Definition reader_leave (a : addr) : M (net_prog reader_ctx) Z :=
  in_net (schedi_job_epollsocket_done a) ≫= λ _,
  in_ctx (modify (λ c, Reader (r_fd c) (r_socket c) true)) ≫= λ _, mret 1.

(** The loop that reads the timer. *)
Fixpoint read_timer (fuel : nat) (fd : Z) : M (net_prog reader_ctx) unit :=
  match fuel with
  | O => stuck
  | S fuel =>
      o ← in_net (recv fd 1);
      match o with
      | Got (_ :: _) => read_timer fuel fd
      | _ => mret ()
      end
  end.

Definition reader_read (a : addr) : M (net_prog reader_ctx) Z :=
  data ← in_net (schedi_job_epollsocket_read a 20);
  if (0 <? length data)%nat then mret 1
  else
    dead ← in_net (is_dead a);
    if (dead : bool) then reader_leave a else mret 1.

Definition reader_func (fuel : nat) (i : nat) : M (net_prog reader_ctx) Z :=
  c ← in_ctx (gets id);
  if r_exit c then mret (-1)
  else
    match r_socket c with
    | None =>
        socket ← in_net (schedi_job_tool_epollsocket i (r_fd c) 20 0 3);
        in_ctx (modify (λ c, Reader (r_fd c) socket (r_exit c))) ≫= λ _,
        in_jobs (schedi_job_required_available_socket i 1) ≫= λ _, mret 1
    | Some a =>
        htc ← in_net (sock_get sk_htc a);
        if has htc SCHEDI_JOB_EPOLLSOCKET_DEAD then reader_leave a
        else if ext_timeout then
          fd ← in_net (sock_get sk_to_timer_fd a);
          when (has htc SCHEDI_JOB_EPOLLSOCKET_TIMEOUT) (read_timer fuel fd) ≫= λ _,
          late ← in_net (schedi_job_epollsocket_timeout a);
          if (late : bool) then
            r ← in_net (schedi_job_epollsocket_epollagain a);
            if negb (r =? 0) then reader_leave a else mret 1
          else reader_read a
        else reader_read a
    end.

Definition reader_dtor : M (net_prog reader_ctx) unit :=
  fd ← in_ctx (gets r_fd); in_net (call (sys_close fd)) ≫= λ _, mret ().

End programs.

(** ** onetimesocket.c: one request after the other *)

Section onetime.
Context `{BuildConfig, JobAddress, SocketCalls}.

Record onetime_ctx : Type := Onetime {
  o_serverfd : Z;
  o_clientfd : Z;
  o_port : Z;
  o_created : bool;
  o_accepted : bool;
}.

Definition onetime_func (i : nat) : M (net_prog onetime_ctx) Z :=
  c ← in_ctx (gets id);
  if negb (o_created c) then
    fd ← in_net (on_kernel (create_server_nonblock "0.0.0.0" (o_port c)));
    in_ctx (modify (λ c, Onetime fd (o_clientfd c) (o_port c) (o_created c) (o_accepted c))) ≫= λ _,
    if fd <? 0 then mret 0
    else
      in_ctx (modify (λ c, Onetime (o_serverfd c) (o_clientfd c) (o_port c) true (o_accepted c)))
        ≫= λ _,
      in_net (schedi_job_tool_epoll i fd EPOLLIN) ≫= λ _, mret 1
  else if negb (o_accepted c) then
    fd ← in_net (on_kernel (accept_client_nonblock (o_serverfd c)));
    in_ctx (modify (λ c, Onetime (o_serverfd c) fd (o_port c) (o_created c) (o_accepted c))) ≫= λ _,
    if fd =? -1 then in_net (schedi_job_tool_epoll i (o_serverfd c) EPOLLIN) ≫= λ _, mret 1
    else
      in_ctx (modify (λ c, Onetime (o_serverfd c) (o_clientfd c) (o_port c) (o_created c) true))
        ≫= λ _,
      in_net (schedi_job_tool_epoll i fd EPOLLIN) ≫= λ _, mret 1
  else
    in_net (call (sys_read (o_clientfd c) 6)) ≫= λ _,
    in_net (call (sys_close (o_serverfd c))) ≫= λ _,
    in_net (call (sys_close (o_clientfd c))) ≫= λ _, mret (-1).
End onetime.

(** ** They are clients the network code can serve *)

Section clients.
Context `{BuildConfig, JobAddress, EventKernel, !KernelLaws, !EventLaws}.

Lemma in_net_run {U A} (m : M world A) (p : net_prog U) a w :
  m (np_world p) = Done a w → in_net m p = Done a (set_np_world w p).
Proof. apply zoom_done. Qed.
Lemma in_jobs_run {U A} (m : M sys A) (p : net_prog U) a s :
  m (w_sys (np_world p)) = Done a s → in_jobs m p = Done a (set_np_world (put_sys s (np_world p)) p).
Proof. intros E. by apply in_net_run, net_sys_run. Qed.
Lemma same_world w : put_sys (w_sys w) w = w.
Proof. by destruct w. Qed.

(** What a job's function must keep between its runs: [net_sound], and events that epoll
    reported stay due. *)
Definition served (pend : list nat) (held : list addr) (w w' : world) : Prop :=
  net_sound pend held w' ∧ keeps_due w w'.

Lemma served_trans pend held1 held2 w1 w2 w3 :
  served pend held1 w1 w2 → served pend held2 w2 w3 → served pend held2 w1 w3.
Proof. intros [_ Hk1] [Hs Hk2]. split; [done|]. by eapply keeps_due_trans. Qed.

Lemma served_phase pend held i j x w :
  net_sound pend held w → job_at (w_sys w) i j →
  ∃ s, job_put (set_phase x) i (w_sys w) = Done () s ∧ served pend held w (put_sys s w) ∧
    job_at s i (set_phase x j).
Proof.
  intros Hn Hj. pose proof (ns_sys _ _ _ Hn) as Hs. eexists. split; [by apply job_put_run|].
  split; [|by eapply job_at_with]. eapply put_sys_sound; [done|].
  apply (with_job_ok pend i j); [done|done|]. exact (ok_words _ (ok_base _ _ Hs) i j Hj).
Qed.

Lemma served_require pend held i j n w :
  net_sound pend held w → job_at (w_sys w) i j →
  ∃ s, schedi_job_required_available_socket i n (w_sys w) = Done () s ∧
    served pend held w (put_sys s w).
Proof.
  intros Hn Hj. pose proof (ns_sys _ _ _ Hn) as Hs.
  assert (job_index i) as Hi by by eapply job_index_at.
  destruct (job_put_ok (set_required_sockets n) pend i (w_sys w) Hs Hi) as (s1 & Hrun1 & Hs1); [done|].
  destruct (cas_update_ok pend i s1 0 0 0 false Hs1 Hi) as (r & s' & Hrun & Hs' & _).
  exists s'. split; [|by eapply put_sys_sound]. unfold schedi_job_required_available_socket.
  bind_by exact Hrun1. by bind_by exact Hrun.
Qed.

(** The example's socket is one it holds, or it has none yet and may make one. *)
Definition echo_ready (held : list addr) (i : nat) (p : net_prog echo_ctx) : Prop :=
  ∃ j, job_at (w_sys (np_world p)) i j ∧
    (phase j = 0 ∧ accepts i (w_sys (np_world p)) ∧ unused held (e_fd (np_user p)) (np_world p) ∨
     (phase j = 1 ∨ phase j = 2) ∧ ∃ a, e_socket (np_user p) = Some a ∧ a ∈ held).

Definition descriptors_ok (w : world) : Prop :=
  0 <= w_epfd_read w ∧ w_epfd_read w ≠ w_epfd_write w.

Lemma echo_socket_run c a w :
  e_socket c = Some a → echo_socket (NetProg c w) = Done a (NetProg c w).
Proof. intros Ha. unfold echo_socket, in_ctx, zoom, reads. cbn. by rewrite Ha. Qed.

Lemma held_dead pend held a w :
  net_sound pend held w → a ∈ held → ∃ b, is_dead a w = Done b w.
Proof.
  intros Hn Hin. destruct (rf_held _ _ (ns_refs _ _ _ Hn) a Hin) as (s & Ha & _).
  eexists. unfold is_dead. by bind_by (by apply sock_get_run).
Qed.

Lemma echo_create pend held i j p :
  mallocs_succeed → ext_timeout = false → descriptors_ok (np_world p) →
  net_sound pend held (np_world p) → job_at (w_sys (np_world p)) i j → phase j = 0 →
  accepts i (w_sys (np_world p)) → unused held (e_fd (np_user p)) (np_world p) →
  ∃ o p', echo_func i p = Done 1 p' ∧ served pend (hold o held) (np_world p) (np_world p') ∧
    np_user p' = Echo (e_fd (np_user p)) o.
Proof.
  intros Hm Hext [Hrd Hne] Hn Hj Hph Hacc Hun. destruct p as [c w]. cbn [np_user np_world] in *.
  destruct (new_socket_keeps pend held i (e_fd c) 1 0 3 w) as (o & w1 & Hrun1 & Hn1 & Hk1); try done.
  destruct (base_job _ i (ok_base _ _ (ns_sys _ _ _ Hn1))) as (j1 & Hj1 & _);
    [by eapply job_index_at; [apply Hn|]|].
  destruct (served_require pend (hold o held) i j1 1 w1 Hn1 Hj1) as (s2 & Hrun2 & Hs2).
  destruct (base_job _ i (ok_base _ _ (ns_sys _ _ _ (proj1 Hs2)))) as (j2 & Hj2 & _);
    [by eapply job_index_at; [apply Hn|]|].
  destruct (served_phase pend (hold o held) i j2 1 (put_sys s2 w1) (proj1 Hs2) Hj2)
    as (s3 & Hrun3 & Hs3 & _).
  eexists o, _. split; [|split].
  - unfold echo_func. bind_by (apply in_jobs_run, job_get_run; exact Hj). rewrite Hph. cbn [Z.eqb].
    unfold set_np_world. cbn [np_world np_user]. rewrite same_world.
    bind_by done. bind_by (apply in_net_run; exact Hrun1). bind_by done.
    bind_by (apply in_jobs_run; exact Hrun2). bind_by (apply in_jobs_run; exact Hrun3). done.
  - cbn. eapply served_trans; [split; [exact Hn1|exact Hk1]|].
    eapply served_trans; [exact Hs2|exact Hs3].
  - done.
Qed.

Lemma echo_run pend held i j a p :
  net_sound pend held (np_world p) → job_at (w_sys (np_world p)) i j → phase j = 1 ∨ phase j = 2 →
  e_socket (np_user p) = Some a → a ∈ held →
  ∃ r p', echo_func i p = Done r p' ∧ (r = 1 ∨ r = -1) ∧
    served pend held (np_world p) (np_world p') ∧ np_user p' = np_user p.
Proof.
  intros Hn Hj Hph Ha Hin. destruct p as [c w]. cbn [np_user np_world] in *.
  pose proof (λ w', echo_socket_run c a w' Ha) as Hsock.
  assert (∀ w', served pend held w w' → ∃ r,
    (a ← echo_socket; dead ← in_net (is_dead a); mret (if dead : bool then -1 else 1))
      (NetProg c w') = Done r (NetProg c w') ∧ (r = 1 ∨ r = -1)) as Hdead.
  { intros w' [Hn' _]. destruct (held_dead pend held a w' Hn' Hin) as [b Hb].
    exists (if b then -1 else 1). split; [|destruct b; auto].
    bind_by (apply Hsock). by bind_by (apply in_net_run; exact Hb). }
  assert (served pend held w w) as Hid by (split; [done|by split]).
  unfold echo_func. rewrite (bind_done _ _ _ _ _ (in_jobs_run _ (NetProg c w) _ _ (job_get_run phase i j _ Hj))).
  unfold set_np_world at 1. cbn [np_world np_user]. rewrite same_world.
  destruct Hph as [-> | ->]; cbn [Z.eqb Pos.eqb].
  - bind_by (apply Hsock).
    destruct (read_keeps pend held a 255 w Hn Hin) as (data & w1 & Hrun1 & Hn1 & Hk1).
    bind_by (apply in_net_run; exact Hrun1). unfold set_np_world. cbn [np_world np_user].
    assert (served pend held w w1) as Hs1 by done.
    destruct (0 <? length data)%nat; cycle 1.
    { destruct (Hdead w1 Hs1) as (r & Hr & Hr1). exists r, (NetProg c w1). by split_and!. }
    bind_by (apply Hsock).
    destruct (write_keeps pend held a data w1 Hn1 Hin) as (r & w2 & Hrun2 & Hn2 & Hk2).
    bind_by (apply in_net_run; exact Hrun2).
    destruct (base_job _ i (ok_base _ _ (ns_sys _ _ _ Hn2))) as (j2 & Hj2 & _);
      [by eapply job_index_at; [apply Hn|]|].
    destruct (served_phase pend held i j2 2 w2 Hn2 Hj2) as (s3 & Hrun3 & Hs3 & _).
    bind_by (apply in_jobs_run; exact Hrun3). eexists 1, _. split; [done|]. split; [by left|].
    split; [|done]. eapply served_trans; [exact Hs1|]. by eapply served_trans.
  - destruct (Hdead w Hid) as (r & Hr & Hr1). exists r, (NetProg c w). by split_and!.
Qed.

(** The echo job is a client the network code can serve.  In a build without timeouts, from
    a consistent network, a run of the job's function - whether it makes its socket, or reads
    from and writes to the one it holds - returns 1 or -1 without undefined behaviour, keeps
    the network consistent and every event that epoll has reported due, and afterwards the
    job holds the socket it had or made; its context has no socket only when making one
    failed. *)
Theorem echo_func_safe pend held i p :
  mallocs_succeed → ext_timeout = false → descriptors_ok (np_world p) →
  net_sound pend held (np_world p) → echo_ready held i p →
  ∃ r p' held', echo_func i p = Done r p' ∧ (r = 1 ∨ r = -1) ∧
    served pend held' (np_world p) (np_world p') ∧
    match e_socket (np_user p') with Some a => a ∈ held' | None => held' = held end.
Proof.
  intros Hm Hext Hd Hn (j & Hj & Hcase). destruct Hcase as [(Hph & Hacc & Hun)|(Hph & a & Ha & Hin)].
  - destruct (echo_create pend held i j p Hm Hext Hd Hn Hj Hph Hacc Hun) as (o & p' & Hrun & Hs & Eu).
    exists 1, p', (hold o held). split; [done|]. split; [by left|]. split; [done|]. rewrite Eu. cbn.
    destruct o; [by left|done].
  - destruct (echo_run pend held i j a p Hn Hj Hph Ha Hin) as (r & p' & Hrun & Hr & Hs & Eu).
    exists r, p', held. split_and!; try done. by rewrite Eu, Ha.
Qed.

(** The failure is not noticed.  The job requires a READY socket, so without one it is not
    scheduled again; if it ran it would dereference NULL. *)
Theorem echo_null_socket i j p :
  job_at (w_sys (np_world p)) i j → phase j = 1 → e_socket (np_user p) = None →
  echo_func i p = Undef.
Proof.
  intros Hj Hph Hs. destruct p as [c w]. cbn [np_user np_world] in *. unfold echo_func.
  rewrite (bind_done _ _ _ _ _ (in_jobs_run _ (NetProg c w) _ _ (job_get_run phase i j _ Hj))).
  rewrite Hph. cbn [Z.eqb Pos.eqb]. unfold echo_socket, in_ctx, zoom, reads, mbind, M_bind. cbn.
  by rewrite Hs.
Qed.

(** A write to an empty buffer of data that fits it. *)
Lemma wrote_whole pend a s s' data r io w :
  wrote s s' data (direct_send s data w) r io → usable pend a s w → wqueue s = [] →
  (length data <= BUFFERSIZE)%nat →
  match (sys_send (sk_fd s) data (w_kernel w)).1 with
  | SendError => sent_bytes io ++ wqueue s' = [] ∧ k_dead (sock_view_of (sk_htc s')) = true
  | _ => sent_bytes io ++ wqueue s' = data
  end.
Proof.
  intros [_ Hdead Hs Hq _ _] Hu Hw Hlen.
  pose proof (length_wqueue s (us_wf _ _ _ _ Hu)) as Hl. rewrite Hw in Hl. cbn in Hl.
  pose proof (wf_avail s (us_wf _ _ _ _ Hu)).
  assert (sock_avail s = BUFFERSIZE) as Eav by (unfold BUFFERSIZE in *; lia).
  destruct (direct_send_done pend a s data w Hu) as (_ & _ & _ & _ & _ & _ & Hle).
  unfold direct_send in *. rewrite Eav, Nat.eqb_refl in *.
  rewrite Hs, Hq, Hw. destruct (sys_send _ _ _).1 as [n| |]; cbn [sent_by write_takes] in *;
    rewrite ?Eav.
  - rewrite (take_ge data (n + _)) by lia. cbn. apply take_drop.
  - rewrite (take_ge data (0 + _)) by lia. by rewrite drop_0.
  - rewrite !take_0. split; [done|by apply Hdead].
Qed.

(** C34: the echo.  When the job runs in phase 1, bytes are waiting on its socket and none are
    waiting to be sent, it reads the first 255 of them (all, if they are fewer), leaves the
    rest to be read, and exactly these bytes, in order, are what is sent or queued for
    sending; the only exception is that the kernel refuses the send that the write makes with
    an error, and then nothing is sent or queued and the socket is DEAD. *)
Theorem echo_returns_data pend i j a s p :
  job_at (w_sys (np_world p)) i j → phase j = 1 → e_socket (np_user p) = Some a →
  usable pend a s (np_world p) → rqueue s ≠ [] → wqueue s = [] →
  ∃ w1 p' s' io,
    schedi_job_epollsocket_read a 255 (np_world p) = Done (take 255 (rqueue s)) w1 ∧
    echo_func i p = Done 1 p' ∧ sock_at (np_world p') a s' ∧
    w_io (np_world p') = w_io (np_world p) ++ io ∧ rqueue s' = drop 255 (rqueue s) ∧
    match (sys_send (sk_fd s) (take 255 (rqueue s)) (w_kernel w1)).1 with
    | SendError => sent_bytes io ++ wqueue s' = [] ∧ k_dead (sock_view_of (sk_htc s')) = true
    | _ => sent_bytes io ++ wqueue s' = take 255 (rqueue s)
    end.
Proof.
  intros Hj Hph Ha Hu Hr Hw. destruct p as [c w]. cbn [np_user np_world] in *.
  pose proof (λ w', echo_socket_run c a w' Ha) as Hsock.
  destruct (read_done pend a s 255 w Hu) as (s1 & w1 & Hrun1 & Haf1 & Hr1 & Hw1).
  pose proof (after_usable _ _ _ _ _ _ _ Haf1) as Hu1.
  destruct (write_exact pend a s1 (take 255 (rqueue s)) w1 Hu1)
    as (r & s2 & io & w2 & Hrun2 & Haf2 & Hwr).
  pose proof (after_usable _ _ _ _ _ _ _ Haf2) as Hu2.
  destruct (base_job _ i (ok_base _ _ (us_sys _ _ _ _ Hu2))) as (j2 & Hj2 & _);
    [by eapply job_index_at; [apply Hu|]|].
  exists w1, (NetProg c (put_sys (with_job i (set_phase 2 j2) (w_sys w2)) w2)), s2, io.
  split; [done|]. split; [|split; [apply Hu2|split; [|split]]].
  - unfold echo_func.
    rewrite (bind_done _ _ _ _ _ (in_jobs_run _ (NetProg c w) _ _ (job_get_run phase i j _ Hj))).
    unfold set_np_world at 1. cbn [np_world np_user]. rewrite same_world, Hph. cbn [Z.eqb Pos.eqb].
    bind_by (apply Hsock). bind_by (apply in_net_run; exact Hrun1).
    replace (0 <? _)%nat with true; cycle 1.
    { symmetry. apply Nat.ltb_lt. destruct (rqueue s); [done|]. cbn. lia. }
    bind_by (apply Hsock). bind_by (apply in_net_run; exact Hrun2).
    by bind_by (apply in_jobs_run, job_put_run; exact Hj2).
  - cbn. rewrite (af_io _ _ _ _ _ _ _ Haf2), (af_io _ _ _ _ _ _ _ Haf1). by rewrite app_nil_r.
  - by rewrite (wr_read _ _ _ _ _ _ Hwr), Hr1.
  - apply (wrote_whole pend a s1 s2 (take 255 (rqueue s)) r io w1) in Hwr; [|done| |].
    + pose proof (af_same _ _ _ _ _ _ _ Haf1) as Hid. injection Hid as _ _ Hfd _ _ _ _ _ _.
      by rewrite <-Hfd.
    + by rewrite Hw1.
    + rewrite length_take. unfold BUFFERSIZE. lia.
Qed.

(** *** The reading job *)

Definition reader_ready (held : list addr) (i : nat) (p : net_prog reader_ctx) : Prop :=
  r_exit (np_user p) = true ∨
  match r_socket (np_user p) with
  | Some a => a ∈ held
  | None => accepts i (w_sys (np_world p)) ∧ unused held (r_fd (np_user p)) (np_world p)
  end.

(** The sockets that are the job's after a run that took its context from [c] to [c']: the one
    it made, and not the one it gave back, which it does when it decides to leave. *)
Definition reader_held (held : list addr) (c c' : reader_ctx) : list addr :=
  match r_socket c with
  | None => hold (r_socket c') held
  | Some a => if r_exit c' then without a held else held
  end.

(** The context changes in no other way. *)
Definition reader_kept (c c' : reader_ctx) : Prop :=
  r_fd c' = r_fd c ∧ match r_socket c with None => r_exit c' = false | o => r_socket c' = o end.

Definition reader_did (pend : list nat) (held : list addr) (c : reader_ctx) (w : world) 
    (p' : net_prog reader_ctx) : Prop :=
  served pend (reader_held held c (np_user p')) w (np_world p') ∧ reader_kept c (np_user p').

Lemma reader_stays pend held a c w w1 :
  r_exit c = false → r_socket c = Some a → served pend held w w1 →
  reader_did pend held c w (NetProg c w1).
Proof. intros Hx Hc Hs. unfold reader_did, reader_held, reader_kept. cbn. by rewrite Hc, Hx. Qed.

Lemma reader_leaves pend held a c w :
  net_sound pend held w → a ∈ held → r_socket c = Some a →
  ∃ p', reader_leave a (NetProg c w) = Done 1 p' ∧ reader_did pend held c w p' ∧
    r_exit (np_user p') = true.
Proof.
  intros Hn Hin Hc. destruct (release_keeps pend held a w Hn Hin) as (r & w' & Hrun & Hs).
  eexists. split; [unfold reader_leave; by bind_by (apply in_net_run; exact Hrun)|].
  unfold reader_did, reader_held, reader_kept. cbn. by rewrite Hc.
Qed.

Lemma reader_reads pend held a c w :
  net_sound pend held w → a ∈ held → r_socket c = Some a → r_exit c = false →
  ∃ p', reader_read a (NetProg c w) = Done 1 p' ∧ reader_did pend held c w p'.
Proof.
  intros Hn Hin Hc Hx.
  destruct (read_keeps pend held a 20 w Hn Hin) as (data & w1 & Hrun1 & Hn1 & Hk1).
  unfold reader_read. bind_by (apply in_net_run; exact Hrun1). unfold set_np_world. cbn [np_user].
  assert (reader_did pend held c w (NetProg c w1)) as Hstay by by apply (reader_stays pend held a).
  destruct (0 <? length data)%nat; [by exists (NetProg c w1)|].
  destruct (held_dead pend held a w1 Hn1 Hin) as [b Hb]. bind_by (apply in_net_run; exact Hb).
  destruct b; [|by exists (NetProg c w1)].
  destruct (reader_leaves pend held a c w1 Hn1 Hin Hc) as (p' & Hrun & [Hs Hkp] & _).
  exists p'. split; [done|]. split; [|done]. by eapply served_trans.
Qed.

Lemma reader_creates pend held i fuel c w :
  mallocs_succeed → ext_timeout = false → descriptors_ok w → net_sound pend held w →
  accepts i (w_sys w) → unused held (r_fd c) w → r_exit c = false → r_socket c = None →
  ∃ p', reader_func fuel i (NetProg c w) = Done 1 p' ∧ reader_did pend held c w p'.
Proof.
  intros Hm Hext [Hrd Hne] Hn Hacc Hun Hx Hc.
  destruct (new_socket_keeps pend held i (r_fd c) 20 0 3 w) as (o & w1 & Hrun1 & Hn1 & Hk1); try done.
  destruct (base_job _ i (ok_base _ _ (ns_sys _ _ _ Hn1))) as (j1 & Hj1 & _); [apply Hacc|].
  destruct (served_require pend (hold o held) i j1 1 w1 Hn1 Hj1) as (s2 & Hrun2 & Hs2).
  eexists. split.
  - unfold reader_func. bind_by done. cbn [np_user]. unfold id. rewrite Hx, Hc.
    unfold set_np_user. cbn [np_world].
    bind_by (apply in_net_run; exact Hrun1). bind_by done.
    by bind_by (apply in_jobs_run; exact Hrun2).
  - unfold reader_did, reader_held, reader_kept. cbn. rewrite Hc. split; [|done].
    eapply served_trans; [split; [exact Hn1|exact Hk1]|exact Hs2].
Qed.

(** C33: one run of the reading job of epollsocket.c, in a build without timeouts and when
    [malloc] succeeds, from a consistent network in which the job holds the socket its context
    names, or has none and may make one.  A job that has decided to leave does nothing but
    return -1.  Any other run returns 1 without undefined behaviour and leaves the network
    consistent, where the sockets that are the job's are those it had, plus the one it made,
    minus the one it gave back; it gives its socket back exactly in the run that decides to
    leave, which is any run that finds the socket DEAD at its start and no run that has no
    socket, and it keeps its context otherwise.  (In a consistent network a socket that is not
    the job's has no reference left but the epoll thread's.) *)
Theorem reader_func_safe pend held fuel i p :
  mallocs_succeed → ext_timeout = false → descriptors_ok (np_world p) →
  net_sound pend held (np_world p) → reader_ready held i p →
  ∃ r p', reader_func fuel i p = Done r p' ∧
    if r_exit (np_user p) then r = -1 ∧ p' = p
    else r = 1 ∧
      served pend (reader_held held (np_user p) (np_user p')) (np_world p) (np_world p') ∧
      reader_kept (np_user p) (np_user p') ∧
      ∀ a s, r_socket (np_user p) = Some a → sock_at (np_world p) a s →
        has (sk_htc s) SCHEDI_JOB_EPOLLSOCKET_DEAD = true → r_exit (np_user p') = true.
Proof.
  intros Hm Hext Hd Hn Hready. destruct p as [c w]. cbn [np_user np_world] in *.
  destruct (r_exit c) eqn:Hx.
  { exists (-1), (NetProg c w). split; [|done].
    unfold reader_func. bind_by done. cbn [np_user]. unfold id. by rewrite Hx. }
  destruct Hready as [Hx'|Hready]; [cbn in Hx'; congruence|]. cbn [np_user np_world] in Hready.
  destruct (r_socket c) as [a|] eqn:Hc; cycle 1.
  { destruct Hready as [Hacc Hun].
    destruct (reader_creates pend held i fuel c w) as (p' & Hrun & Hs & Hk); try done.
    exists 1, p'. by split_and!. }
  destruct (rf_held _ _ (ns_refs _ _ _ Hn) a Hready) as (s & Ha & _).
  assert (reader_func fuel i (NetProg c w) =
    (if has (sk_htc s) SCHEDI_JOB_EPOLLSOCKET_DEAD then reader_leave a else reader_read a)
      (NetProg c w)) as ->.
  { unfold reader_func.
    assert (in_ctx (gets id) (NetProg c w) = Done c (NetProg c w)) as Hget by done.
    rewrite (bind_done _ _ _ _ _ Hget), Hx, Hc.
    assert (in_net (sock_get sk_htc a) (NetProg c w) = Done (sk_htc s) (NetProg c w)) as Hh
      by (apply in_net_run; by apply sock_get_run).
    rewrite (bind_done _ _ _ _ _ Hh), Hext. by destruct (has _ _). }
  destruct (has _ _) eqn:Hdead.
  - destruct (reader_leaves pend held a c w Hn Hready Hc) as (p' & Hr & [Hs Hk] & Hx').
    exists 1, p'. by split_and!.
  - destruct (reader_reads pend held a c w Hn Hready Hc Hx) as (p' & Hr & Hs & Hk).
    exists 1, p'. split_and!; try done. intros a' s' [= <-] Ha' Hd'. unfold sock_at in *. congruence.
Qed.

End clients.

(** *** The one-time job *)

(** When the server cannot be made, the job's function returns 0, after which the worker does
    nothing for the job: it is not made READY again, and not completed, so that [main] waits
    for its indicator for ever. *)
Theorem onetime_server_failure_suspends `{BuildConfig, JobAddress, SocketCalls} i p fd k :
  o_created (np_user p) = false →
  create_server_nonblock "0.0.0.0" (o_port (np_user p)) (w_kernel (np_world p)) = Done fd k → fd < 0 →
  ∃ c, onetime_func i p = Done 0 (NetProg c (put_kernel k (np_world p))).
Proof.
  intros Hc Hf Hfd. destruct p as [c w]. cbn [np_user np_world] in *.
  eexists. unfold onetime_func. bind_by done. cbn [np_user]. unfold id. rewrite Hc. cbn [negb].
  bind_by (by apply in_net_run, (zoom_done w_kernel put_kernel)). bind_by done.
  replace (_ <? 0) with true by (symmetry; by apply Z.ltb_lt). done.
Qed.

(** ** Witnesses *)

Section plain_witnesses.
#[local] Existing Instance script_kernel.
#[local] Existing Instance script_laws.
#[local] Existing Instance script_events.
#[local] Existing Instance script_event_laws.
#[local] Existing Instance plain_build.
#[local] Existing Instance contiguous_jobs.

(** Job 0 starts; its peer is on descriptor 9. *)
Definition echo_start : net_prog echo_ctx := NetProg (Echo 9 None) (n_world network_idle).
Definition reader_start : net_prog reader_ctx := NetProg (Reader 9 None false) (n_world network_idle).

Lemma idle_accepts : accepts 0 sys_one.
Proof. by apply (job_accepts_spec [] 0 sys_one sys_one_ok). Qed.

Lemma idle_unused : unused [] 9 (n_world network_idle).
Proof. apply fd_unused_spec. by vm_compute. Qed.

Lemma echo_func_safe_witness :
  result_of (echo_func 0 echo_start) = Some 1 ∧
  ∃ r p' held', echo_func 0 echo_start = Done r p' ∧ (r = 1 ∨ r = -1) ∧
    served [] held' (np_world echo_start) (np_world p') ∧
    match e_socket (np_user p') with Some a => a ∈ held' | None => held' = [] end.
Proof.
  split; [by vm_compute|]. apply (echo_func_safe [] [] 0 echo_start).
  - done.
  - reflexivity.
  - by split.
  - apply (no_sound [] network_idle network_idle_ok).
  - exists job_one. split; [exact sys_one_job|]. left. split; [reflexivity|].
    split; [exact idle_accepts|exact idle_unused].
Defined.

Lemma reader_func_safe_witness :
  ∃ r p', reader_func 0 0 reader_start = Done r p' ∧ r = 1 ∧
    served [] (reader_held [] (np_user reader_start) (np_user p'))
      (np_world reader_start) (np_world p') ∧
    r_exit (np_user p') = false ∧ r_socket (np_user p') ≠ None.
Proof.
  destruct (reader_func_safe [] [] 0 0 reader_start) as (r & p' & Hrun & Hr & Hs & [_ Hk] & _).
  - done.
  - reflexivity.
  - by split.
  - apply (no_sound [] network_idle network_idle_ok).
  - right. split; [exact idle_accepts|exact idle_unused].
  - exists r, p'. split; [exact Hrun|]. split; [exact Hr|]. split; [exact Hs|]. split; [exact Hk|].
    assert (option_map (λ p, r_socket (np_user p))
      (match reader_func 0 0 reader_start with Done _ p => Some p | _ => None end) ≠ Some None)
      as Hne by (vm_compute; discriminate).
    rewrite Hrun in Hne. cbn in Hne. congruence.
Defined.

(** The function runs until the peer has closed: it makes its socket, epoll receives three
    bytes, they are read, epoll learns of the end and gives the socket up, the job gives it
    back - which frees it - and ends. *)
Definition kernel_peer : script := Script ∅ None [] [Got ["a"%byte; "b"%byte; "c"%byte]; Got []].
Definition reader_first : net_prog reader_ctx :=
  NetProg (Reader 9 None false) (script_world kernel_peer ∅ sys_one).
Definition epoll_turn : M (net_prog reader_ctx) unit :=
  in_net (e ← gets (instance_fd false);
          call (sys_epoll_wait e MAX_EVENTS) ≫= handle_all (handler [] false)).
Definition reader_session : M (net_prog reader_ctx) (list Z) :=
  r1 ← reader_func 0 0; epoll_turn ≫= λ _,
  r2 ← reader_func 0 0; epoll_turn ≫= λ _,
  r3 ← reader_func 0 0; r4 ← reader_func 0 0; mret [r1; r2; r3; r4].

Lemma reader_session_ends :
  ∃ p', reader_session reader_first = Done [1; 1; 1; -1] p' ∧ w_heap (np_world p') = ∅.
Proof.
  exists (final_of reader_first (reader_session reader_first)).
  split; [apply (run_final reader_session reader_first); by vm_compute|by vm_compute].
Qed.
End plain_witnesses.

Section timeout_witnesses.
#[local] Existing Instance script_kernel.
#[local] Existing Instance script_laws.
#[local] Existing Instance timeout_build.
#[local] Existing Instance contiguous_jobs.

(** A job in phase 1 whose socket received two bytes. *)
Definition echo_waiting : net_prog echo_ctx :=
  NetProg (Echo 9 (Some 5%nat))
    (put_sys (with_job 0 (set_phase 1 job_one) sys_one) (world_of socket_two)).

Lemma echo_waiting_usable : usable [] 5%nat socket_two (np_world echo_waiting).
Proof.
  split; [done| |apply socket_two_wf|by vm_compute].
  apply (with_job_ok [] 0 job_one); [exact sys_one_ok|exact sys_one_job|].
  exact (ok_words sys_one (ok_base [] sys_one sys_one_ok) 0 job_one sys_one_job).
Qed.

Lemma echo_returns_data_witness :
  ∃ w1 p' s' io,
    schedi_job_epollsocket_read 5%nat 255 (np_world echo_waiting) =
      Done (take 255 (rqueue socket_two)) w1 ∧
    echo_func 0 echo_waiting = Done 1 p' ∧ sock_at (np_world p') 5%nat s' ∧
    w_io (np_world p') = w_io (np_world echo_waiting) ++ io ∧
    rqueue s' = drop 255 (rqueue socket_two) ∧
    match (sys_send (sk_fd socket_two) (take 255 (rqueue socket_two)) (w_kernel w1)).1 with
    | SendError => sent_bytes io ++ wqueue s' = [] ∧ k_dead (sock_view_of (sk_htc s')) = true
    | _ => sent_bytes io ++ wqueue s' = take 255 (rqueue socket_two)
    end.
Proof.
  apply (echo_returns_data [] 0 (set_phase 1 job_one) 5%nat socket_two echo_waiting).
  - apply (job_at_with 0 (set_phase 1 job_one) sys_one job_one sys_one_job).
  - reflexivity.
  - reflexivity.
  - exact echo_waiting_usable.
  - by vm_compute.
  - by vm_compute.
Defined.
End timeout_witnesses.
