(* ===== verification/Servers.v ===== *)
(** * The socket examples from [main] on (src/examples/epollsocket_test.c, epollsocket.c,
    onetimesocket.c)

    A host program is everything in one state: the contexts of its jobs, the epoll thread
    with the network and the scheduler, the workers, and where these are in their loops.
    [main] runs by itself until it sleeps or waits; what the workers and the epoll thread do
    then is a list of their turns. *)

From Stdlib Require Import Strings.Byte.
From S2P Require Export Programs SocketPrograms.
From stdpp Require Import strings.

Local Open Scope Z_scope.

Section hosts.
Context `{BuildConfig, JobAddress, EventKernel, !SocketCalls} {C : Type}.

(** ** The state *)

Record host : Type := Host {
  h_ctxs : list C;                       (** the contexts of the jobs *)
  h_thread : epoll_thread;
  h_workers : list schedi_worker_ctx;
  h_count : Z;
  h_team : list wpc;                     (** where the workers are *)
}.
Definition set_ctxs x h := Host x (h_thread h) (h_workers h) (h_count h) (h_team h).
Definition set_thread x h := Host (h_ctxs h) x (h_workers h) (h_count h) (h_team h).
Definition set_h_team x h := Host (h_ctxs h) (h_thread h) (h_workers h) (h_count h) x.

Definition host_wsys (h : host) : wsys :=
  WSys (Net.w_sys (t_world (h_thread h))) (h_workers h) (h_count h).
Definition put_wsys (x : wsys) (h : host) : host :=
  let t := h_thread h in
  Host (h_ctxs h) (put_world (put_sys (Worker.w_sys x) (t_world t)) t) (workers x)
    (worker_count x) (h_team h).

Definition on_thread {A} : M epoll_thread A → M host A := zoom h_thread set_thread.
Definition on_world {A} (m : M world A) : M host A := on_thread (in_world m).
Definition on_sched {A} (m : M sys A) : M host A := on_world (Net.on_sys m).
Definition on_os {A} (m : M kernel A) : M host A := on_world (on_kernel m).
Definition on_workers {A} : M wsys A → M host A := zoom host_wsys put_wsys.

(** A job function or destructor, whose context is number [k]. *)
Definition in_context {A} (k : nat) (m : M (net_prog C) A) : M host A := λ h,
  match h_ctxs h !! k with
  | None => Undef
  | Some c =>
      match m (NetProg c (t_world (h_thread h))) with
      | Done a p => Done a (set_ctxs (<[k := np_user p]> (h_ctxs h))
          (set_thread (put_world (np_world p) (h_thread h)) h))
      | Undef => Undef
      | Stuck => Stuck
      end
  end.

(** ** The other threads *)

(** The program's job function, by the job, and its destructor. *)
Variables (func : nat → M (net_prog C) Z) (dtor_func : M (net_prog C) unit).

(** Destructors run when their job is torn down, in the same piece. *)
Fixpoint call_dtors (evs : list event) : M host unit :=
  match evs with
  | [] => mret ()
  | DtorCalled _ ctx :: evs => in_context (Z.to_nat ctx) dtor_func ≫= λ _, call_dtors evs
  end.

Definition host_piece (k : nat) (p : wpc) : M host wpc :=
  match p with
  | Started i =>
      ctx ← on_sched (job_get context i);
      ret ← in_context (Z.to_nat ctx) (func i);
      mret (Returned i ret)
  | _ =>
      seen ← gets (λ h, length (s_trace (Net.w_sys (t_world (h_thread h)))));
      stop ← on_workers (stopping k);
      p' ← on_sched (act (λ _ _, mret 0) stop p);
      evs ← gets (λ h, drop seen (s_trace (Net.w_sys (t_world (h_thread h)))));
      call_dtors evs ≫= λ _, mret p'
  end.

(** A piece of worker [k], or what the epoll thread does when [poll] has returned. *)
Inductive host_turn : Type := ByWorker (k : nat) | ByEpoll.

Definition take_turn (t : host_turn) : M host unit :=
  match t with
  | ByWorker k =>
      p ← reads (λ h, h_team h !! k);
      p' ← host_piece k p;
      modify (λ h, set_h_team (<[k := p']> (h_team h)) h)
  | ByEpoll =>
      rd ← gets (λ h, w_epfd_read (t_world (h_thread h)));
      wr ← gets (λ h, w_epfd_write (t_world (h_thread h)));
      on_world (schedi_epoll_drain_read [] 8 rd) ≫= λ _,
      on_world (schedi_epoll_drain_write [] 8 wr)
  end.
Fixpoint meanwhile (ts : list host_turn) : M host unit :=
  match ts with [] => mret () | t :: ts => take_turn t ≫= λ _, meanwhile ts end.

(** ** What the mains share *)

(** The job for context [k], with indicator [k]; a failed [schedi_job_create] is not noticed
    and dereferences NULL. *)
Definition launch (d : option nat) (k : nat) : M host unit :=
  job ← on_sched (schedi_job_create (Z.of_nat k) 1 d);
  on_sched (new_indicator k) ≫= λ _,
  match job with
  | None => undef
  | Some i =>
      on_sched (job_put (set_indicator (Some k)) i) ≫= λ _,
      on_sched (schedi_job_setready i) ≫= λ _, mret ()
  end.

(** The loop that waits for all; [order] is what the other threads do meanwhile. *)
Fixpoint wait_loop (order : nat → list host_turn) (n k : nat) : M host unit :=
  match n with
  | O => mret ()
  | S n =>
      meanwhile (order k) ≫= λ _,
      on_sched (on_indicator k (schedi_job_completion_wait stuck)) ≫= λ _,
      wait_loop order n (S k)
  end.

(** [schedi_job_init], [schedi_epoll_thread_init], [schedi_worker_init], of which the first
    that fails gives the result. *)
Definition start_library (workers : Z) (codes : Z * Z * Z) : M host (option Z) :=
  r ← on_sched (schedi_job_init 0 0 0);
  if negb (r =? 0) then mret (Some codes.1.1)
  else
    r ← on_thread schedi_epoll_thread_init;
    if negb (r =? 0) then mret (Some codes.1.2)
    else
      r ← on_workers (schedi_worker_init (λ _, mret 0) workers);
      modify (set_h_team (replicate (Z.to_nat workers) AtTop)) ≫= λ _,
      mret (if negb (r =? 0) then Some codes.2 else None).

Definition stop_library (codes : Z * Z) : M host Z :=
  r ← on_workers (schedi_worker_deinit (λ _, mret 0));
  if negb (r =? 0) then mret codes.1
  else
    r ← on_sched (schedi_job_deinit 0 0 0);
    mret (if negb (r =? 0) then codes.2 else 0).
End hosts.

#[global] Arguments host {_} _.

Section mains.
Context `{BuildConfig, JobAddress, EventKernel, !SocketCalls}.

(** ** epollsocket_test.c *)

Definition CLIENT_COUNT : nat := 4.
Definition echo_turns : list host_turn → M (host echo_ctx) unit := meanwhile echo_func echo_dtor.

(** The server's half of the forks. *)
Fixpoint fork_loop (n : nat) : M (host echo_ctx) unit :=
  match n with
  | O => mret ()
  | S n => on_os (os sys_fork) ≫= λ _, fork_loop n
  end.

(** [while(fd < 0)]: an element of [sleeps] is what the others do during one [usleep]. *)
Fixpoint accept_one (serverfd : Z) (sleeps : list (list host_turn)) : M (host echo_ctx) Z :=
  fd ← on_os (accept_client_nonblock serverfd);
  if fd <? 0 then
    match sleeps with
    | [] => stuck
    | ts :: sleeps => echo_turns ts ≫= λ _, accept_one serverfd sleeps
    end
  else mret fd.

Fixpoint accept_loop (serverfd : Z) (sleeps : nat → list (list host_turn)) (n k : nat)
    : M (host echo_ctx) unit :=
  match n with
  | O => mret ()
  | S n =>
      fd ← accept_one serverfd (sleeps k);
      modify (λ h, set_ctxs (<[k := Echo fd None]> (h_ctxs h)) h) ≫= λ _,
      launch (Some 1%nat) k ≫= λ _, accept_loop serverfd sleeps n (S k)
  end.

Definition echo_main (sleeps : nat → list (list host_turn)) (order : nat → list host_turn)
    : M (host echo_ctx) Z :=
  failed ← start_library 2 (1, 3, 2);
  match failed with
  | Some code => mret code
  | None =>
      serverfd ← on_os (create_server_nonblock "0.0.0.0" PORT);
      if serverfd <? 0 then mret 1
      else
        fork_loop CLIENT_COUNT ≫= λ _,
        accept_loop serverfd sleeps CLIENT_COUNT 0 ≫= λ _,
        wait_loop echo_func echo_dtor order CLIENT_COUNT 0 ≫= λ _,
        stop_library (4, 5)
  end.

(** ** epollsocket.c *)

Definition ACCEPT_COUNT : nat := 4.

(** A failed accept is skipped. *)
Fixpoint accept_clients (serverfd : Z) (n k : nat) : M (host reader_ctx) unit :=
  match n with
  | O => mret ()
  | S n =>
      fd ← on_os (accept_client serverfd);
      modify (λ h, set_ctxs (alter (λ c, Reader fd (r_socket c) (r_exit c)) k (h_ctxs h)) h)
        ≫= λ _,
      (if fd <? 0 then mret () else launch (Some 1%nat) k) ≫= λ _,
      accept_clients serverfd n (S k)
  end.

(** [fuel] is for the job function's loop over a timer. *)
Definition reader_main (fuel : nat) (order : nat → list host_turn) : M (host reader_ctx) Z :=
  failed ← start_library 2 (1, 3, 2);
  match failed with
  | Some code => mret code
  | None =>
      serverfd ← on_os (create_server "0.0.0.0" 5005);
      accept_clients serverfd ACCEPT_COUNT 0 ≫= λ _,
      wait_loop (reader_func fuel) reader_dtor order ACCEPT_COUNT 0 ≫= λ _,
      stop_library (4, 5)
  end.

(** ** onetimesocket.c *)

Definition JOB_COUNT : nat := 4.

(** These jobs have no destructor. *)
Definition get_job (port : Z) (indice : nat) : M (host onetime_ctx) unit :=
  modify (λ h, set_ctxs (alter (λ c, Onetime (o_serverfd c) (o_clientfd c) (u16 port)
    (o_created c) (o_accepted c)) indice (h_ctxs h)) h) ≫= λ _,
  launch None indice.

Fixpoint get_jobs (n k : nat) : M (host onetime_ctx) unit :=
  match n with
  | O => mret ()
  | S n => get_job (1997 + Z.of_nat k) k ≫= λ _, get_jobs n (S k)
  end.

Definition onetime_main (order : nat → list host_turn) : M (host onetime_ctx) Z :=
  failed ← start_library 2 (1, 2, 3);
  match failed with
  | Some code => mret code
  | None =>
      get_jobs JOB_COUNT 0 ≫= λ _,
      wait_loop onetime_func (mret ()) order JOB_COUNT 0 ≫= λ _, mret 0
  end.
End mains.
