(* ===== verification/ServerRuns.v ===== *)
(** * The socket examples, run

    A small operating system - descriptors, ports, messages that arrive and answers that are
    sent - on which the mains of Servers.v run to their end, with two workers and the epoll
    thread.  It has the documented behaviour that SocketHelpers.v asks for. *)

From Stdlib Require Import Strings.Byte.
From S2P Require Export Servers.
From stdpp Require Import strings.

Local Open Scope Z_scope.

(** ** The operating system *)

Record os_state : Type := Os {
  os_watch : gmap (Z * Z) (Z * option addr);
  os_arrived : gmap Z (list byte);        (** what peers have sent and nobody received *)
  os_sent : list (Z * list byte);
  os_incoming : list Z;                   (** what the next accepts give *)
  os_next : Z;                            (** the next descriptor *)
  os_open : gset Z;
  os_ports : gmap Z Z;
  os_listening : gset Z;
}.
Definition os_set_watch x k :=
  Os x (os_arrived k) (os_sent k) (os_incoming k) (os_next k) (os_open k) (os_ports k) (os_listening k).
Definition os_set_arrived x k :=
  Os (os_watch k) x (os_sent k) (os_incoming k) (os_next k) (os_open k) (os_ports k) (os_listening k).
Definition os_add_sent x k :=
  Os (os_watch k) (os_arrived k) (os_sent k ++ [x]) (os_incoming k) (os_next k) (os_open k) (os_ports k)
    (os_listening k).
Definition os_set_incoming x k :=
  Os (os_watch k) (os_arrived k) (os_sent k) x (os_next k) (os_open k) (os_ports k) (os_listening k).
Definition os_set_next x k :=
  Os (os_watch k) (os_arrived k) (os_sent k) (os_incoming k) x (os_open k) (os_ports k) (os_listening k).
Definition os_set_open x k :=
  Os (os_watch k) (os_arrived k) (os_sent k) (os_incoming k) (os_next k) x (os_ports k) (os_listening k).
Definition os_set_port fd x k :=
  Os (os_watch k) (os_arrived k) (os_sent k) (os_incoming k) (os_next k) (os_open k)
    (<[fd := x]> (os_ports k)) (os_listening k).
Definition os_add_listening fd k :=
  Os (os_watch k) (os_arrived k) (os_sent k) (os_incoming k) (os_next k) (os_open k) (os_ports k)
    ({[fd]} ∪ os_listening k).

(** A peer hangs up when it has its answer. *)
Definition answered (fd : Z) (k : os_state) : bool := bool_decide (fd ∈ (os_sent k).*1).
Definition os_recv (fd : Z) (m : nat) (k : os_state) : recv_outcome * os_state :=
  match os_arrived k !! fd with
  | Some (b :: bs) =>
      (Got (take m (b :: bs)), os_set_arrived (<[fd := drop m (b :: bs)]> (os_arrived k)) k)
  | _ => if answered fd k then (Got [], k) else (RecvAgain, k)
  end.
Definition readable (fd : Z) (k : os_state) : bool :=
  if bool_decide (fd ∈ os_listening k) then negb (bool_decide (os_incoming k = []))
  else match os_arrived k !! fd with Some (_ :: _) => true | _ => answered fd k end.

Definition os_ctl (epfd : Z) (op : ctl_op) (fd ev : Z) (p : option addr) (k : os_state)
    : Z * os_state :=
  match op, os_watch k !! (epfd, fd) with
  | EPOLL_CTL_ADD, None | EPOLL_CTL_MOD, Some _ =>
      (0, os_set_watch (<[(epfd, fd) := (ev, p)]> (os_watch k)) k)
  | EPOLL_CTL_DEL, Some _ => (0, os_set_watch (delete (epfd, fd) (os_watch k)) k)
  | _, _ => (-1, k)
  end.

(** The next descriptor is opened, unless it is in use. *)
Definition os_open_next (k : os_state) : Z * os_state :=
  let fd := os_next k in
  if (0 <=? fd) && bool_decide (fd ∉ os_open k)
  then (fd, os_set_next (fd + 1) (os_set_open ({[fd]} ∪ os_open k) k)) else (-1, k).
Definition os_accept (k : os_state) : Z * os_state :=
  match os_incoming k with
  | [] => (-1, k)
  | fd :: fds =>
      let k := os_set_incoming fds k in
      if (0 <=? fd) && bool_decide (fd ∉ os_open k)
      then (fd, os_set_open ({[fd]} ∪ os_open k) k) else (-1, k)
  end.

(** One-shot events for what can be read or written. *)
Definition os_events (e : Z) (k : os_state) : list (Z * (Z * option addr)) :=
  omap (λ '((e', f), (mask, p)),
    if (e' =? e) && ((has mask EPOLLIN && readable f k) || has mask EPOLLOUT)
    then Some (f, (mask, p)) else None) (map_to_list (os_watch k)).
Definition os_wait (e : Z) (m : nat) (k : os_state) : list epoll_event * os_state :=
  let evs := take m (os_events e k) in
  ((λ '(_, (mask, p)), Event mask p) <$> evs,
   os_set_watch (foldr (λ '(f, (_, p)), <[(e, f) := (0, p)]>) (os_watch k) evs) k).

#[local] Instance os_kernel : Kernel := {|
  kernel := os_state;
  sys_malloc k := (true, k);
  fresh_bytes _ := replicate 2048 "000"%byte;
  sys_send fd bs k := (Sent (length bs), os_add_sent (fd, bs) k);
  sys_recv := os_recv;
  sys_epoll_ctl := os_ctl;
  sys_timerfd_create k := (-1, k);
  sys_timerfd_settime _ _ k := (0, k);
  sys_close fd k := (0, os_set_open (os_open k ∖ {[fd]}) k);
  interest k e f := os_watch k !! (e, f);
|}.
#[local] Instance os_event_kernel : EventKernel := {|
  sys_epoll_wait := os_wait;
  sys_poll _ _ _ k := (Some (Polled false true true), k);
  wake_pending _ _ := false;
  sys_read_wake _ k := (false, k);
  sys_write_wake _ k := (8, k);
  sys_epoll_create1 := os_open_next;
  sys_eventfd := os_open_next;
  EpollLoop.pthread_create k := (0, k);
  EpollLoop.pthread_join k := (0, k);
|}.
#[local] Instance os_sockets : SocketCalls := {|
  sys_socket _ := os_open_next;
  sys_setsockopt _ k := (0, k);
  inet_pton ip := if bool_decide (ip = "127.0.0.1"%string) then Some 2130706433
                  else if bool_decide (ip = "0.0.0.0"%string) then Some 0 else None;
  sys_bind fd _ port k :=
    if bool_decide (map_Forall (λ _ p, p ≠ port) (os_ports k)) then (0, os_set_port fd port k) else (-1, k);
  sys_listen fd k := (0, os_add_listening fd k);
  sys_accept4 _ _ := os_accept;
  sys_connect _ _ _ k := (0, k);
  sys_read fd m k :=
    match os_recv fd m k with (Got bs, k') => (Some bs, k') | (_, k') => (None, k') end;
  sys_write fd bs k := (Z.of_nat (length bs), os_add_sent (fd, bs) k);
  sys_fork k := (100, k);
|}.

#[local] Instance os_laws : SocketLaws.
Proof.
  refine {| open_fds := os_open; bound_to k fd := os_ports k !! fd; listening := os_listening |}.
  - intros b k fd k' E. cbn in E. unfold os_open_next in E. destruct (_ && _) eqn:Ec.
    + apply andb_true_iff in Ec as [Hn%Z.leb_le Ho%bool_decide_eq_true]. injection E as <- <-.
      by right.
    + injection E as <- <-. by left.
  - done.
  - intros fd address port k r k' E. cbn in E. destruct (bool_decide _); injection E as <- <-.
    + split; [done|]. intros _. apply lookup_insert_eq.
    + split; [done|lia].
  - intros fd k r k' [= <- <-]. cbn. split; [done|]. split; [done|]. intros _. set_solver.
  - done.
  - intros fd b k r k' E. cbn in E. unfold os_accept in E. destruct (os_incoming k) as [|x xs].
    { injection E as <- <-. by left. }
    destruct (_ && _) eqn:Ec.
    + apply andb_true_iff in Ec as [Hn%Z.leb_le Ho%bool_decide_eq_true]. injection E as <- <-.
      by right.
    + injection E as <- <-. by left.
Qed.

Section runs.
#[local] Existing Instance plain_build.
#[local] Existing Instance contiguous_jobs.

Definition os_boot : os_state := Os ∅ ∅ [] [] 3 ∅ ∅ ∅.

(** Another process has the port: the server's descriptor is closed again. *)
Definition os_taken : @kernel os_kernel := os_set_port 9 5006 os_boot.

Lemma create_server_spec_witness :
  ∃ r k', create_server_with true "0.0.0.0" 5006 os_taken = Done r k' ∧
    if r <? 0 then -4 <= r <= -1 ∧ open_fds k' = open_fds os_taken
    else (r ∉ open_fds os_taken) ∧ open_fds k' = {[r]} ∪ open_fds os_taken ∧ r ∈ listening k' ∧
      bound_to k' r = Some (u16 5006).
Proof. apply (create_server_spec true "0.0.0.0" 5006 os_taken). Defined.

Lemma taken_port_closes :
  final_of os_taken (create_server_with true "0.0.0.0" 5006 os_taken) = os_set_next 4 os_taken.
Proof. vm_compute. reflexivity. Qed.

(** A process before [main], with its zeroed indicators. *)
Definition zeroed : gmap nat completion_record :=
  list_to_map ((λ k, (k, Indicator false false 0)) <$> seq 0 4).
Definition boot {C} (ctxs : list C) (k : os_state) : host C :=
  Host ctxs (Thread (World (set_indicators zeroed sys_static) ∅ (-1) (-1) k []) (-1) false 0 0)
    (replicate SCHEDI_MAX_WORKERS (Worker 0 0 0)) 0 [].

Definition rounds (n : nat) : list host_turn :=
  concat (replicate n [ByWorker 0; ByWorker 1; ByEpoll]).

(** *** epollsocket_test.c *)

(** Four clients connect, the third one after a while. *)
Definition messages : gmap Z (list byte) :=
  list_to_map ((λ id, (11 + id, client_message id)) <$> clients).
Definition os_clients : os_state :=
  os_set_incoming [11; 12; -1; 13; 14] (os_set_arrived messages os_boot).
Definition echo_boot : host echo_ctx := boot (replicate 4 (Echo 0 None)) os_clients.
Definition echo_run : outcome (host echo_ctx) Z :=
  echo_main (λ k, if decide (k = 2)%nat then [rounds 4] else [])
    (λ k, if decide (k = 0)%nat then rounds 40 else []) echo_boot.

(** The process of a client, to which the server's answers on [fd] arrive. *)
Definition host_os {C} (h : host C) : os_state := w_kernel (t_world (h_thread h)).
Definition answers (fd : Z) (k : os_state) : list byte :=
  concat (snd <$> filter (λ '(f, _), f = fd) (os_sent k)).
Definition os_client (bs : list byte) : os_state := os_set_arrived {[3 := bs]} os_boot.

(** The test passes: [main] returns 0, with every socket and every piece of epoll data freed
    and every client's descriptor closed, and each client is satisfied with its answer. *)
Theorem echo_server_passes : ∃ h, echo_run = Done 0 h ∧
  w_heap (t_world (h_thread h)) = ∅ ∧
  ∀ id, id ∈ clients → (11 + id ∉ os_open (host_os h)) ∧
    result_of (client_func id (os_client (answers (11 + id) (host_os h)))) = Some EchoOk.
Proof.
  exists (final_of echo_boot echo_run). split.
  { apply (run_final (echo_main _ _) echo_boot 0). vm_compute. reflexivity. }
  split; [vm_compute; reflexivity|]. intros id Hid.
  assert (forallb (λ id, let k := host_os (final_of echo_boot echo_run) in
    bool_decide (11 + id ∉ os_open k) &&
    bool_decide (result_of (client_func id (os_client (answers (11 + id) k))) = Some EchoOk)) clients
    = true) as Hall by (vm_compute; reflexivity).
  rewrite forallb_forall in Hall. apply list_elem_of_In in Hid.
  specialize (Hall id Hid). revert Hall. cbv zeta.
  generalize (host_os (final_of echo_boot echo_run)). intros k Hall.
  apply andb_true_iff in Hall as [H1 H2]. split; by eapply bool_decide_eq_true.
Qed.

(** *** epollsocket.c *)

(** The peers send their messages and hang up. *)
Definition os_peers (incoming : list Z) : os_state :=
  os_set_incoming incoming (os_set_arrived messages
    (foldr (λ id, os_add_sent (11 + id, [])) os_boot clients)).
Definition reader_boot (incoming : list Z) : host reader_ctx :=
  boot (replicate 4 (Reader 0 None false)) (os_peers incoming).
Definition reader_run (incoming : list Z) : outcome (host reader_ctx) Z :=
  reader_main 0 (λ k, if decide (k = 0)%nat then rounds 60 else []) (reader_boot incoming).

Theorem reader_server_ends : ∃ h, reader_run [11; 12; 13; 14] = Done 0 h ∧
  w_heap (t_world (h_thread h)) = ∅ ∧ r_exit <$> h_ctxs h = replicate 4 true.
Proof.
  exists (final_of (reader_boot [11; 12; 13; 14]) (reader_run [11; 12; 13; 14])). split.
  { apply (run_final (reader_main _ _) (reader_boot [11; 12; 13; 14]) 0). vm_compute. reflexivity. }
  by vm_compute.
Qed.

(** [main] up to its waits, and what the others do then. *)
Definition reader_until_wait (incoming : list Z) : outcome (host reader_ctx) unit :=
  (start_library 2 (1, 3, 2) ≫= λ _,
   serverfd ← on_os (create_server "0.0.0.0" 5005);
   accept_clients serverfd ACCEPT_COUNT 0 ≫= λ _,
   meanwhile (reader_func 0) reader_dtor (rounds 60)) (reader_boot incoming).

(** An accept that fails is skipped, but [main] waits for its indicator all the same, which no
    job will complete: the others have completed theirs, no job is READY, nothing is registered
    with epoll, neither worker has a job, and [main] waits. *)
Theorem failed_accept_waits_forever :
  reader_run [11; -1; 13; 14] = Stuck ∧
  ∃ h, reader_until_wait [11; -1; 13; 14] = Done () h ∧
    let s := Net.w_sys (t_world (h_thread h)) in
    (λ k, completion <$> s_indicators s !! k) <$> seq 0 4 =
      [Some true; Some false; Some true; Some true] ∧
    somes (s_cache s) = [] ∧ os_watch (host_os h) = ∅ ∧ held_jobs (h_team h) = [].
Proof.
  split; [vm_compute; reflexivity|].
  exists (final_of (reader_boot [11; -1; 13; 14]) (reader_until_wait [11; -1; 13; 14])). split.
  { unfold reader_until_wait. apply run_final. vm_compute. reflexivity. }
  by vm_compute.
Qed.

(** *** onetimesocket.c *)

Definition onetime_boot : host onetime_ctx :=
  boot (replicate 4 (Onetime 0 0 0 false false))
    (os_set_incoming [11; 12; 13; 14] (os_set_arrived messages os_boot)).
Definition onetime_run : outcome (host onetime_ctx) Z :=
  onetime_main (λ k, if decide (k = 0)%nat then rounds 60 else []) onetime_boot.

(** Four servers, one client each: all are served, and all descriptors but those of the epoll
    thread are closed. *)
Theorem onetime_server_ends : ∃ h, onetime_run = Done 0 h ∧
  w_heap (t_world (h_thread h)) = ∅ ∧ os_open (host_os h) = {[3; 4; 5]} ∧
  o_port <$> h_ctxs h = [1997; 1998; 1999; 2000].
Proof.
  exists (final_of onetime_boot onetime_run). split.
  { apply (run_final (onetime_main _) onetime_boot 0). vm_compute. reflexivity. }
  split; [by vm_compute|]. split; [apply (bool_decide_unpack _); by vm_compute|by vm_compute].
Qed.
End runs.
